(** * webrtc-transcriber: transcription streams and the audio pump

    A shallow embedding of
      - internal/transcribe/service.go   (Result, StreamOptions, Service, Stream)
      - internal/transcribe/recorder.go  (RecorderTranscriber, RecorderStream)
      - internal/transcribe/whisper.go   (WhisperTranscriber, WhisperStream)
      - internal/transcribe/iflytek.go   (IflyTekTranscriber, IflyTekStream)
      - internal/transcribe/azure.go     (AzureTranscriber, AzureStream)
      - internal/transcribe/baidu.go     (BaiduTranscriber, BaiduStream)
      - internal/rtc/pion.go             (handleAudioTrack)
    followed by the properties the specification states about them.

    Conventions.  A Go [error] is an [option string] ([None] is [nil]).
    A [uint32] is a [Z] reduced modulo 2^32 where the code converts.  The
    file system is a finite map from paths to byte strings together with the
    list of system calls made so far.  Calls whose failure the code only logs
    ([Sync], [log.Printf]) leave no mark on the model. *)

From Stdlib Require Import ZArith QArith Strings.Byte.
From stdpp Require Import base option list strings gmap pretty.

Local Open Scope Z_scope.
Local Open Scope string_scope.

(** ** The pieces of the Go runtime the code relies on *)

Module Go.

(** How a call ends: it returns, it panics, or it blocks for ever. *)
Inductive outcome (A : Type) : Type :=
| Ret (a : A)
| Panic (msg : string)
| Block.
Arguments Ret {A} a.
Arguments Panic {A} msg.
Arguments Block {A}.

Definition bind {A B} (m : outcome A) (k : A -> outcome B) : outcome B :=
  match m with
  | Ret a => k a
  | Panic msg => Panic msg
  | Block => Block
  end.

(** A channel: the queued values, the capacity given to [make], and
    whether [close] has been called. *)
Record chan (A : Type) : Type := MkChan {
  ch_buf : list A;
  ch_cap : nat;
  ch_closed : bool
}.
Arguments MkChan {A} _ _ _.
Arguments ch_buf {A} _.
Arguments ch_cap {A} _.
Arguments ch_closed {A} _.

Definition make_chan {A} (cap : nat) : chan A := MkChan [] cap false.

(** [c <- x] with no receiver waiting. *)
Definition chan_send {A} (c : chan A) (x : A) : outcome (chan A) :=
  if ch_closed c then Panic "send on closed channel"
  else if (length (ch_buf c) <? ch_cap c)%nat
       then Ret (MkChan (ch_buf c ++ [x]) (ch_cap c) false)
       else Block.

(** [close(c)]. *)
Definition chan_close {A} (c : chan A) : outcome (chan A) :=
  if ch_closed c then Panic "close of closed channel"
  else Ret (MkChan (ch_buf c) (ch_cap c) true).

(** [for x := range c] with no sender left: the queued values in order,
    then the loop ends if the channel is closed and blocks otherwise. *)
Definition chan_range {A} (c : chan A) : list A * bool :=
  (ch_buf c, ch_closed c).

(** [uint32(x)] *)
Definition uint32 (x : Z) : Z := x mod 2 ^ 32.

Definition byte_of_Z (x : Z) : byte :=
  match Byte.of_N (Z.to_N (x mod 256)) with
  | Some b => b
  | None => x00
  end.

Definition Z_of_byte (b : byte) : Z := Z.of_N (Byte.to_N b).

(** [binary.Write(w, binary.LittleEndian, v)] for a [uint32] and a
    [uint16], and the reading of a little-endian [uint32]. *)
Definition le32 (v : Z) : list byte :=
  [byte_of_Z v; byte_of_Z (v / 2 ^ 8); byte_of_Z (v / 2 ^ 16); byte_of_Z (v / 2 ^ 24)].

Definition le16 (v : Z) : list byte :=
  [byte_of_Z v; byte_of_Z (v / 2 ^ 8)].

Definition read_le32 (bs : list byte) : Z :=
  match bs with
  | b0 :: b1 :: b2 :: b3 :: _ =>
      Z_of_byte b0 + 2 ^ 8 * Z_of_byte b1 + 2 ^ 16 * Z_of_byte b2 + 2 ^ 24 * Z_of_byte b3
  | _ => 0
  end.

(** [fmt.Sprintf("%d", n)] and [fmt.Sprintf("%03d", n)] for [n >= 0]. *)
Definition fmt_d (n : Z) : string := pretty (Z.to_N n).

Definition fmt_03d (n : Z) : string :=
  let s := fmt_d n in
  match String.length s with
  | 1%nat => "00" ++ s
  | 2%nat => "0" ++ s
  | _ => s
  end.

End Go.
Import Go.

#[export] Instance outcome_ret : MRet outcome := @Ret.
#[export] Instance outcome_bind : MBind outcome := fun A B k m => Go.bind m k.

(** ** internal/transcribe/service.go *)

Record Result : Type := MkResult {
  Text : string;
  Confidence : Q;
  Final : bool;
  AudioFile : string;
  TextFile : string
}.

Record StreamOptions : Type := MkStreamOptions {
  Language : string;
  Transcribe : bool
}.

(** ** The operating system as the code sees it: package [os], [os/exec] *)

Module OS.

(** The calls that reach the outside world, in the order they are made. *)
Inductive call : Type :=
| SysMkdirAll (path : string)
| SysCreate (path : string)
| SysWrite (path : string) (off : nat) (data : list byte)
| SysStat (path : string)
| SysSeek (path : string) (off : nat)
| SysClose (path : string)
| SysRemove (path : string)
| SysReadFile (path : string)
| SysExec (prog : string) (args : list string).

(** The state of the outside world: the regular files, by path, and the
    calls made so far.  Directories are no entries of [disk]: a directory
    that [MkdirAll] makes shows as the call [SysMkdirAll] in [trace], and
    no function on this state removes one. *)
Record world : Type := MkWorld {
  disk : gmap string (list byte);
  trace : list call
}.

(** An [*os.File]: the path it was opened on, the position of the next
    write, and whether [Close] has been called on it. *)
Record File : Type := MkFile {
  fd_path : string;
  fd_off : nat;
  fd_closed : bool
}.

(** What the environment answers.  A field is the error a call returns
    ([None]: the call succeeds); [write_err] also says how many bytes went
    out before the failure.  [exec_run] is the external program: its
    combined output, its exit error, and the disk it leaves. *)
Record env : Type := MkEnv {
  mkdir_err : string -> option string;
  create_err : string -> option string;
  write_err : string -> nat -> list byte -> option (nat * string);
  stat_err : string -> option string;
  seek_err : string -> nat -> option string;
  close_err : string -> option string;
  remove_err : string -> option string;
  read_err : string -> option string;
  exec_run : string -> list string -> gmap string (list byte) ->
             string * option string * gmap string (list byte)
}.

Definition ErrClosed : string := "file already closed".
Definition ErrNotExist : string := "no such file or directory".

Definition log (c : call) (w : world) : world :=
  MkWorld (disk w) (trace w ++ [c]).

Definition content (w : world) (path : string) : list byte :=
  default [] (disk w !! path).

(** Bytes [data] put at offset [off] of [old]; a gap is filled with zeros. *)
Definition pwrite (old : list byte) (off : nat) (data : list byte) : list byte :=
  take off old ++ replicate (off - length old) x00 ++ data
    ++ drop (off + length data) old.

(** [os.MkdirAll(path, 0755)]: the call is recorded; the directory it
    makes is no regular file, so [disk] stays as it is. *)
Definition MkdirAll (e : env) (w : world) (path : string) : world * option string :=
  (log (SysMkdirAll path) w, mkdir_err e path).

(** [os.Create(path)]: the file is created or truncated. *)
Definition Create (e : env) (w : world) (path : string) : world * (File + string) :=
  let w := log (SysCreate path) w in
  match create_err e path with
  | Some err => (w, inr err)
  | None => (MkWorld (<[path := []]> (disk w)) (trace w), inl (MkFile path 0 false))
  end.

(** [f.Write(data)] *)
Definition Write (e : env) (w : world) (f : File) (data : list byte)
  : world * File * (nat * option string) :=
  if fd_closed f then (w, f, (0%nat, Some ErrClosed))
  else
    let w := log (SysWrite (fd_path f) (fd_off f) data) w in
    let '(sent, err) :=
      match write_err e (fd_path f) (fd_off f) data with
      | Some (n, err) => (take n data, Some err)
      | None => (data, None)
      end in
    (MkWorld (<[fd_path f := pwrite (content w (fd_path f)) (fd_off f) sent]> (disk w))
             (trace w),
     MkFile (fd_path f) (fd_off f + length sent) false,
     (length sent, err)).

(** [f.Stat()], of which the code reads [Size()]. *)
Definition Stat (e : env) (w : world) (f : File) : world * (Z + string) :=
  if fd_closed f then (w, inr ErrClosed)
  else
    let w := log (SysStat (fd_path f)) w in
    match stat_err e (fd_path f) with
    | Some err => (w, inr err)
    | None => (w, inl (Z.of_nat (length (content w (fd_path f)))))
    end.

(** [f.Seek(off, 0)] *)
Definition Seek (e : env) (w : world) (f : File) (off : nat)
  : world * File * option string :=
  if fd_closed f then (w, f, Some ErrClosed)
  else
    let w := log (SysSeek (fd_path f) off) w in
    match seek_err e (fd_path f) off with
    | Some err => (w, f, Some err)
    | None => (w, MkFile (fd_path f) off false, None)
    end.

(** [f.Close()] *)
Definition Close (e : env) (w : world) (f : File) : world * File * option string :=
  if fd_closed f then (w, f, Some ErrClosed)
  else (log (SysClose (fd_path f)) w, MkFile (fd_path f) (fd_off f) true,
        close_err e (fd_path f)).

(** [os.Remove(path)] *)
Definition Remove (e : env) (w : world) (path : string) : world * option string :=
  let w := log (SysRemove path) w in
  match remove_err e path with
  | Some err => (w, Some err)
  | None =>
      match disk w !! path with
      | Some _ => (MkWorld (delete path (disk w)) (trace w), None)
      | None => (w, Some ErrNotExist)
      end
  end.

(** [os.ReadFile(path)] *)
Definition ReadFile (e : env) (w : world) (path : string)
  : world * (list byte + string) :=
  let w := log (SysReadFile path) w in
  match read_err e path with
  | Some err => (w, inr err)
  | None =>
      match disk w !! path with
      | Some c => (w, inl c)
      | None => (w, inr ErrNotExist)
      end
  end.

(** [exec.CommandContext(ctx, prog, args...).CombinedOutput()] *)
Definition CombinedOutput (e : env) (w : world) (prog : string) (args : list string)
  : world * (string * option string) :=
  let w := log (SysExec prog args) w in
  let '(out, err, d) := exec_run e prog args (disk w) in
  (MkWorld d (trace w), (out, err)).

(** An environment in which every call succeeds and the external program
    [run] is used. *)
Definition env_ok (run : string -> list string -> gmap string (list byte) ->
                         string * option string * gmap string (list byte)) : env :=
  MkEnv (fun _ => None) (fun _ => None) (fun _ _ _ => None) (fun _ => None)
        (fun _ _ => None) (fun _ => None) (fun _ => None) (fun _ => None) run.

Definition exists_on_disk (w : world) (path : string) : bool :=
  bool_decide (is_Some (disk w !! path)).

End OS.

(** [filepath.Join(dir, name)] for the two-element calls of the code; the
    cleaning of the joined path is not modelled. *)
Definition filepath_Join (dir name : string) : string :=
  if decide (dir = "") then name else dir ++ "/" ++ name.

(** ** internal/transcribe/recorder.go: the WAV header *)

Record wavHeader : Type := MkWavHeader {
  ChunkID : list byte;        (* "RIFF" *)
  ChunkSize : Z;              (* file size - 8 *)
  Format : list byte;         (* "WAVE" *)
  Subchunk1ID : list byte;    (* "fmt " *)
  Subchunk1Size : Z;          (* 16 for PCM *)
  AudioFormat : Z;            (* 1 for PCM *)
  NumChannels : Z;            (* 1 for mono *)
  SampleRate : Z;             (* 48000 *)
  ByteRate : Z;
  BlockAlign : Z;
  BitsPerSample : Z;          (* 16 *)
  Subchunk2ID : list byte;    (* "data" *)
  Subchunk2Size : Z           (* size of the audio data *)
}.

(** The header value both [CreateStream] functions build: the literal, then
    the two derived fields. *)
Definition new_header : wavHeader :=
  let h := MkWavHeader (String.list_byte_of_string "RIFF") 0 (String.list_byte_of_string "WAVE")
             (String.list_byte_of_string "fmt ") 16 1 1 48000 0 0 16
             (String.list_byte_of_string "data") 0 in
  MkWavHeader (ChunkID h) (ChunkSize h) (Format h) (Subchunk1ID h) (Subchunk1Size h)
    (AudioFormat h) (NumChannels h) (SampleRate h)
    (uint32 (SampleRate h * NumChannels h * BitsPerSample h) / 8)
    ((NumChannels h * BitsPerSample h) mod 2 ^ 16 / 8)
    (BitsPerSample h) (Subchunk2ID h) (Subchunk2Size h).

(** The thirteen writes of the header, in the order of the code, each with
    the name its error message carries. *)
Definition header_writes (h : wavHeader) : list (string * list byte) :=
  [ ("ChunkID", ChunkID h);
    ("ChunkSize", le32 (ChunkSize h));
    ("Format", Format h);
    ("Subchunk1ID", Subchunk1ID h);
    ("Subchunk1Size", le32 (Subchunk1Size h));
    ("AudioFormat", le16 (AudioFormat h));
    ("NumChannels", le16 (NumChannels h));
    ("SampleRate", le32 (SampleRate h));
    ("ByteRate", le32 (ByteRate h));
    ("BlockAlign", le16 (BlockAlign h));
    ("BitsPerSample", le16 (BitsPerSample h));
    ("Subchunk2ID", Subchunk2ID h);
    ("Subchunk2Size", le32 (Subchunk2Size h)) ].

(** One write after the other; the first failure closes the file, removes
    it and reports which field failed. *)
Fixpoint write_header (e : OS.env) (w : OS.world) (f : OS.File) (filePath : string)
    (fields : list (string * list byte)) : OS.world * (OS.File + string) :=
  match fields with
  | [] => (w, inl f)
  | (name, data) :: rest =>
      let '(w, f, (_, err)) := OS.Write e w f data in
      match err with
      | Some err =>
          let '(w, _, _) := OS.Close e w f in
          let '(w, _) := OS.Remove e w filePath in
          (w, inr ("failed to write " ++ name ++ ": " ++ err))
      | None => write_header e w f filePath rest
      end
  end.

(** The 44 bytes of a header. *)
Definition header_bytes (h : wavHeader) : list byte :=
  concat (map snd (header_writes h)).

(** The two size fields of a WAV file as a parser reads them. *)
Definition wav_chunkSize (file : list byte) : Z := read_le32 (drop 4 file).
Definition wav_dataSize (file : list byte) : Z := read_le32 (drop 40 file).

(** The first half of both [Close] functions, from [Stat] to the closing of
    the file (recorder.go and the Whisper source carry the same statements):
    measure the file, refuse one shorter than a header, write [fileSize - 8]
    at offset 4 and [fileSize - 44] at offset 40, close the file.  Every
    failure before the file is closed runs
    [file.Close(); os.Remove(filePath); return fmt.Errorf(...)].
    The result is the measured [fileSize] or the error.  The two [Sync]
    calls only log. *)
Definition abandon (e : OS.env) (w : OS.world) (f : OS.File) (filePath msg : string)
  : OS.world * OS.File * (Z + string) :=
  let '(w, f, _) := OS.Close e w f in
  let '(w, _) := OS.Remove e w filePath in
  (w, f, inr msg).

Definition finalize_wav (e : OS.env) (w : OS.world) (f : OS.File) (filePath : string)
  : OS.world * OS.File * (Z + string) :=
  let '(w, info) := OS.Stat e w f in
  match info with
  | inr err => abandon e w f filePath ("failed to get file info: " ++ err)
  | inl size =>
  let fileSize := uint32 size in
  if (fileSize <? 44)%Z
  then abandon e w f filePath
         ("file too small for WAV header: " ++ fmt_d fileSize ++ " bytes")
  else
  let audioDataSize := fileSize - 44 in
  let chunkSize := fileSize - 8 in
  let '(w, f, err) := OS.Seek e w f 4 in
  match err with
  | Some err => abandon e w f filePath ("failed to seek to ChunkSize position: " ++ err)
  | None =>
  let '(w, f, (_, err)) := OS.Write e w f (le32 chunkSize) in
  match err with
  | Some err => abandon e w f filePath ("failed to update chunk size: " ++ err)
  | None =>
  let '(w, f, err) := OS.Seek e w f 40 in
  match err with
  | Some err => abandon e w f filePath ("failed to seek to Subchunk2Size: " ++ err)
  | None =>
  let '(w, f, (_, err)) := OS.Write e w f (le32 audioDataSize) in
  match err with
  | Some err => abandon e w f filePath ("failed to update Subchunk2Size: " ++ err)
  | None =>
  let '(w, f, err) := OS.Close e w f in
  match err with
  | Some err =>
      let '(w, _) := OS.Remove e w filePath in
      (w, f, inr ("failed to close file: " ++ err))
  | None => (w, f, inl fileSize)
  end end end end end end.

(** ** internal/transcribe/recorder.go: RecorderTranscriber, RecorderStream *)

Module Recorder.

Record RecorderTranscriber : Type := MkTranscriber {
  outputDir : string;
  counter : Z
}.

Record RecorderStream : Type := MkStream {
  file : OS.File;
  results : chan Result;
  fileName : string;
  filePath : string;
  isClosed : bool
}.

(** [NewRecorderTranscriber(ctx, outputDir)] *)
Definition NewRecorderTranscriber (e : OS.env) (w : OS.world) (dir : string)
  : OS.world * (RecorderTranscriber + string) :=
  let dir := if decide (dir = "") then "./recordings" else dir in
  let '(w, err) := OS.MkdirAll e w dir in
  match err with
  | Some err => (w, inr ("failed to create output directory: " ++ err))
  | None => (w, inl (MkTranscriber dir 0))
  end.

(** [CreateStream()]; [timestamp] is [time.Now().Format("20060102_150405")]. *)
Definition CreateStream (e : OS.env) (timestamp : string) (w : OS.world)
    (r : RecorderTranscriber)
  : OS.world * RecorderTranscriber * (RecorderStream + string) :=
  let r := MkTranscriber (outputDir r) (counter r + 1) in
  let name := "recording_" ++ timestamp ++ "_" ++ fmt_03d (counter r) ++ ".wav" in
  let path := filepath_Join (outputDir r) name in
  let '(w, err) := OS.MkdirAll e w (outputDir r) in
  match err with
  | Some err => (w, r, inr ("failed to create output directory: " ++ err))
  | None =>
      let '(w, created) := OS.Create e w path in
      match created with
      | inr err => (w, r, inr ("failed to create WAV file: " ++ err))
      | inl f =>
          let '(w, written) := write_header e w f path (header_writes new_header) in
          match written with
          | inr err => (w, r, inr err)
          | inl f => (w, r, inl (MkStream f (make_chan 1) name path false))
          end
      end
  end.

(** [Results()] *)
Definition Results (rs : RecorderStream) : chan Result := results rs.

(** [Close()].  After the result is sent [validateWAVFile] reads the file
    back and only logs. *)
Definition Close (e : OS.env) (w : OS.world) (rs : RecorderStream)
  : outcome (OS.world * RecorderStream * option string) :=
  if isClosed rs then mret (w, rs, None)
  else
    let '(w, f, fin) := finalize_wav e w (file rs) (filePath rs) in
    let rs := MkStream f (results rs) (fileName rs) (filePath rs) true in
    match fin with
    | inr err => mret (w, rs, Some err)
    | inl fileSize =>
        ch ← chan_send (results rs) (MkResult (fileName rs) 1%Q true "" "");
        ch ← chan_close ch;
        mret (w, MkStream (file rs) ch (fileName rs) (filePath rs) true, None)
    end.

(** [Write(buffer)] *)
Definition Write (e : OS.env) (w : OS.world) (rs : RecorderStream) (buffer : list byte)
  : OS.world * RecorderStream * (nat * option string) :=
  if isClosed rs then (w, rs, (0%nat, Some "stream is closed"))
  else
    let '(w, f, (written, err)) := OS.Write e w (file rs) buffer in
    let rs := MkStream f (results rs) (fileName rs) (filePath rs) (isClosed rs) in
    match err with
    | Some err => (w, rs, (written, Some ("failed to write audio data: " ++ err)))
    | None => (w, rs, (written, None))
    end.

End Recorder.

(** ** internal/transcribe/whisper.go: WhisperTranscriber, WhisperStream *)

Module Whisper.

Record WhisperTranscriber : Type := MkTranscriber {
  modelPath : string;
  whisperPath : string;
  tempDir : string;
  language : string;
  counter : Z;
  keepWav : bool;
  keepTxt : bool
}.

Record WhisperStream : Type := MkStream {
  filePath : string;
  file : OS.File;
  results : chan Result;
  transcriber : WhisperTranscriber;
  stream_language : string;   (* the field [language] of the stream *)
  transcribe : bool;
  isClosed : bool
}.

(** [CreateStreamWithOptions(opts)]; [timestamp] is
    [time.Now().Format("20060102_150405")]. *)
Definition CreateStreamWithOptions (e : OS.env) (timestamp : string) (w : OS.world)
    (t : WhisperTranscriber) (opts : StreamOptions)
  : OS.world * WhisperTranscriber * (WhisperStream + string) :=
  let t := MkTranscriber (modelPath t) (whisperPath t) (tempDir t) (language t)
             (counter t + 1) (keepWav t) (keepTxt t) in
  let streamID := counter t in
  let lang := if decide (Language opts = "") then language t else Language opts in
  let transcribe := Transcribe opts in
  let name := "whisper_audio_" ++ fmt_d streamID ++ "_" ++ timestamp ++ ".wav" in
  let path := filepath_Join (tempDir t) name in
  let '(w, err) := OS.MkdirAll e w (tempDir t) in
  match err with
  | Some err => (w, t, inr ("failed to create output directory: " ++ err))
  | None =>
      let '(w, created) := OS.Create e w path in
      match created with
      | inr err => (w, t, inr ("failed to create WAV file: " ++ err))
      | inl f =>
          let '(w, written) := write_header e w f path (header_writes new_header) in
          match written with
          | inr err => (w, t, inr err)
          | inl f => (w, t, inl (MkStream path f (make_chan 10) t lang transcribe false))
          end
      end
  end.

(** [CreateStream()] *)
Definition CreateStream (e : OS.env) (timestamp : string) (w : OS.world)
    (t : WhisperTranscriber)
  : OS.world * WhisperTranscriber * (WhisperStream + string) :=
  CreateStreamWithOptions e timestamp w t (MkStreamOptions (language t) true).

(** [Results()] *)
Definition Results (ws : WhisperStream) : chan Result := results ws.

Definition with_file (ws : WhisperStream) (f : OS.File) : WhisperStream :=
  MkStream (filePath ws) f (results ws) (transcriber ws) (stream_language ws)
    (transcribe ws) (isClosed ws).

Definition with_results (ws : WhisperStream) (ch : chan Result) : WhisperStream :=
  MkStream (filePath ws) (file ws) ch (transcriber ws) (stream_language ws)
    (transcribe ws) (isClosed ws).

(** [transcribeAudio(audioPath)]: the text, the text file, the error. *)
Definition transcribeAudio (e : OS.env) (w : OS.world) (ws : WhisperStream)
    (audioPath : string) : outcome (OS.world * (string * string * option string)) :=
  if decide (whisperPath (transcriber ws) = "")
  then mret (w, ("", "", Some "whisper executable not found, please install whisper-ctranslate2 or set WHISPER_PATH"))
  else
    let lang := if decide (stream_language ws = "")
                then language (transcriber ws) else stream_language ws in
    let args := [ "--model"; modelPath (transcriber ws);
                  "--output_dir"; tempDir (transcriber ws);
                  "--output_format"; "txt";
                  "--task"; "transcribe";
                  "--temperature"; "0.0" ] in
    let args := if decide (lang ≠ "" ∧ lang ≠ "auto")
                then (args ++ ["--language"; lang])%list else args in
    let args := (args ++ [audioPath])%list in
    let '(w, (output, err)) :=
      OS.CombinedOutput e w (whisperPath (transcriber ws)) args in
    match err with
    | Some err =>
        mret (w, ("", "", Some ("whisper execution failed: " ++ err
                                 ++ ", output: " ++ output)))
    | None =>
        if (String.length audioPath <? 4)%nat
        then Panic "slice bounds out of range"
        else
          let outputFile :=
            String.substring 0 (String.length audioPath - 4) audioPath ++ ".txt" in
          let '(w, read) := OS.ReadFile e w outputFile in
          match read with
          | inr err =>
              mret (w, ("", "", Some ("failed to read transcription output: " ++ err)))
          | inl content =>
              let w := if keepTxt (transcriber ws) then w
                       else fst (OS.Remove e w outputFile) in
              let text := String.string_of_list_byte content in
              if decide (text = "")
              then mret (w, ("", outputFile, Some "transcription result is empty"))
              else mret (w, (text, outputFile, None))
          end
    end.

(** [Close()] *)
Definition Close (e : OS.env) (w : OS.world) (ws : WhisperStream)
  : outcome (OS.world * WhisperStream * option string) :=
  if isClosed ws then mret (w, ws, None)
  else
    let '(w, f, fin) := finalize_wav e w (file ws) (filePath ws) in
    let ws := MkStream (filePath ws) f (results ws) (transcriber ws)
                (stream_language ws) (transcribe ws) true in
    match fin with
    | inr err => mret (w, ws, Some err)
    | inl fileSize =>
    if (fileSize =? 44)%Z
    then
      let '(w, _) := OS.Remove e w (filePath ws) in
      ch ← chan_close (results ws);
      mret (w, with_results ws ch, None)
    else if negb (transcribe ws)
    then
      ch ← chan_send (results ws)
             (MkResult "Recording saved (transcription disabled)" 1%Q true
                (filePath ws) "");
      ch ← chan_close ch;
      mret (w, with_results ws ch, None)
    else
      '(w, (text, textFile, err)) ← transcribeAudio e w ws (filePath ws);
      ch ← match err with
           | Some err =>
               chan_send (results ws)
                 (MkResult ("Transcription error: " ++ err) 0%Q true (filePath ws) "")
           | None =>
               chan_send (results ws)
                 (MkResult text (9 # 10)%Q true (filePath ws) textFile)
           end;
      let w := if keepWav (transcriber ws) then w
               else fst (OS.Remove e w (filePath ws)) in
      ch ← chan_close ch;
      mret (w, with_results ws ch, None)
    end.

(** [Write(buffer)] *)
Definition Write (e : OS.env) (w : OS.world) (ws : WhisperStream) (buffer : list byte)
  : OS.world * WhisperStream * (nat * option string) :=
  if isClosed ws then (w, ws, (0%nat, Some "stream is closed"))
  else
    let '(w, f, (written, err)) := OS.Write e w (file ws) buffer in
    let ws := with_file ws f in
    match err with
    | Some err => (w, ws, (written, Some ("failed to write audio data: " ++ err)))
    | None => (w, ws, (written, None))
    end.

End Whisper.

(** ** The websocket connection of the streaming backends

    [github.com/gorilla/websocket] is a dependency, not code of the
    repository.  Its connection is modelled by what the code can observe: a
    connection transmits the messages written to it while it is open and
    healthy; once [Close] has been called on it a write transmits nothing
    and returns an error.  Every call made on the connection is recorded. *)

Module WS.

Inductive call (M : Type) : Type :=
| CallWriteMessage (m : M)
| CallClose.
Arguments CallWriteMessage {M} m.
Arguments CallClose {M}.

Record Conn (M : Type) : Type := MkConn {
  closed : bool;
  net_err : option string;   (* the failure of the network, if any *)
  wire : list M;             (* the messages transmitted *)
  calls : list (call M)
}.
Arguments MkConn {M} _ _ _ _.
Arguments closed {M} _.
Arguments net_err {M} _.
Arguments wire {M} _.
Arguments calls {M} _.

Definition ErrClosedConn : string := "use of closed network connection".

Definition WriteMessage {M} (c : Conn M) (m : M) : Conn M * option string :=
  let log := (calls c ++ [CallWriteMessage m])%list in
  if closed c then (MkConn true (net_err c) (wire c) log, Some ErrClosedConn)
  else match net_err c with
       | Some err => (MkConn false (net_err c) (wire c) log, Some err)
       | None => (MkConn false None (wire c ++ [m]) log, None)
       end.

Definition Close {M} (c : Conn M) : Conn M * option string :=
  (MkConn true (net_err c) (wire c) (calls c ++ [CallClose]),
   if closed c then Some ErrClosedConn else None).

End WS.

(** ** internal/transcribe/iflytek.go: IflyTekTranscriber, IflyTekStream *)

Module IflyTek.

Record XunfeiCommon : Type := MkCommon { AppID : string }.

Record XunfeiBusiness : Type := MkBusiness {
  Language : string;
  Domain : string;
  VAD : Z
}.

(** [Audio] holds the bytes of which the code sends the base64 text. *)
Record XunfeiData : Type := MkData {
  Status : Z;
  Format : string;
  Audio : list byte;
  Encoding : string
}.

(** A request as marshalled to JSON; the encoding is one to one and is
    left out. *)
Record XunfeiRequest : Type := MkRequest {
  Common : XunfeiCommon;
  Business : XunfeiBusiness;
  Data : XunfeiData
}.

Record IflyTekTranscriber : Type := MkTranscriber {
  appID : string;
  apiKey : string;
  apiSecret : string;
  appUrl : string
}.

Record IflyTekStream : Type := MkStream {
  conn : WS.Conn XunfeiRequest;
  results : chan Result;
  transcriber : IflyTekTranscriber
}.

(** [NewIflyTekTranscriber(ctx, appID, apiKey, apiSecret, appUrl)] *)
Definition NewIflyTekTranscriber (appID apiKey apiSecret appUrl : string)
  : IflyTekTranscriber + string :=
  if decide (appID = "" ∨ apiKey = "" ∨ apiSecret = "")
  then inr "appID, apiKey, and apiSecret are required"
  else inl (MkTranscriber appID apiKey apiSecret appUrl).

(** [CreateStream()], given what [websocket.DefaultDialer.Dial] returned.
    The listener goroutine started at the end is a separate thread; what it
    has queued shows in [results]. *)
Definition CreateStream (t : IflyTekTranscriber) (dial : WS.Conn XunfeiRequest + string)
  : IflyTekStream + string :=
  match dial with
  | inr err => inr ("failed to connect to WebSocket: " ++ err)
  | inl c =>
      let config := MkRequest (MkCommon (appID t)) (MkBusiness "zh_cn" "iat" 3000)
                      (MkData 0 "audio/L16;rate=48000" [] "raw") in
      let '(c, err) := WS.WriteMessage c config in
      match err with
      | Some err => let '(_, _) := WS.Close c in inr ("failed to send config: " ++ err)
      | None => inl (MkStream c (make_chan 0) t)
      end
  end.

(** [Results()] *)
Definition Results (st : IflyTekStream) : chan Result := results st.

(** [Close()] *)
Definition Close (st : IflyTekStream) : outcome (IflyTekStream * option string) :=
  let endData := MkData 2 "audio/L16;rate=48000" [] "raw" in
  let endRequest := MkRequest (MkCommon (appID (transcriber st)))
                      (MkBusiness "zh_cn" "iat" 3000) endData in
  let '(c, _) := WS.WriteMessage (conn st) endRequest in
  let '(c, _) := WS.Close c in
  ch ← chan_close (results st);
  mret (MkStream c ch (transcriber st), None).

(** [Write(buffer)] *)
Definition Write (st : IflyTekStream) (buffer : list byte)
  : IflyTekStream * (nat * option string) :=
  let audioData := MkData 1 "audio/L16;rate=48000" buffer "raw" in
  let request := MkRequest (MkCommon (appID (transcriber st)))
                   (MkBusiness "zh_cn" "iat" 3000) audioData in
  let '(c, err) := WS.WriteMessage (conn st) request in
  let st := MkStream c (results st) (transcriber st) in
  match err with
  | Some err => (st, (0%nat, Some ("failed to send audio data: " ++ err)))
  | None => (st, (length buffer, None))
  end.

End IflyTek.

(** ** internal/transcribe/azure.go: AzureTranscriber, AzureStream *)

Module Azure.

(** [azureSpeechConfig]: the two fields of its [System]. *)
Record azureSpeechConfig : Type := MkConfig {
  Name : string;
  Version : string
}.

(** The three messages the code marshals.  [Data] holds the bytes of
    which the code sends the base64 text. *)
Inductive message : Type :=
| SpeechConfig (context : azureSpeechConfig)   (* "type": "speech.config" *)
| AudioEnd                                     (* "type": "audio.end" *)
| SpeechRequest (context : azureSpeechConfig) (ContentType : string)
    (Data : list byte).                        (* azureSpeechRequest *)

Record AzureTranscriber : Type := MkTranscriber {
  subscriptionKey : string;
  region : string
}.

Record AzureStream : Type := MkStream {
  conn : WS.Conn message;
  results : chan Result
}.

(** [NewAzureTranscriber(ctx, subscriptionKey, region)] *)
Definition NewAzureTranscriber (subscriptionKey region : string)
  : AzureTranscriber + string :=
  if decide (subscriptionKey = "" ∨ region = "")
  then inr "subscriptionKey and region are required"
  else inl (MkTranscriber subscriptionKey region).

(** [CreateStream()], given what [websocket.DefaultDialer.Dial] returned. *)
Definition CreateStream (a : AzureTranscriber) (dial : WS.Conn message + string)
  : AzureStream + string :=
  match dial with
  | inr err => inr ("failed to connect to Azure Speech Service: " ++ err)
  | inl c =>
      let config := MkConfig "webrtc-transcriber" "1.0.0" in
      let '(c, err) := WS.WriteMessage c (SpeechConfig config) in
      match err with
      | Some err => let '(_, _) := WS.Close c in inr ("failed to send config: " ++ err)
      | None => inl (MkStream c (make_chan 10))
      end
  end.

(** [Results()] *)
Definition Results (s : AzureStream) : chan Result := results s.

(** [Close()] *)
Definition Close (s : AzureStream) : outcome (AzureStream * option string) :=
  let '(c, _) := WS.WriteMessage (conn s) AudioEnd in
  let '(c, _) := WS.Close c in
  ch ← chan_close (results s);
  mret (MkStream c ch, None).

(** [Write(buffer)] *)
Definition Write (s : AzureStream) (buffer : list byte)
  : AzureStream * (nat * option string) :=
  let request := SpeechRequest (MkConfig "webrtc-transcriber" "1.0.0")
                   "audio/wav;codecs=audio/pcm;rate=48000" buffer in
  let '(c, err) := WS.WriteMessage (conn s) request in
  let s := MkStream c (results s) in
  match err with
  | Some err => (s, (0%nat, Some ("failed to send audio data: " ++ err)))
  | None => (s, (length buffer, None))
  end.

End Azure.

(** ** internal/transcribe/baidu.go: BaiduTranscriber, BaiduStream *)

Module Baidu.

(** The [Data] of a [baiduSpeechRequest].  [Audio] holds the bytes of
    which the code sends the MD5 digest in hexadecimal. *)
Record baiduSpeechData : Type := MkData {
  Audio : list byte;
  Format : string;
  Rate : Z;
  Channel : Z;
  Cuid : string;
  Token : string;
  DevPid : Z
}.

Inductive message : Type :=
| AudioEnd                                                (* "type": "audio.end" *)
| SpeechRequest (type : string) (data : baiduSpeechData). (* baiduSpeechRequest *)

Record BaiduTranscriber : Type := MkTranscriber {
  appID : string;
  apiKey : string;
  secretKey : string
}.

Record BaiduStream : Type := MkStream {
  conn : WS.Conn message;
  results : chan Result
}.

(** [NewBaiduTranscriber(ctx, appID, apiKey, secretKey)] *)
Definition NewBaiduTranscriber (appID apiKey secretKey : string)
  : BaiduTranscriber + string :=
  if decide (appID = "" ∨ apiKey = "" ∨ secretKey = "")
  then inr "appID, apiKey, and secretKey are required"
  else inl (MkTranscriber appID apiKey secretKey).

(** [CreateStream()], given what [getAccessToken] and
    [websocket.DefaultDialer.Dial] returned. *)
Definition CreateStream (b : BaiduTranscriber) (token : string + string)
    (dial : WS.Conn message + string) : BaiduStream + string :=
  match token with
  | inr err => inr ("failed to get access token: " ++ err)
  | inl _ =>
      match dial with
      | inr err => inr ("failed to connect to Baidu Speech API: " ++ err)
      | inl c => inl (MkStream c (make_chan 10))
      end
  end.

(** [Results()] *)
Definition Results (s : BaiduStream) : chan Result := results s.

(** [Close()] *)
Definition Close (s : BaiduStream) : outcome (BaiduStream * option string) :=
  let '(c, _) := WS.WriteMessage (conn s) AudioEnd in
  let '(c, _) := WS.Close c in
  ch ← chan_close (results s);
  mret (MkStream c ch, None).

(** [Write(buffer)] *)
Definition Write (s : BaiduStream) (buffer : list byte)
  : BaiduStream * (nat * option string) :=
  let request := SpeechRequest "audio"
                   (MkData buffer "pcm" 16000 1 "webrtc_transcriber" "" 1537) in
  let '(c, err) := WS.WriteMessage (conn s) request in
  let s := MkStream c (results s) in
  match err with
  | Some err => (s, (0%nat, Some ("failed to send audio data: " ++ err)))
  | None => (s, (length buffer, None))
  end.

End Baidu.

(** ** The interfaces of service.go *)

(** [type Stream interface { io.Writer; io.Closer; Results() <-chan Result }] *)
Class Stream (S : Type) : Type := {
  Write : S -> list byte -> outcome (S * (nat * option string));
  Close : S -> outcome (S * option string);
  Results : S -> chan Result
}.

(** A file-backed stream together with the world it runs in. *)
Record running (T : Type) : Type := Run {
  run_env : OS.env;
  run_world : OS.world;
  run_stream : T
}.
Arguments Run {T} _ _ _.
Arguments run_env {T} _.
Arguments run_world {T} _.
Arguments run_stream {T} _.

#[export] Instance RecorderStream_Stream : Stream (running Recorder.RecorderStream) := {
  Write s buffer :=
    let '(w, rs, r) := Recorder.Write (run_env s) (run_world s) (run_stream s) buffer in
    mret (Run (run_env s) w rs, r);
  Close s :=
    '(w, rs, err) ← Recorder.Close (run_env s) (run_world s) (run_stream s);
    mret (Run (run_env s) w rs, err);
  Results s := Recorder.Results (run_stream s)
}.

#[export] Instance WhisperStream_Stream : Stream (running Whisper.WhisperStream) := {
  Write s buffer :=
    let '(w, ws, r) := Whisper.Write (run_env s) (run_world s) (run_stream s) buffer in
    mret (Run (run_env s) w ws, r);
  Close s :=
    '(w, ws, err) ← Whisper.Close (run_env s) (run_world s) (run_stream s);
    mret (Run (run_env s) w ws, err);
  Results s := Whisper.Results (run_stream s)
}.

#[export] Instance IflyTekStream_Stream : Stream IflyTek.IflyTekStream := {
  Write s buffer := mret (IflyTek.Write s buffer);
  Close s := IflyTek.Close s;
  Results s := IflyTek.Results s
}.

#[export] Instance AzureStream_Stream : Stream Azure.AzureStream := {
  Write s buffer := mret (Azure.Write s buffer);
  Close s := Azure.Close s;
  Results s := Azure.Results s
}.

#[export] Instance BaiduStream_Stream : Stream Baidu.BaiduStream := {
  Write s buffer := mret (Baidu.Write s buffer);
  Close s := Baidu.Close s;
  Results s := Baidu.Results s
}.

(** ** internal/transcribe/service.go: the two operations of a [Service]

    [type Service interface { CreateStream() (Stream, error);
    CreateStreamWithOptions(opts StreamOptions) (Stream, error) }].
    whisper.go has both methods.  recorder.go, iflytek.go, azure.go and
    baidu.go have [CreateStream]; their [CreateStreamWithOptions], and the
    whole of the Google backend, are code of the repository that is not
    among the sources, while every constructor returns its transcriber as a
    [Service]. *)

(** A stream with the configuration of its session: the language and the
    transcribe-enable flag in force for it. *)
Record configured (S : Type) : Type := Configured {
  conf_stream : S;
  conf_options : StreamOptions
}.
Arguments Configured {S} _ _.
Arguments conf_stream {S} _.
Arguments conf_options {S} _.









(** ** internal/rtc/pion.go: handleAudioTrack *)

Module Pion.

(** The outbound data channel: what was handed to [Send], and whether
    [Close] was called.  A failing [Send] is only printed. *)
Record DataChannel : Type := MkDC {
  dc_sent : list string;
  dc_closed : bool
}.

Definition dc_Send (dc : DataChannel) (msg : string) : DataChannel :=
  MkDC (dc_sent dc ++ [msg]) (dc_closed dc).

Definition dc_Close (dc : DataChannel) : DataChannel :=
  MkDC (dc_sent dc) true.

(** What [track.ReadRTP()] returns, call after call. *)
Inductive track_event : Type :=
| Packet (payload : list byte)
| EOF
| ReadError (err : string).

(** Where the reading goroutine stands. *)
Inductive reader_pc : Type :=
| RRead                          (* at the select at the top of its loop *)
| RSend (payload : list byte)    (* a packet is read, timer reset; sending it *)
| RWait                          (* payload sent; waiting for the response *)
| RDone.                         (* returned; audioStream closed *)

(** Where the function itself stands. *)
Inductive main_pc : Type :=
| MSelect                        (* at the select of its loop *)
| MWrite (pcm : list byte)       (* decoded, response sent; about to Write *)
| MReturned (err : option string)  (* return executed, deferred calls pending *)
| MExited (err : option string).   (* deferred calls done *)

Section WithStream.

Context {S : Type} `{Stream S}.

(** [json.Marshal] on a [Result] and [decoder.decode] on a payload are
    not code of these files; [None] is their error. *)
Variable json_Marshal : Result -> option string.
Variable decode : list byte -> option (list byte).

Record pump : Type := MkPump {
  track : list track_event;
  reader : reader_pc;
  audioStream : chan (list byte);
  response : chan bool;
  errs : chan string;
  ctx_done : bool;
  main : main_pc;
  trStream : S;
  written : list (list byte);   (* the payloads [trStream.Write] accepted *)
  dc : DataChannel
}.

(** The state after [CreateStream] succeeded and the channels are made. *)
Definition start (events : list track_event) (s : S) (d : DataChannel) : pump :=
  MkPump events RRead (make_chan 100) (make_chan 100) (make_chan 2) false
         MSelect s [] d.

(** The body of the [range] loop of the deferred function. *)
Definition relay (d : DataChannel) (result : Result) : DataChannel :=
  match json_Marshal result with
  | None => d
  | Some msg => dc_Send d msg
  end.

(** The first deferred function: close the stream, and unless that
    failed, send every result and close the data channel. *)
Definition deferred_close (s : S) (d : DataChannel) : outcome (S * DataChannel) :=
  '(s, err) ← Close s;
  match err with
  | Some _ => mret (s, d)
  | None =>
      let '(queued, closed) := chan_range (Results s) in
      let d := foldl relay d queued in
      if closed then mret (s, dc_Close d) else Block
  end.

Definition close_chan {A} (c : chan A) : chan A :=
  MkChan (ch_buf c) (ch_cap c) true.

Definition set_reader (p : pump) (tr : list track_event) (r : reader_pc)
    (a : chan (list byte)) (rsp : chan bool) (er : chan string) : pump :=
  MkPump tr r a rsp er (ctx_done p) (main p) (trStream p) (written p) (dc p).

Definition set_main (p : pump) (a : chan (list byte)) (rsp : chan bool)
    (er : chan string) (done : bool) (m : main_pc) (s : S)
    (wr : list (list byte)) (d : DataChannel) : pump :=
  MkPump (track p) (reader p) a rsp er done m s wr d.

Definition push {A} (c : chan A) (x : A) : chan A :=
  MkChan (ch_buf c ++ [x]) (ch_cap c) (ch_closed c).

Definition pop {A} (c : chan A) : chan A :=
  MkChan (tail (ch_buf c)) (ch_cap c) (ch_closed c).

(** [select { case response <- true: default: }] *)
Definition try_push {A} (c : chan A) (x : A) : chan A :=
  if (length (ch_buf c) <? ch_cap c)%nat then push c x else c.

(** One step of one of the two goroutines.  The timer is not measured:
    it may fire whenever the main loop is at its select. *)
Inductive step : pump -> pump -> Prop :=
(* the reading goroutine *)
| r_ctx p :
    reader p = RRead -> ctx_done p = true ->
    step p (set_reader p (track p) RDone (close_chan (audioStream p))
              (response p) (errs p))
| r_packet p payload rest :
    reader p = RRead -> ctx_done p = false -> track p = Packet payload :: rest ->
    step p (set_reader p rest (RSend payload) (audioStream p) (response p) (errs p))
| r_eof p rest :
    reader p = RRead -> ctx_done p = false -> track p = EOF :: rest ->
    step p (set_reader p rest RDone (close_chan (audioStream p))
              (response p) (errs p))
| r_error p err rest :
    reader p = RRead -> ctx_done p = false -> track p = ReadError err :: rest ->
    (length (ch_buf (errs p)) < ch_cap (errs p))%nat ->
    step p (set_reader p rest RDone (close_chan (audioStream p))
              (response p) (push (errs p) err))
| r_send p payload :
    reader p = RSend payload ->
    (length (ch_buf (audioStream p)) < ch_cap (audioStream p))%nat ->
    step p (set_reader p (track p) RWait (push (audioStream p) payload)
              (response p) (errs p))
| r_send_ctx p payload :
    reader p = RSend payload -> ctx_done p = true ->
    step p (set_reader p (track p) RDone (close_chan (audioStream p))
              (response p) (errs p))
| r_response p b rest :
    reader p = RWait -> ch_buf (response p) = b :: rest ->
    step p (set_reader p (track p) RRead (audioStream p) (pop (response p)) (errs p))
| r_wait_ctx p :
    reader p = RWait -> ctx_done p = true ->
    step p (set_reader p (track p) RDone (close_chan (audioStream p))
              (response p) (errs p))
(* the main loop *)
| m_chunk p audioChunk rest payload :
    main p = MSelect -> ch_buf (audioStream p) = audioChunk :: rest ->
    decode audioChunk = Some payload ->
    step p (set_main p (pop (audioStream p)) (try_push (response p) true) (errs p)
              (ctx_done p) (MWrite payload) (trStream p) (written p) (dc p))
| m_chunk_skip p audioChunk rest :
    main p = MSelect -> ch_buf (audioStream p) = audioChunk :: rest ->
    decode audioChunk = None ->
    step p (set_main p (pop (audioStream p)) (response p) (errs p)
              (ctx_done p) MSelect (trStream p) (written p) (dc p))
| m_stream_ended p :
    main p = MSelect -> ch_buf (audioStream p) = [] ->
    ch_closed (audioStream p) = true ->
    step p (set_main p (audioStream p) (response p) (errs p)
              (ctx_done p) (MReturned None) (trStream p) (written p) (dc p))
| m_write p payload s n :
    main p = MWrite payload -> Write (trStream p) payload = Ret (s, (n, None)) ->
    step p (set_main p (audioStream p) (response p) (errs p)
              (ctx_done p) MSelect s (written p ++ [payload]) (dc p))
| m_write_error p payload s n err :
    main p = MWrite payload -> Write (trStream p) payload = Ret (s, (n, Some err)) ->
    step p (set_main p (audioStream p) (response p) (errs p)
              (ctx_done p) (MReturned (Some err)) s (written p) (dc p))
| m_timer p :
    main p = MSelect ->
    step p (set_main p (audioStream p) (response p) (errs p)
              true (MReturned None) (trStream p) (written p) (dc p))
| m_errs p err rest :
    main p = MSelect -> ch_buf (errs p) = err :: rest ->
    step p (set_main p (audioStream p) (response p) (pop (errs p))
              true (MReturned (Some err)) (trStream p) (written p) (dc p))
| m_ctx p :
    main p = MSelect -> ctx_done p = true ->
    step p (set_main p (audioStream p) (response p) (errs p)
              true (MReturned None) (trStream p) (written p) (dc p))
(* the deferred calls, last registered first: cancel, timer.Stop, and
   the function that closes the stream *)
| m_deferred p err s d :
    main p = MReturned err -> deferred_close (trStream p) (dc p) = Ret (s, d) ->
    step p (set_main p (audioStream p) (response p) (errs p)
              true (MExited err) s (written p) d).

(** The states an execution goes through. *)
Definition reachable (events : list track_event) (s : S) (d : DataChannel)
    (p : pump) : Prop :=
  rtc step (start events s d) p.

End WithStream.

End Pion.

(** ** internal/transcribe/recorder.go: validateWAVFile *)

(** A file opened for reading. *)
Module Reader.

(** The bytes of the file and the position of the next read. *)
Record handle : Type := MkHandle {
  bytes : list byte;
  pos : nat
}.

Definition EOF : string := "EOF".
Definition ErrUnexpectedEOF : string := "unexpected EOF".

(** [os.Open(path)]; the environment fails it as it fails [os.ReadFile]. *)
Definition Open (e : OS.env) (w : OS.world) (path : string) : handle + string :=
  match OS.read_err e path with
  | Some err => inr err
  | None =>
      match OS.disk w !! path with
      | Some c => inl (MkHandle c 0)
      | None => inr OS.ErrNotExist
      end
  end.

(** [f.Read(buf)] for a zeroed [buf] of [n] bytes: the buffer after the
    call.  The bytes there are, up to [n], are read; what is not read stays
    zero; at the end of the file nothing is read and the error is [io.EOF]. *)
Definition Read (h : handle) (n : nat) : handle * list byte * option string :=
  let got := take n (drop (pos h) (bytes h)) in
  match n, got with
  | O, _ => (h, [], None)
  | _, [] => (h, replicate n x00, Some EOF)
  | _, _ => (MkHandle (bytes h) (pos h + length got),
             (got ++ replicate (n - length got) x00)%list, None)
  end.

(** [binary.Read(f, binary.LittleEndian, &v)] for a [v] of [n] bytes,
    which is [io.ReadFull]: all [n] bytes or an error. *)
Definition ReadFull (h : handle) (n : nat) : handle * list byte * option string :=
  let got := take n (drop (pos h) (bytes h)) in
  let h' := MkHandle (bytes h) (pos h + length got) in
  if decide (length got = n) then (h', got, None)
  else match got with
       | [] => (h', got, Some EOF)
       | _ => (h', got, Some ErrUnexpectedEOF)
       end.

(** [f.Seek(off, 0)], which does not fail on a regular file. *)
Definition Seek (h : handle) (off : nat) : handle * option string :=
  (MkHandle (bytes h) off, None).

End Reader.

(** A little-endian [uint16]. *)
Definition read_le16 (bs : list byte) : Z :=
  match bs with
  | b0 :: b1 :: _ => Z_of_byte b0 + 2 ^ 8 * Z_of_byte b1
  | _ => 0
  end.

(** One read of [validateWAVFile]: on an error the function returns it
    under the name of the field. *)
Definition reading (r : Reader.handle * list byte * option string) (field : string)
    (k : Reader.handle -> list byte -> option string) : option string :=
  let '(f, buf, err) := r in
  match err with
  | Some err => Some ("failed to read " ++ field ++ ": " ++ err)
  | None => k f buf
  end.

Definition seeking (r : Reader.handle * option string) (target : string)
    (k : Reader.handle -> option string) : option string :=
  let '(f, err) := r in
  match err with
  | Some err => Some ("failed to seek to " ++ target ++ ": " ++ err)
  | None => k f
  end.

(** The checks [validateWAVFile] makes once the fields are read. *)
Definition check_fields (chunkID format subchunk1ID subchunk2ID : list byte)
    (audioFormat sampleRate bitsPerSample numChannels : Z) : option string :=
  if decide (String.string_of_list_byte chunkID ≠ "RIFF")
  then Some ("invalid RIFF header: " ++ String.string_of_list_byte chunkID)
  else if decide (String.string_of_list_byte format ≠ "WAVE")
  then Some ("invalid WAVE format: " ++ String.string_of_list_byte format)
  else if decide (String.string_of_list_byte subchunk1ID ≠ "fmt ")
  then Some ("invalid fmt subchunk: " ++ String.string_of_list_byte subchunk1ID)
  else if decide (String.string_of_list_byte subchunk2ID ≠ "data")
  then Some ("invalid data subchunk: " ++ String.string_of_list_byte subchunk2ID)
  else if decide (audioFormat ≠ 1)
  then Some ("invalid audio format: " ++ fmt_d audioFormat ++ " (expected 1 for PCM)")
  else if decide (sampleRate ≠ 48000)
  then Some ("invalid sample rate: " ++ fmt_d sampleRate ++ " (expected 48000)")
  else if decide (bitsPerSample ≠ 16)
  then Some ("invalid bits per sample: " ++ fmt_d bitsPerSample ++ " (expected 16)")
  else if decide (numChannels ≠ 1)
  then Some ("invalid channel count: " ++ fmt_d numChannels ++ " (expected 1)")
  else None.

(** [validateWAVFile()] on an opened file: the reads and seeks in the order
    of the code, then the checks. *)
Definition validate_opened (f : Reader.handle) : option string :=
  reading (Reader.Read f 4) "ChunkID" (fun f chunkID =>
  reading (Reader.ReadFull f 4) "ChunkSize" (fun f chunkSize =>
  reading (Reader.Read f 4) "Format" (fun f format =>
  seeking (Reader.Seek f 12) "fmt subchunk" (fun f =>
  reading (Reader.Read f 4) "Subchunk1ID" (fun f subchunk1ID =>
  reading (Reader.ReadFull f 4) "Subchunk1Size" (fun f subchunk1Size =>
  reading (Reader.ReadFull f 2) "AudioFormat" (fun f audioFormat =>
  reading (Reader.ReadFull f 2) "NumChannels" (fun f numChannels =>
  reading (Reader.ReadFull f 4) "SampleRate" (fun f sampleRate =>
  seeking (Reader.Seek f 32) "BitsPerSample" (fun f =>
  reading (Reader.ReadFull f 2) "BitsPerSample" (fun f bitsPerSample =>
  seeking (Reader.Seek f 36) "data subchunk" (fun f =>
  reading (Reader.Read f 4) "Subchunk2ID" (fun f subchunk2ID =>
  check_fields chunkID format subchunk1ID subchunk2ID
    (read_le16 audioFormat) (read_le32 sampleRate)
    (read_le16 bitsPerSample) (read_le16 numChannels)))))))))))))).

(** [validateWAVFile()] *)
Definition validateWAVFile (e : OS.env) (w : OS.world) (rs : Recorder.RecorderStream)
  : option string :=
  match Reader.Open e w (Recorder.filePath rs) with
  | inr err => Some ("failed to open file for validation: " ++ err)
  | inl f => validate_opened f
  end.

(** ** The listening goroutines of the socket streams

    [CreateStream] of the Xunfei, Azure and Baidu transcribers starts
    [listenForResults] on the new stream.  The goroutine reads the messages
    of the service and puts results on the channel of the stream.  The
    only receiver of that channel is the deferred function of
    [handleAudioTrack], which receives after [Close] has returned: while
    the listener runs, nothing receives.  The context of the transcribers
    is the [context.Background()] of [main], which is never done. *)

Module Listen.

(** What one turn of the loop makes of a message. *)
Inductive action : Type :=
| Continue                (* nothing to send: next message *)
| Deliver (r : Result)    (* a result to put on the channel *)
| Return.                 (* the service ended the stream *)

(** Where the goroutine stands when the messages so far are handled. *)
Inductive listener : Type :=
| Reading                  (* in [ReadMessage], waiting for the next message *)
| Sending (r : Result)     (* blocked in [results <- r] *)
| Returned                 (* returned from the loop *)
| Recovered (msg : string).  (* panicked; the deferred [recover] ended it *)

(** A loop whose send is the statement [results <- r] (iflytek.go). *)
Fixpoint blocking {M : Type} (handle : M -> action) (incoming : list M)
    (ch : chan Result) : chan Result * listener :=
  match incoming with
  | [] => (ch, Reading)
  | m :: rest =>
      match handle m with
      | Continue => blocking handle rest ch
      | Return => (ch, Returned)
      | Deliver r =>
          match chan_send ch r with
          | Ret ch => blocking handle rest ch
          | Block => (ch, Sending r)
          | Panic msg => (ch, Recovered msg)
          end
      end
  end.

(** [select { case results <- r: case <-ctx.Done(): return; default: }]
    with a context that is not done: the send if there is room, a panic if
    the channel is closed, and otherwise the default case, which skips the
    result. *)
Definition select_send (ch : chan Result) (r : Result) : outcome (chan Result) :=
  if ch_closed ch then Panic "send on closed channel"
  else if (length (ch_buf ch) <? ch_cap ch)%nat
       then Ret (MkChan (ch_buf ch ++ [r]) (ch_cap ch) false)
       else Ret ch.

(** A loop whose send is that select (azure.go, baidu.go). *)
Fixpoint selecting {M : Type} (handle : M -> action) (incoming : list M)
    (ch : chan Result) : chan Result * listener :=
  match incoming with
  | [] => (ch, Reading)
  | m :: rest =>
      match handle m with
      | Continue => selecting handle rest ch
      | Return => (ch, Returned)
      | Deliver r =>
          match select_send ch r with
          | Ret ch => selecting handle rest ch
          | Block => (ch, Sending r)
          | Panic msg => (ch, Recovered msg)
          end
      end
  end.

(** The results the handled messages ask to deliver, up to the message
    that ends the stream. *)
Fixpoint deliveries {M : Type} (handle : M -> action) (incoming : list M)
  : list Result :=
  match incoming with
  | [] => []
  | m :: rest =>
      match handle m with
      | Continue => deliveries handle rest
      | Return => []
      | Deliver r => r :: deliveries handle rest
      end
  end.

End Listen.

(** internal/transcribe/iflytek.go: [listenForResults] *)
Module IflyTekListener.

(** [XunfeiResponse]; [Ws] holds, for each element of [Data.Result.Ws],
    the [W] of each of its [Cw]. *)
Record XunfeiResponse : Type := MkResponse {
  Code : Z;
  Message : string;
  Ws : list (list string);
  Status : Z
}.

(** The two nested loops that build [text]. *)
Definition text_of (response : XunfeiResponse) : string :=
  foldl (fun text cw => foldl String.append text cw) "" (Ws response).

(** One turn of the loop on what [json.Unmarshal] made of the message
    ([None]: its error). *)
Definition handle (message : option XunfeiResponse) : Listen.action :=
  match message with
  | None => Listen.Continue
  | Some response =>
      if decide (Code response ≠ 0) then Listen.Continue
      else if decide (Status response = 2)
      then
        let text := text_of response in
        if decide (text ≠ "")
        then Listen.Deliver (MkResult text (9 # 10)%Q true "" "")
        else Listen.Continue
      else if decide (Status response = 1)
      then
        let text := text_of response in
        if decide (text ≠ "")
        then Listen.Deliver (MkResult text (8 # 10)%Q false "" "")
        else Listen.Continue
      else Listen.Continue
  end.

(** [listenForResults()] on the messages that arrive before [Close]: the
    channel it leaves and where it stands. *)
Definition listenForResults (st : IflyTek.IflyTekStream)
    (incoming : list (option XunfeiResponse)) : IflyTek.IflyTekStream * Listen.listener :=
  let '(ch, l) := Listen.blocking handle incoming (IflyTek.results st) in
  (IflyTek.MkStream (IflyTek.conn st) ch (IflyTek.transcriber st), l).

End IflyTekListener.

(** internal/transcribe/azure.go: [listenForResults] *)
Module AzureListener.

(** [azureSpeechResponse]; [Confidence] is the number as converted to
    [float32]. *)
Record azureSpeechResponse : Type := MkResponse {
  Type_ : string;
  ID : string;
  Timestamp : string;
  DisplayText : string;
  Offset : Z;
  Duration : Z;
  Confidence : Q;
  Status : string
}.

Definition handle (message : option azureSpeechResponse) : Listen.action :=
  match message with
  | None => Listen.Continue
  | Some response =>
      if decide (Type_ response = "recognition")
      then
        if decide (DisplayText response ≠ "")
        then Listen.Deliver (MkResult (DisplayText response) (Confidence response)
                               (bool_decide (Status response = "success")) "" "")
        else Listen.Continue
      else if decide (Type_ response = "error") then Listen.Continue
      else if decide (Type_ response = "end") then Listen.Return
      else Listen.Continue
  end.

Definition listenForResults (s : Azure.AzureStream)
    (incoming : list (option azureSpeechResponse)) : Azure.AzureStream * Listen.listener :=
  let '(ch, l) := Listen.selecting handle incoming (Azure.results s) in
  (Azure.MkStream (Azure.conn s) ch, l).

End AzureListener.

(** internal/transcribe/baidu.go: [listenForResults] *)
Module BaiduListener.

Record baiduSpeechResponse : Type := MkResponse {
  Type_ : string;
  Text : string;
  Error : Z
}.

Definition handle (message : option baiduSpeechResponse) : Listen.action :=
  match message with
  | None => Listen.Continue
  | Some response =>
      if decide (Type_ response = "result")
      then
        if decide (Text response ≠ "")
        then Listen.Deliver (MkResult (Text response) (9 # 10)%Q true "" "")
        else Listen.Continue
      else if decide (Type_ response = "error") then Listen.Continue
      else if decide (Type_ response = "end") then Listen.Return
      else Listen.Continue
  end.

Definition listenForResults (s : Baidu.BaiduStream)
    (incoming : list (option baiduSpeechResponse)) : Baidu.BaiduStream * Listen.listener :=
  let '(ch, l) := Listen.selecting handle incoming (Baidu.results s) in
  (Baidu.MkStream (Baidu.conn s) ch, l).

End BaiduListener.

(** ** unnamed/part_003 (whisper.go): finding Whisper, [NewWhisperTranscriber] *)

(** What the machine answers to the questions of the start-up code. *)
Module Host.

(** [os.Stat(path)]: [err == nil], [os.IsNotExist(err)], or another error. *)
Inductive stat_result : Type :=
| StatOk
| StatNotExist
| StatError (err : string).

(** [getenv] is [os.Getenv] after [godotenv.Load()]; [which name] is the
    output of [exec.Command("which", name).Output()] after
    [strings.TrimSpace], when the command ended without error; [look_path]
    is [exec.LookPath]; [home] is [os.UserHomeDir()]; [join] is
    [filepath.Join] on two elements. *)
Record host : Type := MkHost {
  getenv : string -> string;
  getwd : string + string;
  which : string -> option string;
  look_path : string -> option string;
  stat : string -> stat_result;
  home : string + string;
  join : string -> string -> string
}.

End Host.

(** A loop that returns at the first element for which the body returns. *)
Fixpoint first_of {A B : Type} (body : A -> option B) (l : list A) : option B :=
  match l with
  | [] => None
  | x :: rest =>
      match body x with
      | Some y => Some y
      | None => first_of body rest
      end
  end.

Definition executables : list string :=
  ["whisper-ctranslate2"; "whisper"; "whisper.cpp"; "whisper-ai"].

Definition commonPaths : list string :=
  ["/usr/local/bin"; "/usr/bin"; "/opt/homebrew/bin"; "/usr/local/opt/whisper/bin";
   "./bin"; "./whisper"].

(** [findWhisperExecutable()] *)
Definition findWhisperExecutable (h : Host.host) : string :=
  match first_of (fun execName =>
                    match Host.which h execName with
                    | Some path => if decide (path ≠ "") then Some path else None
                    | None => None
                    end) executables with
  | Some path => path
  | None =>
      match first_of (Host.look_path h) executables with
      | Some path => path
      | None =>
          match first_of (fun path =>
                  first_of (fun execName =>
                              let fullPath := Host.join h path execName in
                              match Host.stat h fullPath with
                              | Host.StatOk => Some fullPath
                              | _ => None
                              end) executables) commonPaths with
          | Some fullPath => fullPath
          | None => ""
          end
      end
  end.

Definition modelPaths : list string :=
  ["~/.cache/whisper"; "./models"; "./whisper-models"; "/usr/local/share/whisper";
   "/opt/whisper/models"].

Definition models : list string :=
  ["tiny.en"; "tiny"; "base.en"; "base"; "small.en"; "small"; "medium.en"; "medium";
   "large-v2"; "large-v3"].

(** [findWhisperModel()].  Every element of [modelPaths] has two characters
    at least, so [modelPath[:2]] does not panic. *)
Definition findWhisperModel (h : Host.host) : string :=
  match first_of (fun modelPath =>
          let modelPath :=
            if decide (String.substring 0 2 modelPath = "~/")
            then match Host.home h with
                 | inl home =>
                     Host.join h home
                       (String.substring 2 (String.length modelPath - 2)%nat modelPath)
                 | inr _ => modelPath
                 end
            else modelPath in
          first_of (fun model =>
                      let fullPath := Host.join h modelPath model in
                      match Host.stat h fullPath with
                      | Host.StatOk => Some fullPath
                      | _ => None
                      end) models) modelPaths with
  | Some fullPath => fullPath
  | None => ""
  end.

(** [NewWhisperTranscriber(ctx, modelPath, whisperPath, tempDir, language,
    keepWav, keepTxt)] *)
Definition NewWhisperTranscriber (h : Host.host) (e : OS.env) (w : OS.world)
    (modelPath whisperPath tempDir language : string) (keepWav keepTxt : bool)
  : OS.world * (Whisper.WhisperTranscriber + string) :=
  let whisperPath :=
    if decide (whisperPath = "") then findWhisperExecutable h else whisperPath in
  if decide (whisperPath = "")
  then (w, inr "whisper executable not found, please install whisper-ctranslate2 or set WHISPER_PATH")
  else
    let modelPath :=
      if decide (modelPath = "")
      then let found := findWhisperModel h in
           if decide (found = "") then "small" else found
      else modelPath in
    let tempDir := if decide (tempDir = "") then "./output" else tempDir in
    let language := if decide (language = "") then "auto" else language in
    let '(w, err) := OS.MkdirAll e w tempDir in
    match err with
    | Some err => (w, inr ("failed to create temp directory: " ++ err))
    | None =>
        match Host.stat h whisperPath with
        | Host.StatNotExist =>
            (w, inr ("whisper executable not found at: " ++ whisperPath))
        | _ =>
            (w, inl (Whisper.MkTranscriber modelPath whisperPath tempDir language 0
                       keepWav keepTxt))
        end
    end.

(** ** unnamed/part_001 (main.go): [selectVendor] and the flags of [main] *)

Section SelectVendor.

(** gspeech.go is not among the sources: the Google service and its
    constructor are taken as they come. *)
Context {GoogleSpeech : Type}.
Variable NewGoogleSpeech : string -> GoogleSpeech + string.

(** A [transcribe.Service] as [selectVendor] returns it. *)
Inductive service : Type :=
| SvcGoogle (tr : GoogleSpeech)
| SvcAzure (tr : Azure.AzureTranscriber)
| SvcBaidu (tr : Baidu.BaiduTranscriber)
| SvcXunfei (tr : IflyTek.IflyTekTranscriber)
| SvcWhisper (tr : Whisper.WhisperTranscriber)
| SvcRecorder (tr : Recorder.RecorderTranscriber).

Definition defaultRecordingsDir : string := "recordings".

(** The part of [selectVendor] under [if vendor != ""]. *)
Definition selectVendor_flag (h : Host.host) (e : OS.env) (w : OS.world)
    (googleCred vendor model output language : string) (keepWav keepTxt : bool)
  : OS.world * (service + string) :=
  if decide (vendor = "google") then
    if decide (googleCred = "")
    then (w, inr "--vendor=google requires --google.cred flag")
    else match NewGoogleSpeech googleCred with
         | inr err => (w, inr ("failed to create Google Speech service: " ++ err))
         | inl tr => (w, inl (SvcGoogle tr))
         end
  else if decide (vendor = "azure") then
    let azureKey := Host.getenv h "AZURE_SPEECH_KEY" in
    let azureRegion := Host.getenv h "AZURE_SPEECH_REGION" in
    if decide (azureKey = "" ∨ azureRegion = "")
    then (w, inr "--vendor=azure requires AZURE_SPEECH_KEY and AZURE_SPEECH_REGION environment variables")
    else match Azure.NewAzureTranscriber azureKey azureRegion with
         | inr err => (w, inr ("failed to create Azure Speech service: " ++ err))
         | inl tr => (w, inl (SvcAzure tr))
         end
  else if decide (vendor = "baidu") then
    let baiduAppID := Host.getenv h "BAIDU_APP_ID" in
    let baiduApiKey := Host.getenv h "BAIDU_API_KEY" in
    let baiduSecretKey := Host.getenv h "BAIDU_SECRET_KEY" in
    if decide (baiduAppID = "" ∨ baiduApiKey = "" ∨ baiduSecretKey = "")
    then (w, inr "--vendor=baidu requires BAIDU_APP_ID, BAIDU_API_KEY, and BAIDU_SECRET_KEY environment variables")
    else match Baidu.NewBaiduTranscriber baiduAppID baiduApiKey baiduSecretKey with
         | inr err => (w, inr ("failed to create Baidu Speech service: " ++ err))
         | inl tr => (w, inl (SvcBaidu tr))
         end
  else if decide (vendor = "xunfei") then
    let appID := Host.getenv h "XUNFEI_APP_ID" in
    let apiKey := Host.getenv h "XUNFEI_API_KEY" in
    let apiSecret := Host.getenv h "XUNFEI_API_SECRET" in
    let appUrl := Host.getenv h "XUNFEI_API_URL" in
    if decide (appID = "" ∨ apiKey = "" ∨ apiSecret = "")
    then (w, inr "--vendor=xunfei requires XUNFEI_APP_ID, XUNFEI_API_KEY, and XUNFEI_API_SECRET environment variables")
    else match IflyTek.NewIflyTekTranscriber appID apiKey apiSecret appUrl with
         | inr err => (w, inr ("failed to create Xunfei service: " ++ err))
         | inl tr => (w, inl (SvcXunfei tr))
         end
  else if decide (vendor = "whisper") then
    let whisperModelPath := model in
    let whisperPath := Host.getenv h "WHISPER_PATH" in
    let outputDir := if decide (output = "") then "./recordings" else output in
    let '(w, tr) := NewWhisperTranscriber h e w whisperModelPath whisperPath outputDir
                      language keepWav keepTxt in
    match tr with
    | inr err =>
        let '(w, recorderTr) := Recorder.NewRecorderTranscriber e w outputDir in
        match recorderTr with
        | inr recorderErr =>
            (w, inr ("failed to create Whisper service: " ++ err
                     ++ ", and failed to fallback to Recorder: " ++ recorderErr))
        | inl recorderTr => (w, inl (SvcRecorder recorderTr))
        end
    | inl tr => (w, inl (SvcWhisper tr))
    end
  else if decide (vendor = "recorder") then
    let outputDir := if decide (output = "") then "./recordings" else output in
    let '(w, tr) := Recorder.NewRecorderTranscriber e w outputDir in
    match tr with
    | inr err => (w, inr ("failed to create Recorder service: " ++ err))
    | inl tr => (w, inl (SvcRecorder tr))
    end
  else
    (w, inr ("unsupported vendor: " ++ vendor
             ++ ". Supported vendors: google, azure, baidu, xunfei, whisper, recorder")).

(** The rest of [selectVendor]: the selection by what the environment
    holds. *)
Definition selectVendor_auto (h : Host.host) (e : OS.env) (w : OS.world)
    (googleCred output language : string) (keepWav keepTxt : bool)
  : OS.world * (service + string) :=
  if decide (googleCred ≠ "") then
    match NewGoogleSpeech googleCred with
    | inr err => (w, inr ("failed to create Google Speech service: " ++ err))
    | inl tr => (w, inl (SvcGoogle tr))
    end
  else
  let azureKey := Host.getenv h "AZURE_SPEECH_KEY" in
  let azureRegion := Host.getenv h "AZURE_SPEECH_REGION" in
  if decide (azureKey ≠ "" ∧ azureRegion ≠ "") then
    match Azure.NewAzureTranscriber azureKey azureRegion with
    | inr err => (w, inr ("failed to create Azure Speech service: " ++ err))
    | inl tr => (w, inl (SvcAzure tr))
    end
  else
  let baiduAppID := Host.getenv h "BAIDU_APP_ID" in
  let baiduApiKey := Host.getenv h "BAIDU_API_KEY" in
  let baiduSecretKey := Host.getenv h "BAIDU_SECRET_KEY" in
  if decide (baiduAppID ≠ "" ∧ baiduApiKey ≠ "" ∧ baiduSecretKey ≠ "") then
    match Baidu.NewBaiduTranscriber baiduAppID baiduApiKey baiduSecretKey with
    | inr err => (w, inr ("failed to create Baidu Speech service: " ++ err))
    | inl tr => (w, inl (SvcBaidu tr))
    end
  else
  let appID := Host.getenv h "XUNFEI_APP_ID" in
  let apiKey := Host.getenv h "XUNFEI_API_KEY" in
  let apiSecret := Host.getenv h "XUNFEI_API_SECRET" in
  let appUrl := Host.getenv h "XUNFEI_API_URL" in
  if decide (appID ≠ "" ∧ apiKey ≠ "" ∧ apiSecret ≠ "") then
    match IflyTek.NewIflyTekTranscriber appID apiKey apiSecret appUrl with
    | inr err => (w, inr ("failed to create Xunfei service: " ++ err))
    | inl tr => (w, inl (SvcXunfei tr))
    end
  else
  let whisperModelPath := Host.getenv h "WHISPER_MODEL_PATH" in
  let whisperPath := Host.getenv h "WHISPER_PATH" in
  let outputDir : string + string :=
    if decide (output = "") then
      let outputDir := Host.getenv h "OUTPUT_PATH" in
      if decide (outputDir = "") then
        match Host.getwd h with
        | inr err => inr ("failed to get current working directory: " ++ err)
        | inl currentDir => inl (currentDir ++ "/" ++ defaultRecordingsDir)
        end
      else inl outputDir
    else inl output in
  match outputDir with
  | inr err => (w, inr err)
  | inl outputDir =>
      let '(w, whisperTr) := NewWhisperTranscriber h e w whisperModelPath whisperPath
                               outputDir language keepWav keepTxt in
      match whisperTr with
      | inl whisperTr => (w, inl (SvcWhisper whisperTr))
      | inr _ =>
          let recorderOutputDir :=
            if decide (output = "") then
              let recorderOutputDir := Host.getenv h "RECORDER_OUTPUT_DIR" in
              if decide (recorderOutputDir = "") then defaultRecordingsDir
              else recorderOutputDir
            else output in
          let '(w, tr) := Recorder.NewRecorderTranscriber e w recorderOutputDir in
          match tr with
          | inr err => (w, inr ("failed to create Recorder service: " ++ err))
          | inl tr => (w, inl (SvcRecorder tr))
          end
      end
  end.

(** [selectVendor(ctx, googleCred, vendor, model, output, language,
    keepWav, keepTxt)] *)
Definition selectVendor (h : Host.host) (e : OS.env) (w : OS.world)
    (googleCred vendor model output language : string) (keepWav keepTxt : bool)
  : OS.world * (service + string) :=
  if decide (vendor ≠ "")
  then selectVendor_flag h e w googleCred vendor model output language keepWav keepTxt
  else selectVendor_auto h e w googleCred output language keepWav keepTxt.

(** The flags of [main] that reach [selectVendor]. *)
Record flags : Type := MkFlags {
  flag_vendor : string;
  flag_model : string;
  flag_output : string;
  flag_language : string;
  flag_keep_wav : bool;
  flag_keep_txt : bool
}.

(** Their values when the command line gives none. *)
Definition flag_defaults : flags :=
  MkFlags "whisper" "small" "recordings" "auto" true true.

(** [main], from [flag.Parse()] to the result of [selectVendor]. *)
Definition main_selectVendor (h : Host.host) (e : OS.env) (w : OS.world) (f : flags)
  : OS.world * (service + string) :=
  let googleCred := Host.getenv h "GOOGLE_CREDENTIALS" in
  selectVendor h e w googleCred (flag_vendor f) (flag_model f) (flag_output f)
    (flag_language f) (flag_keep_wav f) (flag_keep_txt f).

End SelectVendor.

Arguments service : clear implicits.

(** ** unnamed/part_001 (main.go): sessions, login and the guarded routes *)

Module Server.

Definition sessionCookieName : string := "session_token".

(** [time.Time] and [time.Duration] are counted in nanoseconds. *)
Definition sessionDuration : Z := 24 * 3600 * 1000000000.

Record SessionData : Type := MkSessionData {
  Username : string;
  ExpiresAt : Z
}.

(** The field [sessions] of [sessionStore]; the lock of the store makes
    each of its methods one step. *)
Definition SessionStore : Type := gmap string SessionData.

(** [hex.EncodeToString(src)] *)
Definition hextable : string := "0123456789abcdef".

Definition hex_digit (n : N) : Ascii.ascii :=
  default Ascii.zero (String.get (N.to_nat n) hextable).

Fixpoint hex_EncodeToString (src : list byte) : string :=
  match src with
  | [] => ""
  | v :: rest =>
      String (hex_digit (N.shiftr (Byte.to_N v) 4))
        (String (hex_digit (N.land (Byte.to_N v) 15)) (hex_EncodeToString rest))
  end.

(** [generateSessionToken()].  [random] is what [rand.Read] delivers; the
    bytes it does not deliver stay zero, and its error is not looked at. *)
Definition generateSessionToken (random : list byte) : string :=
  let bytes := take 32 (random ++ replicate 32 x00) in
  hex_EncodeToString bytes.

(** [createSession(username)] at the time [now]. *)
Definition createSession (s : SessionStore) (random : list byte) (now : Z)
    (username : string) : SessionStore * string :=
  let token := generateSessionToken random in
  (<[token := MkSessionData username (now + sessionDuration)]> s, token).

(** [validateSession(token)] at the time [now]. *)
Definition validateSession (s : SessionStore) (now : Z) (token : string)
  : string * bool :=
  match s !! token with
  | None => ("", false)
  | Some session =>
      if decide (now > ExpiresAt session) then ("", false)
      else (Username session, true)
  end.

(** [deleteSession(token)] *)
Definition deleteSession (s : SessionStore) (token : string) : SessionStore :=
  delete token s.

(** What the handlers read of a request: [cookie] is the value
    [r.Cookie(sessionCookieName)] returns, [None] for its error; [form] is
    [r.FormValue] after [r.ParseForm()], or the error of [r.ParseForm()]. *)
Record Request : Type := MkRequest {
  Method : string;
  Path : string;
  cookie : option string;
  form : (string -> string) + string
}.

Inductive SameSite : Type := SameSiteUnset | SameSiteStrictMode.

Record Cookie : Type := MkCookie {
  cookie_Name : string;
  cookie_Value : string;
  cookie_Path : string;
  cookie_HttpOnly : bool;
  cookie_MaxAge : Z;
  cookie_SameSite : SameSite
}.

(** What a handler has written: the status, the content type, the body
    and the cookies it has set. *)
Record Response : Type := MkResponse {
  status : Z;
  content_type : string;
  body : string;
  set_cookies : list Cookie
}.

Definition StatusOK : Z := 200.
Definition StatusBadRequest : Z := 400.
Definition StatusUnauthorized : Z := 401.
Definition StatusNotFound : Z := 404.
Definition StatusMethodNotAllowed : Z := 405.
Definition StatusInternalServerError : Z := 500.

(** [http.Error(w, msg, code)] *)
Definition http_Error (msg : string) (code : Z) : Response :=
  MkResponse code "text/plain; charset=utf-8" (msg ++ String.String (Ascii.ascii_of_N 10) "") [].

(** A string between double quotes. *)
Definition quoted (text : string) : string :=
  String (Ascii.ascii_of_N 34) text ++ String (Ascii.ascii_of_N 34) "".

(** The bodies the handlers write. *)
Definition invalid_credentials : string :=
  "{" ++ quoted "success" ++ ": false, " ++ quoted "message" ++ ": "
  ++ quoted "Invalid username or password" ++ "}".

Definition logged_in (username : string) : string :=
  "{" ++ quoted "success" ++ ": true, " ++ quoted "username" ++ ": "
  ++ quoted username ++ "}".

Definition success : string := "{" ++ quoted "success" ++ ": true}".

Definition not_authenticated : string := "{" ++ quoted "authenticated" ++ ": false}".

Definition authenticated (username : string) : string :=
  "{" ++ quoted "authenticated" ++ ": true, " ++ quoted "username" ++ ": "
  ++ quoted username ++ "}".

(** A body written as JSON under the status [code]. *)
Definition json (code : Z) (text : string) (cookies : list Cookie) : Response :=
  MkResponse code "application/json" text cookies.

(** [authMiddleware(next)]: the response it writes itself, or what [next]
    does with the request. *)
Definition authMiddleware {A : Type} (next : Request -> A) (s : SessionStore)
    (now : Z) (r : Request) : Response + A :=
  if decide (Path r = "/login" ∨ Path r = "/auth/status") then inr (next r)
  else
    match cookie r with
    | None => inl (http_Error "Unauthorized" StatusUnauthorized)
    | Some value =>
        if decide (value = "") then inl (http_Error "Unauthorized" StatusUnauthorized)
        else
          let '(_, valid) := validateSession s now value in
          if valid then inr (next r)
          else inl (http_Error "Session expired" StatusUnauthorized)
    end.

(** [loginHandler(w, r)] with the accounts [accounts]. *)
Definition loginHandler (accounts : gmap string string) (s : SessionStore)
    (random : list byte) (now : Z) (r : Request) : SessionStore * Response :=
  if decide (Method r ≠ "POST")
  then (s, http_Error "Method not allowed" StatusMethodNotAllowed)
  else
    match form r with
    | inr _ => (s, http_Error "Invalid form data" StatusBadRequest)
    | inl FormValue =>
        let username := FormValue "username" in
        let password := FormValue "password" in
        match accounts !! username with
        | Some expectedPassword =>
            if decide (expectedPassword ≠ password)
            then (s, json StatusUnauthorized invalid_credentials [])
            else
              let '(s, token) := createSession s random now username in
              (s, json StatusOK (logged_in username)
                    [MkCookie sessionCookieName token "/" true 86400 SameSiteStrictMode])
        | None =>
            (s, json StatusUnauthorized invalid_credentials [])
        end
    end.

(** [logoutHandler(w, r)] *)
Definition logoutHandler (s : SessionStore) (r : Request) : SessionStore * Response :=
  let s :=
    match cookie r with
    | Some value => if decide (value ≠ "") then deleteSession s value else s
    | None => s
    end in
  (s, json StatusOK success
        [MkCookie sessionCookieName "" "/" true (-1) SameSiteUnset]).

(** [authStatusHandler(w, r)] *)
Definition authStatusHandler (s : SessionStore) (now : Z) (r : Request) : Response :=
  match cookie r with
  | None => json StatusOK not_authenticated []
  | Some value =>
      if decide (value = "") then json StatusOK not_authenticated []
      else
        let '(username, valid) := validateSession s now value in
        if valid
        then json StatusOK (authenticated username) []
        else json StatusOK not_authenticated []
  end.

End Server.

(** ** unnamed/part_001 (main.go): the route /delete/ *)

Module Routes.

(** [strings.TrimPrefix(s, prefix)] *)
Definition strings_TrimPrefix (s prefix : string) : string :=
  if String.prefix prefix s
  then String.substring (String.length prefix)
         (String.length s - String.length prefix)%nat s
  else s.

(** [strings.ReplaceAll(s, old, new)] for an [old] that is not empty: the
    occurrences of [old] are replaced from the left, without overlap.  The
    recursion is on [fuel], one more than the length of [s]. *)
Fixpoint ReplaceAll_from (fuel : nat) (s old new : string) : string :=
  match fuel with
  | O => s
  | S fuel =>
      if String.prefix old s
      then new ++ ReplaceAll_from fuel
                    (String.substring (String.length old)
                       (String.length s - String.length old)%nat s) old new
      else match s with
           | EmptyString => EmptyString
           | String c rest => String c (ReplaceAll_from fuel rest old new)
           end
  end.

Definition strings_ReplaceAll (s old new : string) : string :=
  ReplaceAll_from (S (String.length s)) s old new.

Definition slash : string := "/".
Definition backslash : string := String (Ascii.ascii_of_N 92) "".

(** The three replacements of the handler. *)
Definition sanitize (filename : string) : string :=
  let filename := strings_ReplaceAll filename ".." "" in
  let filename := strings_ReplaceAll filename slash "" in
  strings_ReplaceAll filename backslash "".

(** The file system as the handler meets it.  [fs_stat path] is what
    [os.Stat(path)] answers, and [fs_remove path] is the error of
    [os.Remove(path)], [None] when the entry at [path] was removed.  An
    entry is a file or a directory: [os.Stat] succeeds on both, and
    [os.Remove] removes a file or an empty directory. *)
Record filesystem : Type := MkFS {
  fs_stat : string -> Host.stat_result;
  fs_remove : string -> option string
}.

Definition file_not_found : string :=
  "{" ++ Server.quoted "success" ++ ": false, " ++ Server.quoted "message" ++ ": "
  ++ Server.quoted "File not found" ++ "}".

Definition failed_to_delete : string :=
  "{" ++ Server.quoted "success" ++ ": false, " ++ Server.quoted "message" ++ ": "
  ++ Server.quoted "Failed to delete file" ++ "}".

(** The handler [main] registers for "/delete/"; [output] is the flag.
    It returns the calls it has made on the file system and its answer. *)
Definition deleteHandler (fs : filesystem) (s : Server.SessionStore)
    (now : Z) (output : string) (r : Server.Request)
  : list OS.call * Server.Response :=
  match Server.cookie r with
  | None => ([], Server.http_Error "Unauthorized" Server.StatusUnauthorized)
  | Some value =>
      if decide (value = "")
      then ([], Server.http_Error "Unauthorized" Server.StatusUnauthorized)
      else
        let '(_, valid) := Server.validateSession s now value in
        if negb valid
        then ([], Server.http_Error "Session expired" Server.StatusUnauthorized)
        else if decide (Server.Method r ≠ "DELETE")
        then ([], Server.http_Error "Method not allowed" Server.StatusMethodNotAllowed)
        else
          let filename := strings_TrimPrefix (Server.Path r) "/delete/" in
          if decide (filename = "")
          then ([], Server.http_Error "Filename required" Server.StatusBadRequest)
          else
            let filename := sanitize filename in
            let filePath := output ++ "/" ++ filename in
            match fs_stat fs filePath with
            | Host.StatNotExist =>
                ([OS.SysStat filePath],
                 Server.json Server.StatusNotFound file_not_found [])
            | _ =>
                match fs_remove fs filePath with
                | Some _ =>
                    ([OS.SysStat filePath; OS.SysRemove filePath],
                     Server.json Server.StatusInternalServerError failed_to_delete [])
                | None =>
                    ([OS.SysStat filePath; OS.SysRemove filePath],
                     Server.json Server.StatusOK Server.success [])
                end
            end
  end.

End Routes.

(** ** Vocabulary of the properties *)

(** The environment never fails a call on [path]. *)
Definition io_ok (e : OS.env) (path : string) : Prop :=
  OS.stat_err e path = None
  ∧ (∀ off, OS.seek_err e path off = None)
  ∧ (∀ off data, OS.write_err e path off data = None)
  ∧ OS.close_err e path = None
  ∧ OS.remove_err e path = None.

(** The open file [f] is the file at [path], it holds [content], and the
    next write goes to its end. *)
Definition on_disk (w : OS.world) (f : OS.File) (path : string) (content : list byte)
  : Prop :=
  OS.fd_path f = path ∧ OS.fd_closed f = false
  ∧ OS.fd_off f = length content ∧ OS.disk w !! path = Some content.

(** No external program was run. *)
Definition no_exec (calls : list OS.call) : Prop :=
  ∀ prog args, OS.SysExec prog args ∉ calls.

Definition total_size (chunks : list (list byte)) : Z :=
  Z.of_nat (length (concat chunks)).

(** A header whose two size fields hold [chunkSize] and [dataSize]. *)
Definition patched_header (chunkSize dataSize : Z) : list byte :=
  OS.pwrite (OS.pwrite (header_bytes new_header) 4 (le32 chunkSize)) 40 (le32 dataSize).

(** Writing the chunks one after the other, every [Write] returning [nil]. *)
Fixpoint Recorder_write_all (e : OS.env) (w : OS.world) (rs : Recorder.RecorderStream)
    (chunks : list (list byte)) : option (OS.world * Recorder.RecorderStream) :=
  match chunks with
  | [] => Some (w, rs)
  | chunk :: rest =>
      match Recorder.Write e w rs chunk with
      | (w, rs, (_, None)) => Recorder_write_all e w rs rest
      | (_, _, (_, Some _)) => None
      end
  end.

Fixpoint Whisper_write_all (e : OS.env) (w : OS.world) (ws : Whisper.WhisperStream)
    (chunks : list (list byte)) : option (OS.world * Whisper.WhisperStream) :=
  match chunks with
  | [] => Some (w, ws)
  | chunk :: rest =>
      match Whisper.Write e w ws chunk with
      | (w, ws, (_, None)) => Whisper_write_all e w ws rest
      | (_, _, (_, Some _)) => None
      end
  end.

(** The stream after [Write] was called with each of [buffers], whatever
    the calls returned. *)
Fixpoint Recorder_after_writes (e : OS.env) (w : OS.world)
    (rs : Recorder.RecorderStream) (buffers : list (list byte))
  : OS.world * Recorder.RecorderStream :=
  match buffers with
  | [] => (w, rs)
  | buffer :: rest =>
      let '(w, rs, _) := Recorder.Write e w rs buffer in
      Recorder_after_writes e w rs rest
  end.

(** A recorder stream as [CreateStream] leaves it, up to writes. *)
Definition Recorder_open (rs : Recorder.RecorderStream) : Prop :=
  Recorder.isClosed rs = false ∧ Recorder.results rs = make_chan 1.

Definition Whisper_open (ws : Whisper.WhisperStream) : Prop :=
  Whisper.isClosed ws = false ∧ Whisper.results ws = make_chan 10.

(** What the specification asks of the two size fields and of the length
    of a WAV file that holds [chunks]. *)
Definition wav_sizes_match (file : list byte) (chunks : list (list byte)) : Prop :=
  Z.of_nat (length file) = 44 + total_size chunks
  ∧ wav_dataSize file = total_size chunks
  ∧ wav_chunkSize file = Z.of_nat (length file) - 8.

(** The external program exits with an error whenever it is run. *)
Definition recognizer_fails (e : OS.env) : Prop :=
  ∀ prog args d, ∃ out err d', OS.exec_run e prog args d = (out, Some err, d').

(** The result the Whisper [Close] sends after recognition: the error
    branch and the success branch of the code. *)
Definition recognition_result (path text textFile : string) (err : option string)
  : Result :=
  match err with
  | Some err => MkResult ("Transcription error: " ++ err) 0%Q true path ""
  | None => MkResult text (9 # 10)%Q true path textFile
  end.

(** An error that says that something is closed. *)
Definition closed_error (msg : string) : Prop :=
  ∃ before after, msg = before ++ "closed" ++ after.

(** [Write] on [s] fails, whatever the buffer, with a count of 0 and such
    an error, and leaves the sink of the stream as it was. *)
Definition rejects_writes {S X : Type} `{Stream S} (sink : S -> X) (s : S) : Prop :=
  ∀ buffer, ∃ s' msg,
    Write s buffer = Ret (s', (0%nat, Some msg))
    ∧ closed_error msg ∧ sink s' = sink s.

(** The pump while the track delivers the packets [pre], all of which
    decode, then the packet [bad], which does not, then [rest]. *)
Section PumpInvariant.

Context {S : Type} `{Stream S}.
Variable decode : list byte -> option (list byte).
Variables (pre : list (list byte)) (bad : list byte) (rest : list Pion.track_event).

(** The loop of the function is still running. *)
Definition active (p : @Pion.pump S) : bool :=
  match Pion.main p with
  | Pion.MSelect | Pion.MWrite _ => true
  | _ => false
  end.

(** What has been written, and what the loop has decoded and is about to
    write. *)
Definition effective (p : @Pion.pump S) : list (list byte) :=
  (Pion.written p ++ match Pion.main p with
                     | Pion.MWrite pcm => [pcm]
                     | _ => []
                     end)%list.

(** The two goroutines advance in lock step, one packet at a time; the
    last three cases are the ones the bad packet leads to. *)
Inductive lockstep (p : @Pion.pump S) : Prop :=
| ls_read done todo :
    pre = (done ++ todo)%list -> Pion.reader p = Pion.RRead ->
    Pion.track p = ((Pion.Packet <$> todo) ++ Pion.Packet bad :: rest)%list ->
    ch_buf (Pion.audioStream p) = [] -> ch_buf (Pion.response p) = [] ->
    effective p = omap decode done -> lockstep p
| ls_send done x todo :
    pre = (done ++ x :: todo)%list -> Pion.reader p = Pion.RSend x ->
    Pion.track p = ((Pion.Packet <$> todo) ++ Pion.Packet bad :: rest)%list ->
    ch_buf (Pion.audioStream p) = [] -> ch_buf (Pion.response p) = [] ->
    effective p = omap decode done -> lockstep p
| ls_queued done x todo :
    pre = (done ++ x :: todo)%list -> Pion.reader p = Pion.RWait ->
    Pion.track p = ((Pion.Packet <$> todo) ++ Pion.Packet bad :: rest)%list ->
    ch_buf (Pion.audioStream p) = [x] -> ch_buf (Pion.response p) = [] ->
    effective p = omap decode done -> lockstep p
| ls_answered done x todo :
    pre = (done ++ x :: todo)%list -> Pion.reader p = Pion.RWait ->
    Pion.track p = ((Pion.Packet <$> todo) ++ Pion.Packet bad :: rest)%list ->
    ch_buf (Pion.audioStream p) = [] -> ch_buf (Pion.response p) = [true] ->
    effective p = omap decode (done ++ [x])%list -> lockstep p
| ls_send_bad :
    Pion.reader p = Pion.RSend bad -> Pion.track p = rest ->
    ch_buf (Pion.audioStream p) = [] -> ch_buf (Pion.response p) = [] ->
    effective p = omap decode pre -> lockstep p
| ls_queued_bad :
    Pion.reader p = Pion.RWait -> Pion.track p = rest ->
    ch_buf (Pion.audioStream p) = [bad] -> ch_buf (Pion.response p) = [] ->
    effective p = omap decode pre -> lockstep p
| ls_stalled :
    Pion.reader p = Pion.RWait -> Pion.track p = rest ->
    ch_buf (Pion.audioStream p) = [] -> ch_buf (Pion.response p) = [] ->
    effective p = omap decode pre -> lockstep p.

Definition pump_inv (p : @Pion.pump S) : Prop :=
  if active p
  then Pion.ctx_done p = false
       ∧ ch_closed (Pion.audioStream p) = false
       ∧ ch_cap (Pion.response p) = 100%nat
       ∧ lockstep p
  else Pion.written p `prefix_of` omap decode pre.

End PumpInvariant.

(** The files [validateWAVFile] accepts: their first forty bytes, of which
    fourteen are free. *)
Definition accepted_wav (c : list byte) : Prop :=
  ∃ chunkSize subchunk1Size byteRate bitsPerSample rest : list byte,
    length chunkSize = 4%nat ∧ length subchunk1Size = 4%nat
    ∧ length byteRate = 4%nat ∧ length bitsPerSample = 2%nat
    ∧ c = (String.list_byte_of_string "RIFF" ++ chunkSize
           ++ String.list_byte_of_string "WAVEfmt " ++ subchunk1Size
           ++ le16 1 ++ le16 1 ++ le32 48000 ++ byteRate
           ++ le16 16 ++ bitsPerSample
           ++ String.list_byte_of_string "data" ++ rest)%list.

(** The character 0. *)
Definition digit_zero : Ascii.ascii := Ascii.ascii_of_N 48.

(** Among [calls], nothing but [path] is removed. *)
Definition only_removes (path : string) (calls : list OS.call) : Prop :=
  ∀ p, OS.SysRemove p ∈ calls -> p = path.

(** The external program exits with success whenever it is run and
    leaves [output] in the file [txt] ([None]: no such file); it touches
    no other file. *)
Definition recognizer_leaves (e : OS.env) (txt : string) (output : option (list byte))
  : Prop :=
  ∀ prog args d, ∃ out,
    OS.exec_run e prog args d
    = (out, None, match output with
                  | Some c => <[txt := c]> d
                  | None => delete txt d
                  end).

(** [audioPath[:len(audioPath)-4] + ".txt"] *)
Definition txt_path (audioPath : string) : string :=
  String.substring 0 (String.length audioPath - 4) audioPath ++ ".txt".

(** The language a stream created with [opts] is transcribed in. *)
Definition effective_language (t : Whisper.WhisperTranscriber) (opts : StreamOptions)
  : string :=
  if decide (Language opts = "") then Whisper.language t else Language opts.

(** The command line of the recognizer for the language [lang]. *)
Definition whisper_command (t : Whisper.WhisperTranscriber) (lang audioPath : string)
  : list string :=
  ["--model"; Whisper.modelPath t; "--output_dir"; Whisper.tempDir t;
   "--output_format"; "txt"; "--task"; "transcribe"; "--temperature"; "0.0"]
  ++ (if decide (lang = "" ∨ lang = "auto") then [] else ["--language"; lang])
  ++ [audioPath].

(** The pump on any track. *)
Section PumpOrder.

Context {S : Type} `{Stream S}.
Variable decode : list byte -> option (list byte).

(** What a track can bring to the stream at best: the decoded payloads of
    its packets, up to the first packet that does not decode and up to the
    end of the track or its first read error. *)
Fixpoint deliverable (events : list Pion.track_event) : list (list byte) :=
  match events with
  | Pion.Packet payload :: rest =>
      match decode payload with
      | Some pcm => pcm :: deliverable rest
      | None => []
      end
  | _ => []
  end.

(** The events the loop has not yet seen the outcome of: the packet in
    the hands of the reader or in the queue, then the rest of the track;
    nothing once the reader waits for an answer that will not come, or has
    returned. *)
Definition pending (p : @Pion.pump S) : option (list Pion.track_event) :=
  match Pion.reader p, ch_buf (Pion.audioStream p), ch_buf (Pion.response p) with
  | Pion.RRead, [], [] => Some (Pion.track p)
  | Pion.RSend x, [], [] => Some (Pion.Packet x :: Pion.track p)
  | Pion.RWait, [x], [] => Some (Pion.Packet x :: Pion.track p)
  | Pion.RWait, [], [_] => Some (Pion.track p)
  | Pion.RWait, [], [] => Some []
  | Pion.RDone, [], [] => Some []
  | _, _, _ => None
  end.

(** While the loop runs, what it has written or is about to write,
    followed by what the pending events can bring, is what the track can
    bring; once it has returned, what was written is a part of that. *)
Definition in_order (events : list Pion.track_event) (p : @Pion.pump S) : Prop :=
  if active p
  then Pion.ctx_done p = false
       ∧ ch_cap (Pion.response p) = 100%nat
       ∧ ∃ evs, pending p = Some evs
                ∧ deliverable events = (effective p ++ deliverable evs)%list
  else Pion.written p `prefix_of` deliverable events.

(** The two queues between the goroutines hold one element at most, and
    none while the reader is reading or about to send. *)
Definition handshake (p : @Pion.pump S) : Prop :=
  ch_cap (Pion.response p) = 100%nat
  ∧ match Pion.reader p with
    | Pion.RRead | Pion.RSend _ =>
        ch_buf (Pion.audioStream p) = [] ∧ ch_buf (Pion.response p) = []
    | _ =>
        (length (ch_buf (Pion.audioStream p))
         + length (ch_buf (Pion.response p)) <= 1)%nat
    end.

(** The stream after the writes of [chunks], each of which returns [nil]. *)
Fixpoint feed (s : S) (chunks : list (list byte)) : option S :=
  match chunks with
  | [] => Some s
  | chunk :: rest =>
      match Write s chunk with
      | Ret (s', (_, None)) => feed s' rest
      | _ => None
      end
  end.

(** The payload queue is closed by the reader alone, as it returns. *)
Definition closed_by_reader (p : @Pion.pump S) : Prop :=
  ch_closed (Pion.audioStream p) = true -> Pion.reader p = Pion.RDone.

(** Both goroutines at the top of their loops, with empty queues and the
    context alive. *)
Definition at_loop_top (tr : list Pion.track_event) (er : chan string) (s : S)
    (wr : list (list byte)) (d : Pion.DataChannel) : @Pion.pump S :=
  Pion.MkPump tr Pion.RRead (make_chan 100) (make_chan 100) er false
    Pion.MSelect s wr d.

End PumpOrder.

(** The settings [NewWhisperTranscriber] works with once the empty ones are
    filled in. *)
Definition chosen_executable (h : Host.host) (whisperPath : string) : string :=
  if decide (whisperPath = "") then findWhisperExecutable h else whisperPath.

Definition chosen_model (h : Host.host) (modelPath : string) : string :=
  if decide (modelPath = "")
  then if decide (findWhisperModel h = "") then "small" else findWhisperModel h
  else modelPath.

Definition chosen_directory (tempDir : string) : string :=
  if decide (tempDir = "") then "./output" else tempDir.

Definition chosen_language (language : string) : string :=
  if decide (language = "") then "auto" else language.

(** Whisper cannot be used on this machine: no executable is given or
    found, or the one given or found does not exist. *)
Definition whisper_missing (h : Host.host) (whisperPath : string) : Prop :=
  chosen_executable h whisperPath = ""
  ∨ Host.stat h (chosen_executable h whisperPath) = Host.StatNotExist.

(** The credentials of the services, as [selectVendor] tests them. *)
Definition azure_configured (h : Host.host) : Prop :=
  Host.getenv h "AZURE_SPEECH_KEY" ≠ "" ∧ Host.getenv h "AZURE_SPEECH_REGION" ≠ "".

Definition baidu_configured (h : Host.host) : Prop :=
  Host.getenv h "BAIDU_APP_ID" ≠ "" ∧ Host.getenv h "BAIDU_API_KEY" ≠ ""
  ∧ Host.getenv h "BAIDU_SECRET_KEY" ≠ "".

Definition xunfei_configured (h : Host.host) : Prop :=
  Host.getenv h "XUNFEI_APP_ID" ≠ "" ∧ Host.getenv h "XUNFEI_API_KEY" ≠ ""
  ∧ Host.getenv h "XUNFEI_API_SECRET" ≠ "".

(** The paths [authMiddleware] lets through without a session. *)
Definition public_path (r : Server.Request) : Prop :=
  Server.Path r = "/login" ∨ Server.Path r = "/auth/status".

(** The requests that change the session store: a login and a logout. *)
Inductive request_step (accounts : gmap string string)
  : Server.SessionStore -> Server.SessionStore -> Prop :=
| login_step s random now r :
    request_step accounts s (Server.loginHandler accounts s random now r).1
| logout_step s r :
    request_step accounts s (Server.logoutHandler s r).1.

(** The stores a server started with [accounts] goes through. *)
Definition served (accounts : gmap string string) (s : Server.SessionStore) : Prop :=
  rtc (request_step accounts) ∅ s.

(** Every session carries a token of 64 characters and the name of an
    account. *)
Definition sessions_of_accounts (accounts : gmap string string)
    (s : Server.SessionStore) : Prop :=
  ∀ token session, s !! token = Some session ->
    String.length token = 64%nat ∧ is_Some (accounts !! Server.Username session).

(** The character [c] occurs in [s]. *)
Fixpoint has_char (c : Ascii.ascii) (s : string) : bool :=
  match s with
  | EmptyString => false
  | String a rest => if decide (a = c) then true else has_char c rest
  end.

Definition slash_char : Ascii.ascii := Ascii.ascii_of_N 47.
Definition backslash_char : Ascii.ascii := Ascii.ascii_of_N 92.

(** The frames of a Xunfei session. *)
Definition xunfei_frame (t : IflyTek.IflyTekTranscriber) (status : Z)
    (audio : list byte) : IflyTek.XunfeiRequest :=
  IflyTek.MkRequest (IflyTek.MkCommon (IflyTek.appID t))
    (IflyTek.MkBusiness "zh_cn" "iat" 3000)
    (IflyTek.MkData status "audio/L16;rate=48000" audio "raw").

(** The audio messages of an Azure and of a Baidu session. *)
Definition azure_audio (chunk : list byte) : Azure.message :=
  Azure.SpeechRequest (Azure.MkConfig "webrtc-transcriber" "1.0.0")
    "audio/wav;codecs=audio/pcm;rate=48000" chunk.

Definition baidu_audio (chunk : list byte) : Baidu.message :=
  Baidu.SpeechRequest "audio"
    (Baidu.MkData chunk "pcm" 16000 1 "webrtc_transcriber" "" 1537).

(** A connection that is open and whose network works. *)
Definition connected {M : Type} (c : WS.Conn M) : Prop :=
  WS.closed c = false ∧ WS.net_err c = None.



(** ** Fixtures: a healthy machine, stub recognizers, sample data *)

Module Fixture.

Definition world0 : OS.world := OS.MkWorld ∅ [].
Definition now : string := "20250827_161500".

(** A recognizer that is never expected to run. *)
Definition no_program (prog : string) (args : list string)
    (d : gmap string (list byte)) : string * option string * gmap string (list byte) :=
  ("", None, d).

(** A recognizer that crashes. *)
Definition crash (prog : string) (args : list string)
    (d : gmap string (list byte)) : string * option string * gmap string (list byte) :=
  ("Segmentation fault", Some "exit status 139", d).

Definition env0 : OS.env := OS.env_ok no_program.
Definition env_crash : OS.env := OS.env_ok crash.

(** An environment whose [Stat] fails. *)
Definition env_stat_fails : OS.env :=
  OS.MkEnv (fun _ => None) (fun _ => None) (fun _ _ _ => None)
    (fun _ => Some "input/output error")
    (fun _ _ => None) (fun _ => None) (fun _ => None) (fun _ => None) no_program.

Definition recorder0 : Recorder.RecorderTranscriber :=
  Recorder.MkTranscriber "./recordings" 0.

Definition whisper0 : Whisper.WhisperTranscriber :=
  Whisper.MkTranscriber "small" "/usr/local/bin/whisper" "./output" "auto" 0 true true.

Definition xunfei0 : IflyTek.IflyTekTranscriber :=
  IflyTek.MkTranscriber "app" "key" "secret" "".

Definition healthy_conn : WS.Conn IflyTek.XunfeiRequest := WS.MkConn false None [] [].

(** Three chunks of 3200 bytes. *)
Definition three_chunks : list (list byte) :=
  [replicate 3200 x01; replicate 3200 x02; replicate 3200 x03].

(** Two samples in two chunks. *)
Definition two_chunks : list (list byte) := [[x01; x02]; [x03; x04]].

(** 2^32 bytes of silence: about twelve and a half hours at 48 kHz. *)
Definition four_GiB_of_silence : list byte := replicate (Z.to_nat (2 ^ 32)) x00.

(** A decoder for the examples: it rejects the empty payload and hands
    back any other payload as it is. *)
Definition toy_decode (payload : list byte) : option (list byte) :=
  match payload with
  | [] => None
  | _ => Some payload
  end.

Definition toy_Marshal (r : Result) : option string := Some (Text r).

Definition dc0 : Pion.DataChannel := Pion.MkDC [] false.

(** The states a stream goes through in the examples: created on the
    healthy machine, fed some chunks, closed.  [closed_stream] and
    [closed_whisper] stand in where a step has failed. *)
Definition closed_stream : Recorder.RecorderStream :=
  Recorder.MkStream (OS.MkFile "" 0 true) (make_chan 0) "" "" true.

Definition closed_whisper : Whisper.WhisperStream :=
  Whisper.MkStream "" (OS.MkFile "" 0 true) (make_chan 0) whisper0 "" false true.

Definition recorder_created (e : OS.env) : OS.world * Recorder.RecorderStream :=
  match Recorder.CreateStream e now world0 recorder0 with
  | (w, _, inl rs) => (w, rs)
  | (w, _, inr _) => (w, closed_stream)
  end.

Definition recorder_written (e : OS.env) (chunks : list (list byte))
  : OS.world * Recorder.RecorderStream :=
  let '(w, rs) := recorder_created e in
  default (w, closed_stream) (Recorder_write_all e w rs chunks).

Definition recorder_closed (e : OS.env) (chunks : list (list byte))
  : OS.world * Recorder.RecorderStream :=
  let '(w, rs) := recorder_written e chunks in
  match Recorder.Close e w rs with
  | Ret (w, rs, _) => (w, rs)
  | _ => (w, closed_stream)
  end.

Definition whisper_created (e : OS.env) (t : Whisper.WhisperTranscriber)
    (opts : StreamOptions) : OS.world * Whisper.WhisperStream :=
  match Whisper.CreateStreamWithOptions e now world0 t opts with
  | (w, _, inl ws) => (w, ws)
  | (w, _, inr _) => (w, closed_whisper)
  end.

Definition whisper_written (e : OS.env) (t : Whisper.WhisperTranscriber)
    (opts : StreamOptions) (chunks : list (list byte))
  : OS.world * Whisper.WhisperStream :=
  let '(w, ws) := whisper_created e t opts in
  default (w, closed_whisper) (Whisper_write_all e w ws chunks).

Definition whisper_closed (e : OS.env) (t : Whisper.WhisperTranscriber)
    (opts : StreamOptions) (chunks : list (list byte))
  : OS.world * Whisper.WhisperStream :=
  let '(w, ws) := whisper_written e t opts chunks in
  match Whisper.Close e w ws with
  | Ret (w, ws, _) => (w, ws)
  | _ => (w, closed_whisper)
  end.

(** A Xunfei stream on a healthy connection, and the same stream closed. *)
Definition xunfei_stream : IflyTek.IflyTekStream :=
  match IflyTek.CreateStream xunfei0 (inl healthy_conn) with
  | inl st => st
  | inr _ => IflyTek.MkStream healthy_conn (make_chan 0) xunfei0
  end.

Definition xunfei_closed : IflyTek.IflyTekStream :=
  match IflyTek.Close xunfei_stream with
  | Ret (st, _) => st
  | _ => xunfei_stream
  end.

(** An Azure and a Baidu stream on healthy connections, and the same
    streams closed. *)
Definition azure_stream : Azure.AzureStream :=
  match Azure.CreateStream (Azure.MkTranscriber "key" "eastus")
          (inl (WS.MkConn false None [] [])) with
  | inl s => s
  | inr _ => Azure.MkStream (WS.MkConn false None [] []) (make_chan 10)
  end.

Definition azure_closed : Azure.AzureStream :=
  match Azure.Close azure_stream with
  | Ret (s, _) => s
  | _ => azure_stream
  end.

Definition baidu_stream : Baidu.BaiduStream :=
  match Baidu.CreateStream (Baidu.MkTranscriber "app" "key" "secret")
          (inl "token") (inl (WS.MkConn false None [] [])) with
  | inl s => s
  | inr _ => Baidu.MkStream (WS.MkConn false None [] []) (make_chan 10)
  end.

Definition baidu_closed : Baidu.BaiduStream :=
  match Baidu.Close baidu_stream with
  | Ret (s, _) => s
  | _ => baidu_stream
  end.

(** A recorder stream that holds [two_chunks], on the healthy machine and
    on a machine whose [Stat] fails. *)
Definition healthy_recorder : running Recorder.RecorderStream :=
  Run env0 (recorder_written env0 two_chunks).1 (recorder_written env0 two_chunks).2.


(** [healthy_recorder] after its [Close]. *)
Definition closed_recorder : running Recorder.RecorderStream :=
  Run env0 (recorder_closed env0 two_chunks).1 (recorder_closed env0 two_chunks).2.


Definition after_deferred {S : Type} `{Stream S} (s : S) : S * Pion.DataChannel :=
  match Pion.deferred_close toy_Marshal s dc0 with
  | Ret x => x
  | _ => (s, dc0)
  end.

Definition exited {S : Type} `{Stream S} (s : S) : @Pion.pump S :=
  Pion.MkPump [] Pion.RRead (make_chan 100) (make_chan 100) (make_chan 2) true
    (Pion.MExited None) (after_deferred s).1 [] (after_deferred s).2.

Definition transcribing : StreamOptions := MkStreamOptions "en" true.
Definition record_only : StreamOptions := MkStreamOptions "en" false.

(** A file [validateWAVFile] accepts: the header of the code with 16 in
    place of the block alignment, and nothing after byte 39. *)
Definition odd_wav : list byte :=
  (String.list_byte_of_string "RIFF" ++ le32 0
   ++ String.list_byte_of_string "WAVEfmt " ++ le32 16
   ++ le16 1 ++ le16 1 ++ le32 48000 ++ le32 96000
   ++ le16 16 ++ le16 16 ++ String.list_byte_of_string "data")%list.

Definition world_with_odd_wav : OS.world :=
  OS.MkWorld {[ "odd.wav" := odd_wav ]} [].

Definition odd_stream : Recorder.RecorderStream :=
  Recorder.MkStream (OS.MkFile "odd.wav" 40 true) (make_chan 1) "odd.wav" "odd.wav" true.

(** A second recording of the transcriber of [recorder_created], started
    at the time [ts]. *)
Definition second_recording (ts : string) : OS.world * Recorder.RecorderStream :=
  match Recorder.CreateStream env0 ts (recorder_created env0).1
          (Recorder.MkTranscriber "./recordings" 1) with
  | (w, _, inl rs) => (w, rs)
  | (w, _, inr _) => (w, closed_stream)
  end.

(** A machine whose disk is full after 24 bytes of any file. *)
Definition env_disk_full : OS.env :=
  OS.MkEnv (fun _ => None) (fun _ => None)
    (fun _ off data => if (24 <? off + length data)%nat
                       then Some ((24 - off)%nat, "no space left on device")
                       else None)
    (fun _ => None) (fun _ _ => None) (fun _ => None) (fun _ => None)
    (fun _ => None) no_program.

(** A recognizer that hears "hello world" in the first recording of a
    transcriber that works in ./output, and one that hears nothing. *)
Definition hello (prog : string) (args : list string)
    (d : gmap string (list byte)) : string * option string * gmap string (list byte) :=
  ("", None, <["./output/whisper_audio_1_20250827_161500.txt"
               := String.list_byte_of_string "hello world"]> d).

Definition mute (prog : string) (args : list string)
    (d : gmap string (list byte)) : string * option string * gmap string (list byte) :=
  ("", None, <["./output/whisper_audio_1_20250827_161500.txt" := []]> d).

Definition env_hello : OS.env := OS.env_ok hello.
Definition env_mute : OS.env := OS.env_ok mute.

(** A transcriber that keeps the text files and not the recordings. *)
Definition whisper_tidy : Whisper.WhisperTranscriber :=
  Whisper.MkTranscriber "small" "/usr/local/bin/whisper" "./output" "auto" 0 false true.

(** What the Xunfei service sends for one utterance: an error frame, an
    empty partial result, the partial result "hello" and the final result
    "hello world". *)
Definition xunfei_messages : list (option IflyTekListener.XunfeiResponse) :=
  [ None;
    Some (IflyTekListener.MkResponse 10165 "invalid handle" [] 0);
    Some (IflyTekListener.MkResponse 0 "success" [[]] 1);
    Some (IflyTekListener.MkResponse 0 "success" [["hel"; "lo"]] 1);
    Some (IflyTekListener.MkResponse 0 "success" [["hello"]; [" "; "world"]] 2) ].

(** Twelve phrases recognized by the Azure service. *)
Definition twelve_phrases : list (option AzureListener.azureSpeechResponse) :=
  replicate 12
    (Some (AzureListener.MkResponse "recognition" "1" "" "one more phrase" 0 0
             (95 # 100)%Q "success")).

(** [healthy_recorder] after two more chunks were pumped into it. *)
Definition pumped_recorder : running Recorder.RecorderStream :=
  default healthy_recorder (feed healthy_recorder [[x01; x02]; [x03; x04]]).

(** A machine with an empty environment and Whisper at /usr/bin/whisper. *)
Definition host_with_whisper : Host.host :=
  Host.MkHost (fun _ => "") (inl "/srv/app")
    (fun name => if decide (name = "whisper") then Some "/usr/bin/whisper" else None)
    (fun _ => None)
    (fun path => if decide (path = "/usr/bin/whisper") then Host.StatOk
                 else Host.StatNotExist)
    (inl "/home/app") filepath_Join.

(** A machine with nothing installed and the credentials of Azure in its
    environment. *)
Definition host_with_azure : Host.host :=
  Host.MkHost
    (fun name => if decide (name = "AZURE_SPEECH_KEY") then "0123456789abcdef"
                 else if decide (name = "AZURE_SPEECH_REGION") then "westeurope"
                 else "")
    (inl "/srv/app") (fun _ => None) (fun _ => None)
    (fun _ => Host.StatNotExist) (inl "/home/app") filepath_Join.

(** No Google service. *)
Definition no_google (cred : string) : unit + string :=
  inr "google: could not find default credentials".

(** The accounts of the example of main.go: "alice:abc, walter:abd". *)
Definition accounts0 : gmap string string :=
  <["alice" := "abc"]> (<["walter" := "abd"]> ∅).

Definition alice_form (key : string) : string :=
  if decide (key = "username") then "alice"
  else if decide (key = "password") then "abc" else "".

Definition alice_login : Server.Request :=
  Server.MkRequest "POST" "/login" None (inl alice_form).

(** The instant of the login, and the bytes of its token. *)
Definition login_time : Z := 1756311300000000000.
Definition random0 : list byte := replicate 32 x2a.

Definition alice_token : string := Server.generateSessionToken random0.

(** The store after the login of alice on a fresh server. *)
Definition store_with_alice : Server.SessionStore :=
  (Server.loginHandler accounts0 ∅ random0 login_time alice_login).1.

(** A request for a recording with the cookie of that login. *)
Definition alice_request : Server.Request :=
  Server.MkRequest "GET" "/recordings/recording_20250827_161500_001.wav"
    (Some alice_token) (inr "no form").

(** The request of alice to delete a recording. *)
Definition alice_delete : Server.Request :=
  Server.MkRequest "DELETE" "/delete/recording_20250827_161500_001.wav"
    (Some alice_token) (inr "no form").

(** The request of alice to delete the name made of four dots. *)
Definition alice_delete_dots : Server.Request :=
  Server.MkRequest "DELETE" "/delete/...." (Some alice_token) (inr "no form").

(** A file system that holds the directory ./recordings, empty but for one
    recording; nothing fails. *)
Definition recordings_fs : Routes.filesystem :=
  Routes.MkFS
    (fun path =>
       if decide (path = "./recordings/"
                  ∨ path = "./recordings/recording_20250827_161500_001.wav")
       then Host.StatOk else Host.StatNotExist)
    (fun path =>
       if decide (path = "./recordings/recording_20250827_161500_001.wav")
       then None
       else if decide (path = "./recordings/")
       then Some "directory not empty"
       else Some OS.ErrNotExist).

(** The same directory once the recording is gone. *)
Definition empty_recordings_fs : Routes.filesystem :=
  Routes.MkFS
    (fun path => if decide (path = "./recordings/")
                 then Host.StatOk else Host.StatNotExist)
    (fun path => if decide (path = "./recordings/")
                 then None else Some OS.ErrNotExist).

End Fixture.

(** * Properties *)

#[local] Arguments uint32 : simpl never.
#[local] Arguments le32 : simpl never.
#[local] Arguments le16 : simpl never.
#[local] Arguments fmt_d : simpl never.
#[local] Arguments OS.pwrite : simpl never.
#[local] Arguments String.append : simpl never.
#[local] Arguments fmt_03d : simpl never.
#[local] Arguments filepath_Join : simpl never.
#[local] Arguments write_header : simpl never.
#[local] Arguments header_writes : simpl never.
#[local] Arguments header_bytes : simpl never.
#[local] Arguments OS.MkdirAll : simpl never.
#[local] Arguments OS.Create : simpl never.

(** ** Bytes and little-endian words *)

Section Bytes.

Lemma Z_of_byte_of_Z (x : Z) : Z_of_byte (byte_of_Z x) = x mod 256.
Proof.
  unfold Z_of_byte, byte_of_Z.
  assert (Hr : 0 <= x mod 256 < 256) by (apply Z.mod_pos_bound; lia).
  destruct (Byte.of_N (Z.to_N (x mod 256))) as [b|] eqn:Hb.
  - apply Byte.to_of_N in Hb. rewrite Hb. lia.
  - apply Byte.of_N_None_iff in Hb. lia.
Qed.

Lemma read_le32_le32 (v : Z) (rest : list byte) :
  0 <= v < 2 ^ 32 -> read_le32 (le32 v ++ rest) = v.
Proof.
  intros Hv. unfold le32. cbn [app read_le32].
  rewrite !Z_of_byte_of_Z.
  change (2 ^ 8) with 256. change (2 ^ 16) with 65536.
  change (2 ^ 24) with 16777216. change (2 ^ 32) with 4294967296 in Hv.
  replace (v / 65536) with (v / 256 / 256)
    by (rewrite Z.div_div by lia; reflexivity).
  replace (v / 16777216) with (v / 256 / 256 / 256)
    by (rewrite !Z.div_div by lia; reflexivity).
  Z.div_mod_to_equations; lia.
Qed.

Lemma length_le32 (v : Z) : length (le32 v) = 4%nat.
Proof. reflexivity. Qed.

Lemma length_header_bytes : length (header_bytes new_header) = 44%nat.
Proof. reflexivity. Qed.

End Bytes.

(** ** Writing into a file *)

Section Pwrite.

Lemma pwrite_at_end (old data : list byte) :
  OS.pwrite old (length old) data = (old ++ data)%list.
Proof.
  unfold OS.pwrite.
  rewrite firstn_all, Nat.sub_diag, drop_ge by lia.
  cbn. rewrite app_nil_r. reflexivity.
Qed.

Lemma pwrite_inside (head tail data : list byte) (off : nat) :
  (off + length data <= length head)%nat ->
  OS.pwrite (head ++ tail) off data = (OS.pwrite head off data ++ tail)%list.
Proof.
  intros Hin. unfold OS.pwrite.
  rewrite take_app_le by lia.
  rewrite drop_app_le by lia.
  rewrite length_app.
  replace (off - (length head + length tail))%nat with 0%nat by lia.
  replace (off - length head)%nat with 0%nat by lia.
  cbn. rewrite <- !app_assoc. reflexivity.
Qed.

Lemma length_pwrite_inside (old data : list byte) (off : nat) :
  (off + length data <= length old)%nat ->
  length (OS.pwrite old off data) = length old.
Proof.
  intros Hin. unfold OS.pwrite.
  rewrite !length_app, length_take, length_replicate, length_drop. lia.
Qed.

(** The patched header, byte by byte. *)
Lemma patched_header_bytes (chunkSize dataSize : Z) :
  patched_header chunkSize dataSize =
    (String.list_byte_of_string "RIFF" ++ le32 chunkSize
      ++ String.list_byte_of_string "WAVEfmt " ++ le32 16 ++ le16 1 ++ le16 1
      ++ le32 48000 ++ le32 96000 ++ le16 2 ++ le16 16
      ++ String.list_byte_of_string "data" ++ le32 dataSize)%list.
Proof. reflexivity. Qed.

Lemma length_patched_header (chunkSize dataSize : Z) :
  length (patched_header chunkSize dataSize) = 44%nat.
Proof. reflexivity. Qed.

Lemma patched_twice (audio : list byte) (chunkSize dataSize : Z) :
  OS.pwrite (OS.pwrite (header_bytes new_header ++ audio) 4 (le32 chunkSize))
            40 (le32 dataSize)
  = (patched_header chunkSize dataSize ++ audio)%list.
Proof.
  rewrite pwrite_inside by (rewrite length_le32, length_header_bytes; lia).
  rewrite pwrite_inside; [reflexivity|].
  rewrite length_pwrite_inside; rewrite !length_le32, ?length_header_bytes; lia.
Qed.

Lemma wav_chunkSize_patched (audio : list byte) (chunkSize dataSize : Z) :
  0 <= chunkSize < 2 ^ 32 ->
  wav_chunkSize (patched_header chunkSize dataSize ++ audio) = chunkSize.
Proof.
  intros Hc. unfold wav_chunkSize. rewrite patched_header_bytes.
  cbn [String.list_byte_of_string app drop].
  rewrite <- app_assoc. apply read_le32_le32, Hc.
Qed.

End Pwrite.

(** ** The finalization of the WAV file *)

Section Finalize.

(** An error exit cannot be the successful result in [H]. *)
Ltac dead_end H :=
  solve [ repeat (cbn in H; case_match); cbn in H; simplify_eq ].

Lemma wav_dataSize_patched (audio : list byte) (chunkSize dataSize : Z) :
  0 <= dataSize < 2 ^ 32 ->
  wav_dataSize (patched_header chunkSize dataSize ++ audio) = dataSize.
Proof.
  intros Hd. unfold wav_dataSize. rewrite patched_header_bytes.
  cbn [String.list_byte_of_string app drop le32 le16].
  apply (read_le32_le32 dataSize audio Hd).
Qed.

Lemma content_insert (w : OS.world) (path : string) (c : list byte) (t : list OS.call) :
  OS.content (OS.MkWorld (<[path := c]> (OS.disk w)) t) path = c.
Proof. unfold OS.content. cbn. rewrite lookup_insert_eq. reflexivity. Qed.

(** What a successful finalization has done, whatever the environment. *)
Lemma finalize_wav_inv (e : OS.env) (w w' : OS.world) (f f' : OS.File)
    (path : string) (c : list byte) (fileSize : Z) :
  on_disk w f path c ->
  finalize_wav e w f path = (w', f', inl fileSize) ->
  fileSize = uint32 (Z.of_nat (length c))
  ∧ 44 <= fileSize
  ∧ OS.disk w' = <[path := OS.pwrite (OS.pwrite c 4 (le32 (fileSize - 8)))
                                      40 (le32 (fileSize - 44))]> (OS.disk w)
  ∧ OS.fd_closed f' = true
  ∧ OS.trace w' = (OS.trace w ++
      [OS.SysStat path; OS.SysSeek path 4;
       OS.SysWrite path 4 (le32 (fileSize - 8)); OS.SysSeek path 40;
       OS.SysWrite path 40 (le32 (fileSize - 44)); OS.SysClose path])%list.
Proof.
  intros (Hpath & Hopen & Hoff & Hdisk) Hfin.
  destruct f as [fp fo fc]. cbn in Hpath, Hopen, Hoff. subst fp fc.
  unfold finalize_wav, abandon, OS.Stat, OS.Seek, OS.Write, OS.Close, OS.Remove,
    OS.log, OS.content in Hfin.
  cbn in Hfin.
  rewrite Hdisk in Hfin. cbn in Hfin.
  destruct (OS.stat_err e path); [dead_end Hfin|].
  set (fs := uint32 (Z.of_nat (length c))) in *.
  destruct (fs <? 44)%Z eqn:Hsmall; [dead_end Hfin|].
  apply Z.ltb_ge in Hsmall.
  destruct (OS.seek_err e path 4); [dead_end Hfin|].
  cbn in Hfin.
  destruct (OS.write_err e path 4 (le32 (fs - 8))) as [[n err]|];
    [dead_end Hfin|].
  cbn in Hfin.
  destruct (OS.seek_err e path 40); [dead_end Hfin|].
  cbn in Hfin.
  destruct (OS.write_err e path 40 (le32 (fs - 44))) as [[n err]|];
    [dead_end Hfin|].
  cbn in Hfin.
  destruct (OS.close_err e path); [dead_end Hfin|].
  injection Hfin as <- <- <-.
  cbn.
  split; [reflexivity|]. split; [exact Hsmall|].
  split; [|split; [reflexivity|]].
  - rewrite ?lookup_insert_eq, ?Hdisk. cbn.
    rewrite ?lookup_insert_eq, ?Hdisk. cbn.
    rewrite insert_insert_eq. reflexivity.
  - rewrite <- !app_assoc. reflexivity.
Qed.

(** On a healthy machine the finalization succeeds whenever the measured
    size is at least that of a header. *)
Lemma finalize_wav_ok (e : OS.env) (w : OS.world) (f : OS.File)
    (path : string) (c : list byte) :
  io_ok e path ->
  on_disk w f path c ->
  44 <= uint32 (Z.of_nat (length c)) ->
  ∃ w' f', finalize_wav e w f path = (w', f', inl (uint32 (Z.of_nat (length c)))).
Proof.
  intros (Hstat & Hseek & Hwrite & Hclose & _) (Hpath & Hopen & Hoff & Hdisk) Hbig.
  destruct f as [fp fo fc]. cbn in Hpath, Hopen, Hoff. subst fp fc.
  unfold finalize_wav, abandon, OS.Stat, OS.Seek, OS.Write, OS.Close,
    OS.log, OS.content.
  cbn.
  rewrite Hstat, Hdisk. cbn.
  apply Z.ltb_ge in Hbig. rewrite Hbig.
  rewrite Hseek. cbn.
  rewrite Hwrite. cbn.
  rewrite Hseek. cbn.
  rewrite Hwrite. cbn.
  rewrite Hclose. eauto.
Qed.

(** A file the code measures as shorter than a header is removed. *)
Lemma finalize_wav_small (e : OS.env) (w : OS.world) (f : OS.File)
    (path : string) (c : list byte) :
  io_ok e path ->
  on_disk w f path c ->
  uint32 (Z.of_nat (length c)) < 44 ->
  ∃ w' f' msg, finalize_wav e w f path = (w', f', inr msg)
               ∧ OS.disk w' !! path = None.
Proof.
  intros (Hstat & Hseek & Hwrite & Hclose & Hremove) (Hpath & Hopen & Hoff & Hdisk) Hlt.
  destruct f as [fp fo fc]. cbn in Hpath, Hopen, Hoff. subst fp fc.
  unfold finalize_wav, abandon, OS.Stat, OS.Close, OS.Remove, OS.log, OS.content.
  cbn.
  rewrite Hstat, Hdisk. cbn.
  apply Z.ltb_lt in Hlt. rewrite Hlt.
  cbn.
  rewrite Hremove, Hdisk. do 3 eexists. split; [reflexivity|].
  cbn. apply lookup_delete_eq.
Qed.

End Finalize.

(** ** Creating a stream and writing to it *)

Section Writing.

Lemma OS_Write_at_end (e : OS.env) (w w' : OS.world) (f f' : OS.File)
    (path : string) (c data : list byte) (n : nat) :
  on_disk w f path c ->
  OS.Write e w f data = (w', f', (n, None)) ->
  on_disk w' f' path (c ++ data) ∧ n = length data.
Proof.
  intros (Hpath & Hopen & Hoff & Hdisk) Hw.
  destruct f as [fp fo fc]. cbn in Hpath, Hopen, Hoff. subst fp fc fo.
  unfold OS.Write, OS.log, OS.content in Hw. cbn in Hw.
  destruct (OS.write_err e path (length c) data) as [[k err]|]; [simplify_eq|].
  injection Hw as <- <- <-.
  rewrite Hdisk. cbn. rewrite pwrite_at_end.
  repeat split; cbn; rewrite ?length_app; try reflexivity.
  apply lookup_insert_eq.
Qed.

Lemma write_header_inv (e : OS.env) (fields : list (string * list byte)) :
  ∀ (w w' : OS.world) (f f' : OS.File) (path : string) (c : list byte),
    on_disk w f path c ->
    write_header e w f path fields = (w', inl f') ->
    on_disk w' f' path (c ++ concat (map snd fields)).
Proof.
  induction fields as [|[name data] rest IH]; intros w w' f f' path c Hon Hwr.
  - cbn in Hwr. injection Hwr as <- <-. cbn. rewrite app_nil_r. exact Hon.
  - unfold write_header in Hwr; fold write_header in Hwr.
    destruct (OS.Write e w f data) as [[w1 f1] [n [err|]]] eqn:Hw.
    + repeat (cbn in Hwr; case_match); cbn in Hwr; simplify_eq.
    + apply (OS_Write_at_end _ _ _ _ _ _ _ _ _ Hon) in Hw as [Hon1 _].
      cbn [map snd concat]. rewrite app_assoc. eapply IH; eauto.
Qed.

Lemma on_disk_created (e : OS.env) (w w' : OS.world) (f : OS.File) (path : string) :
  OS.Create e w path = (w', inl f) -> on_disk w' f path [].
Proof.
  unfold OS.Create, OS.log. cbn. destruct (OS.create_err e path); [discriminate|].
  intros [= <- <-]. repeat split; cbn. apply lookup_insert_eq.
Qed.

(** A created recorder stream is open and its file holds the header. *)
Lemma Recorder_CreateStream_inv (e : OS.env) (ts : string) (w w1 : OS.world)
    (r r1 : Recorder.RecorderTranscriber) (rs : Recorder.RecorderStream) :
  Recorder.CreateStream e ts w r = (w1, r1, inl rs) ->
  on_disk w1 (Recorder.file rs) (Recorder.filePath rs) (header_bytes new_header)
  ∧ Recorder_open rs
  ∧ Recorder.filePath rs = filepath_Join (Recorder.outputDir r) (Recorder.fileName rs).
Proof.
  unfold Recorder.CreateStream. cbn.
  destruct (OS.MkdirAll e w (Recorder.outputDir r)) as [w0 [err|]]; [discriminate|].
  destruct (OS.Create e w0 _) as [w2 [f|err]] eqn:Hc; [|discriminate].
  destruct (write_header e w2 f _ _) as [w3 [f3|err]] eqn:Hh; [|discriminate].
  intros [= <- <- <-]. cbn.
  apply on_disk_created in Hc.
  apply (write_header_inv _ _ _ _ _ _ _ _ Hc) in Hh.
  repeat split; try reflexivity; apply Hh.
Qed.

Lemma Whisper_CreateStreamWithOptions_inv (e : OS.env) (ts : string)
    (w w1 : OS.world) (t t1 : Whisper.WhisperTranscriber) (opts : StreamOptions)
    (ws : Whisper.WhisperStream) :
  Whisper.CreateStreamWithOptions e ts w t opts = (w1, t1, inl ws) ->
  on_disk w1 (Whisper.file ws) (Whisper.filePath ws) (header_bytes new_header)
  ∧ Whisper_open ws
  ∧ Whisper.transcribe ws = Transcribe opts
  ∧ Whisper.stream_language ws
      = (if decide (Language opts = "") then Whisper.language t else Language opts)
  ∧ Whisper.keepWav (Whisper.transcriber ws) = Whisper.keepWav t
  ∧ Whisper.whisperPath (Whisper.transcriber ws) = Whisper.whisperPath t.
Proof.
  unfold Whisper.CreateStreamWithOptions. cbn.
  destruct (OS.MkdirAll e w (Whisper.tempDir t)) as [w0 [err|]]; [discriminate|].
  destruct (OS.Create e w0 _) as [w2 [f|err]] eqn:Hc; [|discriminate].
  destruct (write_header e w2 f _ _) as [w3 [f3|err]] eqn:Hh; [|discriminate].
  intros [= <- <- <-]. cbn.
  apply on_disk_created in Hc.
  apply (write_header_inv _ _ _ _ _ _ _ _ Hc) in Hh.
  repeat split; try reflexivity; apply Hh.
Qed.

Lemma Recorder_Write_inv (e : OS.env) (w w' : OS.world)
    (rs rs' : Recorder.RecorderStream) (c buffer : list byte) (n : nat) :
  Recorder_open rs ->
  on_disk w (Recorder.file rs) (Recorder.filePath rs) c ->
  Recorder.Write e w rs buffer = (w', rs', (n, None)) ->
  on_disk w' (Recorder.file rs') (Recorder.filePath rs') (c ++ buffer)
  ∧ Recorder_open rs'
  ∧ Recorder.filePath rs' = Recorder.filePath rs
  ∧ Recorder.fileName rs' = Recorder.fileName rs
  ∧ n = length buffer.
Proof.
  intros [Hopen Hres] Hon. unfold Recorder.Write. rewrite Hopen.
  destruct (OS.Write e w (Recorder.file rs) buffer) as [[w1 f1] [k [err|]]] eqn:Hw;
    [discriminate|].
  intros [= <- <- <-]. cbn.
  apply (OS_Write_at_end _ _ _ _ _ _ _ _ _ Hon) in Hw as [Hon1 ->].
  repeat split; auto; apply Hon1.
Qed.

Lemma Whisper_Write_inv (e : OS.env) (w w' : OS.world)
    (ws ws' : Whisper.WhisperStream) (c buffer : list byte) (n : nat) :
  Whisper_open ws ->
  on_disk w (Whisper.file ws) (Whisper.filePath ws) c ->
  Whisper.Write e w ws buffer = (w', ws', (n, None)) ->
  on_disk w' (Whisper.file ws') (Whisper.filePath ws') (c ++ buffer)
  ∧ Whisper_open ws'
  ∧ Whisper.filePath ws' = Whisper.filePath ws
  ∧ Whisper.transcribe ws' = Whisper.transcribe ws
  ∧ Whisper.transcriber ws' = Whisper.transcriber ws
  ∧ Whisper.stream_language ws' = Whisper.stream_language ws
  ∧ n = length buffer.
Proof.
  intros [Hopen Hres] Hon. unfold Whisper.Write. rewrite Hopen.
  destruct (OS.Write e w (Whisper.file ws) buffer) as [[w1 f1] [k [err|]]] eqn:Hw;
    [discriminate|].
  intros [= <- <- <-]. cbn.
  apply (OS_Write_at_end _ _ _ _ _ _ _ _ _ Hon) in Hw as [Hon1 ->].
  repeat split; auto; apply Hon1.
Qed.

Lemma Recorder_write_all_inv (e : OS.env) (chunks : list (list byte)) :
  ∀ (w w' : OS.world) (rs rs' : Recorder.RecorderStream) (c : list byte),
    Recorder_open rs ->
    on_disk w (Recorder.file rs) (Recorder.filePath rs) c ->
    Recorder_write_all e w rs chunks = Some (w', rs') ->
    on_disk w' (Recorder.file rs') (Recorder.filePath rs') (c ++ concat chunks)
    ∧ Recorder_open rs'
    ∧ Recorder.filePath rs' = Recorder.filePath rs
    ∧ Recorder.fileName rs' = Recorder.fileName rs.
Proof.
  induction chunks as [|chunk rest IH]; intros w w' rs rs' c Hopen Hon Hall.
  - injection Hall as <- <-. cbn. rewrite app_nil_r. auto.
  - cbn [Recorder_write_all] in Hall.
    destruct (Recorder.Write e w rs chunk) as [[w1 rs1] [n [err|]]] eqn:Hw;
      [discriminate|].
    apply (Recorder_Write_inv _ _ _ _ _ _ _ _ Hopen Hon) in Hw
      as (Hon1 & Hopen1 & Hp & Hn & _).
    destruct (IH _ _ _ _ _ Hopen1 Hon1 Hall) as (Hon2 & Hopen2 & Hp2 & Hn2).
    cbn [concat]. rewrite app_assoc.
    refine (conj Hon2 (conj Hopen2 (conj _ _))); congruence.
Qed.

Lemma Whisper_write_all_inv (e : OS.env) (chunks : list (list byte)) :
  ∀ (w w' : OS.world) (ws ws' : Whisper.WhisperStream) (c : list byte),
    Whisper_open ws ->
    on_disk w (Whisper.file ws) (Whisper.filePath ws) c ->
    Whisper_write_all e w ws chunks = Some (w', ws') ->
    on_disk w' (Whisper.file ws') (Whisper.filePath ws') (c ++ concat chunks)
    ∧ Whisper_open ws'
    ∧ Whisper.filePath ws' = Whisper.filePath ws
    ∧ Whisper.transcribe ws' = Whisper.transcribe ws
    ∧ Whisper.transcriber ws' = Whisper.transcriber ws
    ∧ Whisper.stream_language ws' = Whisper.stream_language ws.
Proof.
  induction chunks as [|chunk rest IH]; intros w w' ws ws' c Hopen Hon Hall.
  - injection Hall as <- <-. cbn. rewrite app_nil_r. auto 10.
  - cbn [Whisper_write_all] in Hall.
    destruct (Whisper.Write e w ws chunk) as [[w1 ws1] [n [err|]]] eqn:Hw;
      [discriminate|].
    apply (Whisper_Write_inv _ _ _ _ _ _ _ _ Hopen Hon) in Hw
      as (Hon1 & Hopen1 & Hp & Ht & Htr & Hl & _).
    destruct (IH _ _ _ _ _ Hopen1 Hon1 Hall) as (Hon2 & Hopen2 & Hp2 & Ht2 & Htr2 & Hl2).
    cbn [concat]. rewrite app_assoc.
    refine (conj Hon2 (conj Hopen2 (conj _ (conj _ (conj _ _))))); congruence.
Qed.

End Writing.

(** ** [Close] and [Write] of the two file-backed streams *)

Section BatchStreams.

(** [Close] of an open recorder stream is its finalization followed, on
    success, by one send and the closing of the channel. *)
Lemma Recorder_Close_eq (e : OS.env) (w : OS.world) (rs : Recorder.RecorderStream) :
  Recorder_open rs ->
  Recorder.Close e w rs =
    match finalize_wav e w (Recorder.file rs) (Recorder.filePath rs) with
    | (w', f', inl _) =>
        Ret (w', Recorder.MkStream f'
                   (MkChan [MkResult (Recorder.fileName rs) 1%Q true "" ""] 1 true)
                   (Recorder.fileName rs) (Recorder.filePath rs) true, None)
    | (w', f', inr err) =>
        Ret (w', Recorder.MkStream f' (make_chan 1)
                   (Recorder.fileName rs) (Recorder.filePath rs) true, Some err)
    end.
Proof.
  intros [Hopen Hres]. unfold Recorder.Close. rewrite Hopen.
  destruct (finalize_wav e w _ _) as [[w' f'] [fs|err]]; cbn; rewrite Hres; reflexivity.
Qed.

(** Once [Close] has returned, whatever it returned, the stream is marked
    closed. *)
Lemma Recorder_Close_marks (e : OS.env) (w w' : OS.world)
    (rs rs' : Recorder.RecorderStream) (err : option string) :
  Recorder.Close e w rs = Ret (w', rs', err) -> Recorder.isClosed rs' = true.
Proof.
  unfold Recorder.Close. destruct (Recorder.isClosed rs) eqn:Hc.
  - intros [= <- <- <-]. exact Hc.
  - destruct (finalize_wav e w _ _) as [[w1 f1] [fs|msg]]; cbn.
    + destruct (chan_send _ _) as [ch| |]; cbn; try discriminate.
      destruct (chan_close ch) as [ch'| |]; cbn; try discriminate.
      intros [= <- <- <-]. reflexivity.
    + intros [= <- <- <-]. reflexivity.
Qed.

(** A second [Close] on a recorder stream does nothing and returns [nil]. *)
Lemma Recorder_Close_again (e : OS.env) (w : OS.world) (rs : Recorder.RecorderStream) :
  Recorder.isClosed rs = true -> Recorder.Close e w rs = Ret (w, rs, None).
Proof. intros Hc. unfold Recorder.Close. rewrite Hc. reflexivity. Qed.

(** [Write] on a closed recorder stream is refused before any system call. *)
Lemma Recorder_Write_closed (e : OS.env) (w : OS.world) (rs : Recorder.RecorderStream)
    (buffer : list byte) :
  Recorder.isClosed rs = true ->
  Recorder.Write e w rs buffer = (w, rs, (0%nat, Some "stream is closed")).
Proof. intros Hc. unfold Recorder.Write. rewrite Hc. reflexivity. Qed.

Lemma Whisper_Close_marks (e : OS.env) (w w' : OS.world)
    (ws ws' : Whisper.WhisperStream) (err : option string) :
  Whisper.Close e w ws = Ret (w', ws', err) -> Whisper.isClosed ws' = true.
Proof.
  unfold Whisper.Close. destruct (Whisper.isClosed ws) eqn:Hc.
  - intros [= <- <- <-]. exact Hc.
  - destruct (finalize_wav e w _ _) as [[w1 f1] [fs|msg]]; cbn;
      [|intros [= <- <- <-]; reflexivity].
    destruct (fs =? 44)%Z.
    { destruct (OS.Remove e w1 _) as [w2 ?].
      destruct (chan_close _) as [ch| |]; cbn; try discriminate.
      intros [= <- <- <-]. reflexivity. }
    destruct (negb (Whisper.transcribe ws)).
    { destruct (chan_send _ _) as [ch| |]; cbn; try discriminate.
      destruct (chan_close ch) as [ch'| |]; cbn; try discriminate.
      intros [= <- <- <-]. reflexivity. }
    destruct (Whisper.transcribeAudio e w1 _ _) as [[w2 [[text tf] r]]| |];
      cbn; try discriminate.
    destruct (match r with Some _ => _ | None => _ end) as [ch| |];
      cbn; try discriminate.
    destruct (chan_close ch) as [ch'| |]; cbn; try discriminate.
    intros [= <- <- <-]. reflexivity.
Qed.

Lemma Whisper_Close_again (e : OS.env) (w : OS.world) (ws : Whisper.WhisperStream) :
  Whisper.isClosed ws = true -> Whisper.Close e w ws = Ret (w, ws, None).
Proof. intros Hc. unfold Whisper.Close. rewrite Hc. reflexivity. Qed.

Lemma Whisper_Write_closed (e : OS.env) (w : OS.world) (ws : Whisper.WhisperStream)
    (buffer : list byte) :
  Whisper.isClosed ws = true ->
  Whisper.Write e w ws buffer = (w, ws, (0%nat, Some "stream is closed")).
Proof. intros Hc. unfold Whisper.Write. rewrite Hc. reflexivity. Qed.

(** The finalized file of a stream that holds [audio] after its header. *)
Lemma finalized_file (e : OS.env) (w w' : OS.world) (f f' : OS.File)
    (path : string) (audio : list byte) (fileSize : Z) :
  on_disk w f path (header_bytes new_header ++ audio) ->
  finalize_wav e w f path = (w', f', inl fileSize) ->
  fileSize = uint32 (44 + Z.of_nat (length audio))
  ∧ OS.disk w' !! path
    = Some (patched_header (fileSize - 8) (fileSize - 44) ++ audio)%list.
Proof.
  intros Hon Hfin.
  destruct (finalize_wav_inv _ _ _ _ _ _ _ _ Hon Hfin) as (Hfs & _ & Hdisk & _).
  rewrite length_app, length_header_bytes, Nat2Z.inj_add in Hfs.
  split; [exact Hfs|].
  rewrite Hdisk, lookup_insert_eq, patched_twice. reflexivity.
Qed.

(** Its length and its two size fields, when the size fits 32 bits. *)
Lemma finalized_sizes (audio : list byte) :
  44 + Z.of_nat (length audio) < 2 ^ 32 ->
  let fileSize := uint32 (44 + Z.of_nat (length audio)) in
  let file := (patched_header (fileSize - 8) (fileSize - 44) ++ audio)%list in
  Z.of_nat (length file) = 44 + Z.of_nat (length audio)
  ∧ wav_dataSize file = Z.of_nat (length audio)
  ∧ wav_chunkSize file = Z.of_nat (length file) - 8.
Proof.
  intros Hfit fileSize file.
  assert (Hfs : fileSize = 44 + Z.of_nat (length audio)).
  { unfold fileSize, uint32. apply Z.mod_small. lia. }
  assert (Hlen : Z.of_nat (length file) = 44 + Z.of_nat (length audio)).
  { unfold file. rewrite length_app, length_patched_header. lia. }
  split; [exact Hlen|]. unfold file. split.
  - rewrite wav_dataSize_patched; lia.
  - rewrite wav_chunkSize_patched; [|lia].
    fold file. lia.
Qed.

End BatchStreams.

(** ** The result a recorder stream delivers *)

Section RecorderResult.

(** [Write] leaves the stream open, its channel and its name as they are,
    whether it succeeds or not. *)
Lemma Recorder_Write_keeps_open (e : OS.env) (w w' : OS.world)
    (rs rs' : Recorder.RecorderStream) (buffer : list byte)
    (r : nat * option string) :
  Recorder_open rs ->
  Recorder.Write e w rs buffer = (w', rs', r) ->
  Recorder_open rs' ∧ Recorder.fileName rs' = Recorder.fileName rs.
Proof.
  intros [Hopen Hres]. unfold Recorder.Write. rewrite Hopen.
  destruct (OS.Write e w (Recorder.file rs) buffer) as [[w1 f1] [k [err|]]];
    intros [= <- <- <-]; cbn; rewrite ?Hopen; repeat split; assumption.
Qed.

Lemma Recorder_after_writes_keeps_open (e : OS.env) (buffers : list (list byte)) :
  ∀ (w w' : OS.world) (rs rs' : Recorder.RecorderStream),
    Recorder_open rs ->
    Recorder_after_writes e w rs buffers = (w', rs') ->
    Recorder_open rs' ∧ Recorder.fileName rs' = Recorder.fileName rs.
Proof.
  induction buffers as [|buffer rest IH]; intros w w' rs rs' Hopen Hall.
  - injection Hall as <- <-. auto.
  - cbn in Hall.
    destruct (Recorder.Write e w rs buffer) as [[w1 rs1] r] eqn:Hw.
    destruct (Recorder_Write_keeps_open _ _ _ _ _ _ _ Hopen Hw) as [Hopen1 Hname1].
    destruct (IH _ _ _ _ Hopen1 Hall) as [Hopen2 Hname2].
    split; [exact Hopen2|congruence].
Qed.

(** C10, amended.  A recorder stream is created by [CreateStream] and
    written to any number of times, with whatever outcome; [Close] is
    called on it for the first time and returns [nil].  Then [Close] has
    pushed exactly one [Result] onto the channel and closed it: after the
    call the channel is closed and holds that single value, whose text is
    the name the WAV file was created under, the last element of its path,
    whose confidence is 1.0, which is final, and whose [AudioFile] and
    [TextFile] are empty. *)
Theorem recorder_close_delivers_one_result
    (e : OS.env) (ts : string) (w0 w1 w w' : OS.world)
    (r r1 : Recorder.RecorderTranscriber) (rs0 rs rs' : Recorder.RecorderStream)
    (buffers : list (list byte)) :
  Recorder.CreateStream e ts w0 r = (w1, r1, inl rs0) ->
  Recorder_after_writes e w1 rs0 buffers = (w, rs) ->
  Recorder.Close e w rs = Ret (w', rs', None) ->
  Recorder.Results rs'
    = MkChan [MkResult (Recorder.fileName rs0) 1%Q true "" ""] 1 true
  ∧ Recorder.filePath rs0
    = filepath_Join (Recorder.outputDir r) (Recorder.fileName rs0).
Proof.
  intros Hcreate Hwrites Hclose.
  destruct (Recorder_CreateStream_inv _ _ _ _ _ _ _ Hcreate) as (_ & Hopen0 & Hpath).
  destruct (Recorder_after_writes_keeps_open _ _ _ _ _ _ Hopen0 Hwrites)
    as [Hopen Hname].
  rewrite (Recorder_Close_eq _ _ _ Hopen) in Hclose.
  destruct (finalize_wav e w _ _) as [[wf f1] [fs|msg]]; [|discriminate].
  injection Hclose as <- <-. cbn. rewrite Hname. split; [reflexivity|exact Hpath].
Qed.

Lemma recorder_close_delivers_one_result_witness :
  Recorder.CreateStream Fixture.env0 Fixture.now Fixture.world0 Fixture.recorder0
  = ((Fixture.recorder_created Fixture.env0).1, Recorder.MkTranscriber "./recordings" 1,
     inl (Fixture.recorder_created Fixture.env0).2)
  ∧ Recorder_after_writes Fixture.env0 (Fixture.recorder_created Fixture.env0).1
      (Fixture.recorder_created Fixture.env0).2 Fixture.two_chunks
    = Fixture.recorder_written Fixture.env0 Fixture.two_chunks
  ∧ Recorder.Close Fixture.env0 (Fixture.recorder_written Fixture.env0 Fixture.two_chunks).1
      (Fixture.recorder_written Fixture.env0 Fixture.two_chunks).2
    = Ret ((Fixture.recorder_closed Fixture.env0 Fixture.two_chunks).1,
           (Fixture.recorder_closed Fixture.env0 Fixture.two_chunks).2, None)
  ∧ Recorder.Results (Fixture.recorder_closed Fixture.env0 Fixture.two_chunks).2
    = MkChan [MkResult "recording_20250827_161500_001.wav" 1%Q true "" ""] 1 true.
Proof.
  assert (Hcreate :
    Recorder.CreateStream Fixture.env0 Fixture.now Fixture.world0 Fixture.recorder0
    = ((Fixture.recorder_created Fixture.env0).1,
       Recorder.MkTranscriber "./recordings" 1,
       inl (Fixture.recorder_created Fixture.env0).2))
    by (vm_compute; reflexivity).
  assert (Hwrites :
    Recorder_after_writes Fixture.env0 (Fixture.recorder_created Fixture.env0).1
      (Fixture.recorder_created Fixture.env0).2 Fixture.two_chunks
    = ((Fixture.recorder_written Fixture.env0 Fixture.two_chunks).1,
       (Fixture.recorder_written Fixture.env0 Fixture.two_chunks).2))
    by (vm_compute; reflexivity).
  assert (Hclose :
    Recorder.Close Fixture.env0
      (Fixture.recorder_written Fixture.env0 Fixture.two_chunks).1
      (Fixture.recorder_written Fixture.env0 Fixture.two_chunks).2
    = Ret ((Fixture.recorder_closed Fixture.env0 Fixture.two_chunks).1,
           (Fixture.recorder_closed Fixture.env0 Fixture.two_chunks).2, None))
    by (vm_compute; reflexivity).
  split; [exact Hcreate|]. split; [vm_compute; reflexivity|]. split; [exact Hclose|].
  exact (proj1 (recorder_close_delivers_one_result _ _ _ _ _ _ _ _ _ _ _ _
                  Hcreate Hwrites Hclose)).
Defined.

(** C10 as stated fails.  On a machine whose [Stat] fails, the first
    [Close] of a recorder stream returns an error after marking the stream
    closed; a second [Close] then returns [nil] at once: no [Result] was
    pushed and the channel is not closed. *)
Lemma recorder_close_after_failed_close_counterexample :
  ∃ w1 rs1 w2 rs2,
    Recorder.Close Fixture.env_stat_fails
      (Fixture.recorder_written Fixture.env_stat_fails Fixture.two_chunks).1
      (Fixture.recorder_written Fixture.env_stat_fails Fixture.two_chunks).2
    = Ret (w1, rs1, Some "failed to get file info: input/output error")
    ∧ Recorder.Close Fixture.env_stat_fails w1 rs1 = Ret (w2, rs2, None)
    ∧ ¬ (∃ result, ch_buf (Recorder.Results rs2) = [result])
    ∧ ¬ (ch_closed (Recorder.Results rs2) = true).
Proof.
  destruct (Recorder.Close Fixture.env_stat_fails
              (Fixture.recorder_written Fixture.env_stat_fails Fixture.two_chunks).1
              (Fixture.recorder_written Fixture.env_stat_fails Fixture.two_chunks).2)
    as [[[w1 rs1] [err|]]|msg|] eqn:Hfirst; try (vm_compute in Hfirst; discriminate).
  exists w1, rs1, w1, rs1.
  pose proof (Recorder_Close_marks _ _ _ _ _ _ Hfirst) as Hmarked.
  vm_compute in Hfirst. injection Hfirst as <- <- <-.
  split; [reflexivity|].
  split; [apply Recorder_Close_again; exact Hmarked|].
  split; [intros [result Hone]; vm_compute in Hone; discriminate Hone|].
  vm_compute. discriminate.
Qed.

End RecorderResult.

(** ** The size fields of the finalized file *)

Section WavSizes.

Lemma total_size_length (chunks : list (list byte)) :
  total_size chunks = Z.of_nat (length (concat chunks)).
Proof. reflexivity. Qed.

Lemma wav_sizes_of_finalized (e : OS.env) (w w' : OS.world) (f f' : OS.File)
    (path : string) (chunks : list (list byte)) (fileSize : Z) :
  44 + total_size chunks < 2 ^ 32 ->
  on_disk w f path (header_bytes new_header ++ concat chunks) ->
  finalize_wav e w f path = (w', f', inl fileSize) ->
  fileSize = 44 + total_size chunks
  ∧ ∃ file, OS.disk w' !! path = Some file ∧ wav_sizes_match file chunks.
Proof.
  intros Hfit Hon Hfin.
  destruct (finalized_file _ _ _ _ _ _ _ _ Hon Hfin) as [Hfs Hdisk].
  fold (total_size chunks) in Hfs.
  split.
  - rewrite Hfs. apply Z.mod_small. unfold total_size in *. lia.
  - eexists. split; [exact Hdisk|]. rewrite Hfs.
    apply (finalized_sizes (concat chunks) Hfit).
Qed.

(** C3, amended.  Chunks of fewer than 2^32 - 44 bytes in all are written to
    a batch stream, and [Close] returns [nil].  Recorder: the file on disk
    is 44 bytes longer than the chunks, its field at offset 40 holds their
    total length and its field at offset 4 the file size less 8.  Whisper:
    the same holds of the file as [Close] finalizes it, which is the file
    recognition and the retention flags then work on. *)
Theorem wav_sizes_after_close (e : OS.env) (ts : string) (chunks : list (list byte)) :
  44 + total_size chunks < 2 ^ 32 ->
  (∀ w r w1 r1 rs w2 rs2 w3 rs3,
     Recorder.CreateStream e ts w r = (w1, r1, inl rs) ->
     Recorder_write_all e w1 rs chunks = Some (w2, rs2) ->
     Recorder.Close e w2 rs2 = Ret (w3, rs3, None) ->
     ∃ file, OS.disk w3 !! Recorder.filePath rs = Some file
             ∧ wav_sizes_match file chunks)
  ∧ (∀ w t opts w1 t1 ws w2 ws2 w3 ws3,
       Whisper.CreateStreamWithOptions e ts w t opts = (w1, t1, inl ws) ->
       Whisper_write_all e w1 ws chunks = Some (w2, ws2) ->
       Whisper.Close e w2 ws2 = Ret (w3, ws3, None) ->
       ∃ w' f' file,
         finalize_wav e w2 (Whisper.file ws2) (Whisper.filePath ws)
           = (w', f', inl (44 + total_size chunks))
         ∧ OS.disk w' !! Whisper.filePath ws = Some file
         ∧ wav_sizes_match file chunks).
Proof.
  intros Hfit. split.
  - intros w r w1 r1 rs w2 rs2 w3 rs3 Hcreate Hwrite Hclose.
    destruct (Recorder_CreateStream_inv _ _ _ _ _ _ _ Hcreate) as (Hon & Hopen & _).
    destruct (Recorder_write_all_inv _ _ _ _ _ _ _ Hopen Hon Hwrite)
      as (Hon2 & Hopen2 & Hpath & _).
    rewrite (Recorder_Close_eq _ _ _ Hopen2) in Hclose.
    destruct (finalize_wav e w2 _ _) as [[wf ff] [fs|msg]] eqn:Hfin; [|discriminate].
    injection Hclose as <- <-.
    rewrite <- Hpath.
    apply (wav_sizes_of_finalized _ _ _ _ _ _ _ _ Hfit Hon2 Hfin).
  - intros w t opts w1 t1 ws w2 ws2 w3 ws3 Hcreate Hwrite Hclose.
    destruct (Whisper_CreateStreamWithOptions_inv _ _ _ _ _ _ _ _ Hcreate)
      as (Hon & Hopen & _).
    destruct (Whisper_write_all_inv _ _ _ _ _ _ _ Hopen Hon Hwrite)
      as (Hon2 & [Hopen2 _] & Hpath & _).
    unfold Whisper.Close in Hclose. rewrite Hopen2, Hpath in Hclose.
    rewrite Hpath in Hon2.
    destruct (finalize_wav e w2 _ _) as [[wf ff] [fs|msg]] eqn:Hfin; [|discriminate].
    destruct (wav_sizes_of_finalized _ _ _ _ _ _ _ _ Hfit Hon2 Hfin)
      as (-> & file & Hfile & Hsizes).
    exists wf, ff, file. auto.
Qed.

(** The scenario of the specification: three chunks of 3200 bytes give a
    file of 9644 bytes, on either backend. *)
Lemma wav_sizes_after_close_witness :
  44 + total_size Fixture.three_chunks < 2 ^ 32
  ∧ (∃ file,
       OS.disk (Fixture.recorder_closed Fixture.env0 Fixture.three_chunks).1
         !! Recorder.filePath (Fixture.recorder_created Fixture.env0).2 = Some file
       ∧ Z.of_nat (length file) = 9644 ∧ wav_dataSize file = 9600
       ∧ wav_chunkSize file = 9636)
  ∧ (∃ w' f' file,
       finalize_wav Fixture.env0
         (Fixture.whisper_written Fixture.env0 Fixture.whisper0 Fixture.transcribing
            Fixture.three_chunks).1
         (Whisper.file (Fixture.whisper_written Fixture.env0 Fixture.whisper0
                          Fixture.transcribing Fixture.three_chunks).2)
         (Whisper.filePath (Fixture.whisper_created Fixture.env0 Fixture.whisper0
                              Fixture.transcribing).2)
         = (w', f', inl 9644)
       ∧ OS.disk w' !! Whisper.filePath (Fixture.whisper_created Fixture.env0
                                           Fixture.whisper0 Fixture.transcribing).2
         = Some file
       ∧ Z.of_nat (length file) = 9644 ∧ wav_dataSize file = 9600
       ∧ wav_chunkSize file = 9636).
Proof.
  assert (Hfit : 44 + total_size Fixture.three_chunks < 2 ^ 32)
    by (vm_compute; reflexivity).
  split; [exact Hfit|].
  destruct (wav_sizes_after_close Fixture.env0 Fixture.now Fixture.three_chunks Hfit)
    as [Hrec Hwh].
  split.
  - destruct (Hrec Fixture.world0 Fixture.recorder0
                (Fixture.recorder_created Fixture.env0).1
                (Recorder.MkTranscriber "./recordings" 1)
                (Fixture.recorder_created Fixture.env0).2
                (Fixture.recorder_written Fixture.env0 Fixture.three_chunks).1
                (Fixture.recorder_written Fixture.env0 Fixture.three_chunks).2
                (Fixture.recorder_closed Fixture.env0 Fixture.three_chunks).1
                (Fixture.recorder_closed Fixture.env0 Fixture.three_chunks).2)
      as (file & Hfile & Hlen & Hdata & Hchunk);
      [vm_compute; reflexivity ..|].
    exists file. rewrite Hchunk, Hdata, Hlen. repeat split; assumption || reflexivity.
  - destruct (Hwh Fixture.world0 Fixture.whisper0 Fixture.transcribing
                (Fixture.whisper_created Fixture.env0 Fixture.whisper0
                   Fixture.transcribing).1
                (Whisper.MkTranscriber "small" "/usr/local/bin/whisper" "./output"
                   "auto" 1 true true)
                (Fixture.whisper_created Fixture.env0 Fixture.whisper0
                   Fixture.transcribing).2
                (Fixture.whisper_written Fixture.env0 Fixture.whisper0
                   Fixture.transcribing Fixture.three_chunks).1
                (Fixture.whisper_written Fixture.env0 Fixture.whisper0
                   Fixture.transcribing Fixture.three_chunks).2
                (Fixture.whisper_closed Fixture.env0 Fixture.whisper0
                   Fixture.transcribing Fixture.three_chunks).1
                (Fixture.whisper_closed Fixture.env0 Fixture.whisper0
                   Fixture.transcribing Fixture.three_chunks).2)
      as (w' & f' & file & Hfin & Hfile & Hlen & Hdata & Hchunk);
      [vm_compute; reflexivity ..|].
    exists w', f', file. rewrite Hchunk, Hdata, Hlen.
    repeat split; assumption || reflexivity.
Defined.

End WavSizes.

(** ** Files of four gibibytes and more *)

Section FourGiB.

Lemma io_ok_env0 (path : string) : io_ok Fixture.env0 path.
Proof. repeat split. Qed.

Lemma Recorder_Write_ok (e : OS.env) (w : OS.world) (rs : Recorder.RecorderStream)
    (c buffer : list byte) :
  io_ok e (Recorder.filePath rs) ->
  Recorder_open rs ->
  on_disk w (Recorder.file rs) (Recorder.filePath rs) c ->
  ∃ w' rs', Recorder.Write e w rs buffer = (w', rs', (length buffer, None)).
Proof.
  intros (_ & _ & Hwrite & _) [Hopen _] (Hpath & Hfd & _).
  unfold Recorder.Write, OS.Write. rewrite Hopen, Hfd, Hpath, Hwrite. eauto.
Qed.

Lemma Whisper_Write_ok (e : OS.env) (w : OS.world) (ws : Whisper.WhisperStream)
    (c buffer : list byte) :
  io_ok e (Whisper.filePath ws) ->
  Whisper_open ws ->
  on_disk w (Whisper.file ws) (Whisper.filePath ws) c ->
  ∃ w' ws', Whisper.Write e w ws buffer = (w', ws', (length buffer, None)).
Proof.
  intros (_ & _ & Hwrite & _) [Hopen _] (Hpath & Hfd & _).
  unfold Whisper.Write, OS.Write. rewrite Hopen, Hfd, Hpath, Hwrite. eauto.
Qed.

Lemma length_four_GiB :
  Z.of_nat (length Fixture.four_GiB_of_silence) = 2 ^ 32.
Proof.
  unfold Fixture.four_GiB_of_silence.
  rewrite length_replicate. apply Z2Nat.id. apply Z.pow_nonneg. lia.
Qed.

Lemma total_size_single (chunk : list byte) :
  total_size [chunk] = Z.of_nat (length chunk).
Proof. unfold total_size. cbn [concat]. rewrite app_nil_r. reflexivity. Qed.

(** A recording of exactly 2^32 bytes is measured as a bare header. *)
Lemma measured_as_empty (audio : list byte) :
  Z.of_nat (length audio) = 2 ^ 32 ->
  uint32 (Z.of_nat (length (header_bytes new_header ++ audio))) = 44.
Proof.
  intros Hlen. rewrite length_app, length_header_bytes, Nat2Z.inj_add, Hlen.
  reflexivity.
Qed.

Lemma recorder_sizes_wrap (audio : list byte) :
  Z.of_nat (length audio) = 2 ^ 32 ->
  ∃ w1 r1 rs w2 rs2 w3 rs3 file,
    Recorder.CreateStream Fixture.env0 Fixture.now Fixture.world0 Fixture.recorder0
      = (w1, r1, inl rs)
    ∧ Recorder_write_all Fixture.env0 w1 rs [audio] = Some (w2, rs2)
    ∧ Recorder.Close Fixture.env0 w2 rs2 = Ret (w3, rs3, None)
    ∧ OS.disk w3 !! Recorder.filePath rs = Some file
    ∧ ¬ wav_sizes_match file [audio].
Proof.
  intros Hlen.
  destruct (Recorder.CreateStream Fixture.env0 Fixture.now Fixture.world0
              Fixture.recorder0) as [[w1 r1] [rs|err]] eqn:Hcreate;
    [|vm_compute in Hcreate; discriminate].
  destruct (Recorder_CreateStream_inv _ _ _ _ _ _ _ Hcreate) as (Hon & Hopen & _).
  destruct (Recorder_Write_ok Fixture.env0 w1 rs _ audio (io_ok_env0 _) Hopen Hon)
    as (w2 & rs2 & Hwrite).
  destruct (Recorder_Write_inv _ _ _ _ _ _ _ _ Hopen Hon Hwrite)
    as (Hon2 & Hopen2 & Hpath & _).
  pose proof (measured_as_empty audio Hlen) as Hsize.
  destruct (finalize_wav_ok Fixture.env0 w2 _ _ _ (io_ok_env0 _) Hon2) as (w3 & f3 & Hfin).
  { rewrite Hsize. lia. }
  rewrite Hsize in Hfin.
  destruct (finalized_file _ _ _ _ _ _ _ _ Hon2 Hfin) as [_ Hfile].
  eexists w1, r1, rs, w2, rs2, w3, _, _.
  split; [reflexivity|]. split.
  { unfold Recorder_write_all. rewrite Hwrite. reflexivity. }
  split.
  { rewrite (Recorder_Close_eq _ _ _ Hopen2), Hfin. reflexivity. }
  split.
  { rewrite <- Hpath. exact Hfile. }
  intros (_ & Hdata & _).
  rewrite wav_dataSize_patched, total_size_single, Hlen in Hdata by lia.
  discriminate Hdata.
Qed.

(** C3 as stated fails.  Recorder stream, one chunk of 2^32 zero bytes,
    healthy machine: [Close] returns [nil] and leaves a file whose data-size
    field holds 0, not the 4294967296 bytes that were written. *)
Lemma wav_sizes_counterexample :
  ∃ w1 r1 rs w2 rs2 w3 rs3 file,
    Recorder.CreateStream Fixture.env0 Fixture.now Fixture.world0 Fixture.recorder0
      = (w1, r1, inl rs)
    ∧ Recorder_write_all Fixture.env0 w1 rs [Fixture.four_GiB_of_silence] = Some (w2, rs2)
    ∧ Recorder.Close Fixture.env0 w2 rs2 = Ret (w3, rs3, None)
    ∧ OS.disk w3 !! Recorder.filePath rs = Some file
    ∧ ¬ wav_sizes_match file [Fixture.four_GiB_of_silence].
Proof. exact (recorder_sizes_wrap Fixture.four_GiB_of_silence length_four_GiB). Qed.

End FourGiB.

(** ** [Close] of a Whisper stream, case by case *)

Section WhisperClose.

Ltac no_exec_here :=
  intros ? ? Hin;
  repeat (apply elem_of_cons in Hin as [Hin|Hin]; [discriminate Hin|]);
  apply elem_of_nil in Hin; exact Hin.

Lemma no_exec_finalize (path : string) (a b : list byte) :
  no_exec [OS.SysStat path; OS.SysSeek path 4; OS.SysWrite path 4 a;
           OS.SysSeek path 40; OS.SysWrite path 40 b; OS.SysClose path].
Proof. no_exec_here. Qed.

Lemma no_exec_finalize_remove (path : string) (a b : list byte) :
  no_exec [OS.SysStat path; OS.SysSeek path 4; OS.SysWrite path 4 a;
           OS.SysSeek path 40; OS.SysWrite path 40 b; OS.SysClose path;
           OS.SysRemove path].
Proof. no_exec_here. Qed.

(** The finalization on a healthy machine: its result, the file it leaves
    and the calls it makes. *)
Lemma finalize_wav_run (e : OS.env) (w : OS.world) (f : OS.File)
    (path : string) (audio : list byte) :
  io_ok e path ->
  on_disk w f path (header_bytes new_header ++ audio) ->
  let fileSize := uint32 (44 + Z.of_nat (length audio)) in
  44 <= fileSize ->
  ∃ w' f',
    finalize_wav e w f path = (w', f', inl fileSize)
    ∧ OS.disk w' !! path
      = Some (patched_header (fileSize - 8) (fileSize - 44) ++ audio)%list
    ∧ OS.trace w' = (OS.trace w ++
        [OS.SysStat path; OS.SysSeek path 4;
         OS.SysWrite path 4 (le32 (fileSize - 8)); OS.SysSeek path 40;
         OS.SysWrite path 40 (le32 (fileSize - 44)); OS.SysClose path])%list.
Proof.
  intros Hio Hon fileSize Hbig.
  assert (Hsz : uint32 (Z.of_nat (length (header_bytes new_header ++ audio)))
                = fileSize).
  { rewrite length_app, length_header_bytes, Nat2Z.inj_add. reflexivity. }
  destruct (finalize_wav_ok e w f path _ Hio Hon) as (w' & f' & Hfin).
  { rewrite Hsz. exact Hbig. }
  rewrite Hsz in Hfin. exists w', f'. split; [exact Hfin|].
  destruct (finalize_wav_inv _ _ _ _ _ _ _ _ Hon Hfin) as (_ & _ & _ & _ & Htrace).
  destruct (finalized_file _ _ _ _ _ _ _ _ Hon Hfin) as [_ Hfile].
  auto.
Qed.

Lemma Whisper_Close_empty (e : OS.env) (w w1 : OS.world) (ws : Whisper.WhisperStream)
    (f1 : OS.File) :
  Whisper_open ws ->
  finalize_wav e w (Whisper.file ws) (Whisper.filePath ws) = (w1, f1, inl 44) ->
  Whisper.Close e w ws
  = Ret ((OS.Remove e w1 (Whisper.filePath ws)).1,
         Whisper.MkStream (Whisper.filePath ws) f1 (MkChan [] 10 true)
           (Whisper.transcriber ws) (Whisper.stream_language ws)
           (Whisper.transcribe ws) true,
         None).
Proof.
  intros [Hopen Hres] Hfin. unfold Whisper.Close. rewrite Hopen, Hfin. cbn.
  destruct (OS.Remove e w1 (Whisper.filePath ws)) as [w2 r]. cbn.
  rewrite Hres. reflexivity.
Qed.

Lemma Whisper_Close_record_only (e : OS.env) (w w1 : OS.world)
    (ws : Whisper.WhisperStream) (f1 : OS.File) (fileSize : Z) :
  Whisper_open ws ->
  finalize_wav e w (Whisper.file ws) (Whisper.filePath ws) = (w1, f1, inl fileSize) ->
  fileSize ≠ 44 ->
  Whisper.transcribe ws = false ->
  Whisper.Close e w ws
  = Ret (w1,
         Whisper.MkStream (Whisper.filePath ws) f1
           (MkChan [MkResult "Recording saved (transcription disabled)" 1%Q true
                      (Whisper.filePath ws) ""] 10 true)
           (Whisper.transcriber ws) (Whisper.stream_language ws) false true,
         None).
Proof.
  intros [Hopen Hres] Hfin Hne Htr. unfold Whisper.Close. rewrite Hopen, Hfin. cbn.
  apply Z.eqb_neq in Hne. rewrite Hne, Htr. cbn. rewrite Hres. reflexivity.
Qed.

(** [transcribeAudio] reads only the transcriber and the language of the
    stream. *)
Lemma transcribeAudio_reads (e : OS.env) (w : OS.world)
    (ws ws' : Whisper.WhisperStream) (path : string) :
  Whisper.transcriber ws = Whisper.transcriber ws' ->
  Whisper.stream_language ws = Whisper.stream_language ws' ->
  Whisper.transcribeAudio e w ws path = Whisper.transcribeAudio e w ws' path.
Proof. intros Ht Hl. unfold Whisper.transcribeAudio. rewrite Ht, Hl. reflexivity. Qed.

Lemma Whisper_Close_transcribe (e : OS.env) (w w1 w2 : OS.world)
    (ws : Whisper.WhisperStream) (f1 : OS.File) (fileSize : Z)
    (text textFile : string) (err : option string) :
  Whisper_open ws ->
  finalize_wav e w (Whisper.file ws) (Whisper.filePath ws) = (w1, f1, inl fileSize) ->
  fileSize ≠ 44 ->
  Whisper.transcribe ws = true ->
  Whisper.transcribeAudio e w1 ws (Whisper.filePath ws)
    = Ret (w2, (text, textFile, err)) ->
  Whisper.Close e w ws
  = Ret ((if Whisper.keepWav (Whisper.transcriber ws) then w2
          else (OS.Remove e w2 (Whisper.filePath ws)).1),
         Whisper.MkStream (Whisper.filePath ws) f1
           (MkChan [recognition_result (Whisper.filePath ws) text textFile err] 10 true)
           (Whisper.transcriber ws) (Whisper.stream_language ws) true true,
         None).
Proof.
  intros [Hopen Hres] Hfin Hne Htr Hrun. unfold Whisper.Close.
  rewrite Hopen, Hfin. cbn.
  apply Z.eqb_neq in Hne. rewrite Hne, Htr. cbn.
  rewrite (transcribeAudio_reads e w1 _ ws) by reflexivity.
  rewrite Hrun. cbn. rewrite Hres.
  destruct err; reflexivity.
Qed.

(** When the external program fails, or is not configured, recognition
    returns an error, and it has removed no file. *)
Lemma transcribeAudio_fails (e : OS.env) (w : OS.world) (ws : Whisper.WhisperStream)
    (path : string) :
  recognizer_fails e ->
  ∃ w' msg, Whisper.transcribeAudio e w ws path = Ret (w', ("", "", Some msg)).
Proof.
  intros Hfail. unfold Whisper.transcribeAudio.
  destruct (decide (Whisper.whisperPath (Whisper.transcriber ws) = "")); [eauto|].
  unfold OS.CombinedOutput.
  match goal with |- context [OS.exec_run e ?p ?a ?d] =>
    destruct (Hfail p a d) as (out & err & d' & ->) end.
  eauto.
Qed.

End WhisperClose.

(** ** Streams closed without audio *)

Section EmptyStreams.

Lemma uint32_44 : uint32 (44 + Z.of_nat (length (@nil byte))) = 44.
Proof. reflexivity. Qed.

Lemma on_disk_no_audio (w : OS.world) (f : OS.File) (path : string) :
  on_disk w f path (header_bytes new_header) ->
  on_disk w f path (header_bytes new_header ++ []).
Proof. rewrite app_nil_r. auto. Qed.

Lemma whisper_empty_close (e : OS.env) (ts : string) (w w1 : OS.world)
    (t t1 : Whisper.WhisperTranscriber) (opts : StreamOptions)
    (ws : Whisper.WhisperStream) :
  Whisper.CreateStreamWithOptions e ts w t opts = (w1, t1, inl ws) ->
  io_ok e (Whisper.filePath ws) ->
  ∃ w2 ws2 calls,
    Whisper.Close e w1 ws = Ret (w2, ws2, None)
    ∧ Whisper.Results ws2 = MkChan [] 10 true
    ∧ OS.disk w2 !! Whisper.filePath ws = None
    ∧ OS.trace w2 = (OS.trace w1 ++ calls)%list ∧ no_exec calls.
Proof.
  intros Hcreate Hio.
  destruct (Whisper_CreateStreamWithOptions_inv _ _ _ _ _ _ _ _ Hcreate)
    as (Hon & Hopen & _).
  apply on_disk_no_audio in Hon.
  destruct (finalize_wav_run e w1 _ _ [] Hio Hon) as (wf & ff & Hfin & Hfile & Htrace).
  { rewrite uint32_44. lia. }
  rewrite uint32_44 in Hfin, Htrace, Hfile.
  rewrite (Whisper_Close_empty _ _ _ _ _ Hopen Hfin).
  destruct Hio as (_ & _ & _ & _ & Hremove).
  unfold OS.Remove, OS.log. cbn. rewrite Hremove, Hfile. cbn.
  eexists _, _, _. split; [reflexivity|]. split; [reflexivity|].
  split; [apply lookup_delete_eq|]. rewrite Htrace, <- app_assoc.
  split; [reflexivity|]. apply no_exec_finalize_remove.
Qed.

Lemma recorder_empty_close (e : OS.env) (ts : string) (w w1 : OS.world)
    (r r1 : Recorder.RecorderTranscriber) (rs : Recorder.RecorderStream) :
  Recorder.CreateStream e ts w r = (w1, r1, inl rs) ->
  io_ok e (Recorder.filePath rs) ->
  ∃ w2 rs2 calls,
    Recorder.Close e w1 rs = Ret (w2, rs2, None)
    ∧ Recorder.Results rs2
      = MkChan [MkResult (Recorder.fileName rs) 1%Q true "" ""] 1 true
    ∧ OS.disk w2 !! Recorder.filePath rs = Some (patched_header 36 0)
    ∧ OS.trace w2 = (OS.trace w1 ++ calls)%list ∧ no_exec calls.
Proof.
  intros Hcreate Hio.
  destruct (Recorder_CreateStream_inv _ _ _ _ _ _ _ Hcreate) as (Hon & Hopen & _).
  apply on_disk_no_audio in Hon.
  destruct (finalize_wav_run e w1 _ _ [] Hio Hon) as (wf & ff & Hfin & Hfile & Htrace).
  { rewrite uint32_44. lia. }
  rewrite uint32_44 in Hfin, Htrace, Hfile. rewrite app_nil_r in Hfile.
  rewrite (Recorder_Close_eq _ _ _ Hopen), Hfin.
  eexists _, _, _. split; [reflexivity|]. split; [reflexivity|].
  split; [exact Hfile|]. split; [exact Htrace|]. apply no_exec_finalize.
Qed.

(** C4 on the code.  On a machine whose file operations succeed, a
    Whisper stream closed before any audio was written runs no recognizer,
    puts no [Result] at all on its channel before closing it, and removes
    its header-only file: the branch [fileSize == 44] of its [Close].  The
    [Close] of the recorder is the same code without that branch: a
    recorder stream closed before any audio was written runs no recognizer
    either, but it keeps its file of 44 bytes, patches both size fields,
    and sends the one [Result] that names it. *)
Theorem empty_stream_close (e : OS.env) (ts : string) :
  (∀ w t opts w1 t1 ws,
     Whisper.CreateStreamWithOptions e ts w t opts = (w1, t1, inl ws) ->
     io_ok e (Whisper.filePath ws) ->
     ∃ w2 ws2 calls,
       Whisper.Close e w1 ws = Ret (w2, ws2, None)
       ∧ Whisper.Results ws2 = MkChan [] 10 true
       ∧ OS.disk w2 !! Whisper.filePath ws = None
       ∧ OS.trace w2 = (OS.trace w1 ++ calls)%list ∧ no_exec calls)
  ∧ (∀ w r w1 r1 rs,
       Recorder.CreateStream e ts w r = (w1, r1, inl rs) ->
       io_ok e (Recorder.filePath rs) ->
       ∃ w2 rs2 calls,
         Recorder.Close e w1 rs = Ret (w2, rs2, None)
         ∧ Recorder.Results rs2
           = MkChan [MkResult (Recorder.fileName rs) 1%Q true "" ""] 1 true
         ∧ OS.disk w2 !! Recorder.filePath rs = Some (patched_header 36 0)
         ∧ OS.trace w2 = (OS.trace w1 ++ calls)%list ∧ no_exec calls).
Proof.
  split.
  - intros w t opts w1 t1 ws. apply whisper_empty_close.
  - intros w r w1 r1 rs. apply recorder_empty_close.
Qed.

(** The recorder at the failing input of C4.  A recorder stream is created
    on the healthy machine and closed at once: its file is still on disk and
    the channel holds a [Result] whose text is the name of that file. *)
Lemma empty_stream_discard_counterexample :
  Recorder.Close Fixture.env0 (Fixture.recorder_created Fixture.env0).1
      (Fixture.recorder_created Fixture.env0).2
    = Ret ((Fixture.recorder_closed Fixture.env0 []).1,
           (Fixture.recorder_closed Fixture.env0 []).2, None)
  ∧ ¬ (OS.disk (Fixture.recorder_closed Fixture.env0 []).1
         !! "./recordings/recording_20250827_161500_001.wav" = None)
  ∧ ¬ (ch_buf (Recorder.Results (Fixture.recorder_closed Fixture.env0 []).2) = [])
  ∧ Text <$> ch_buf (Recorder.Results (Fixture.recorder_closed Fixture.env0 []).2)
    = ["recording_20250827_161500_001.wav"].
Proof.
  split; [vm_compute; reflexivity|].
  split; [vm_compute; discriminate|].
  split; [vm_compute; discriminate|].
  vm_compute; reflexivity.
Qed.

End EmptyStreams.

(** ** Whisper streams that hold audio *)

Section WhisperWithAudio.

(** A Whisper stream as created and fed [chunks], ready for [Close]. *)
Lemma whisper_ready (e : OS.env) (ts : string) (w w1 w2 : OS.world)
    (t t1 : Whisper.WhisperTranscriber) (opts : StreamOptions)
    (ws ws2 : Whisper.WhisperStream) (chunks : list (list byte)) :
  Whisper.CreateStreamWithOptions e ts w t opts = (w1, t1, inl ws) ->
  Whisper_write_all e w1 ws chunks = Some (w2, ws2) ->
  on_disk w2 (Whisper.file ws2) (Whisper.filePath ws2)
    (header_bytes new_header ++ concat chunks)
  ∧ Whisper_open ws2
  ∧ Whisper.filePath ws2 = Whisper.filePath ws
  ∧ Whisper.transcribe ws2 = Transcribe opts.
Proof.
  intros Hcreate Hwrite.
  destruct (Whisper_CreateStreamWithOptions_inv _ _ _ _ _ _ _ _ Hcreate)
    as (Hon & Hopen & Htr & _).
  destruct (Whisper_write_all_inv _ _ _ _ _ _ _ Hopen Hon Hwrite)
    as (Hon2 & Hopen2 & Hpath & Htr2 & _).
  repeat split; try apply Hon2; try apply Hopen2; congruence.
Qed.

(** C6 as stated fails.  A Whisper stream created with transcription
    disabled receives 2^32 bytes of audio: [Close] measures a bare header,
    sends no [Result] and removes the recording. *)
Lemma whisper_record_only_wrap (audio : list byte) :
  Z.of_nat (length audio) = 2 ^ 32 ->
  ∃ w1 t1 ws w2 ws2 w3 ws3,
    Whisper.CreateStreamWithOptions Fixture.env0 Fixture.now Fixture.world0
      Fixture.whisper0 Fixture.record_only = (w1, t1, inl ws)
    ∧ Whisper_write_all Fixture.env0 w1 ws [audio] = Some (w2, ws2)
    ∧ Whisper.Close Fixture.env0 w2 ws2 = Ret (w3, ws3, None)
    ∧ ¬ (∃ result, ch_buf (Whisper.Results ws3) = [result])
    ∧ ¬ is_Some (OS.disk w3 !! Whisper.filePath ws).
Proof.
  intros Hlen.
  destruct (Whisper.CreateStreamWithOptions Fixture.env0 Fixture.now Fixture.world0
              Fixture.whisper0 Fixture.record_only) as [[w1 t1] [ws|err]] eqn:Hcreate;
    [|vm_compute in Hcreate; discriminate].
  destruct (Whisper_CreateStreamWithOptions_inv _ _ _ _ _ _ _ _ Hcreate)
    as (Hon & Hopen & _).
  destruct (Whisper_Write_ok Fixture.env0 w1 ws _ audio (io_ok_env0 _) Hopen Hon)
    as (w2 & ws2 & Hwrite).
  destruct (Whisper_Write_inv _ _ _ _ _ _ _ _ Hopen Hon Hwrite)
    as (Hon2 & Hopen2 & Hpath & _).
  destruct (finalize_wav_run Fixture.env0 w2 _ _ _ (io_ok_env0 _) Hon2)
    as (wf & ff & Hfin & Hfile & _).
  { rewrite Hlen. vm_compute. discriminate. }
  rewrite Hlen in Hfin, Hfile.
  change (uint32 (44 + 2 ^ 32)) with 44 in Hfin, Hfile.
  pose proof (Whisper_Close_empty _ _ _ _ _ Hopen2 Hfin) as Hclose.
  eexists w1, t1, ws, w2, ws2, _, _.
  split; [reflexivity|]. split.
  { unfold Whisper_write_all. rewrite Hwrite. reflexivity. }
  split; [exact Hclose|]. cbn. split.
  - intros [result Hone]. discriminate Hone.
  - unfold OS.Remove, OS.log. cbn. rewrite Hfile. cbn.
    rewrite <- Hpath, lookup_delete_eq. intros [x Hx]. discriminate Hx.
Qed.

Lemma record_only_counterexample :
  ∃ w1 t1 ws w2 ws2 w3 ws3,
    Whisper.CreateStreamWithOptions Fixture.env0 Fixture.now Fixture.world0
      Fixture.whisper0 Fixture.record_only = (w1, t1, inl ws)
    ∧ Whisper_write_all Fixture.env0 w1 ws [Fixture.four_GiB_of_silence] = Some (w2, ws2)
    ∧ Whisper.Close Fixture.env0 w2 ws2 = Ret (w3, ws3, None)
    ∧ ¬ (∃ result, ch_buf (Whisper.Results ws3) = [result])
    ∧ ¬ is_Some (OS.disk w3 !! Whisper.filePath ws).
Proof. exact (whisper_record_only_wrap Fixture.four_GiB_of_silence length_four_GiB). Qed.

(** C6, amended.  A Whisper stream created with transcription disabled
    receives audio, more than nothing and fewer than 2^32 - 44 bytes, and
    the file operations succeed.  Then [Close] returns [nil] without running
    any program; the channel, closed, holds exactly one [Result], whose text
    says the recording was saved with transcription disabled and whose
    [AudioFile] is the path of the WAV file; and that file is on disk,
    finalized. *)
Theorem whisper_record_only
    (e : OS.env) (ts : string) (w w1 w2 : OS.world)
    (t t1 : Whisper.WhisperTranscriber) (opts : StreamOptions)
    (ws ws2 : Whisper.WhisperStream) (chunks : list (list byte)) :
  Whisper.CreateStreamWithOptions e ts w t opts = (w1, t1, inl ws) ->
  Transcribe opts = false ->
  Whisper_write_all e w1 ws chunks = Some (w2, ws2) ->
  0 < total_size chunks ->
  44 + total_size chunks < 2 ^ 32 ->
  io_ok e (Whisper.filePath ws) ->
  ∃ w3 ws3 calls file,
    Whisper.Close e w2 ws2 = Ret (w3, ws3, None)
    ∧ Whisper.Results ws3
      = MkChan [MkResult "Recording saved (transcription disabled)" 1%Q true
                  (Whisper.filePath ws) ""] 10 true
    ∧ OS.trace w3 = (OS.trace w2 ++ calls)%list ∧ no_exec calls
    ∧ OS.disk w3 !! Whisper.filePath ws = Some file
    ∧ wav_sizes_match file chunks.
Proof.
  intros Hcreate Hopt Hwrite Hsome Hfit Hio.
  destruct (whisper_ready _ _ _ _ _ _ _ _ _ _ _ Hcreate Hwrite)
    as (Hon & Hopen & Hpath & Htr).
  rewrite Hpath in Hon.
  assert (Hfs : uint32 (44 + Z.of_nat (length (concat chunks)))
                = 44 + total_size chunks).
  { apply Z.mod_small. unfold total_size in *. lia. }
  destruct (finalize_wav_run e w2 _ _ _ Hio Hon) as (wf & ff & Hfin & Hfile & Htrace).
  { rewrite Hfs. lia. }
  rewrite <- Hpath in Hfin.
  rewrite (Whisper_Close_record_only _ _ _ _ _ _ Hopen Hfin)
    by (rewrite ?Hfs; lia || congruence).
  rewrite Hpath.
  eexists _, _, _, _. split; [reflexivity|]. split; [reflexivity|].
  split; [exact Htrace|]. split; [apply no_exec_finalize|].
  split; [exact Hfile|].
  apply (finalized_sizes (concat chunks) Hfit).
Qed.



(** What the client receives in that run. *)
Example crash_is_reported :
  Whisper.Results (Fixture.whisper_closed Fixture.env_crash Fixture.whisper0
                     Fixture.transcribing Fixture.two_chunks).2
  = MkChan [MkResult "Transcription error: whisper execution failed: exit status 139, output: Segmentation fault"
              0%Q true "./output/whisper_audio_1_20250827_161500.wav" ""] 10 true.
Proof. vm_compute. reflexivity. Qed.

Lemma whisper_record_only_witness :
  Transcribe Fixture.record_only = false
  ∧ 0 < total_size Fixture.two_chunks
  ∧ 44 + total_size Fixture.two_chunks < 2 ^ 32
  ∧ ∃ w3 ws3 calls file,
      Whisper.Close Fixture.env0
        (Fixture.whisper_written Fixture.env0 Fixture.whisper0
           Fixture.record_only Fixture.two_chunks).1
        (Fixture.whisper_written Fixture.env0 Fixture.whisper0
           Fixture.record_only Fixture.two_chunks).2
      = Ret (w3, ws3, None)
      ∧ Whisper.Results ws3
        = MkChan [MkResult "Recording saved (transcription disabled)" 1%Q true
                    (Whisper.filePath (Fixture.whisper_created Fixture.env0
                                         Fixture.whisper0 Fixture.record_only).2)
                    ""] 10 true
      ∧ OS.trace w3
        = (OS.trace (Fixture.whisper_written Fixture.env0 Fixture.whisper0
                       Fixture.record_only Fixture.two_chunks).1 ++ calls)%list
      ∧ no_exec calls
      ∧ OS.disk w3 !! Whisper.filePath (Fixture.whisper_created Fixture.env0
                                          Fixture.whisper0 Fixture.record_only).2
        = Some file
      ∧ wav_sizes_match file Fixture.two_chunks.
Proof.
  split; [reflexivity|]. split; [vm_compute; reflexivity|].
  split; [vm_compute; reflexivity|].
  apply (whisper_record_only Fixture.env0 Fixture.now Fixture.world0
           (Fixture.whisper_created Fixture.env0 Fixture.whisper0
              Fixture.record_only).1
           (Fixture.whisper_written Fixture.env0 Fixture.whisper0
              Fixture.record_only Fixture.two_chunks).1
           Fixture.whisper0
           (Whisper.MkTranscriber "small" "/usr/local/bin/whisper" "./output"
              "auto" 1 true true)
           Fixture.record_only).
  - vm_compute; reflexivity.
  - reflexivity.
  - vm_compute; reflexivity.
  - vm_compute; reflexivity.
  - vm_compute; reflexivity.
  - apply io_ok_env0.
Defined.

End WhisperWithAudio.

(** ** Closing twice, writing after the close *)

Section AfterClose.

(** The two file-backed streams: once [Close] has returned, with or without
    an error, a further [Close] returns [nil] and touches nothing, and a
    [Write] is refused with "stream is closed" without any system call. *)
Lemma Recorder_closed_for_good (e e' : OS.env) (w w' w'' : OS.world)
    (rs rs' : Recorder.RecorderStream) (err : option string) (buffer : list byte) :
  Recorder.Close e w rs = Ret (w', rs', err) ->
  Recorder.Close e' w'' rs' = Ret (w'', rs', None)
  ∧ Recorder.Write e' w'' rs' buffer = (w'', rs', (0%nat, Some "stream is closed")).
Proof.
  intros Hclose. apply Recorder_Close_marks in Hclose.
  split; [apply Recorder_Close_again | apply Recorder_Write_closed]; exact Hclose.
Qed.

Lemma Whisper_closed_for_good (e e' : OS.env) (w w' w'' : OS.world)
    (ws ws' : Whisper.WhisperStream) (err : option string) (buffer : list byte) :
  Whisper.Close e w ws = Ret (w', ws', err) ->
  Whisper.Close e' w'' ws' = Ret (w'', ws', None)
  ∧ Whisper.Write e' w'' ws' buffer = (w'', ws', (0%nat, Some "stream is closed")).
Proof.
  intros Hclose. apply Whisper_Close_marks in Hclose.
  split; [apply Whisper_Close_again | apply Whisper_Write_closed]; exact Hclose.
Qed.

(** A closed connection refuses a message: nothing is transmitted. *)
Lemma WS_closed_refuses {M : Type} (c : WS.Conn M) (m : M) :
  WS.closed c = true ->
  WS.WriteMessage c m
  = (WS.MkConn true (WS.net_err c) (WS.wire c) (WS.calls c ++ [WS.CallWriteMessage m]),
     Some WS.ErrClosedConn).
Proof. intros Hc. unfold WS.WriteMessage. rewrite Hc. reflexivity. Qed.

Lemma closed_error_stream : closed_error "stream is closed".
Proof. exists "stream is ", "". reflexivity. Qed.

Lemma closed_error_send :
  closed_error ("failed to send audio data: " ++ WS.ErrClosedConn).
Proof. exists "failed to send audio data: use of ", " network connection". reflexivity. Qed.

(** After [Close] the connection and the channel of a socket stream are
    both closed. *)
Lemma IflyTek_Close_inv (st st' : IflyTek.IflyTekStream) (err : option string) :
  IflyTek.Close st = Ret (st', err) ->
  WS.closed (IflyTek.conn st') = true
  ∧ ch_closed (IflyTek.results st') = true
  ∧ IflyTek.transcriber st' = IflyTek.transcriber st.
Proof.
  unfold IflyTek.Close.
  destruct (WS.WriteMessage _ _) as [c1 e1]. cbn.
  unfold chan_close. destruct (ch_closed (IflyTek.results st)); [discriminate|].
  cbn. intros [= <- <-]. cbn. auto.
Qed.

Lemma Azure_Close_inv (s s' : Azure.AzureStream) (err : option string) :
  Azure.Close s = Ret (s', err) ->
  WS.closed (Azure.conn s') = true ∧ ch_closed (Azure.results s') = true.
Proof.
  unfold Azure.Close.
  destruct (WS.WriteMessage _ _) as [c1 e1]. cbn.
  unfold chan_close. destruct (ch_closed (Azure.results s)); [discriminate|].
  cbn. intros [= <- <-]. cbn. auto.
Qed.

Lemma Baidu_Close_inv (s s' : Baidu.BaiduStream) (err : option string) :
  Baidu.Close s = Ret (s', err) ->
  WS.closed (Baidu.conn s') = true ∧ ch_closed (Baidu.results s') = true.
Proof.
  unfold Baidu.Close.
  destruct (WS.WriteMessage _ _) as [c1 e1]. cbn.
  unfold chan_close. destruct (ch_closed (Baidu.results s)); [discriminate|].
  cbn. intros [= <- <-]. cbn. auto.
Qed.

(** [Close] of a file-backed stream through the interface is the [Close]
    of the stream in its world. *)
Lemma Recorder_Close_running (s s' : running Recorder.RecorderStream)
    (err : option string) :
  Close s = Ret (s', err) ->
  Recorder.Close (run_env s) (run_world s) (run_stream s)
  = Ret (run_world s', run_stream s', err).
Proof.
  cbn. destruct (Recorder.Close _ _ _) as [[[w' rs'] err']| |]; cbn; [|discriminate..].
  intros [= <- <-]. reflexivity.
Qed.

Lemma Whisper_Close_running (s s' : running Whisper.WhisperStream)
    (err : option string) :
  Close s = Ret (s', err) ->
  Whisper.Close (run_env s) (run_world s) (run_stream s)
  = Ret (run_world s', run_stream s', err).
Proof.
  cbn. destruct (Whisper.Close _ _ _) as [[[w' ws'] err']| |]; cbn; [|discriminate..].
  intros [= <- <-]. reflexivity.
Qed.

(** C1, the socket streams.  The [Close] of the Xunfei, Azure and Baidu
    streams keeps no record of having run: called again after it has
    returned, it writes the end frame and closes the connection once more,
    then closes the result channel a second time, which is a run-time
    panic. *)
Theorem socket_stream_second_close_panics :
  (∀ (s s' : IflyTek.IflyTekStream) (err : option string),
     Close s = Ret (s', err) -> Close s' = Panic "close of closed channel")
  ∧ (∀ (s s' : Azure.AzureStream) (err : option string),
       Close s = Ret (s', err) -> Close s' = Panic "close of closed channel")
  ∧ (∀ (s s' : Baidu.BaiduStream) (err : option string),
       Close s = Ret (s', err) -> Close s' = Panic "close of closed channel").
Proof.
  repeat split; intros s s' err Hclose; cbn in *.
  - destruct (IflyTek_Close_inv _ _ _ Hclose) as (_ & Hch & _).
    unfold IflyTek.Close.
    destruct (WS.WriteMessage _ _) as [c1 e1]. cbn.
    unfold chan_close. rewrite Hch. reflexivity.
  - destruct (Azure_Close_inv _ _ _ Hclose) as (_ & Hch).
    unfold Azure.Close.
    destruct (WS.WriteMessage _ _) as [c1 e1]. cbn.
    unfold chan_close. rewrite Hch. reflexivity.
  - destruct (Baidu_Close_inv _ _ _ Hclose) as (_ & Hch).
    unfold Baidu.Close.
    destruct (WS.WriteMessage _ _) as [c1 e1]. cbn.
    unfold chan_close. rewrite Hch. reflexivity.
Qed.

Lemma socket_stream_second_close_panics_witness :
  (Close Fixture.xunfei_stream = Ret (Fixture.xunfei_closed, None)
   ∧ Close Fixture.xunfei_closed = Panic "close of closed channel")
  ∧ (Close Fixture.azure_stream = Ret (Fixture.azure_closed, None)
     ∧ Close Fixture.azure_closed = Panic "close of closed channel")
  ∧ (Close Fixture.baidu_stream = Ret (Fixture.baidu_closed, None)
     ∧ Close Fixture.baidu_closed = Panic "close of closed channel").
Proof.
  assert (H1 : Close Fixture.xunfei_stream = Ret (Fixture.xunfei_closed, None))
    by reflexivity.
  assert (H2 : Close Fixture.azure_stream = Ret (Fixture.azure_closed, None))
    by reflexivity.
  assert (H3 : Close Fixture.baidu_stream = Ret (Fixture.baidu_closed, None))
    by reflexivity.
  destruct socket_stream_second_close_panics as (Hx & Ha & Hb).
  exact (conj (conj H1 (Hx _ _ _ H1))
           (conj (conj H2 (Ha _ _ _ H2)) (conj H3 (Hb _ _ _ H3)))).
Defined.

(** What a [Write] on a closed socket stream does on the connection: it
    still builds the audio frame and calls [WriteMessage]; the connection,
    being closed, transmits nothing. *)
Lemma IflyTek_Write_closed (st : IflyTek.IflyTekStream) (buffer : list byte) :
  WS.closed (IflyTek.conn st) = true ->
  ∃ st',
    IflyTek.Write st buffer
    = (st', (0%nat, Some ("failed to send audio data: " ++ WS.ErrClosedConn)))
    ∧ WS.calls (IflyTek.conn st')
      = (WS.calls (IflyTek.conn st) ++
         [WS.CallWriteMessage
            (IflyTek.MkRequest
               (IflyTek.MkCommon (IflyTek.appID (IflyTek.transcriber st)))
               (IflyTek.MkBusiness "zh_cn" "iat" 3000)
               (IflyTek.MkData 1 "audio/L16;rate=48000" buffer "raw"))])%list
    ∧ WS.wire (IflyTek.conn st') = WS.wire (IflyTek.conn st).
Proof.
  intros Hconn. unfold IflyTek.Write. rewrite WS_closed_refuses by exact Hconn.
  eexists. repeat split.
Qed.

Lemma Azure_Write_closed (s : Azure.AzureStream) (buffer : list byte) :
  WS.closed (Azure.conn s) = true ->
  ∃ s',
    Azure.Write s buffer
    = (s', (0%nat, Some ("failed to send audio data: " ++ WS.ErrClosedConn)))
    ∧ WS.wire (Azure.conn s') = WS.wire (Azure.conn s).
Proof.
  intros Hconn. unfold Azure.Write. rewrite WS_closed_refuses by exact Hconn.
  eexists. repeat split.
Qed.

Lemma Baidu_Write_closed (s : Baidu.BaiduStream) (buffer : list byte) :
  WS.closed (Baidu.conn s) = true ->
  ∃ s',
    Baidu.Write s buffer
    = (s', (0%nat, Some ("failed to send audio data: " ++ WS.ErrClosedConn)))
    ∧ WS.wire (Baidu.conn s') = WS.wire (Baidu.conn s).
Proof.
  intros Hconn. unfold Baidu.Write. rewrite WS_closed_refuses by exact Hconn.
  eexists. repeat split.
Qed.

(** C2.  Once [Close] has returned, with or without an error, a [Write]
    fails with a count of 0 and an error that says closed, and the sink is
    left as it was.  The recorder and Whisper streams refuse the call
    themselves ("stream is closed"), in whatever state the machine is: no
    system call is made and the disk is unchanged.  The Xunfei, Azure and
    Baidu streams keep no flag of their own: they hand the frame to the
    connection, and it is the closed connection that refuses it, so that
    nothing is transmitted. *)
Theorem write_after_close_rejected :
  (∀ (s s' : running Recorder.RecorderStream) (err : option string),
     Close s = Ret (s', err) ->
     ∀ e w, rejects_writes run_world (Run e w (run_stream s')))
  ∧ (∀ (s s' : running Whisper.WhisperStream) (err : option string),
       Close s = Ret (s', err) ->
       ∀ e w, rejects_writes run_world (Run e w (run_stream s')))
  ∧ (∀ (s s' : IflyTek.IflyTekStream) (err : option string),
       Close s = Ret (s', err) ->
       rejects_writes (fun st => WS.wire (IflyTek.conn st)) s')
  ∧ (∀ (s s' : Azure.AzureStream) (err : option string),
       Close s = Ret (s', err) ->
       rejects_writes (fun st => WS.wire (Azure.conn st)) s')
  ∧ (∀ (s s' : Baidu.BaiduStream) (err : option string),
       Close s = Ret (s', err) ->
       rejects_writes (fun st => WS.wire (Baidu.conn st)) s').
Proof.
  split; [|split; [|split; [|split]]].
  - intros s s' err Hclose e w buffer.
    apply Recorder_Close_running, Recorder_Close_marks in Hclose.
    exists (Run e w (run_stream s')), "stream is closed". cbn.
    rewrite Recorder_Write_closed by exact Hclose.
    split; [reflexivity|]. split; [apply closed_error_stream | reflexivity].
  - intros s s' err Hclose e w buffer.
    apply Whisper_Close_running, Whisper_Close_marks in Hclose.
    exists (Run e w (run_stream s')), "stream is closed". cbn.
    rewrite Whisper_Write_closed by exact Hclose.
    split; [reflexivity|]. split; [apply closed_error_stream | reflexivity].
  - intros s s' err Hclose buffer.
    destruct (IflyTek_Close_inv _ _ _ Hclose) as (Hconn & _ & _).
    destruct (IflyTek_Write_closed s' buffer Hconn) as (s'' & Hw & _ & Hwire).
    exists s'', ("failed to send audio data: " ++ WS.ErrClosedConn). cbn.
    rewrite Hw. split; [reflexivity|]. split; [apply closed_error_send | exact Hwire].
  - intros s s' err Hclose buffer.
    destruct (Azure_Close_inv _ _ _ Hclose) as (Hconn & _).
    destruct (Azure_Write_closed s' buffer Hconn) as (s'' & Hw & Hwire).
    exists s'', ("failed to send audio data: " ++ WS.ErrClosedConn). cbn.
    rewrite Hw. split; [reflexivity|]. split; [apply closed_error_send | exact Hwire].
  - intros s s' err Hclose buffer.
    destruct (Baidu_Close_inv _ _ _ Hclose) as (Hconn & _).
    destruct (Baidu_Write_closed s' buffer Hconn) as (s'' & Hw & Hwire).
    exists s'', ("failed to send audio data: " ++ WS.ErrClosedConn). cbn.
    rewrite Hw. split; [reflexivity|]. split; [apply closed_error_send | exact Hwire].
Qed.

Lemma write_after_close_rejected_witness :
  (Close Fixture.healthy_recorder = Ret (Fixture.closed_recorder, None)
   ∧ rejects_writes run_world
       (Run Fixture.env_stat_fails Fixture.world0 (run_stream Fixture.closed_recorder)))
  ∧ (Close Fixture.xunfei_stream = Ret (Fixture.xunfei_closed, None)
     ∧ rejects_writes (fun st => WS.wire (IflyTek.conn st)) Fixture.xunfei_closed).
Proof.
  assert (H1 : Close Fixture.healthy_recorder = Ret (Fixture.closed_recorder, None))
    by (vm_compute; reflexivity).
  assert (H2 : Close Fixture.xunfei_stream = Ret (Fixture.xunfei_closed, None))
    by reflexivity.
  destruct write_after_close_rejected as (Hr & _ & Hx & _).
  exact (conj (conj H1 (Hr _ _ _ H1 Fixture.env_stat_fails Fixture.world0))
           (conj H2 (Hx _ _ _ H2))).
Defined.

End AfterClose.

(** ** The two operations of a service *)

Section Services.






End Services.

(** ** The audio pump *)

Section PumpProofs.

Context {S : Type} `{Stream S}.
Variable json_Marshal : Result -> option string.
Variable decode : list byte -> option (list byte).
Variables (pre : list (list byte)) (bad : list byte) (rest : list Pion.track_event).
Hypothesis pre_decodes : Forall (fun x => is_Some (decode x)) pre.
Hypothesis bad_fails : decode bad = None.

#[local] Abbreviation step := (Pion.step json_Marshal decode).
#[local] Abbreviation in_step := (lockstep decode pre bad rest).
#[local] Abbreviation inv := (pump_inv decode pre bad rest).

(** [lockstep] looks at the reader, the track, the two queues and the
    effective output only. *)
Lemma lockstep_ext (p q : @Pion.pump S) :
  Pion.reader q = Pion.reader p -> Pion.track q = Pion.track p ->
  ch_buf (Pion.audioStream q) = ch_buf (Pion.audioStream p) ->
  ch_buf (Pion.response q) = ch_buf (Pion.response p) ->
  effective q = effective p ->
  in_step p -> in_step q.
Proof.
  intros Hr Ht Ha Hs He Hls.
  destruct Hls;
    [ eapply ls_read | eapply ls_send | eapply ls_queued | eapply ls_answered
    | eapply ls_send_bad | eapply ls_queued_bad | eapply ls_stalled ];
    eauto; congruence.
Qed.

Lemma lockstep_prefix (p : @Pion.pump S) :
  in_step p -> effective p `prefix_of` omap decode pre.
Proof.
  intros [done todo -> | done x todo -> | done x todo -> | done x todo -> | | | ];
    intros; match goal with He : effective p = _ |- _ => rewrite He end;
    rewrite ?omap_app; try reflexivity.
  1-3: apply prefix_app_r; reflexivity.
  apply prefix_app.
  change (x :: todo) with ([x] ++ todo)%list. rewrite omap_app.
  apply prefix_app_r. reflexivity.
Qed.

Lemma written_prefix (p : @Pion.pump S) :
  in_step p -> Pion.written p `prefix_of` omap decode pre.
Proof.
  intros Hls. apply lockstep_prefix in Hls.
  eapply prefix_app_l. exact Hls.
Qed.


(** [set_reader] and [set_main] as seen through the fields. *)
Lemma effective_set_reader (p : @Pion.pump S) tr r a rsp er :
  effective (Pion.set_reader p tr r a rsp er) = effective p.
Proof. reflexivity. Qed.

Lemma in_pre_decodes (done todo : list (list byte)) (x : list byte) :
  pre = (done ++ x :: todo)%list -> decode x ≠ None.
Proof.
  intros Hsplit. rewrite Forall_forall in pre_decodes.
  destruct (pre_decodes x) as [y Hy]; [|congruence].
  rewrite Hsplit. apply elem_of_app. right. left.
Qed.

(** Every step keeps the invariant. *)
Ltac ls_solve :=
  solve [ congruence
        | econstructor; cbn; rewrite ?app_nil_r; eauto; congruence ].

Lemma reader_step_keeps (p : @Pion.pump S) tr r a rsp er :
  (Pion.ctx_done p = false -> ch_closed (Pion.audioStream p) = false ->
   ch_cap (Pion.response p) = 100%nat -> in_step p ->
   ch_closed a = false ∧ ch_cap rsp = 100%nat
   ∧ in_step (Pion.set_reader p tr r a rsp er)) ->
  inv p -> inv (Pion.set_reader p tr r a rsp er).
Proof.
  intros Hkeep Hinv. unfold pump_inv, active in *. cbn.
  destruct (Pion.main p); try exact Hinv.
  all: destruct Hinv as (Hctx & Hcl & Hcap & Hls);
    destruct (Hkeep Hctx Hcl Hcap Hls) as (? & ? & ?); auto.
Qed.

Lemma main_step_stops (p : @Pion.pump S) a rsp er done m s d :
  active p = true -> inv p ->
  match m with Pion.MSelect | Pion.MWrite _ => False | _ => True end ->
  inv (Pion.set_main p a rsp er done m s (Pion.written p) d).
Proof.
  unfold pump_inv, active. cbn. intros -> (_ & _ & _ & Hls) Hm.
  destruct m; try contradiction; apply written_prefix, Hls.
Qed.

Lemma pump_inv_step (p q : @Pion.pump S) :
  inv p -> step p q -> inv q.
Proof.
  intros Hinv Hstep.
  destruct Hstep as
    [ p Hr Hd | p payload rest0 Hr Hd Htr | p rest0 Hr Hd Htr
    | p err rest0 Hr Hd Htr Hroom | p payload Hr Hroom | p payload Hr Hd
    | p b rest0 Hr Hresp | p Hr Hd
    | p audioChunk rest0 payload Hm Hbuf Hdec | p audioChunk rest0 Hm Hbuf Hdec
    | p Hm Hbuf Hcl | p payload s n Hm Hw | p payload s n err Hm Hw
    | p Hm | p err rest0 Hm Herr | p Hm Hd | p err s d Hm Hdef ].
  - (* r_ctx *) apply reader_step_keeps; [congruence|exact Hinv].
  - (* r_packet *)
    apply reader_step_keeps; [|exact Hinv]. intros _ Hcl Hcap Hls.
    split; [exact Hcl|]. split; [exact Hcap|].
    destruct Hls as [done todo Hsplit Hr' Ht Ha Hs He| | | | | | ]; try congruence.
    rewrite Htr in Ht.
    destruct todo as [|x todo]; cbn in Ht; simplify_eq.
    + eapply ls_send_bad; cbn; rewrite ?app_nil_r in *; eauto.
    + eapply ls_send; cbn; eauto.
  - (* r_eof *)
    apply reader_step_keeps; [|exact Hinv]. intros _ Hcl Hcap Hls.
    destruct Hls as [done todo Hsplit Hr' Ht Ha Hs He| | | | | | ]; try congruence.
    rewrite Htr in Ht. destruct todo; cbn in Ht; congruence.
  - (* r_error *)
    apply reader_step_keeps; [|exact Hinv]. intros _ Hcl Hcap Hls.
    destruct Hls as [done todo Hsplit Hr' Ht Ha Hs He| | | | | | ]; try congruence.
    rewrite Htr in Ht. destruct todo; cbn in Ht; congruence.
  - (* r_send *)
    apply reader_step_keeps; [|exact Hinv]. intros _ Hcl Hcap Hls.
    split; [exact Hcl|]. split; [exact Hcap|].
    destruct Hls as [ | done x todo Hsplit Hr' Ht Ha Hs He | | 
                    | Hr' Ht Ha Hs He | | ]; try congruence.
    + eapply ls_queued; cbn; eauto. rewrite Ha. cbn. congruence.
    + eapply ls_queued_bad; cbn; eauto. rewrite Ha. cbn. congruence.
  - (* r_send_ctx *) apply reader_step_keeps; [congruence|exact Hinv].
  - (* r_response *)
    apply reader_step_keeps; [|exact Hinv]. intros _ Hcl Hcap Hls.
    split; [exact Hcl|]. split; [exact Hcap|].
    destruct Hls as [ | | | done x todo Hsplit Hr' Ht Ha Hs He | | | ]; try congruence.
    eapply (ls_read _ _ _ _ _ (done ++ [x]) todo); cbn; eauto.
    + rewrite <- app_assoc. assumption.
    + rewrite Hs. reflexivity.
  - (* r_wait_ctx *) apply reader_step_keeps; [congruence|exact Hinv].
  - (* m_chunk *)
    unfold pump_inv, active in *. rewrite Hm in Hinv. cbn.
    destruct Hinv as (Hctx & Hcl & Hcap & Hls).
    split; [exact Hctx|]. split; [exact Hcl|].
    destruct Hls as [ | | done x todo Hsplit Hr' Ht Ha Hs He | | | Hr' Ht Ha Hs He | ];
      try congruence.
    assert (audioChunk = x) by congruence. subst audioChunk.
    unfold Pion.try_push, Pion.push. rewrite Hs, Hcap. cbn.
    split; [reflexivity|].
    eapply ls_answered; cbn; eauto.
    + rewrite Ha. reflexivity.
    + unfold effective in *. cbn. rewrite Hm in He. rewrite app_nil_r in He.
      rewrite He, omap_app. cbn. rewrite Hdec. reflexivity.
  - (* m_chunk_skip *)
    unfold pump_inv, active in *. rewrite Hm in Hinv. cbn.
    destruct Hinv as (Hctx & Hcl & Hcap & Hls).
    split; [exact Hctx|]. split; [exact Hcl|]. split; [exact Hcap|].
    destruct Hls as [ | | done x todo Hsplit Hr' Ht Ha Hs He | | | Hr' Ht Ha Hs He | ];
      try congruence.
    + assert (audioChunk = x) by congruence. subst audioChunk.
      exfalso. exact (in_pre_decodes _ _ _ Hsplit Hdec).
    + eapply ls_stalled; cbn; eauto.
      * rewrite Ha. reflexivity.
      * unfold effective in *. cbn. rewrite Hm in He. exact He.
  - (* m_stream_ended *)
    unfold pump_inv, active in Hinv. rewrite Hm in Hinv.
    destruct Hinv as (_ & Hopen & _). congruence.
  - (* m_write *)
    unfold pump_inv, active in *. rewrite Hm in Hinv. cbn.
    destruct Hinv as (Hctx & Hcl & Hcap & Hls).
    split; [exact Hctx|]. split; [exact Hcl|]. split; [exact Hcap|].
    eapply lockstep_ext; [| | | | |exact Hls]; try reflexivity.
    unfold effective. cbn. rewrite Hm, app_nil_r. reflexivity.
  - (* m_write_error *)
    apply main_step_stops; [unfold active; rewrite Hm; reflexivity|exact Hinv|exact I].
  - (* m_timer *)
    apply main_step_stops; [unfold active; rewrite Hm; reflexivity|exact Hinv|exact I].
  - (* m_errs *)
    apply main_step_stops; [unfold active; rewrite Hm; reflexivity|exact Hinv|exact I].
  - (* m_ctx *)
    apply main_step_stops; [unfold active; rewrite Hm; reflexivity|exact Hinv|exact I].
  - (* m_deferred *)
    unfold pump_inv, active in *. rewrite Hm in Hinv. cbn. exact Hinv.
Qed.

(** The invariant holds at the start. *)
Lemma pump_inv_start (s : S) (d : Pion.DataChannel) :
  inv (Pion.start ((Pion.Packet <$> pre) ++ Pion.Packet bad :: rest) s d).
Proof.
  unfold pump_inv, active. cbn.
  repeat split. eapply (ls_read _ _ _ _ _ [] pre); reflexivity.
Qed.

Lemma pump_inv_reachable (s : S) (d : Pion.DataChannel) (p : @Pion.pump S) :
  Pion.reachable json_Marshal decode
    ((Pion.Packet <$> pre) ++ Pion.Packet bad :: rest) s d p ->
  inv p.
Proof.
  unfold Pion.reachable. revert p. apply rtc_ind_r.
  - apply pump_inv_start.
  - intros p q _ Hstep IH. exact (pump_inv_step _ _ IH Hstep).
Qed.


(** C8 on the code.  The track delivers the packets [pre], which all
    decode, then one packet that does not, then anything.  Whatever the
    interleaving of the two goroutines and whenever the timer fires, the
    payloads the stream accepts are a prefix of the decoded [pre]: the
    undecodable packet is never written, and neither is any packet after
    it. *)
Theorem pump_writes_nothing_after_decode_failure
    (s : S) (d : Pion.DataChannel) (p : @Pion.pump S) :
  Pion.reachable json_Marshal decode
    ((Pion.Packet <$> pre) ++ Pion.Packet bad :: rest) s d p ->
  Pion.written p `prefix_of` omap decode pre.
Proof.
  intros Hreach. apply pump_inv_reachable in Hreach.
  unfold pump_inv in Hreach.
  destruct (active p); [|exact Hreach].
  destruct Hreach as (_ & _ & _ & Hls). exact (written_prefix _ Hls).
Qed.

End PumpProofs.

Section Stall.

Context {S : Type} `{Stream S}.
Variable json_Marshal : Result -> option string.
Variable decode : list byte -> option (list byte).

(** Once the loop has skipped a packet, the reader waits for a response
    that was never sent and the loop waits for a packet that is never read:
    the one step left to either of them is the firing of the idle timer. *)
Lemma stalled_until_timer (p q : @Pion.pump S) :
  Pion.reader p = Pion.RWait -> Pion.main p = Pion.MSelect ->
  ch_buf (Pion.audioStream p) = [] -> ch_closed (Pion.audioStream p) = false ->
  ch_buf (Pion.response p) = [] -> ch_buf (Pion.errs p) = [] ->
  Pion.ctx_done p = false ->
  Pion.step json_Marshal decode p q ->
  Pion.main q = Pion.MReturned None ∧ Pion.ctx_done q = true
  ∧ Pion.written q = Pion.written p ∧ Pion.track q = Pion.track p.
Proof.
  intros Hr Hm Ha Hcl Hs He Hd Hstep.
  destruct Hstep; try congruence.
  cbn. auto.
Qed.

End Stall.

Section PumpExit.

Context {S : Type} `{Stream S}.
Variable json_Marshal : Result -> option string.
Variable decode : list byte -> option (list byte).


(** The ways out of the loop: the stream of packets ended, a write failed,
    the timer fired, the reader reported an error, the context was
    cancelled.  Each leaves the function returned with its deferred calls
    still to run. *)
Lemma loop_exits (p q : @Pion.pump S) :
  Pion.step json_Marshal decode p q ->
  active p = true -> active q = false ->
  ∃ err, Pion.main q = Pion.MReturned err.
Proof.
  intros Hstep Hp Hq. unfold active in *.
  destruct Hstep; cbn in *; try congruence; eauto.
  all: match goal with Hm : Pion.main _ = _ |- _ => rewrite Hm in * end;
    discriminate.
Qed.


End PumpExit.

(** ** Runs of the pump *)

Section Runs.



(** What the browser receives in that run: the name of the recording, and
    then the data channel is closed. *)
Example healthy_exit :
  Pion.dc (Fixture.exited Fixture.healthy_recorder)
  = Pion.MkDC ["recording_20250827_161500_001.wav"] true.
Proof. vm_compute. reflexivity. Qed.


(** The failing input of C8 run to its end: the first packet is written,
    the second does not decode and is skipped, and from then on nothing
    moves until the idle timer ends the session; the third packet is still
    on the track. *)
Lemma stalled_run :
  ∃ p : @Pion.pump IflyTek.IflyTekStream,
    Pion.reachable Fixture.toy_Marshal Fixture.toy_decode
      ((Pion.Packet <$> [[x01]]) ++ Pion.Packet [] :: [Pion.Packet [x02]; Pion.EOF])
      Fixture.xunfei_stream Fixture.dc0 p
    ∧ Pion.main p = Pion.MExited None
    ∧ Pion.written p = [[x01]]
    ∧ Pion.track p = [Pion.Packet [x02]; Pion.EOF]
    ∧ Pion.dc_closed (Pion.dc p) = true.
Proof.
  eexists. split.
  - unfold Pion.reachable.
    eapply rtc_l; [eapply Pion.r_packet; reflexivity|]. cbn.
    eapply rtc_l; [eapply Pion.r_send; [reflexivity|cbn; lia]|]. cbn.
    eapply rtc_l; [eapply Pion.m_chunk; reflexivity|]. cbn.
    eapply rtc_l; [eapply Pion.m_write; reflexivity|]. cbn.
    eapply rtc_l; [eapply Pion.r_response; reflexivity|]. cbn.
    eapply rtc_l; [eapply Pion.r_packet; reflexivity|]. cbn.
    eapply rtc_l; [eapply Pion.r_send; [reflexivity|cbn; lia]|]. cbn.
    eapply rtc_l; [eapply Pion.m_chunk_skip; reflexivity|]. cbn.
    eapply rtc_l; [eapply Pion.m_timer; reflexivity|]. cbn.
    eapply rtc_l; [eapply Pion.m_deferred; reflexivity|]. cbn.
    apply rtc_refl.
  - repeat split.
Qed.

Lemma pump_writes_nothing_after_decode_failure_witness :
  Forall (fun x => is_Some (Fixture.toy_decode x)) [[x01]]
  ∧ Fixture.toy_decode [] = None
  ∧ ∃ p : @Pion.pump IflyTek.IflyTekStream,
      Pion.reachable Fixture.toy_Marshal Fixture.toy_decode
        ((Pion.Packet <$> [[x01]]) ++ Pion.Packet [] :: [Pion.Packet [x02]; Pion.EOF])
        Fixture.xunfei_stream Fixture.dc0 p
      ∧ Pion.main p = Pion.MExited None
      ∧ Pion.written p `prefix_of` omap Fixture.toy_decode [[x01]].
Proof.
  assert (Hpre : Forall (fun x => is_Some (Fixture.toy_decode x)) [[x01]])
    by (repeat constructor; eexists; reflexivity).
  split; [exact Hpre|]. split; [reflexivity|].
  destruct stalled_run as (p & Hreach & Hmain & _).
  exists p. split; [exact Hreach|]. split; [exact Hmain|].
  exact (pump_writes_nothing_after_decode_failure Fixture.toy_Marshal
           Fixture.toy_decode [[x01]] [] [Pion.Packet [x02]; Pion.EOF]
           Hpre eq_refl Fixture.xunfei_stream Fixture.dc0 p Hreach).
Defined.

End Runs.

(** ** The empty streams of the fixtures *)

Section EmptyRuns.

Lemma empty_stream_close_witness :
  (∃ w2 ws2 calls,
     Whisper.Close Fixture.env0
       (Fixture.whisper_created Fixture.env0 Fixture.whisper0 Fixture.transcribing).1
       (Fixture.whisper_created Fixture.env0 Fixture.whisper0 Fixture.transcribing).2
     = Ret (w2, ws2, None)
     ∧ Whisper.Results ws2 = MkChan [] 10 true
     ∧ OS.disk w2 !! Whisper.filePath
         (Fixture.whisper_created Fixture.env0 Fixture.whisper0 Fixture.transcribing).2
       = None
     ∧ OS.trace w2
       = (OS.trace (Fixture.whisper_created Fixture.env0 Fixture.whisper0
                      Fixture.transcribing).1 ++ calls)%list
     ∧ no_exec calls)
  ∧ (∃ w2 rs2 calls,
       Recorder.Close Fixture.env0 (Fixture.recorder_created Fixture.env0).1
         (Fixture.recorder_created Fixture.env0).2
       = Ret (w2, rs2, None)
       ∧ Recorder.Results rs2
         = MkChan [MkResult (Recorder.fileName (Fixture.recorder_created Fixture.env0).2)
                     1%Q true "" ""] 1 true
       ∧ OS.disk w2 !! Recorder.filePath (Fixture.recorder_created Fixture.env0).2
         = Some (patched_header 36 0)
       ∧ OS.trace w2
         = (OS.trace (Fixture.recorder_created Fixture.env0).1 ++ calls)%list
       ∧ no_exec calls).
Proof.
  destruct (empty_stream_close Fixture.env0 Fixture.now) as [Hwhisper Hrecorder].
  split.
  - apply (Hwhisper Fixture.world0 Fixture.whisper0 Fixture.transcribing _
             (Whisper.MkTranscriber "small" "/usr/local/bin/whisper" "./output"
                "auto" 1 true true)).
    + vm_compute. reflexivity.
    + apply io_ok_env0.
  - apply (Hrecorder Fixture.world0 Fixture.recorder0 _
             (Recorder.MkTranscriber "./recordings" 1)).
    + vm_compute. reflexivity.
    + apply io_ok_env0.
Defined.

End EmptyRuns.

(** ** The validation of a recording *)

Section Validation.

#[local] Arguments check_fields : simpl never.

(** On the header the code writes, with whatever sizes and audio, the read
    at offset 32 meets [BlockAlign]. *)
Lemma validate_opened_patched (chunkSize dataSize : Z) (audio : list byte) :
  validate_opened (Reader.MkHandle (patched_header chunkSize dataSize ++ audio) 0)
  = Some "invalid bits per sample: 2 (expected 16)".
Proof.
  rewrite patched_header_bytes. unfold le32, le16.
  vm_compute. reflexivity.
Qed.

Lemma Z_of_byte_range (b : byte) : 0 <= Z_of_byte b < 256.
Proof.
  unfold Z_of_byte. pose proof (Byte.to_N_bounded b) as Hb. lia.
Qed.

Lemma Z_of_byte_inj (a b : byte) : Z_of_byte a = Z_of_byte b -> a = b.
Proof.
  unfold Z_of_byte. intros Heq. apply N2Z.inj in Heq.
  apply (f_equal Byte.of_N) in Heq. rewrite !Byte.of_to_N in Heq. congruence.
Qed.

Lemma byte_of_Z_of_byte (b : byte) : byte_of_Z (Z_of_byte b) = b.
Proof.
  apply Z_of_byte_inj. rewrite Z_of_byte_of_Z.
  apply Z.mod_small, Z_of_byte_range.
Qed.

Lemma read_le16_inv (b0 b1 : byte) (v : Z) :
  read_le16 [b0; b1] = v -> [b0; b1] = le16 v.
Proof.
  intros <-. unfold le16, read_le16.
  pose proof (Z_of_byte_range b0). pose proof (Z_of_byte_range b1).
  change (2 ^ 8) with 256.
  set (v := Z_of_byte b0 + 256 * Z_of_byte b1).
  assert (E0 : v mod 256 = Z_of_byte b0)
    by (unfold v; Z.div_mod_to_equations; lia).
  assert (E1 : (v / 256) mod 256 = Z_of_byte b1)
    by (unfold v; Z.div_mod_to_equations; lia).
  repeat f_equal; apply Z_of_byte_inj; rewrite Z_of_byte_of_Z; congruence.
Qed.

Lemma read_le32_inv (b0 b1 b2 b3 : byte) (v : Z) :
  read_le32 [b0; b1; b2; b3] = v -> [b0; b1; b2; b3] = le32 v.
Proof.
  intros <-. unfold le32, read_le32.
  pose proof (Z_of_byte_range b0). pose proof (Z_of_byte_range b1).
  pose proof (Z_of_byte_range b2). pose proof (Z_of_byte_range b3).
  change (2 ^ 8) with 256. change (2 ^ 16) with 65536. change (2 ^ 24) with 16777216.
  set (v := Z_of_byte b0 + 256 * Z_of_byte b1 + 65536 * Z_of_byte b2
            + 16777216 * Z_of_byte b3).
  assert (E0 : v mod 256 = Z_of_byte b0)
    by (unfold v; Z.div_mod_to_equations; lia).
  assert (E1 : (v / 256) mod 256 = Z_of_byte b1)
    by (unfold v; Z.div_mod_to_equations; lia).
  assert (E2 : (v / 65536) mod 256 = Z_of_byte b2)
    by (unfold v; Z.div_mod_to_equations; lia).
  assert (E3 : (v / 16777216) mod 256 = Z_of_byte b3)
    by (unfold v; Z.div_mod_to_equations; lia).
  repeat f_equal; apply Z_of_byte_inj; rewrite Z_of_byte_of_Z; congruence.
Qed.

Lemma check_fields_None (chunkID format subchunk1ID subchunk2ID : list byte)
    (audioFormat sampleRate bitsPerSample numChannels : Z) :
  check_fields chunkID format subchunk1ID subchunk2ID
    audioFormat sampleRate bitsPerSample numChannels = None
  <-> chunkID = String.list_byte_of_string "RIFF"
      ∧ format = String.list_byte_of_string "WAVE"
      ∧ subchunk1ID = String.list_byte_of_string "fmt "
      ∧ subchunk2ID = String.list_byte_of_string "data"
      ∧ audioFormat = 1 ∧ sampleRate = 48000
      ∧ bitsPerSample = 16 ∧ numChannels = 1.
Proof.
  assert (Hstr : ∀ (bs : list byte) (s : string),
            String.string_of_list_byte bs = s <-> bs = String.list_byte_of_string s).
  { intros bs s. split; intros Heq.
    - rewrite <- Heq, String.list_byte_of_string_of_list_byte. reflexivity.
    - rewrite Heq, String.string_of_list_byte_of_string. reflexivity. }
  unfold check_fields.
  repeat lazymatch goal with
  | |- (match decide ?P with left _ => _ | right _ => _ end) = None <-> _ =>
      destruct (decide P) as [Hne|?%dec_stable];
      [split; [discriminate|intros Hall; exfalso; apply Hne; clear Hne;
               rewrite ?Hstr; tauto]|]
  end.
  repeat match goal with
  | H : String.string_of_list_byte _ = _ |- _ => apply Hstr in H
  end.
  tauto.
Qed.

Ltac short_file H :=
  lazy -[check_fields read_le16 read_le32] in H;
  first [ discriminate H
        | apply check_fields_None in H as (_ & _ & _ & Hdata & _);
          discriminate Hdata ].

(** What [validateWAVFile] accepts, exactly. *)
Lemma validate_opened_accepts (c : list byte) :
  validate_opened (Reader.MkHandle c 0) = None <-> accepted_wav c.
Proof.
  split.
  - intros H.
    do 37 (destruct c as [|? c]; [vm_compute in H; discriminate H|]).
    do 3 (destruct c as [|? c]; [short_file H|]).
    lazy -[check_fields read_le16 read_le32] in H.
    apply check_fields_None in H
      as (Hriff & Hwave & Hfmt & Hdata & Haf & Hsr & Hbps & Hnc).
    apply read_le16_inv in Haf, Hbps, Hnc. apply read_le32_inv in Hsr.
    vm_compute in Hriff, Hwave, Hfmt, Hdata, Haf, Hsr, Hbps, Hnc.
    simplify_eq.
    eexists [_; _; _; _], [_; _; _; _], [_; _; _; _], [_; _], c.
    repeat split.
  - intros (cs & s1 & br & bps & rest & Hcs & Hs1 & Hbr & Hbps & ->).
    destruct cs as [|? [|? [|? [|? [|]]]]]; try discriminate Hcs.
    destruct s1 as [|? [|? [|? [|? [|]]]]]; try discriminate Hs1.
    destruct br as [|? [|? [|? [|? [|]]]]]; try discriminate Hbr.
    destruct bps as [|? [|? [|]]]; try discriminate Hbps.
    unfold le16, le32. vm_compute. reflexivity.
Qed.

(** X1.  The validation that [Close] runs on its own recording never
    passes.  Whatever chunks were written, once [Close] has returned [nil]
    the file holds the header of [CreateStream] with its sizes patched, and
    [validateWAVFile], which seeks to offset 32 for the bits per sample,
    reads the block alignment there (2) and reports it as a bad sample
    width. *)
Theorem validateWAVFile_rejects_every_recording
    (e : OS.env) (ts : string) (w w1 w2 w3 : OS.world)
    (r r1 : Recorder.RecorderTranscriber) (rs rs2 rs3 : Recorder.RecorderStream)
    (chunks : list (list byte)) :
  Recorder.CreateStream e ts w r = (w1, r1, inl rs) ->
  Recorder_write_all e w1 rs chunks = Some (w2, rs2) ->
  Recorder.Close e w2 rs2 = Ret (w3, rs3, None) ->
  OS.read_err e (Recorder.filePath rs3) = None ->
  validateWAVFile e w3 rs3 = Some "invalid bits per sample: 2 (expected 16)".
Proof.
  intros Hcreate Hwrite Hclose Hread.
  destruct (Recorder_CreateStream_inv _ _ _ _ _ _ _ Hcreate) as (Hon & Hopen & _).
  destruct (Recorder_write_all_inv _ _ _ _ _ _ _ Hopen Hon Hwrite)
    as (Hon2 & Hopen2 & _ & _).
  rewrite (Recorder_Close_eq _ _ _ Hopen2) in Hclose.
  destruct (finalize_wav e w2 _ _) as [[w' f'] [fileSize|err]] eqn:Hfin;
    [|discriminate].
  destruct (finalized_file _ _ _ _ _ _ _ _ Hon2 Hfin) as [_ Hfile].
  injection Hclose as <- <-. cbn in Hread.
  unfold validateWAVFile, Reader.Open. cbn.
  rewrite Hread, Hfile. apply validate_opened_patched.
Qed.

Lemma validateWAVFile_rejects_every_recording_witness :
  validateWAVFile Fixture.env0
    (Fixture.recorder_closed Fixture.env0 Fixture.three_chunks).1
    (Fixture.recorder_closed Fixture.env0 Fixture.three_chunks).2
  = Some "invalid bits per sample: 2 (expected 16)".
Proof.
  apply (validateWAVFile_rejects_every_recording Fixture.env0 Fixture.now
           Fixture.world0 (Fixture.recorder_created Fixture.env0).1
           (Fixture.recorder_written Fixture.env0 Fixture.three_chunks).1
           _ Fixture.recorder0 (Recorder.MkTranscriber "./recordings" 1)
           (Fixture.recorder_created Fixture.env0).2
           (Fixture.recorder_written Fixture.env0 Fixture.three_chunks).2
           _ Fixture.three_chunks).
  - vm_compute. reflexivity.
  - vm_compute. reflexivity.
  - vm_compute. reflexivity.
  - reflexivity.
Defined.

(** X2.  What [validateWAVFile] accepts, exactly: a file that can be
    opened passes if and only if it has at least forty bytes, of which
    bytes 0-3, 8-15, 20-27 and 36-39 are those of a mono 48 kHz PCM header
    and bytes 32-33 are the number 16.  The two size fields, the byte rate,
    bytes 34-35 and whatever follows byte 39 are never looked at. *)
Theorem validateWAVFile_accepts_exactly
    (e : OS.env) (w : OS.world) (rs : Recorder.RecorderStream) (c : list byte) :
  OS.read_err e (Recorder.filePath rs) = None ->
  OS.disk w !! Recorder.filePath rs = Some c ->
  validateWAVFile e w rs = None <-> accepted_wav c.
Proof.
  intros Hread Hdisk. unfold validateWAVFile, Reader.Open.
  rewrite Hread, Hdisk. apply validate_opened_accepts.
Qed.

Lemma validateWAVFile_accepts_exactly_witness :
  validateWAVFile Fixture.env0 Fixture.world_with_odd_wav Fixture.odd_stream = None
  <-> accepted_wav Fixture.odd_wav.
Proof.
  apply (validateWAVFile_accepts_exactly Fixture.env0 Fixture.world_with_odd_wav
           Fixture.odd_stream Fixture.odd_wav); reflexivity.
Defined.

(** The file of the witness is one the function accepts. *)
Example odd_wav_passes :
  validateWAVFile Fixture.env0 Fixture.world_with_odd_wav Fixture.odd_stream = None.
Proof. vm_compute. reflexivity. Qed.

End Validation.

(** ** The names of the files *)

Section FileNames.

Lemma string_app_cons (c : Ascii.ascii) (s t : string) :
  String c s ++ t = String c (s ++ t).
Proof. reflexivity. Qed.

Lemma string_app_length (s t : string) :
  String.length (s ++ t) = (String.length s + String.length t)%nat.
Proof.
  induction s as [|c s IH]; [reflexivity|].
  rewrite string_app_cons. cbn. rewrite IH. reflexivity.
Qed.

Lemma string_app_inj_length (s1 s2 t1 t2 : string) :
  String.length s1 = String.length s2 ->
  s1 ++ t1 = s2 ++ t2 -> s1 = s2 ∧ t1 = t2.
Proof.
  revert s2. induction s1 as [|c s1 IH]; intros [|d s2] Hlen Heq;
    try discriminate Hlen.
  - split; [reflexivity|exact Heq].
  - rewrite !string_app_cons in Heq. injection Heq as -> Heq.
    injection Hlen as Hlen. destruct (IH _ Hlen Heq) as [-> ->]. auto.
Qed.

Lemma string_app_inv_tail (s1 s2 t : string) : s1 ++ t = s2 ++ t -> s1 = s2.
Proof.
  intros Heq. apply (string_app_inj_length s1 s2 t t); [|exact Heq].
  apply (f_equal String.length) in Heq. rewrite !string_app_length in Heq. lia.
Qed.

(** A printed number other than 0 does not start with the digit 0. *)
Lemma pretty_N_go_head (x : N) :
  ∀ s, (0 < x)%N -> ∃ c rest, pretty_N_go x s = String c rest ∧ c ≠ digit_zero.
Proof.
  induction x as [x IH] using (well_founded_induction N.lt_wf_0).
  intros s Hx. rewrite pretty_N_go_step by exact Hx.
  destruct (decide (x `div` 10 = 0)%N) as [Hz|Hnz].
  - rewrite Hz, pretty_N_go_0. eexists _, _. split; [reflexivity|].
    apply N.div_small_iff in Hz; [|lia].
    rewrite N.mod_small by exact Hz.
    assert (Hcases : (x = 1 ∨ x = 2 ∨ x = 3 ∨ x = 4 ∨ x = 5
                      ∨ x = 6 ∨ x = 7 ∨ x = 8 ∨ x = 9)%N) by (clear IH; lia).
    repeat (destruct Hcases as [->|Hcases]; [discriminate|]).
    subst x. discriminate.
  - apply IH; [apply N.div_lt; lia | apply N.neq_0_lt_0; exact Hnz].
Qed.

Lemma fmt_d_head (n : Z) :
  0 < n -> ∃ c rest, fmt_d n = String c rest ∧ c ≠ digit_zero.
Proof.
  intros Hn. unfold fmt_d, pretty, pretty_N.
  destruct (decide (Z.to_N n = 0%N)) as [Hz|Hnz]; [lia|].
  apply pretty_N_go_head. lia.
Qed.

Lemma fmt_d_inj (a b : Z) : 0 <= a -> 0 <= b -> fmt_d a = fmt_d b -> a = b.
Proof.
  intros Ha Hb Heq. unfold fmt_d in Heq. apply (inj pretty) in Heq. lia.
Qed.

(** A printed number that starts with the digit 0 is "0". *)
Lemma fmt_d_leading_zero (n : Z) (rest : string) :
  0 <= n -> fmt_d n = String digit_zero rest -> rest = "".
Proof.
  intros Hn Heq. destruct (decide (n = 0)) as [->|Hnz].
  - vm_compute in Heq. congruence.
  - destruct (fmt_d_head n) as (c & r & Hd & Hc); [lia|]. congruence.
Qed.

Lemma fmt_03d_inj (a b : Z) : 0 <= a -> 0 <= b -> fmt_03d a = fmt_03d b -> a = b.
Proof.
  intros Ha Hb. unfold fmt_03d.
  pose proof (fmt_d_leading_zero a) as Za. pose proof (fmt_d_leading_zero b) as Zb.
  pose proof (fmt_d_inj a b Ha Hb) as Hinj.
  destruct (fmt_d a) as [|a0 [|a1 [|a2 sa]]]; destruct (fmt_d b) as [|b0 [|b1 [|b2 sb]]];
    cbn [String.length]; rewrite ?string_app_cons;
    repeat match goal with |- context [("" ++ ?x)%string] => change ("" ++ x) with x end;
    intros Heq; try (apply Hinj; congruence); exfalso;
    injection Heq as Heq; subst;
    first [ specialize (Za _ Ha eq_refl); discriminate Za
          | specialize (Zb _ Hb eq_refl); discriminate Zb
          | idtac ].
Qed.

Lemma filepath_Join_inj (dir a b : string) :
  filepath_Join dir a = filepath_Join dir b -> a = b.
Proof.
  unfold filepath_Join. destruct (decide (dir = "")); [auto|].
  intros Heq. apply (inj (String.append dir)) in Heq.
  apply (inj (String.append "/")) in Heq. exact Heq.
Qed.

(** The name and the path [CreateStream] gives a recording. *)
Lemma Recorder_CreateStream_name (e : OS.env) (ts : string) (w w1 : OS.world)
    (r r1 : Recorder.RecorderTranscriber) (rs : Recorder.RecorderStream) :
  Recorder.CreateStream e ts w r = (w1, r1, inl rs) ->
  Recorder.fileName rs
    = "recording_" ++ ts ++ "_" ++ fmt_03d (Recorder.counter r + 1) ++ ".wav"
  ∧ Recorder.filePath rs = filepath_Join (Recorder.outputDir r) (Recorder.fileName rs)
  ∧ r1 = Recorder.MkTranscriber (Recorder.outputDir r) (Recorder.counter r + 1).
Proof.
  unfold Recorder.CreateStream. cbn.
  destruct (OS.MkdirAll e w (Recorder.outputDir r)) as [w0 [err|]]; [discriminate|].
  destruct (OS.Create e w0 _) as [w2 [f|err]]; [|discriminate].
  destruct (write_header e w2 f _ _) as [w3 [f3|err]]; [|discriminate].
  intros [= <- <- <-]. auto.
Qed.

Lemma Whisper_CreateStream_name (e : OS.env) (ts : string) (w w1 : OS.world)
    (t t1 : Whisper.WhisperTranscriber) (opts : StreamOptions)
    (ws : Whisper.WhisperStream) :
  Whisper.CreateStreamWithOptions e ts w t opts = (w1, t1, inl ws) ->
  Whisper.filePath ws
    = filepath_Join (Whisper.tempDir t)
        ("whisper_audio_" ++ fmt_d (Whisper.counter t + 1) ++ "_" ++ ts ++ ".wav")
  ∧ Whisper.counter t1 = Whisper.counter t + 1
  ∧ Whisper.tempDir t1 = Whisper.tempDir t.
Proof.
  unfold Whisper.CreateStreamWithOptions. cbn.
  destruct (OS.MkdirAll e w (Whisper.tempDir t)) as [w0 [err|]]; [discriminate|].
  destruct (OS.Create e w0 _) as [w2 [f|err]]; [|discriminate].
  destruct (write_header e w2 f _ _) as [w3 [f3|err]]; [|discriminate].
  intros [= <- <- <-]. auto.
Qed.

(** X3.  Two streams of one transcriber never share a file.  The number a
    stream gets from the counter is part of its file name, so two calls of
    [CreateStream] made at different values of the counter, even within
    the same second, give different paths: for the recorder
    (recording_<time>_<NNN>.wav, the number padded to three digits) and
    for Whisper (whisper_audio_<N>_<time>.wav).  The time stamps have the
    fixed layout 20060102_150405, hence the same length. *)
Theorem stream_files_are_distinct :
  (∀ (e1 e2 : OS.env) (ts1 ts2 : string) (w1 w2 w1' w2' : OS.world)
     (r1 r2 r1' r2' : Recorder.RecorderTranscriber)
     (rs1 rs2 : Recorder.RecorderStream),
     Recorder.CreateStream e1 ts1 w1 r1 = (w1', r1', inl rs1) ->
     Recorder.CreateStream e2 ts2 w2 r2 = (w2', r2', inl rs2) ->
     Recorder.outputDir r1 = Recorder.outputDir r2 ->
     0 <= Recorder.counter r1 -> 0 <= Recorder.counter r2 ->
     Recorder.counter r1 ≠ Recorder.counter r2 ->
     String.length ts1 = String.length ts2 ->
     Recorder.filePath rs1 ≠ Recorder.filePath rs2)
  ∧ (∀ (e1 e2 : OS.env) (ts1 ts2 : string) (w1 w2 w1' w2' : OS.world)
       (t1 t2 t1' t2' : Whisper.WhisperTranscriber) (o1 o2 : StreamOptions)
       (ws1 ws2 : Whisper.WhisperStream),
       Whisper.CreateStreamWithOptions e1 ts1 w1 t1 o1 = (w1', t1', inl ws1) ->
       Whisper.CreateStreamWithOptions e2 ts2 w2 t2 o2 = (w2', t2', inl ws2) ->
       Whisper.tempDir t1 = Whisper.tempDir t2 ->
       0 <= Whisper.counter t1 -> 0 <= Whisper.counter t2 ->
       Whisper.counter t1 ≠ Whisper.counter t2 ->
       String.length ts1 = String.length ts2 ->
       Whisper.filePath ws1 ≠ Whisper.filePath ws2).
Proof.
  split.
  - intros e1 e2 ts1 ts2 w1 w2 w1' w2' r1 r2 r1' r2' rs1 rs2
      Hc1 Hc2 Hdir Hn1 Hn2 Hne Hlen Heq.
    destruct (Recorder_CreateStream_name _ _ _ _ _ _ _ Hc1) as (Hname1 & Hpath1 & _).
    destruct (Recorder_CreateStream_name _ _ _ _ _ _ _ Hc2) as (Hname2 & Hpath2 & _).
    rewrite Hpath1, Hpath2, Hdir in Heq. apply filepath_Join_inj in Heq.
    rewrite Hname1, Hname2 in Heq.
    apply (inj (String.append "recording_")) in Heq.
    apply string_app_inj_length in Heq as [_ Heq]; [|exact Hlen].
    apply (inj (String.append "_")) in Heq.
    apply string_app_inv_tail, fmt_03d_inj in Heq; lia.
  - intros e1 e2 ts1 ts2 w1 w2 w1' w2' t1 t2 t1' t2' o1 o2 ws1 ws2
      Hc1 Hc2 Hdir Hn1 Hn2 Hne Hlen Heq.
    destruct (Whisper_CreateStream_name _ _ _ _ _ _ _ _ Hc1) as (Hpath1 & _).
    destruct (Whisper_CreateStream_name _ _ _ _ _ _ _ _ Hc2) as (Hpath2 & _).
    rewrite Hpath1, Hpath2, Hdir in Heq. apply filepath_Join_inj in Heq.
    apply (inj (String.append "whisper_audio_")) in Heq.
    assert (Hd : String.length (fmt_d (Whisper.counter t1 + 1))
                 = String.length (fmt_d (Whisper.counter t2 + 1))).
    { apply (f_equal String.length) in Heq.
      rewrite !string_app_length in Heq. cbn [String.length] in Heq. lia. }
    apply string_app_inj_length in Heq as [Heq _]; [|exact Hd].
    apply fmt_d_inj in Heq; lia.
Qed.

Lemma stream_files_are_distinct_witness :
  Recorder.filePath (Fixture.recorder_created Fixture.env0).2
  ≠ Recorder.filePath (Fixture.second_recording Fixture.now).2.
Proof.
  destruct stream_files_are_distinct as [Hrecorder _].
  apply (Hrecorder Fixture.env0 Fixture.env0 Fixture.now Fixture.now
           Fixture.world0 (Fixture.recorder_created Fixture.env0).1
           (Fixture.recorder_created Fixture.env0).1
           (Fixture.second_recording Fixture.now).1
           Fixture.recorder0 (Recorder.MkTranscriber "./recordings" 1)
           (Recorder.MkTranscriber "./recordings" 1)
           (Recorder.MkTranscriber "./recordings" 2)).
  - vm_compute. reflexivity.
  - vm_compute. reflexivity.
  - reflexivity.
  - vm_compute. discriminate.
  - vm_compute. discriminate.
  - vm_compute. discriminate.
  - reflexivity.
Defined.

End FileNames.

(** ** What a stream leaves on the disk *)

Section OnDisk.

(** A header write that fails takes the file with it. *)
Lemma write_header_fails (e : OS.env) (fields : list (string * list byte)) :
  ∀ (w w' : OS.world) (f : OS.File) (path : string) (c : list byte) (err : string),
    on_disk w f path c ->
    OS.remove_err e path = None ->
    write_header e w f path fields = (w', inr err) ->
    OS.disk w' = delete path (OS.disk w).
Proof.
  induction fields as [|[name data] rest IH]; intros w w' f path c err Hon Hrm Hwr.
  - discriminate Hwr.
  - unfold write_header in Hwr; fold write_header in Hwr.
    destruct (OS.Write e w f data) as [[w1 f1] [n [werr|]]] eqn:Hw.
    + destruct Hon as (Hpath & Hopen & Hoff & Hdisk).
      destruct f as [fp fo fc]. cbn in Hpath, Hopen, Hoff. subst fp fc fo.
      unfold OS.Write, OS.log, OS.content in Hw. cbn in Hw.
      destruct (OS.write_err e path (length c) data) as [[k kerr]|];
        [|discriminate Hw].
      injection Hw as <- <- <- <-.
      unfold OS.Close, OS.Remove, OS.log in Hwr. cbn in Hwr.
      rewrite Hrm, lookup_insert_eq in Hwr. cbn in Hwr.
      injection Hwr as <- <-. cbn. apply delete_insert_eq.
    + destruct (OS_Write_at_end _ _ _ _ _ _ _ _ _ Hon Hw) as [Hon1 _].
      rewrite (IH _ _ _ _ _ _ Hon1 Hrm Hwr).
      destruct Hon as (Hpath & Hopen & Hoff & Hdisk).
      destruct f as [fp fo fc]. cbn in Hpath, Hopen, Hoff. subst fp fc fo.
      unfold OS.Write, OS.log, OS.content in Hw. cbn in Hw.
      destruct (OS.write_err e path (length c) data) as [[k kerr]|];
        [discriminate Hw|].
      injection Hw as <- <- <-. cbn. apply delete_insert_eq.
Qed.

Lemma created_then_failed (e : OS.env) (w w0 w' : OS.world) (f : OS.File)
    (path err : string) :
  OS.Create e w path = (w0, inl f) ->
  OS.remove_err e path = None ->
  OS.disk w !! path = None ->
  write_header e w0 f path (header_writes new_header) = (w', inr err) ->
  OS.disk w' = OS.disk w.
Proof.
  intros Hc Hrm Hfresh Hwr.
  pose proof (on_disk_created _ _ _ _ _ Hc) as Hon.
  rewrite (write_header_fails _ _ _ _ _ _ _ _ Hon Hrm Hwr).
  unfold OS.Create, OS.log in Hc. cbn in Hc.
  destruct (OS.create_err e path); [discriminate|].
  injection Hc as <- <-. cbn. rewrite delete_insert_eq.
  apply delete_id. exact Hfresh.
Qed.

Lemma only_removes_app (path : string) (a b : list OS.call) :
  only_removes path a -> only_removes path b -> only_removes path (a ++ b).
Proof.
  intros Ha Hb p Hin. apply elem_of_app in Hin as [Hin|Hin]; [apply Ha|apply Hb]; exact Hin.
Qed.

Lemma only_removes_nil (path : string) : only_removes path [].
Proof. intros p Hin. apply elem_of_nil in Hin. contradiction. Qed.

Lemma only_removes_one (path : string) (c : OS.call) :
  (∀ p, c = OS.SysRemove p -> p = path) -> only_removes path [c].
Proof.
  intros Hc p Hin. apply elem_of_cons in Hin as [Hin|Hin].
  - symmetry in Hin. exact (Hc p Hin).
  - apply elem_of_nil in Hin. contradiction.
Qed.

Lemma OS_Write_calls (e : OS.env) (w w1 : OS.world) (f f1 : OS.File)
    (data : list byte) (r : nat * option string) (path : string) :
  OS.Write e w f data = (w1, f1, r) ->
  ∃ calls, OS.trace w1 = (OS.trace w ++ calls)%list ∧ only_removes path calls.
Proof.
  unfold OS.Write, OS.log. destruct (OS.fd_closed f).
  - intros [= <- _ _]. exists []. rewrite app_nil_r. split; [reflexivity|apply only_removes_nil].
  - cbn. destruct (OS.write_err e _ _ _) as [[k kerr]|]; intros [= <- _ _]; cbn;
      (eexists [_]; split; [reflexivity|apply only_removes_one; discriminate]).
Qed.

Lemma OS_Close_calls (e : OS.env) (w : OS.world) (f : OS.File) (path : string) :
  ∃ calls, OS.trace (OS.Close e w f).1.1 = (OS.trace w ++ calls)%list
           ∧ only_removes path calls.
Proof.
  unfold OS.Close, OS.log. destruct (OS.fd_closed f); cbn.
  - exists []. rewrite app_nil_r. split; [reflexivity|apply only_removes_nil].
  - eexists [_]. split; [reflexivity|apply only_removes_one; discriminate].
Qed.

Lemma OS_Remove_trace (e : OS.env) (w : OS.world) (path : string) :
  OS.trace (OS.Remove e w path).1 = (OS.trace w ++ [OS.SysRemove path])%list.
Proof.
  unfold OS.Remove, OS.log. cbn.
  destruct (OS.remove_err e path); [reflexivity|].
  destruct (OS.disk w !! path); reflexivity.
Qed.

(** The calls of the header writes, whether they succeed or not: the one
    file they may remove is the file of the stream. *)
Lemma write_header_calls (e : OS.env) (fields : list (string * list byte)) :
  ∀ (w w' : OS.world) (f : OS.File) (path : string) (r : OS.File + string),
    write_header e w f path fields = (w', r) ->
    ∃ calls, OS.trace w' = (OS.trace w ++ calls)%list ∧ only_removes path calls.
Proof.
  induction fields as [|[name data] rest IH]; intros w w' f path r Hwr.
  - injection Hwr as <- _. exists []. rewrite app_nil_r.
    split; [reflexivity|apply only_removes_nil].
  - unfold write_header in Hwr; fold write_header in Hwr.
    destruct (OS.Write e w f data) as [[w1 f1] [n [werr|]]] eqn:Hw;
      destruct (OS_Write_calls _ _ _ _ _ _ _ path Hw) as (c1 & Ht1 & Ho1).
    + destruct (OS_Close_calls e w1 f1 path) as (c2 & Ht2 & Ho2).
      destruct (OS.Close e w1 f1) as [[w2 f2] r2]. cbn in Ht2.
      pose proof (OS_Remove_trace e w2 path) as Ht3.
      destruct (OS.Remove e w2 path) as [w3 r3]. cbn in Ht3.
      injection Hwr as <- _.
      exists (c1 ++ c2 ++ [OS.SysRemove path])%list.
      split; [rewrite Ht3, Ht2, Ht1, <- !app_assoc; reflexivity|].
      repeat apply only_removes_app; try assumption.
      apply only_removes_one. intros p [= ->]. reflexivity.
    + destruct (IH _ _ _ _ _ Hwr) as (c2 & Ht2 & Ho2).
      exists (c1 ++ c2)%list.
      split; [rewrite Ht2, Ht1, <- app_assoc; reflexivity|].
      apply only_removes_app; assumption.
Qed.

(** The calls of a [CreateStream] that fails: the directory is made first,
    and what follows removes nothing but the new file. *)
Lemma failed_creation_calls (e : OS.env) (w w1 : OS.world) (dir path : string) :
  match OS.Create e (OS.MkdirAll e w dir).1 path with
  | (w2, inl f) =>
      ∃ err, write_header e w2 f path (header_writes new_header) = (w1, inr err)
  | (w2, inr _) => w1 = w2
  end ->
  ∃ calls, OS.trace w1 = (OS.trace w ++ OS.SysMkdirAll dir :: calls)%list
           ∧ only_removes path calls.
Proof.
  unfold OS.MkdirAll, OS.Create, OS.log. cbn.
  destruct (OS.create_err e path) as [cerr|].
  - intros ->. cbn. exists [OS.SysCreate path].
    split; [rewrite <- !app_assoc; reflexivity|].
    apply only_removes_one; discriminate.
  - intros (herr & Hh).
    destruct (write_header_calls _ _ _ _ _ _ _ Hh) as (c & Ht & Ho). cbn in Ht.
    exists (OS.SysCreate path :: c). split; [rewrite Ht, <- !app_assoc; reflexivity|].
    apply (only_removes_app path [_] c); [apply only_removes_one; discriminate|exact Ho].
Qed.

(** X4.  A [CreateStream] that fails leaves no file behind, and leaves the
    directory.  Whether the directory cannot be made, the file cannot be
    created or one of the thirteen writes of the header fails: when the
    name is new and [os.Remove] works, the regular files after the failed
    call are the regular files before it.  The call has asked for the
    directory first ([os.MkdirAll]), and the only thing it removes
    afterwards is the new file: a directory that [os.MkdirAll] made stays.
    This holds for the recorder and for Whisper. *)
Theorem failed_CreateStream_leaves_no_file :
  (∀ (e : OS.env) (ts : string) (w w1 : OS.world)
     (r r1 : Recorder.RecorderTranscriber) (err : string),
     let path := filepath_Join (Recorder.outputDir r)
                   ("recording_" ++ ts ++ "_" ++ fmt_03d (Recorder.counter r + 1)
                    ++ ".wav") in
     Recorder.CreateStream e ts w r = (w1, r1, inr err) ->
     OS.remove_err e path = None ->
     OS.disk w !! path = None ->
     OS.disk w1 = OS.disk w
     ∧ ∃ calls,
         OS.trace w1 = (OS.trace w ++ OS.SysMkdirAll (Recorder.outputDir r) :: calls)%list
         ∧ only_removes path calls)
  ∧ (∀ (e : OS.env) (ts : string) (w w1 : OS.world)
       (t t1 : Whisper.WhisperTranscriber) (opts : StreamOptions) (err : string),
       let path := filepath_Join (Whisper.tempDir t)
                     ("whisper_audio_" ++ fmt_d (Whisper.counter t + 1) ++ "_" ++ ts
                      ++ ".wav") in
       Whisper.CreateStreamWithOptions e ts w t opts = (w1, t1, inr err) ->
       OS.remove_err e path = None ->
       OS.disk w !! path = None ->
       OS.disk w1 = OS.disk w
       ∧ ∃ calls,
           OS.trace w1 = (OS.trace w ++ OS.SysMkdirAll (Whisper.tempDir t) :: calls)%list
           ∧ only_removes path calls).
Proof.
  split.
  - intros e ts w w1 r r1 err path. unfold Recorder.CreateStream. cbn. fold path.
    unfold OS.MkdirAll at 1.
    destruct (OS.mkdir_err e (Recorder.outputDir r)) as [merr|].
    { intros [= <- _ _] _ _. split; [reflexivity|].
      exists []. split; [reflexivity|apply only_removes_nil]. }
    pose proof (failed_creation_calls e w w1 (Recorder.outputDir r) path) as Hcalls.
    unfold OS.MkdirAll in Hcalls. cbn [fst] in Hcalls.
    destruct (OS.Create e _ path) as [w2 [f|cerr]] eqn:Hc.
    + destruct (write_header e w2 f _ _) as [w3 [f3|herr]] eqn:Hh; [discriminate|].
      intros [= <- _ _] Hrm Hfresh.
      split; [apply (created_then_failed _ _ _ _ _ _ _ Hc Hrm Hfresh Hh)|].
      apply Hcalls; eauto.
    + intros [= <- _ _] _ _. split; [|apply Hcalls; auto].
      unfold OS.Create, OS.log in Hc. cbn in Hc.
      destruct (OS.create_err e path); [|discriminate].
      injection Hc as <- _. reflexivity.
  - intros e ts w w1 t t1 opts err path.
    unfold Whisper.CreateStreamWithOptions. cbn. fold path.
    unfold OS.MkdirAll at 1.
    destruct (OS.mkdir_err e (Whisper.tempDir t)) as [merr|].
    { intros [= <- _ _] _ _. split; [reflexivity|].
      exists []. split; [reflexivity|apply only_removes_nil]. }
    pose proof (failed_creation_calls e w w1 (Whisper.tempDir t) path) as Hcalls.
    unfold OS.MkdirAll in Hcalls. cbn [fst] in Hcalls.
    destruct (OS.Create e _ path) as [w2 [f|cerr]] eqn:Hc.
    + destruct (write_header e w2 f _ _) as [w3 [f3|herr]] eqn:Hh; [discriminate|].
      intros [= <- _ _] Hrm Hfresh.
      split; [apply (created_then_failed _ _ _ _ _ _ _ Hc Hrm Hfresh Hh)|].
      apply Hcalls; eauto.
    + intros [= <- _ _] _ _. split; [|apply Hcalls; auto].
      unfold OS.Create, OS.log in Hc. cbn in Hc.
      destruct (OS.create_err e path); [|discriminate].
      injection Hc as <- _. reflexivity.
Qed.

Lemma failed_CreateStream_leaves_no_file_witness :
  OS.disk (Recorder.CreateStream Fixture.env_disk_full Fixture.now
             Fixture.world0 Fixture.recorder0).1.1
  = OS.disk Fixture.world0
  ∧ ∃ calls,
      OS.trace (Recorder.CreateStream Fixture.env_disk_full Fixture.now
                  Fixture.world0 Fixture.recorder0).1.1
      = (OS.trace Fixture.world0 ++ OS.SysMkdirAll "./recordings" :: calls)%list
      ∧ only_removes "./recordings/recording_20250827_161500_001.wav" calls.
Proof.
  destruct failed_CreateStream_leaves_no_file as [Hrecorder _].
  apply (Hrecorder Fixture.env_disk_full Fixture.now Fixture.world0 _
           Fixture.recorder0 (Recorder.MkTranscriber "./recordings" 1)
           "failed to write SampleRate: no space left on device").
  - vm_compute. reflexivity.
  - reflexivity.
  - reflexivity.
Defined.

(** X5.  A finished recording is the header followed by exactly the bytes
    that were written, in the order of the writes: after [CreateStream],
    any sequence of successful [Write] calls and a [Close] that returns
    [nil], the file of the stream holds the 44 bytes of the patched header
    and then the concatenation of the chunks, however the audio was cut
    into chunks. *)
Theorem recording_holds_what_was_written
    (e : OS.env) (ts : string) (w w1 w2 w3 : OS.world)
    (r r1 : Recorder.RecorderTranscriber) (rs rs2 rs3 : Recorder.RecorderStream)
    (chunks : list (list byte)) :
  Recorder.CreateStream e ts w r = (w1, r1, inl rs) ->
  Recorder_write_all e w1 rs chunks = Some (w2, rs2) ->
  Recorder.Close e w2 rs2 = Ret (w3, rs3, None) ->
  ∃ file,
    OS.disk w3 !! Recorder.filePath rs = Some file
    ∧ length (take 44 file) = 44%nat
    ∧ take 4 file = String.list_byte_of_string "RIFF"
    ∧ drop 44 file = concat chunks.
Proof.
  intros Hcreate Hwrite Hclose.
  destruct (Recorder_CreateStream_inv _ _ _ _ _ _ _ Hcreate) as (Hon & Hopen & _).
  destruct (Recorder_write_all_inv _ _ _ _ _ _ _ Hopen Hon Hwrite)
    as (Hon2 & Hopen2 & Hpath & _).
  rewrite (Recorder_Close_eq _ _ _ Hopen2) in Hclose.
  destruct (finalize_wav e w2 _ _) as [[w' f'] [fileSize|ferr]] eqn:Hfin;
    [|discriminate].
  destruct (finalized_file _ _ _ _ _ _ _ _ Hon2 Hfin) as [_ Hfile].
  injection Hclose as <- _. rewrite Hpath in Hfile.
  eexists. split; [exact Hfile|].
  rewrite take_app_le, drop_app_length' by (rewrite length_patched_header; lia).
  rewrite take_ge by (rewrite length_patched_header; lia).
  split; [apply length_patched_header|]. split; reflexivity.
Qed.

Lemma recording_holds_what_was_written_witness :
  ∃ file,
    OS.disk (Fixture.recorder_closed Fixture.env0 Fixture.three_chunks).1
      !! Recorder.filePath (Fixture.recorder_created Fixture.env0).2 = Some file
    ∧ length (take 44 file) = 44%nat
    ∧ take 4 file = String.list_byte_of_string "RIFF"
    ∧ drop 44 file = concat Fixture.three_chunks.
Proof.
  apply (recording_holds_what_was_written Fixture.env0 Fixture.now Fixture.world0
           (Fixture.recorder_created Fixture.env0).1
           (Fixture.recorder_written Fixture.env0 Fixture.three_chunks).1
           (Fixture.recorder_closed Fixture.env0 Fixture.three_chunks).1
           Fixture.recorder0 (Recorder.MkTranscriber "./recordings" 1)
           (Fixture.recorder_created Fixture.env0).2
           (Fixture.recorder_written Fixture.env0 Fixture.three_chunks).2
           (Fixture.recorder_closed Fixture.env0 Fixture.three_chunks).2
           Fixture.three_chunks).
  - vm_compute. reflexivity.
  - vm_compute. reflexivity.
  - vm_compute. reflexivity.
Defined.

End OnDisk.

(** ** Whisper: the recognition that succeeds *)

Section Recognition.

Lemma string_app_assoc (a b c : string) : (a ++ b) ++ c = a ++ (b ++ c).
Proof.
  induction a as [|x a IH]; [reflexivity|].
  rewrite !string_app_cons, IH. reflexivity.
Qed.

Lemma substring_prefix (p s : string) :
  String.substring 0 (String.length p) (p ++ s) = p.
Proof.
  induction p as [|x p IH]; [destruct s; reflexivity|].
  rewrite string_app_cons. cbn. rewrite IH. reflexivity.
Qed.

(** The path of a Whisper stream ends in ".wav". *)
Lemma Whisper_path_wav (e : OS.env) (ts : string) (w w1 : OS.world)
    (t t1 : Whisper.WhisperTranscriber) (opts : StreamOptions)
    (ws : Whisper.WhisperStream) :
  Whisper.CreateStreamWithOptions e ts w t opts = (w1, t1, inl ws) ->
  ∃ stem, Whisper.filePath ws = stem ++ ".wav".
Proof.
  intros Hcreate.
  destruct (Whisper_CreateStream_name _ _ _ _ _ _ _ _ Hcreate) as (-> & _).
  unfold filepath_Join. destruct (decide (Whisper.tempDir t = "")).
  - eexists. rewrite <- !string_app_assoc. reflexivity.
  - eexists. rewrite <- !string_app_assoc. reflexivity.
Qed.

Lemma txt_path_wav (stem : string) :
  txt_path (stem ++ ".wav") = stem ++ ".txt"
  ∧ txt_path (stem ++ ".wav") ≠ stem ++ ".wav"
  ∧ (String.length (stem ++ ".wav") <? 4)%nat = false.
Proof.
  assert (Hlen : (String.length (stem ++ ".wav") - 4)%nat = String.length stem).
  { rewrite string_app_length. cbn. lia. }
  assert (Htxt : txt_path (stem ++ ".wav") = stem ++ ".txt").
  { unfold txt_path. rewrite Hlen, substring_prefix. reflexivity. }
  split; [exact Htxt|]. split.
  - rewrite Htxt. intros Heq. apply (inj (String.append stem)) in Heq. discriminate.
  - apply Nat.ltb_ge. rewrite string_app_length. cbn. lia.
Qed.

Lemma string_of_list_byte_nil (c : list byte) :
  String.string_of_list_byte c = "" -> c = [].
Proof.
  intros Heq. apply (f_equal String.list_byte_of_string) in Heq.
  rewrite String.list_byte_of_string_of_list_byte in Heq. exact Heq.
Qed.

(** The command [transcribeAudio] runs, and what it returns when the
    program succeeds. *)
Lemma transcribeAudio_command (t : Whisper.WhisperTranscriber) (lang audioPath : string) :
  ((if decide (lang ≠ "" ∧ lang ≠ "auto")
    then ["--model"; Whisper.modelPath t; "--output_dir"; Whisper.tempDir t;
          "--output_format"; "txt"; "--task"; "transcribe"; "--temperature"; "0.0"]
         ++ ["--language"; lang]
    else ["--model"; Whisper.modelPath t; "--output_dir"; Whisper.tempDir t;
          "--output_format"; "txt"; "--task"; "transcribe"; "--temperature"; "0.0"])
   ++ [audioPath])%list
  = whisper_command t lang audioPath.
Proof.
  unfold whisper_command.
  destruct (decide (lang ≠ "" ∧ lang ≠ "auto")) as [[H1 H2]|Hno];
    destruct (decide (lang = "" ∨ lang = "auto")) as [Hor|Hnor]; try reflexivity.
  - destruct Hor; contradiction.
  - exfalso. apply Hno. split; intros ->; apply Hnor; auto.
Qed.

Lemma transcribeAudio_run (e : OS.env) (w : OS.world) (ws : Whisper.WhisperStream)
    (stem : string) (output : option (list byte)) :
  let t := Whisper.transcriber ws in
  let audioPath := stem ++ ".wav" in
  let txt := stem ++ ".txt" in
  let lang := if decide (Whisper.stream_language ws = "")
              then Whisper.language t else Whisper.stream_language ws in
  Whisper.whisperPath t ≠ "" ->
  recognizer_leaves e txt output ->
  OS.read_err e txt = None ->
  OS.remove_err e txt = None ->
  ∃ w' res,
    Whisper.transcribeAudio e w ws audioPath = Ret (w', res)
    ∧ res = match output with
            | None => ("", "", Some ("failed to read transcription output: "
                                     ++ OS.ErrNotExist))
            | Some [] => ("", txt, Some "transcription result is empty")
            | Some c => (String.string_of_list_byte c, txt, None)
            end
    ∧ OS.disk w' = match output with
                   | None => delete txt (OS.disk w)
                   | Some c => if Whisper.keepTxt t then <[txt := c]> (OS.disk w)
                               else delete txt (OS.disk w)
                   end
    ∧ ∃ reads,
        OS.trace w' = (OS.trace w ++
                       OS.SysExec (Whisper.whisperPath t)
                         (whisper_command t lang audioPath) :: reads)%list
        ∧ no_exec reads.
Proof.
  intros t audioPath txt lang Hwp Hrec Hread Hrm.
  destruct (txt_path_wav stem) as (Htxt & _ & Hlen).
  fold audioPath in Htxt, Hlen. fold txt in Htxt.
  unfold Whisper.transcribeAudio. cbv zeta. fold t. fold lang.
  destruct (decide (Whisper.whisperPath t = "")) as [|_]; [contradiction|].
  rewrite (transcribeAudio_command t lang audioPath).
  unfold OS.CombinedOutput, OS.log.
  match goal with |- context [OS.exec_run e ?p ?a ?d] =>
    destruct (Hrec p a d) as (out & ->) end.
  cbn [OS.disk OS.trace]. rewrite Hlen.
  change (String.substring 0 (String.length audioPath - 4) audioPath ++ ".txt")
    with (txt_path audioPath).
  rewrite Htxt.
  unfold OS.ReadFile, OS.log. cbn. rewrite Hread.
  assert (Hne : ∀ prog args,
            OS.SysExec prog args ∉ [OS.SysReadFile txt; OS.SysRemove txt]).
  { intros prog args Hin. repeat (apply elem_of_cons in Hin as [Hin|Hin];
      [discriminate Hin|]). apply elem_of_nil in Hin. exact Hin. }
  assert (Hne1 : ∀ prog args, OS.SysExec prog args ∉ [OS.SysReadFile txt]).
  { intros prog args Hin. repeat (apply elem_of_cons in Hin as [Hin|Hin];
      [discriminate Hin|]). apply elem_of_nil in Hin. exact Hin. }
  destruct output as [c|].
  - rewrite lookup_insert_eq.
    destruct (Whisper.keepTxt t) eqn:Hkeep.
    + destruct (decide (String.string_of_list_byte c = "")) as [Hempty|Hfull].
      * apply string_of_list_byte_nil in Hempty as ->.
        eexists _, _. split; [reflexivity|]. split; [reflexivity|].
        split; [reflexivity|]. cbn. exists [OS.SysReadFile txt].
        rewrite <- app_assoc. split; [reflexivity|exact Hne1].
      * eexists _, _. split; [reflexivity|].
        split; [destruct c; [contradiction|reflexivity]|].
        split; [reflexivity|]. cbn. exists [OS.SysReadFile txt].
        rewrite <- app_assoc. split; [reflexivity|exact Hne1].
    + unfold OS.Remove, OS.log. cbn. rewrite Hrm, lookup_insert_eq. cbn.
      destruct (decide (String.string_of_list_byte c = "")) as [Hempty|Hfull].
      * apply string_of_list_byte_nil in Hempty as ->.
        eexists _, _. split; [reflexivity|]. split; [reflexivity|].
        split; [cbn; apply delete_insert_eq|]. cbn.
        exists [OS.SysReadFile txt; OS.SysRemove txt].
        rewrite <- !app_assoc. split; [reflexivity|exact Hne].
      * eexists _, _. split; [reflexivity|].
        split; [destruct c; [contradiction|reflexivity]|].
        split; [cbn; apply delete_insert_eq|]. cbn.
        exists [OS.SysReadFile txt; OS.SysRemove txt].
        rewrite <- !app_assoc. split; [reflexivity|exact Hne].
  - rewrite lookup_delete_eq.
    eexists _, _. split; [reflexivity|]. split; [reflexivity|].
    split; [reflexivity|]. cbn. exists [OS.SysReadFile txt].
    rewrite <- app_assoc. split; [reflexivity|exact Hne1].
Qed.

(** The transcriber and the language a created stream carries. *)
Lemma Whisper_CreateStream_fields (e : OS.env) (ts : string) (w w1 : OS.world)
    (t t1 : Whisper.WhisperTranscriber) (opts : StreamOptions)
    (ws : Whisper.WhisperStream) :
  Whisper.CreateStreamWithOptions e ts w t opts = (w1, t1, inl ws) ->
  Whisper.transcriber ws = t1
  ∧ t1 = Whisper.MkTranscriber (Whisper.modelPath t) (Whisper.whisperPath t)
           (Whisper.tempDir t) (Whisper.language t) (Whisper.counter t + 1)
           (Whisper.keepWav t) (Whisper.keepTxt t)
  ∧ Whisper.stream_language ws = effective_language t opts.
Proof.
  unfold Whisper.CreateStreamWithOptions. cbn.
  destruct (OS.MkdirAll e w (Whisper.tempDir t)) as [w0 [err|]]; [discriminate|].
  destruct (OS.Create e w0 _) as [w2 [f|err]]; [|discriminate].
  destruct (write_header e w2 f _ _) as [w3 [f3|err]]; [|discriminate].
  intros [= <- <- <-]. auto.
Qed.

(** The language [transcribeAudio] settles on is the effective language
    of the call that created the stream. *)
Lemma settled_language (t : Whisper.WhisperTranscriber) (opts : StreamOptions) :
  (if decide (effective_language t opts = "") then Whisper.language t
   else effective_language t opts) = effective_language t opts.
Proof.
  unfold effective_language. destruct (decide (Language opts = "")) as [Hl|Hl].
  - destruct (decide (Whisper.language t = "")); congruence.
  - destruct (decide (Language opts = "")); congruence.
Qed.

(** [Close] of a transcribing stream with audio, on a machine whose file
    operations succeed and whose recognizer exits with success. *)
Lemma whisper_close_with_run (e : OS.env) (ts : string) (w w1 w2 : OS.world)
    (t t1 : Whisper.WhisperTranscriber) (opts : StreamOptions)
    (ws ws2 : Whisper.WhisperStream) (chunks : list (list byte))
    (output : option (list byte)) :
  let path := Whisper.filePath ws in
  let txt := txt_path path in
  Whisper.CreateStreamWithOptions e ts w t opts = (w1, t1, inl ws) ->
  Transcribe opts = true ->
  Whisper_write_all e w1 ws chunks = Some (w2, ws2) ->
  44 < uint32 (44 + total_size chunks) ->
  io_ok e path ->
  Whisper.whisperPath t ≠ "" ->
  recognizer_leaves e txt output ->
  OS.read_err e txt = None ->
  OS.remove_err e txt = None ->
  ∃ w3 ws3 file,
    Whisper.Close e w2 ws2 = Ret (w3, ws3, None)
    ∧ Whisper.Results ws3
      = MkChan [match output with
                | None => MkResult ("Transcription error: failed to read transcription output: "
                                    ++ OS.ErrNotExist) 0%Q true path ""
                | Some [] => MkResult "Transcription error: transcription result is empty"
                               0%Q true path ""
                | Some c => MkResult (String.string_of_list_byte c) (9 # 10)%Q true path txt
                end] 10 true
    ∧ OS.disk w3 !! path = (if Whisper.keepWav t then Some file else None)
    ∧ OS.disk w3 !! txt = match output with
                          | Some c => if Whisper.keepTxt t then Some c else None
                          | None => None
                          end
    ∧ drop 44 file = concat chunks.
Proof.
  intros path txt Hcreate Hopt Hwrite Hsize Hio Hwp Hrec Hread Hrm.
  destruct (whisper_ready _ _ _ _ _ _ _ _ _ _ _ Hcreate Hwrite)
    as (Hon & Hopen & Hpath & Htr).
  destruct (Whisper_CreateStreamWithOptions_inv _ _ _ _ _ _ _ _ Hcreate)
    as (Hon0 & Hopen0 & _).
  destruct (Whisper_write_all_inv _ _ _ _ _ _ _ Hopen0 Hon0 Hwrite)
    as (_ & _ & _ & _ & Htrans & Hlang).
  destruct (Whisper_CreateStream_fields _ _ _ _ _ _ _ _ Hcreate) as (Ht1 & Hfields & _).
  destruct (Whisper_path_wav _ _ _ _ _ _ _ _ Hcreate) as (stem & Hstem).
  destruct (txt_path_wav stem) as (Htxt & Hne & _).
  fold path in Hpath, Hstem. rewrite Hpath in Hon.
  destruct (finalize_wav_run e w2 _ _ _ Hio Hon) as (wf & ff & Hfin & Hfile & _).
  { unfold total_size in Hsize. lia. }
  fold (total_size chunks) in Hfin, Hfile.
  set (file := (patched_header (uint32 (44 + total_size chunks) - 8)
                  (uint32 (44 + total_size chunks) - 44) ++ concat chunks)%list) in *.
  assert (Hkeep : Whisper.keepTxt (Whisper.transcriber ws2) = Whisper.keepTxt t
                  ∧ Whisper.keepWav (Whisper.transcriber ws2) = Whisper.keepWav t
                  ∧ Whisper.whisperPath (Whisper.transcriber ws2) = Whisper.whisperPath t).
  { rewrite Htrans, Ht1, Hfields. auto. }
  destruct Hkeep as (HkeepTxt & HkeepWav & Hwpath).
  unfold txt in Hrec, Hread, Hrm. rewrite Hstem, Htxt in Hrec, Hread, Hrm.
  destruct (transcribeAudio_run e wf ws2 stem output) as (wt & res & Hrun & Hres & Hdisk & _);
    [congruence|exact Hrec|exact Hread|exact Hrm|].
  rewrite <- Hstem in Hrun. destruct res as [[text textFile] rerr].
  rewrite <- Hpath in Hfin, Hrun.
  rewrite (Whisper_Close_transcribe _ _ _ _ _ _ _ _ _ _ Hopen Hfin
             ltac:(lia) ltac:(congruence) Hrun).
  rewrite Hpath, HkeepWav. rewrite HkeepTxt in Hdisk.
  assert (Hio' := Hio). destruct Hio' as (_ & _ & _ & _ & Hrmwav).
  assert (Hwav : OS.disk wt !! path = Some file).
  { rewrite Hdisk, Hstem. rewrite Hstem in Hfile.
    destruct output as [c|]; [destruct (Whisper.keepTxt t)|];
      rewrite ?lookup_insert_ne, ?lookup_delete_ne by congruence; exact Hfile. }
  assert (Htxtfile : OS.disk wt !! txt
                     = match output with
                       | Some c => if Whisper.keepTxt t then Some c else None
                       | None => None
                       end).
  { rewrite Hdisk. unfold txt. rewrite Hstem, Htxt.
    destruct output as [c|]; [destruct (Whisper.keepTxt t)|];
      rewrite ?lookup_insert_eq, ?lookup_delete_eq; reflexivity. }
  eexists _, _, file. split; [reflexivity|].
  split; [|split; [|split]].
  - cbn. f_equal. unfold txt. rewrite Hstem, Htxt.
    destruct output as [[|b c]|]; injection Hres as -> -> ->; reflexivity.
  - destruct (Whisper.keepWav t); [exact Hwav|].
    unfold OS.Remove, OS.log. cbn. rewrite Hrmwav, Hwav. cbn. apply lookup_delete_eq.
  - destruct (Whisper.keepWav t); [exact Htxtfile|].
    unfold OS.Remove, OS.log. cbn. rewrite Hrmwav, Hwav. cbn.
    rewrite lookup_delete_ne; [exact Htxtfile|].
    unfold txt. rewrite Hstem, Htxt. congruence.
  - unfold file. rewrite drop_app_length' by (rewrite length_patched_header; reflexivity).
    reflexivity.
Qed.

(** X6.  A recognition that succeeds.  A Whisper stream created with
    transcription enabled has received audio; the file operations succeed
    and the recognizer exits with success, leaving a non-empty text file
    beside the recording (the path of the recording with .txt for .wav).
    Then [Close] returns [nil] and delivers exactly one [Result]: the text
    of that file, confidence 0.9, final, with the paths of the recording
    and of the text file.  Afterwards the recording is on the disk exactly
    when [keepWav] is set, the text file exactly when [keepTxt] is set, and
    a recording that is kept holds the written bytes after its header. *)
Theorem whisper_success_result_and_retention
    (e : OS.env) (ts : string) (w w1 w2 : OS.world)
    (t t1 : Whisper.WhisperTranscriber) (opts : StreamOptions)
    (ws ws2 : Whisper.WhisperStream) (chunks : list (list byte))
    (content : list byte) :
  Whisper.CreateStreamWithOptions e ts w t opts = (w1, t1, inl ws) ->
  Transcribe opts = true ->
  Whisper_write_all e w1 ws chunks = Some (w2, ws2) ->
  44 < uint32 (44 + total_size chunks) ->
  io_ok e (Whisper.filePath ws) ->
  Whisper.whisperPath t ≠ "" ->
  recognizer_leaves e (txt_path (Whisper.filePath ws)) (Some content) ->
  content ≠ [] ->
  OS.read_err e (txt_path (Whisper.filePath ws)) = None ->
  OS.remove_err e (txt_path (Whisper.filePath ws)) = None ->
  ∃ w3 ws3 file,
    Whisper.Close e w2 ws2 = Ret (w3, ws3, None)
    ∧ Whisper.Results ws3
      = MkChan [MkResult (String.string_of_list_byte content) (9 # 10)%Q true
                  (Whisper.filePath ws) (txt_path (Whisper.filePath ws))] 10 true
    ∧ OS.disk w3 !! Whisper.filePath ws
      = (if Whisper.keepWav t then Some file else None)
    ∧ OS.disk w3 !! txt_path (Whisper.filePath ws)
      = (if Whisper.keepTxt t then Some content else None)
    ∧ drop 44 file = concat chunks.
Proof.
  intros Hcreate Hopt Hwrite Hsize Hio Hwp Hrec Hfull Hread Hrm.
  destruct (whisper_close_with_run _ _ _ _ _ _ _ _ _ _ _ _ Hcreate Hopt Hwrite
              Hsize Hio Hwp Hrec Hread Hrm)
    as (w3 & ws3 & file & Hclose & Hres & Hwav & Htxt & Haudio).
  exists w3, ws3, file. destruct content as [|b c]; [contradiction|]. auto.
Qed.

Lemma whisper_success_result_and_retention_witness :
  ∃ w3 ws3 file,
    Whisper.Close Fixture.env_hello
      (Fixture.whisper_written Fixture.env_hello Fixture.whisper_tidy
         Fixture.transcribing Fixture.two_chunks).1
      (Fixture.whisper_written Fixture.env_hello Fixture.whisper_tidy
         Fixture.transcribing Fixture.two_chunks).2
    = Ret (w3, ws3, None)
    ∧ Whisper.Results ws3
      = MkChan [MkResult "hello world" (9 # 10)%Q true
                  "./output/whisper_audio_1_20250827_161500.wav"
                  "./output/whisper_audio_1_20250827_161500.txt"] 10 true
    ∧ OS.disk w3 !! "./output/whisper_audio_1_20250827_161500.wav" = None
    ∧ OS.disk w3 !! "./output/whisper_audio_1_20250827_161500.txt"
      = Some (String.list_byte_of_string "hello world")
    ∧ drop 44 file = concat Fixture.two_chunks.
Proof.
  apply (whisper_success_result_and_retention Fixture.env_hello Fixture.now
           Fixture.world0
           (Fixture.whisper_created Fixture.env_hello Fixture.whisper_tidy
              Fixture.transcribing).1
           (Fixture.whisper_written Fixture.env_hello Fixture.whisper_tidy
              Fixture.transcribing Fixture.two_chunks).1
           Fixture.whisper_tidy
           (Whisper.MkTranscriber "small" "/usr/local/bin/whisper" "./output"
              "auto" 1 false true)
           Fixture.transcribing
           (Fixture.whisper_created Fixture.env_hello Fixture.whisper_tidy
              Fixture.transcribing).2
           (Fixture.whisper_written Fixture.env_hello Fixture.whisper_tidy
              Fixture.transcribing Fixture.two_chunks).2
           Fixture.two_chunks (String.list_byte_of_string "hello world")).
  - vm_compute. reflexivity.
  - reflexivity.
  - vm_compute. reflexivity.
  - vm_compute. reflexivity.
  - repeat split.
  - discriminate.
  - intros prog args d. exists "". reflexivity.
  - discriminate.
  - reflexivity.
  - reflexivity.
Defined.

(** X7.  An exit status of 0 is not enough.  In the same situation, but
    with a recognizer that exits with success and leaves an empty text file
    or none at all, [Close] still returns [nil] and delivers exactly one
    [Result], of confidence 0, whose text starts with "Transcription
    error: " and names the cause.  The recording is removed all the same
    when [keepWav] is not set. *)
Theorem whisper_output_without_text
    (e : OS.env) (ts : string) (w w1 w2 : OS.world)
    (t t1 : Whisper.WhisperTranscriber) (opts : StreamOptions)
    (ws ws2 : Whisper.WhisperStream) (chunks : list (list byte))
    (output : option (list byte)) :
  Whisper.CreateStreamWithOptions e ts w t opts = (w1, t1, inl ws) ->
  Transcribe opts = true ->
  Whisper_write_all e w1 ws chunks = Some (w2, ws2) ->
  44 < uint32 (44 + total_size chunks) ->
  io_ok e (Whisper.filePath ws) ->
  Whisper.whisperPath t ≠ "" ->
  recognizer_leaves e (txt_path (Whisper.filePath ws)) output ->
  output = None ∨ output = Some [] ->
  OS.read_err e (txt_path (Whisper.filePath ws)) = None ->
  OS.remove_err e (txt_path (Whisper.filePath ws)) = None ->
  ∃ w3 ws3 file,
    Whisper.Close e w2 ws2 = Ret (w3, ws3, None)
    ∧ Whisper.Results ws3
      = MkChan [MkResult
                  ("Transcription error: "
                   ++ match output with
                      | None => "failed to read transcription output: "
                                ++ OS.ErrNotExist
                      | Some _ => "transcription result is empty"
                      end)
                  0%Q true (Whisper.filePath ws) ""] 10 true
    ∧ OS.disk w3 !! Whisper.filePath ws
      = (if Whisper.keepWav t then Some file else None).
Proof.
  intros Hcreate Hopt Hwrite Hsize Hio Hwp Hrec Hout Hread Hrm.
  destruct (whisper_close_with_run _ _ _ _ _ _ _ _ _ _ _ _ Hcreate Hopt Hwrite
              Hsize Hio Hwp Hrec Hread Hrm)
    as (w3 & ws3 & file & Hclose & Hres & Hwav & _).
  exists w3, ws3, file. destruct Hout as [-> | ->]; auto.
Qed.

Lemma whisper_output_without_text_witness :
  ∃ w3 ws3 (file : list byte),
    Whisper.Close Fixture.env_mute
      (Fixture.whisper_written Fixture.env_mute Fixture.whisper_tidy
         Fixture.transcribing Fixture.two_chunks).1
      (Fixture.whisper_written Fixture.env_mute Fixture.whisper_tidy
         Fixture.transcribing Fixture.two_chunks).2
    = Ret (w3, ws3, None)
    ∧ Whisper.Results ws3
      = MkChan [MkResult "Transcription error: transcription result is empty"
                  0%Q true "./output/whisper_audio_1_20250827_161500.wav" ""] 10 true
    ∧ OS.disk w3 !! "./output/whisper_audio_1_20250827_161500.wav" = None.
Proof.
  apply (whisper_output_without_text Fixture.env_mute Fixture.now
           Fixture.world0
           (Fixture.whisper_created Fixture.env_mute Fixture.whisper_tidy
              Fixture.transcribing).1
           (Fixture.whisper_written Fixture.env_mute Fixture.whisper_tidy
              Fixture.transcribing Fixture.two_chunks).1
           Fixture.whisper_tidy
           (Whisper.MkTranscriber "small" "/usr/local/bin/whisper" "./output"
              "auto" 1 false true)
           Fixture.transcribing
           (Fixture.whisper_created Fixture.env_mute Fixture.whisper_tidy
              Fixture.transcribing).2
           (Fixture.whisper_written Fixture.env_mute Fixture.whisper_tidy
              Fixture.transcribing Fixture.two_chunks).2
           Fixture.two_chunks (Some [])).
  - vm_compute. reflexivity.
  - reflexivity.
  - vm_compute. reflexivity.
  - vm_compute. reflexivity.
  - repeat split.
  - discriminate.
  - intros prog args d. exists "". reflexivity.
  - right. reflexivity.
  - reflexivity.
  - reflexivity.
Defined.

Ltac no_exec_in_reads :=
  intros ? ? Hin;
  repeat (apply elem_of_cons in Hin as [Hin|Hin]; [discriminate Hin|]);
  apply elem_of_nil in Hin; exact Hin.

(** Whatever the program and the file system do, [transcribeAudio] runs
    the program once, with the command line of the stream. *)
Lemma transcribeAudio_exec (e : OS.env) (w : OS.world) (ws : Whisper.WhisperStream)
    (audioPath : string) :
  let t := Whisper.transcriber ws in
  let lang := if decide (Whisper.stream_language ws = "")
              then Whisper.language t else Whisper.stream_language ws in
  Whisper.whisperPath t ≠ "" ->
  (String.length audioPath <? 4)%nat = false ->
  ∃ w' res reads,
    Whisper.transcribeAudio e w ws audioPath = Ret (w', res)
    ∧ OS.trace w' = (OS.trace w ++
                     OS.SysExec (Whisper.whisperPath t)
                       (whisper_command t lang audioPath) :: reads)%list
    ∧ no_exec reads.
Proof.
  intros t lang Hwp Hlen.
  unfold Whisper.transcribeAudio. cbv zeta. fold t. fold lang.
  destruct (decide (Whisper.whisperPath t = "")) as [|_]; [contradiction|].
  rewrite (transcribeAudio_command t lang audioPath).
  unfold OS.CombinedOutput, OS.log.
  destruct (OS.exec_run e _ _ _) as [[out [err|]] d]; cbn [OS.disk OS.trace].
  { eexists _, _, []. split; [reflexivity|]. split; [reflexivity|no_exec_in_reads]. }
  rewrite Hlen. unfold OS.ReadFile, OS.log. cbn [OS.disk OS.trace].
  destruct (OS.read_err e _) as [rerr|].
  { eexists _, _, [_]. split; [reflexivity|]. cbn.
    rewrite <- app_assoc. split; [reflexivity|no_exec_in_reads]. }
  destruct (d !! _) as [content|].
  2:{ eexists _, _, [_]. split; [reflexivity|]. cbn.
      rewrite <- app_assoc. split; [reflexivity|no_exec_in_reads]. }
  destruct (Whisper.keepTxt t).
  { destruct (decide (String.string_of_list_byte content = ""));
      (eexists _, _, [_]; split; [reflexivity|]; cbn;
       rewrite <- app_assoc; split; [reflexivity|no_exec_in_reads]). }
  unfold OS.Remove, OS.log. cbn [OS.disk OS.trace].
  destruct (OS.remove_err e _) as [merr|]; [|destruct (d !! _)];
    destruct (decide (String.string_of_list_byte content = ""));
    (eexists _, _, [_; _]; split; [reflexivity|]; cbn;
     rewrite <- !app_assoc; split; [reflexivity|no_exec_in_reads]).
Qed.

(** X8.  The language on the command line.  For a stream created by
    [CreateStreamWithOptions], whatever the recognizer and the file system
    do, [transcribeAudio] runs the configured executable exactly once, with
    the model, the output directory, text output, the task and temperature
    0.0, then "--language L" exactly when the effective language L (the
    language of the call if it is not empty, otherwise the language of the
    transcriber) is neither empty nor "auto", and the recording as the last
    argument. *)
Theorem whisper_language_on_command_line
    (e : OS.env) (ts : string) (w w1 wa : OS.world)
    (t t1 : Whisper.WhisperTranscriber) (opts : StreamOptions)
    (ws : Whisper.WhisperStream) :
  Whisper.CreateStreamWithOptions e ts w t opts = (w1, t1, inl ws) ->
  Whisper.whisperPath t ≠ "" ->
  ∃ wb res reads,
    Whisper.transcribeAudio e wa ws (Whisper.filePath ws) = Ret (wb, res)
    ∧ OS.trace wb
      = (OS.trace wa ++
         OS.SysExec (Whisper.whisperPath t)
           (whisper_command t (effective_language t opts) (Whisper.filePath ws))
         :: reads)%list
    ∧ no_exec reads.
Proof.
  intros Hcreate Hwp.
  destruct (Whisper_CreateStream_fields _ _ _ _ _ _ _ _ Hcreate) as (Ht1 & Hfields & Hlang).
  destruct (Whisper_path_wav _ _ _ _ _ _ _ _ Hcreate) as (stem & Hstem).
  destruct (txt_path_wav stem) as (_ & _ & Hlen). rewrite <- Hstem in Hlen.
  destruct (transcribeAudio_exec e wa ws (Whisper.filePath ws))
    as (wb & res & reads & Hrun & Htrace & Hno).
  { rewrite Ht1, Hfields. exact Hwp. }
  { exact Hlen. }
  exists wb, res, reads. split; [exact Hrun|]. split; [|exact Hno].
  rewrite Htrace, Hlang, Ht1, Hfields. cbn [Whisper.whisperPath Whisper.language].
  rewrite settled_language. reflexivity.
Qed.

Lemma whisper_language_on_command_line_witness :
  ∃ wb res reads,
    Whisper.transcribeAudio Fixture.env_crash Fixture.world0
      (Fixture.whisper_created Fixture.env_crash Fixture.whisper0
         Fixture.transcribing).2
      "./output/whisper_audio_1_20250827_161500.wav" = Ret (wb, res)
    ∧ OS.trace wb
      = ([] ++
         OS.SysExec "/usr/local/bin/whisper"
           ["--model"; "small"; "--output_dir"; "./output"; "--output_format"; "txt";
            "--task"; "transcribe"; "--temperature"; "0.0"; "--language"; "en";
            "./output/whisper_audio_1_20250827_161500.wav"]
         :: reads)%list
    ∧ no_exec reads.
Proof.
  apply (whisper_language_on_command_line Fixture.env_crash Fixture.now
           Fixture.world0
           (Fixture.whisper_created Fixture.env_crash Fixture.whisper0
              Fixture.transcribing).1
           Fixture.world0 Fixture.whisper0
           (Whisper.MkTranscriber "small" "/usr/local/bin/whisper" "./output"
              "auto" 1 true true)
           Fixture.transcribing
           (Fixture.whisper_created Fixture.env_crash Fixture.whisper0
              Fixture.transcribing).2).
  - vm_compute. reflexivity.
  - discriminate.
Defined.

End Recognition.

(** ** The results of the socket streams *)

Section Listeners.

(** On an unbuffered channel that nobody receives from, the blocking loop
    never gets a result through. *)
Lemma blocking_unbuffered {M : Type} (handle : M -> Listen.action)
    (incoming : list M) :
  ∃ l, Listen.blocking handle incoming (make_chan 0) = (make_chan 0, l)
       ∧ match Listen.deliveries handle incoming with
         | [] => l = Listen.Reading ∨ l = Listen.Returned
         | r :: _ => l = Listen.Sending r
         end.
Proof.
  induction incoming as [|m rest IH]; cbn.
  - eauto.
  - destruct (handle m) as [|r|]; cbn; eauto.
Qed.

(** With a buffer, the selecting loop keeps the results for which there is
    room and skips the others. *)
Lemma selecting_buffer {M : Type} (handle : M -> Listen.action)
    (incoming : list M) :
  ∀ ch, ch_closed ch = false -> (length (ch_buf ch) <= ch_cap ch)%nat ->
    ∃ l, Listen.selecting handle incoming ch
         = (MkChan (take (ch_cap ch) (ch_buf ch ++ Listen.deliveries handle incoming))
              (ch_cap ch) false, l)
         ∧ (l = Listen.Reading ∨ l = Listen.Returned).
Proof.
  induction incoming as [|m rest IH]; intros [buf cap closed] Hopen Hlen;
    cbn in Hopen, Hlen; subst closed; cbn [Listen.selecting Listen.deliveries].
  - exists Listen.Reading. cbn. rewrite app_nil_r, take_ge by lia. auto.
  - destruct (handle m) as [|r|].
    + apply IH; [reflexivity|exact Hlen].
    + unfold Listen.select_send. cbn [ch_closed ch_buf ch_cap].
      destruct (length buf <? cap)%nat eqn:Hroom.
      * apply Nat.ltb_lt in Hroom.
        destruct (IH (MkChan (buf ++ [r]) cap false) eq_refl) as (l & -> & Hl).
        { cbn. rewrite length_app. cbn. lia. }
        exists l. cbn. rewrite <- app_assoc. auto.
      * apply Nat.ltb_ge in Hroom.
        destruct (IH (MkChan buf cap false) eq_refl Hlen) as (l & -> & Hl).
        exists l. cbn. split; [|exact Hl].
        rewrite !take_app_le by lia. reflexivity.
    + exists Listen.Returned. cbn. rewrite app_nil_r, take_ge by lia. auto.
Qed.

Lemma IflyTek_created (t : IflyTek.IflyTekTranscriber)
    (dial : WS.Conn IflyTek.XunfeiRequest + string) (st : IflyTek.IflyTekStream) :
  IflyTek.CreateStream t dial = inl st -> IflyTek.results st = make_chan 0.
Proof.
  unfold IflyTek.CreateStream. destruct dial as [c|err]; [|discriminate].
  destruct (WS.WriteMessage c _) as [c1 [err|]]; [destruct (WS.Close c1); discriminate|].
  intros [= <-]. reflexivity.
Qed.

Lemma Azure_created (a : Azure.AzureTranscriber)
    (dial : WS.Conn Azure.message + string) (s : Azure.AzureStream) :
  Azure.CreateStream a dial = inl s -> Azure.results s = make_chan 10.
Proof.
  unfold Azure.CreateStream. destruct dial as [c|err]; [|discriminate].
  destruct (WS.WriteMessage c _) as [c1 [err|]]; [destruct (WS.Close c1); discriminate|].
  intros [= <-]. reflexivity.
Qed.

Lemma Baidu_created (b : Baidu.BaiduTranscriber) (token : string + string)
    (dial : WS.Conn Baidu.message + string) (s : Baidu.BaiduStream) :
  Baidu.CreateStream b token dial = inl s -> Baidu.results s = make_chan 10.
Proof.
  unfold Baidu.CreateStream. destruct token as [tok|err]; [|discriminate].
  destruct dial as [c|err]; [|discriminate].
  intros [= <-]. reflexivity.
Qed.

(** X9.  No result of the Xunfei service reaches the client.  The channel
    of an [IflyTekStream] is unbuffered and nothing receives from it before
    [Close]: whatever messages arrive, the listener cannot complete a send.
    It blocks at the first non-empty result, so when [Close] closes the
    channel it is still empty, and the deferred function of the pump, which
    drains it afterwards, relays nothing before it closes the data
    channel. *)
Theorem xunfei_results_never_arrive
    (json_Marshal : Result -> option string)
    (t : IflyTek.IflyTekTranscriber)
    (dial : WS.Conn IflyTek.XunfeiRequest + string) (st : IflyTek.IflyTekStream)
    (incoming : list (option IflyTekListener.XunfeiResponse))
    (dc : Pion.DataChannel) :
  IflyTek.CreateStream t dial = inl st ->
  ∃ st' l st'',
    IflyTekListener.listenForResults st incoming = (st', l)
    ∧ Results st' = make_chan 0
    ∧ match Listen.deliveries IflyTekListener.handle incoming with
      | [] => l = Listen.Reading ∨ l = Listen.Returned
      | r :: _ => l = Listen.Sending r
      end
    ∧ Pion.deferred_close json_Marshal st' dc = Ret (st'', Pion.dc_Close dc).
Proof.
  intros Hcreate. apply IflyTek_created in Hcreate.
  unfold IflyTekListener.listenForResults. rewrite Hcreate.
  destruct (blocking_unbuffered IflyTekListener.handle incoming) as (l & -> & Hl).
  assert (Hdrain : ∃ st'',
            Pion.deferred_close json_Marshal
              (IflyTek.MkStream (IflyTek.conn st) (make_chan 0) (IflyTek.transcriber st))
              dc = Ret (st'', Pion.dc_Close dc)).
  { unfold Pion.deferred_close. cbn. unfold IflyTek.Close. cbn.
    destruct (WS.WriteMessage _ _) as [c1 e1]. cbn. eexists. reflexivity. }
  destruct Hdrain as (st'' & Hdrain).
  eexists _, l, st''. split; [reflexivity|]. split; [reflexivity|].
  split; [exact Hl|exact Hdrain].
Qed.

Lemma xunfei_results_never_arrive_witness :
  ∃ st' l st'',
    IflyTekListener.listenForResults Fixture.xunfei_stream Fixture.xunfei_messages
    = (st', l)
    ∧ Results st' = make_chan 0
    ∧ l = Listen.Sending (MkResult "hello" (8 # 10)%Q false "" "")
    ∧ Pion.deferred_close Fixture.toy_Marshal st' Fixture.dc0
      = Ret (st'', Pion.dc_Close Fixture.dc0).
Proof.
  apply (xunfei_results_never_arrive Fixture.toy_Marshal Fixture.xunfei0
           (inl Fixture.healthy_conn) Fixture.xunfei_stream
           Fixture.xunfei_messages Fixture.dc0).
  reflexivity.
Defined.

(** X10.  At most ten results of an Azure or a Baidu stream reach the
    client.  The channel of these streams has ten slots and nothing
    receives from it before [Close]: the listener puts the first ten
    results there and skips every later one ("Results channel is full,
    skipping result").  The deferred function of the pump then relays
    exactly those ten, in order. *)
Theorem socket_results_capped_at_ten (json_Marshal : Result -> option string)
    (dc : Pion.DataChannel) :
  (∀ (a : Azure.AzureTranscriber) (dial : WS.Conn Azure.message + string)
     (s : Azure.AzureStream)
     (incoming : list (option AzureListener.azureSpeechResponse)),
     Azure.CreateStream a dial = inl s ->
     ∃ s' l s'',
       AzureListener.listenForResults s incoming = (s', l)
       ∧ ch_buf (Results s')
         = take 10 (Listen.deliveries AzureListener.handle incoming)
       ∧ Pion.deferred_close json_Marshal s' dc
         = Ret (s'', Pion.dc_Close
                       (foldl (Pion.relay json_Marshal) dc
                          (take 10 (Listen.deliveries AzureListener.handle incoming)))))
  ∧ (∀ (b : Baidu.BaiduTranscriber) (token : string + string)
       (dial : WS.Conn Baidu.message + string) (s : Baidu.BaiduStream)
       (incoming : list (option BaiduListener.baiduSpeechResponse)),
       Baidu.CreateStream b token dial = inl s ->
       ∃ s' l s'',
         BaiduListener.listenForResults s incoming = (s', l)
         ∧ ch_buf (Results s')
           = take 10 (Listen.deliveries BaiduListener.handle incoming)
         ∧ Pion.deferred_close json_Marshal s' dc
           = Ret (s'', Pion.dc_Close
                         (foldl (Pion.relay json_Marshal) dc
                            (take 10 (Listen.deliveries BaiduListener.handle incoming))))).
Proof.
  split.
  - intros a dial s incoming Hcreate. apply Azure_created in Hcreate.
    unfold AzureListener.listenForResults. rewrite Hcreate.
    destruct (selecting_buffer AzureListener.handle incoming (make_chan 10))
      as (l & -> & _); [reflexivity|cbn; lia|].
    cbn [ch_cap ch_buf make_chan app].
    set (kept := take 10 (Listen.deliveries AzureListener.handle incoming)).
    assert (Hdrain : ∃ s'',
              Pion.deferred_close json_Marshal
                (Azure.MkStream (Azure.conn s) (MkChan kept 10 false)) dc
              = Ret (s'', Pion.dc_Close (foldl (Pion.relay json_Marshal) dc kept))).
    { unfold Pion.deferred_close. cbn. unfold Azure.Close. cbn.
      destruct (WS.WriteMessage _ _) as [c1 e1]. cbn. eexists. reflexivity. }
    destruct Hdrain as (s'' & Hdrain).
    eexists _, l, s''. split; [reflexivity|]. split; [reflexivity|exact Hdrain].
  - intros b token dial s incoming Hcreate. apply Baidu_created in Hcreate.
    unfold BaiduListener.listenForResults. rewrite Hcreate.
    destruct (selecting_buffer BaiduListener.handle incoming (make_chan 10))
      as (l & -> & _); [reflexivity|cbn; lia|].
    cbn [ch_cap ch_buf make_chan app].
    set (kept := take 10 (Listen.deliveries BaiduListener.handle incoming)).
    assert (Hdrain : ∃ s'',
              Pion.deferred_close json_Marshal
                (Baidu.MkStream (Baidu.conn s) (MkChan kept 10 false)) dc
              = Ret (s'', Pion.dc_Close (foldl (Pion.relay json_Marshal) dc kept))).
    { unfold Pion.deferred_close. cbn. unfold Baidu.Close. cbn.
      destruct (WS.WriteMessage _ _) as [c1 e1]. cbn. eexists. reflexivity. }
    destruct Hdrain as (s'' & Hdrain).
    eexists _, l, s''. split; [reflexivity|]. split; [reflexivity|exact Hdrain].
Qed.

Lemma socket_results_capped_at_ten_witness :
  ∃ s' l s'',
    AzureListener.listenForResults Fixture.azure_stream Fixture.twelve_phrases
    = (s', l)
    ∧ ch_buf (Results s')
      = take 10 (Listen.deliveries AzureListener.handle Fixture.twelve_phrases)
    ∧ Pion.deferred_close Fixture.toy_Marshal s' Fixture.dc0
      = Ret (s'', Pion.dc_Close
                    (foldl (Pion.relay Fixture.toy_Marshal) Fixture.dc0
                       (take 10 (Listen.deliveries AzureListener.handle
                                   Fixture.twelve_phrases)))).
Proof.
  destruct (socket_results_capped_at_ten Fixture.toy_Marshal Fixture.dc0)
    as [Hazure _].
  apply (Hazure (Azure.MkTranscriber "key" "eastus")
           (inl (WS.MkConn false None [] [])) Fixture.azure_stream
           Fixture.twelve_phrases).
  reflexivity.
Defined.

(** Of the twelve phrases of the fixture, ten go out on the data channel. *)
Example ten_of_twelve :
  length (Pion.dc_sent
            (foldl (Pion.relay Fixture.toy_Marshal) Fixture.dc0
               (take 10 (Listen.deliveries AzureListener.handle
                           Fixture.twelve_phrases)))) = 10%nat
  ∧ length (Listen.deliveries AzureListener.handle Fixture.twelve_phrases) = 12%nat.
Proof. split; vm_compute; reflexivity. Qed.

End Listeners.

(** ** The pump on any track *)

Section PumpOnAnyTrack.

Context {S : Type} `{Stream S}.
Variable json_Marshal : Result -> option string.
Variable decode : list byte -> option (list byte).
Variable events : list Pion.track_event.

#[local] Abbreviation pump_step := (Pion.step json_Marshal decode).

(** The queues. *)
Lemma handshake_step (p q : @Pion.pump S) :
  handshake p -> pump_step p q -> handshake q.
Proof.
  intros [Hcap Hq] Hstep. unfold handshake.
  destruct Hstep as
    [ p Hr Hd | p payload rest0 Hr Hd Htr | p rest0 Hr Hd Htr
    | p err rest0 Hr Hd Htr Hroom | p payload Hr Hroom | p payload Hr Hd
    | p b rest0 Hr Hresp | p Hr Hd
    | p audioChunk rest0 payload Hm Hbuf Hdec | p audioChunk rest0 Hm Hbuf Hdec
    | p Hm Hbuf Hcl | p payload s n Hm Hw | p payload s n err Hm Hw
    | p Hm | p err rest0 Hm Herr | p Hm Hd | p err s d Hm Hdef ];
    cbn; try rewrite Hr in Hq.
  - (* r_ctx *) destruct Hq as [-> ->]. cbn. split; [exact Hcap|lia].
  - (* r_packet *) split; [exact Hcap|exact Hq].
  - (* r_eof *) destruct Hq as [-> ->]. cbn. split; [exact Hcap|lia].
  - (* r_error *) destruct Hq as [-> ->]. cbn. split; [exact Hcap|lia].
  - (* r_send *) destruct Hq as [-> ->]. cbn. split; [exact Hcap|lia].
  - (* r_send_ctx *) destruct Hq as [-> ->]. cbn. split; [exact Hcap|lia].
  - (* r_response *)
    split; [exact Hcap|]. rewrite Hresp in *. cbn in Hq.
    destruct (ch_buf (Pion.audioStream p)); [|cbn in Hq; lia].
    destruct rest0; [|cbn in Hq; lia]. auto.
  - (* r_wait_ctx *) split; [exact Hcap|exact Hq].
  - (* m_chunk *)
    rewrite Hbuf in Hq. unfold Pion.try_push, Pion.push.
    assert (Hone : rest0 = [] ∧ ch_buf (Pion.response p) = []
                   ∧ (Pion.reader p = Pion.RWait ∨ Pion.reader p = Pion.RDone)).
    { destruct (Pion.reader p); try (destruct Hq; discriminate);
        cbn in Hq; destruct rest0; cbn in Hq; try lia;
        destruct (ch_buf (Pion.response p)); cbn in Hq; try lia; auto. }
    destruct Hone as (-> & Hs & Hreader). rewrite Hs, Hcap. cbn.
    split; [reflexivity|]. rewrite Hbuf. cbn.
    destruct Hreader as [-> | ->]; cbn; lia.
  - (* m_chunk_skip *)
    split; [exact Hcap|]. rewrite Hbuf in *. cbn.
    destruct (Pion.reader p); try (destruct Hq; discriminate); cbn in *; lia.
  - (* m_stream_ended *) split; [exact Hcap|exact Hq].
  - (* m_write *) split; [exact Hcap|exact Hq].
  - (* m_write_error *) split; [exact Hcap|exact Hq].
  - (* m_timer *) split; [exact Hcap|exact Hq].
  - (* m_errs *) split; [exact Hcap|exact Hq].
  - (* m_ctx *) split; [exact Hcap|exact Hq].
  - (* m_deferred *) split; [exact Hcap|exact Hq].
Qed.

Lemma handshake_start (s : S) (d : Pion.DataChannel) :
  handshake (Pion.start events s d).
Proof. unfold handshake. cbn. auto. Qed.

Lemma handshake_reachable (s : S) (d : Pion.DataChannel) (p : @Pion.pump S) :
  Pion.reachable json_Marshal decode events s d p -> handshake p.
Proof.
  unfold Pion.reachable. intros Hreach. revert p Hreach. apply rtc_ind_r.
  - apply handshake_start.
  - intros p q _ Hstep IH. exact (handshake_step p q IH Hstep).
Qed.

(** X11.  The two goroutines of [handleAudioTrack] hand over one packet at
    a time.  In every state of every execution, on every track, the queue
    of payloads and the queue of responses, both made with a hundred slots,
    hold one element at most and never one each: the reader does not read
    the next packet before the loop has answered for the last one. *)
Theorem pump_queues_hold_one_element (s : S) (d : Pion.DataChannel)
    (p : @Pion.pump S) :
  Pion.reachable json_Marshal decode events s d p ->
  (length (ch_buf (Pion.audioStream p))
   + length (ch_buf (Pion.response p)) <= 1)%nat.
Proof.
  intros Hreach. destruct (handshake_reachable s d p Hreach) as [_ Hq].
  destruct (Pion.reader p); try exact Hq; destruct Hq as [-> ->]; cbn; lia.
Qed.

(** The order of the writes. *)
Lemma pending_read (p : @Pion.pump S) (evs : list Pion.track_event) :
  Pion.reader p = Pion.RRead -> pending p = Some evs ->
  ch_buf (Pion.audioStream p) = [] ∧ ch_buf (Pion.response p) = []
  ∧ evs = Pion.track p.
Proof.
  unfold pending. intros ->.
  destruct (ch_buf (Pion.audioStream p)) as [|? ?];
    destruct (ch_buf (Pion.response p)) as [|? ?]; intros; simplify_eq. auto.
Qed.

Lemma pending_send (p : @Pion.pump S) (x : list byte) (evs : list Pion.track_event) :
  Pion.reader p = Pion.RSend x -> pending p = Some evs ->
  ch_buf (Pion.audioStream p) = [] ∧ ch_buf (Pion.response p) = []
  ∧ evs = Pion.Packet x :: Pion.track p.
Proof.
  unfold pending. intros ->.
  destruct (ch_buf (Pion.audioStream p)) as [|? ?];
    destruct (ch_buf (Pion.response p)) as [|? ?]; intros; simplify_eq. auto.
Qed.

Lemma pending_chunk (p : @Pion.pump S) (x : list byte) (rest0 : list (list byte))
    (evs : list Pion.track_event) :
  ch_buf (Pion.audioStream p) = x :: rest0 -> pending p = Some evs ->
  Pion.reader p = Pion.RWait ∧ rest0 = [] ∧ ch_buf (Pion.response p) = []
  ∧ evs = Pion.Packet x :: Pion.track p.
Proof.
  unfold pending. intros ->.
  destruct (Pion.reader p); destruct rest0;
    destruct (ch_buf (Pion.response p)) as [|? ?]; intros; simplify_eq. auto.
Qed.

Lemma pending_answer (p : @Pion.pump S) (b : bool) (rest0 : list bool)
    (evs : list Pion.track_event) :
  Pion.reader p = Pion.RWait -> ch_buf (Pion.response p) = b :: rest0 ->
  pending p = Some evs ->
  ch_buf (Pion.audioStream p) = [] ∧ rest0 = [] ∧ evs = Pion.track p.
Proof.
  unfold pending. intros -> ->.
  destruct (ch_buf (Pion.audioStream p)) as [|? [|? ?]]; destruct rest0;
    intros; simplify_eq. auto.
Qed.

(** A step of the reader while the loop runs: the pending events bring
    the same. *)
Lemma reader_step_in_order (p : @Pion.pump S) tr r a rsp er :
  (Pion.ctx_done p = false ->
   ∀ evs, pending p = Some evs ->
     ch_cap rsp = ch_cap (Pion.response p)
     ∧ ∃ evs', pending (Pion.set_reader p tr r a rsp er) = Some evs'
               ∧ deliverable decode evs' = deliverable decode evs) ->
  in_order decode events p -> in_order decode events (Pion.set_reader p tr r a rsp er).
Proof.
  intros Hkeep. unfold in_order, active, effective. cbn.
  destruct (Pion.main p); try exact id;
    intros (Hctx & Hcap & evs & Hp & HD);
    destruct (Hkeep Hctx evs Hp) as (Hcap' & evs' & Hp' & HD');
    (split; [exact Hctx|]); (split; [congruence|]);
    exists evs'; (split; [exact Hp'|]); rewrite HD'; exact HD.
Qed.

(** A step that leaves the loop. *)
Lemma exit_in_order (p : @Pion.pump S) a rsp er done m s d :
  active p = true ->
  active (Pion.set_main p a rsp er done m s (Pion.written p) d) = false ->
  in_order decode events p ->
  in_order decode events (Pion.set_main p a rsp er done m s (Pion.written p) d).
Proof.
  intros Hact Hstop. unfold in_order. rewrite Hact, Hstop. cbn.
  intros (_ & _ & evs & _ & ->). unfold effective.
  rewrite <- app_assoc. apply prefix_app_r. reflexivity.
Qed.

Lemma in_order_step (p q : @Pion.pump S) :
  in_order decode events p -> pump_step p q -> in_order decode events q.
Proof.
  intros Hinv Hstep.
  destruct Hstep as
    [ p Hr Hd | p payload rest0 Hr Hd Htr | p rest0 Hr Hd Htr
    | p err rest0 Hr Hd Htr Hroom | p payload Hr Hroom | p payload Hr Hd
    | p b rest0 Hr Hresp | p Hr Hd
    | p audioChunk rest0 payload Hm Hbuf Hdec | p audioChunk rest0 Hm Hbuf Hdec
    | p Hm Hbuf Hcl | p payload s n Hm Hw | p payload s n err Hm Hw
    | p Hm | p err rest0 Hm Herr | p Hm Hd | p err s d Hm Hdef ].
  - (* r_ctx *) apply reader_step_in_order; [congruence|exact Hinv].
  - (* r_packet *)
    apply reader_step_in_order; [|exact Hinv]. intros _ evs Hp.
    destruct (pending_read p evs Hr Hp) as (Ha & Hs & ->).
    split; [reflexivity|]. exists (Pion.track p). split; [|reflexivity].
    unfold pending. cbn. rewrite Ha, Hs, Htr. reflexivity.
  - (* r_eof *)
    apply reader_step_in_order; [|exact Hinv]. intros _ evs Hp.
    destruct (pending_read p evs Hr Hp) as (Ha & Hs & ->).
    split; [reflexivity|]. exists []. split.
    + unfold pending. cbn. rewrite Ha, Hs. reflexivity.
    + rewrite Htr. reflexivity.
  - (* r_error *)
    apply reader_step_in_order; [|exact Hinv]. intros _ evs Hp.
    destruct (pending_read p evs Hr Hp) as (Ha & Hs & ->).
    split; [reflexivity|]. exists []. split.
    + unfold pending. cbn. rewrite Ha, Hs. reflexivity.
    + rewrite Htr. reflexivity.
  - (* r_send *)
    apply reader_step_in_order; [|exact Hinv]. intros _ evs Hp.
    destruct (pending_send p payload evs Hr Hp) as (Ha & Hs & ->).
    split; [reflexivity|]. exists (Pion.Packet payload :: Pion.track p).
    split; [|reflexivity].
    unfold pending. cbn. rewrite Ha, Hs. reflexivity.
  - (* r_send_ctx *) apply reader_step_in_order; [congruence|exact Hinv].
  - (* r_response *)
    apply reader_step_in_order; [|exact Hinv]. intros _ evs Hp.
    destruct (pending_answer p b rest0 evs Hr Hresp Hp) as (Ha & -> & ->).
    split; [reflexivity|]. exists (Pion.track p). split; [|reflexivity].
    unfold pending. cbn. rewrite Ha, Hresp. reflexivity.
  - (* r_wait_ctx *) apply reader_step_in_order; [congruence|exact Hinv].
  - (* m_chunk *)
    unfold in_order, active in *. rewrite Hm in Hinv. cbn.
    destruct Hinv as (Hctx & Hcap & evs & Hp & HD).
    destruct (pending_chunk p audioChunk rest0 evs Hbuf Hp) as (Hr & -> & Hs & ->).
    unfold Pion.try_push, Pion.push. rewrite Hs, Hcap. cbn.
    split; [exact Hctx|]. split; [reflexivity|].
    exists (Pion.track p). split.
    + unfold pending. cbn. rewrite Hr, Hbuf. reflexivity.
    + rewrite HD. unfold effective. cbn. rewrite Hm, Hdec, app_nil_r.
      rewrite <- app_assoc. reflexivity.
  - (* m_chunk_skip *)
    unfold in_order, active in *. rewrite Hm in Hinv. cbn.
    destruct Hinv as (Hctx & Hcap & evs & Hp & HD).
    destruct (pending_chunk p audioChunk rest0 evs Hbuf Hp) as (Hr & -> & Hs & ->).
    split; [exact Hctx|]. split; [exact Hcap|].
    exists []. split.
    + unfold pending. cbn. rewrite Hr, Hbuf, Hs. reflexivity.
    + rewrite HD. unfold effective. cbn. rewrite Hm, Hdec. reflexivity.
  - (* m_stream_ended *)
    apply exit_in_order; [unfold active; rewrite Hm; reflexivity|reflexivity|exact Hinv].
  - (* m_write *)
    unfold in_order, active in *. rewrite Hm in Hinv. cbn.
    destruct Hinv as (Hctx & Hcap & evs & Hp & HD).
    split; [exact Hctx|]. split; [exact Hcap|].
    exists evs. split; [exact Hp|].
    rewrite HD. unfold effective. cbn. rewrite Hm, app_nil_r. reflexivity.
  - (* m_write_error *)
    apply exit_in_order; [unfold active; rewrite Hm; reflexivity|reflexivity|exact Hinv].
  - (* m_timer *)
    apply exit_in_order; [unfold active; rewrite Hm; reflexivity|reflexivity|exact Hinv].
  - (* m_errs *)
    apply exit_in_order; [unfold active; rewrite Hm; reflexivity|reflexivity|exact Hinv].
  - (* m_ctx *)
    apply exit_in_order; [unfold active; rewrite Hm; reflexivity|reflexivity|exact Hinv].
  - (* m_deferred *)
    unfold in_order, active in *. rewrite Hm in Hinv. cbn. exact Hinv.
Qed.

Lemma in_order_start (s : S) (d : Pion.DataChannel) :
  in_order decode events (Pion.start events s d).
Proof.
  unfold in_order, active. cbn. repeat split. exists events. auto.
Qed.

Lemma in_order_reachable (s : S) (d : Pion.DataChannel) (p : @Pion.pump S) :
  Pion.reachable json_Marshal decode events s d p -> in_order decode events p.
Proof.
  unfold Pion.reachable. intros Hreach. revert p Hreach. apply rtc_ind_r.
  - apply in_order_start.
  - intros p q _ Hstep IH. exact (in_order_step p q IH Hstep).
Qed.

(** X12.  The pump writes in the order of the track, without gaps and
    without repeats.  On every track and in every execution, whatever the
    timer and the scheduler do, the payloads the stream has accepted are a
    beginning of the list of the decoded packets of the track, taken up to
    its first packet that does not decode, its end or its first read
    error: no packet is written twice, none out of turn, and none after one
    that was left out. *)
Theorem pump_writes_in_track_order (s : S) (d : Pion.DataChannel)
    (p : @Pion.pump S) :
  Pion.reachable json_Marshal decode events s d p ->
  Pion.written p `prefix_of` deliverable decode events.
Proof.
  intros Hreach. pose proof (in_order_reachable s d p Hreach) as Hinv.
  unfold in_order in Hinv. destruct (active p); [|exact Hinv].
  destruct Hinv as (_ & _ & evs & _ & ->). unfold effective.
  rewrite <- app_assoc. apply prefix_app_r. reflexivity.
Qed.

Lemma closed_by_reader_step (p q : @Pion.pump S) :
  closed_by_reader p -> pump_step p q -> closed_by_reader q.
Proof.
  unfold closed_by_reader. intros Hinv Hstep.
  destruct Hstep; cbn; try reflexivity; try exact Hinv; intros Hcl;
    specialize (Hinv Hcl); congruence.
Qed.

Lemma closed_by_reader_reachable (s : S) (d : Pion.DataChannel) (p : @Pion.pump S) :
  Pion.reachable json_Marshal decode events s d p -> closed_by_reader p.
Proof.
  unfold Pion.reachable. intros Hreach. revert p Hreach. apply rtc_ind_r.
  - intros Hcl. discriminate Hcl.
  - intros p q _ Hstep IH. exact (closed_by_reader_step p q IH Hstep).
Qed.

(** X13.  When the loop of [handleAudioTrack] is at its select with the
    payload queue closed and empty, the state in which it logs "Audio
    stream ended" and returns nil, nothing is left behind: the stream has
    accepted, in order, the decoded payload of every packet of the track up
    to its end or its first read error. *)
Theorem pump_stream_end_after_all_writes (s : S) (d : Pion.DataChannel)
    (p : @Pion.pump S) :
  Pion.reachable json_Marshal decode events s d p ->
  Pion.main p = Pion.MSelect ->
  ch_buf (Pion.audioStream p) = [] -> ch_closed (Pion.audioStream p) = true ->
  Pion.written p = deliverable decode events.
Proof.
  intros Hreach Hm Hbuf Hcl.
  pose proof (in_order_reachable s d p Hreach) as Hinv.
  pose proof (closed_by_reader_reachable s d p Hreach Hcl) as Hr.
  unfold in_order, active, effective in Hinv. rewrite Hm in Hinv.
  destruct Hinv as (_ & _ & evs & Hp & HD).
  unfold pending in Hp. rewrite Hr, Hbuf in Hp.
  destruct (ch_buf (Pion.response p)) as [|? ?]; [|discriminate Hp].
  injection Hp as <-. cbn in HD. rewrite !app_nil_r in HD.
  symmetry. exact HD.
Qed.

End PumpOnAnyTrack.

Section PumpRuns.

Context {S : Type} `{Stream S}.
Variable json_Marshal : Result -> option string.
Variable decode : list byte -> option (list byte).

#[local] Abbreviation pump_step := (Pion.step json_Marshal decode).

(** One turn of both loops on a packet that decodes and is accepted. *)
Lemma one_packet (x pcm : list byte) (tr : list Pion.track_event) (er : chan string)
    (s s' : S) (n : nat) (wr : list (list byte)) (d : Pion.DataChannel) :
  decode x = Some pcm -> Write s pcm = Ret (s', (n, None)) ->
  rtc pump_step (at_loop_top (Pion.Packet x :: tr) er s wr d)
                (at_loop_top tr er s' (wr ++ [pcm]) d).
Proof.
  intros Hdec Hw. unfold at_loop_top.
  eapply rtc_l; [eapply Pion.r_packet; reflexivity|]. cbn.
  eapply rtc_l; [eapply Pion.r_send; [reflexivity|cbn; lia]|]. cbn.
  eapply rtc_l; [eapply Pion.m_chunk; [reflexivity|reflexivity|exact Hdec]|]. cbn.
  eapply rtc_l; [eapply Pion.m_write; [reflexivity|exact Hw]|]. cbn.
  eapply rtc_l; [eapply Pion.r_response; reflexivity|]. cbn.
  apply rtc_refl.
Qed.

(** The packets of a track that all decode and are all accepted. *)
Lemma all_packets (payloads pcms : list (list byte)) (tr : list Pion.track_event)
    (er : chan string) (s s' : S) (wr : list (list byte)) (d : Pion.DataChannel) :
  mapM decode payloads = Some pcms -> feed s pcms = Some s' ->
  rtc pump_step (at_loop_top ((Pion.Packet <$> payloads) ++ tr) er s wr d)
                (at_loop_top tr er s' (wr ++ pcms) d).
Proof.
  intros Hdec%mapM_Some. revert s wr.
  induction Hdec as [|x pcm payloads pcms Hx _ IH]; intros s wr Hfeed.
  - cbn in Hfeed. injection Hfeed as <-. rewrite app_nil_r. apply rtc_refl.
  - cbn in Hfeed.
    destruct (Write s pcm) as [[s1 [n [err|]]]| |] eqn:Hw; try discriminate Hfeed.
    etrans; [exact (one_packet x pcm _ er s s1 n wr d Hx Hw)|].
    replace (wr ++ pcm :: pcms)%list with ((wr ++ [pcm]) ++ pcms)%list
      by (rewrite <- app_assoc; reflexivity).
    apply IH. exact Hfeed.
Qed.

(** X14.  A track that ends can be pumped to its end.  When every packet
    before the end of the track decodes, the stream accepts every decoded
    payload and the deferred close returns, there is an execution of
    [handleAudioTrack] that returns nil without the idle timer firing and
    with no error queued, in which the stream has been given exactly the
    decoded payloads in the order of the packets, then closed, and the data
    channel is as the deferred function leaves it. *)
Theorem pump_can_finish_the_track
    (payloads pcms : list (list byte)) (rest : list Pion.track_event)
    (s s' s'' : S) (d d' : Pion.DataChannel) :
  mapM decode payloads = Some pcms ->
  feed s pcms = Some s' ->
  Pion.deferred_close json_Marshal s' d = Ret (s'', d') ->
  ∃ p q : @Pion.pump S,
    Pion.reachable json_Marshal decode
      ((Pion.Packet <$> payloads) ++ Pion.EOF :: rest) s d p
    ∧ Pion.main p = Pion.MReturned None ∧ Pion.ctx_done p = false
    ∧ ch_buf (Pion.errs p) = []
    ∧ pump_step p q
    ∧ Pion.main q = Pion.MExited None
    ∧ Pion.written q = pcms ∧ Pion.trStream q = s'' ∧ Pion.dc q = d'.
Proof.
  intros Hdec Hfeed Hclose.
  pose proof (all_packets payloads pcms (Pion.EOF :: rest) (make_chan 2) s s' [] d
                Hdec Hfeed) as Hrun.
  set (p := Pion.MkPump rest Pion.RDone (Pion.close_chan (make_chan 100))
              (make_chan 100) (make_chan 2) false (Pion.MReturned None) s' pcms d).
  exists p, (Pion.set_main p (Pion.audioStream p) (Pion.response p) (Pion.errs p)
               true (Pion.MExited None) s'' (Pion.written p) d').
  split; [|repeat split].
  - unfold Pion.reachable. etrans; [exact Hrun|]. unfold at_loop_top. cbn.
    eapply rtc_l; [eapply Pion.r_eof; reflexivity|]. cbn.
    eapply rtc_l; [eapply Pion.m_stream_ended; reflexivity|]. cbn.
    apply rtc_refl.
  - apply Pion.m_deferred; [reflexivity|exact Hclose].
Qed.

(** X15.  A read error of the track can go unreported.  The reader queues
    the error and then closes the payload queue, so the select of the loop
    finds two cases ready and takes either.  On every track whose packets
    before the failing read decode and are accepted there is an execution
    in which [handleAudioTrack] returns the error, and another in which it
    returns nil as for a track that ended, the error still in its queue,
    with the same payloads written in both. *)
Theorem pump_read_error_can_be_lost
    (payloads pcms : list (list byte)) (err : string) (rest : list Pion.track_event)
    (s s' : S) (d : Pion.DataChannel) :
  mapM decode payloads = Some pcms ->
  feed s pcms = Some s' ->
  (∃ p : @Pion.pump S,
     Pion.reachable json_Marshal decode
       ((Pion.Packet <$> payloads) ++ Pion.ReadError err :: rest) s d p
     ∧ Pion.main p = Pion.MReturned (Some err) ∧ Pion.written p = pcms)
  ∧ (∃ p : @Pion.pump S,
       Pion.reachable json_Marshal decode
         ((Pion.Packet <$> payloads) ++ Pion.ReadError err :: rest) s d p
       ∧ Pion.main p = Pion.MReturned None ∧ Pion.written p = pcms
       ∧ Pion.ctx_done p = false ∧ ch_buf (Pion.errs p) = [err]).
Proof.
  intros Hdec Hfeed.
  pose proof (all_packets payloads pcms (Pion.ReadError err :: rest) (make_chan 2)
                s s' [] d Hdec Hfeed) as Hrun.
  split.
  - eexists. split; [|split].
    + unfold Pion.reachable. etrans; [exact Hrun|]. unfold at_loop_top. cbn.
      eapply rtc_l; [eapply Pion.r_error; [reflexivity|reflexivity|reflexivity|cbn; lia]|].
      cbn.
      eapply rtc_l; [eapply Pion.m_errs; reflexivity|]. cbn.
      apply rtc_refl.
    + reflexivity.
    + reflexivity.
  - eexists. split.
    + unfold Pion.reachable. etrans; [exact Hrun|]. unfold at_loop_top. cbn.
      eapply rtc_l; [eapply Pion.r_error; [reflexivity|reflexivity|reflexivity|cbn; lia]|].
      cbn.
      eapply rtc_l; [eapply Pion.m_stream_ended; reflexivity|]. cbn.
      apply rtc_refl.
    + repeat split.
Qed.

End PumpRuns.

Section TrackRuns.

Lemma pumped_recorder_fed :
  feed Fixture.healthy_recorder [[x01; x02]; [x03; x04]]
  = Some Fixture.pumped_recorder.
Proof. vm_compute. reflexivity. Qed.

Lemma pumped_recorder_closes :
  Pion.deferred_close Fixture.toy_Marshal Fixture.pumped_recorder Fixture.dc0
  = Ret ((Fixture.after_deferred Fixture.pumped_recorder).1,
         (Fixture.after_deferred Fixture.pumped_recorder).2).
Proof. vm_compute. reflexivity. Qed.

(** Two packets and the end of the track, pumped into a recording until the
    loop finds the payload queue closed. *)
Lemma two_packets_then_end :
  ∃ p : @Pion.pump (running Recorder.RecorderStream),
    Pion.reachable Fixture.toy_Marshal Fixture.toy_decode
      [Pion.Packet [x01; x02]; Pion.Packet [x03; x04]; Pion.EOF]
      Fixture.healthy_recorder Fixture.dc0 p
    ∧ Pion.main p = Pion.MSelect
    ∧ ch_buf (Pion.audioStream p) = [] ∧ ch_closed (Pion.audioStream p) = true
    ∧ Pion.written p = [[x01; x02]; [x03; x04]].
Proof.
  eexists. split.
  - unfold Pion.reachable.
    etrans; [exact (all_packets Fixture.toy_Marshal Fixture.toy_decode
                      [[x01; x02]; [x03; x04]] [[x01; x02]; [x03; x04]] [Pion.EOF]
                      (make_chan 2) Fixture.healthy_recorder Fixture.pumped_recorder
                      [] Fixture.dc0 eq_refl pumped_recorder_fed)|].
    apply rtc_once. unfold at_loop_top.
    eapply Pion.r_eof; reflexivity.
  - repeat split.
Qed.

Lemma pump_queues_hold_one_element_witness :
  ∃ p : @Pion.pump (running Recorder.RecorderStream),
    Pion.reachable Fixture.toy_Marshal Fixture.toy_decode
      [Pion.Packet [x01; x02]; Pion.Packet [x03; x04]; Pion.EOF]
      Fixture.healthy_recorder Fixture.dc0 p
    ∧ (length (ch_buf (Pion.audioStream p))
       + length (ch_buf (Pion.response p)) <= 1)%nat.
Proof.
  destruct two_packets_then_end as (p & Hreach & _).
  exists p. split; [exact Hreach|].
  exact (pump_queues_hold_one_element Fixture.toy_Marshal Fixture.toy_decode
           _ Fixture.healthy_recorder Fixture.dc0 p Hreach).
Defined.

Lemma pump_writes_in_track_order_witness :
  ∃ p : @Pion.pump (running Recorder.RecorderStream),
    Pion.reachable Fixture.toy_Marshal Fixture.toy_decode
      [Pion.Packet [x01; x02]; Pion.Packet [x03; x04]; Pion.EOF]
      Fixture.healthy_recorder Fixture.dc0 p
    ∧ Pion.written p
      `prefix_of` deliverable Fixture.toy_decode
                    [Pion.Packet [x01; x02]; Pion.Packet [x03; x04]; Pion.EOF].
Proof.
  destruct two_packets_then_end as (p & Hreach & _).
  exists p. split; [exact Hreach|].
  exact (pump_writes_in_track_order Fixture.toy_Marshal Fixture.toy_decode
           _ Fixture.healthy_recorder Fixture.dc0 p Hreach).
Defined.

Lemma pump_stream_end_after_all_writes_witness :
  ∃ p : @Pion.pump (running Recorder.RecorderStream),
    Pion.reachable Fixture.toy_Marshal Fixture.toy_decode
      [Pion.Packet [x01; x02]; Pion.Packet [x03; x04]; Pion.EOF]
      Fixture.healthy_recorder Fixture.dc0 p
    ∧ Pion.main p = Pion.MSelect
    ∧ ch_buf (Pion.audioStream p) = [] ∧ ch_closed (Pion.audioStream p) = true
    ∧ Pion.written p
      = deliverable Fixture.toy_decode
          [Pion.Packet [x01; x02]; Pion.Packet [x03; x04]; Pion.EOF].
Proof.
  destruct two_packets_then_end as (p & Hreach & Hm & Hbuf & Hcl & _).
  exists p. split; [exact Hreach|]. split; [exact Hm|].
  split; [exact Hbuf|]. split; [exact Hcl|].
  exact (pump_stream_end_after_all_writes Fixture.toy_Marshal Fixture.toy_decode
           _ Fixture.healthy_recorder Fixture.dc0 p Hreach Hm Hbuf Hcl).
Defined.

Lemma pump_can_finish_the_track_witness :
  mapM Fixture.toy_decode [[x01; x02]; [x03; x04]] = Some [[x01; x02]; [x03; x04]]
  ∧ feed Fixture.healthy_recorder [[x01; x02]; [x03; x04]]
    = Some Fixture.pumped_recorder
  ∧ Pion.deferred_close Fixture.toy_Marshal Fixture.pumped_recorder Fixture.dc0
    = Ret ((Fixture.after_deferred Fixture.pumped_recorder).1,
           (Fixture.after_deferred Fixture.pumped_recorder).2)
  ∧ ∃ p q : @Pion.pump (running Recorder.RecorderStream),
      Pion.reachable Fixture.toy_Marshal Fixture.toy_decode
        ((Pion.Packet <$> [[x01; x02]; [x03; x04]]) ++ Pion.EOF :: [])
        Fixture.healthy_recorder Fixture.dc0 p
      ∧ Pion.main p = Pion.MReturned None ∧ Pion.ctx_done p = false
      ∧ ch_buf (Pion.errs p) = []
      ∧ Pion.step Fixture.toy_Marshal Fixture.toy_decode p q
      ∧ Pion.main q = Pion.MExited None
      ∧ Pion.written q = [[x01; x02]; [x03; x04]]
      ∧ Pion.trStream q = (Fixture.after_deferred Fixture.pumped_recorder).1
      ∧ Pion.dc q = (Fixture.after_deferred Fixture.pumped_recorder).2.
Proof.
  split; [reflexivity|].
  split; [exact pumped_recorder_fed|].
  split; [exact pumped_recorder_closes|].
  exact (pump_can_finish_the_track Fixture.toy_Marshal Fixture.toy_decode
           [[x01; x02]; [x03; x04]] [[x01; x02]; [x03; x04]] []
           Fixture.healthy_recorder Fixture.pumped_recorder
           (Fixture.after_deferred Fixture.pumped_recorder).1 Fixture.dc0
           (Fixture.after_deferred Fixture.pumped_recorder).2
           eq_refl pumped_recorder_fed pumped_recorder_closes).
Defined.

(** What the browser receives after that run: the name of the recording,
    and the data channel closed. *)
Example pumped_recording :
  (Fixture.after_deferred Fixture.pumped_recorder).2
  = Pion.MkDC ["recording_20250827_161500_001.wav"] true.
Proof. vm_compute. reflexivity. Qed.

Lemma pump_read_error_can_be_lost_witness :
  mapM Fixture.toy_decode [[x01; x02]; [x03; x04]] = Some [[x01; x02]; [x03; x04]]
  ∧ feed Fixture.healthy_recorder [[x01; x02]; [x03; x04]]
    = Some Fixture.pumped_recorder
  ∧ (∃ p : @Pion.pump (running Recorder.RecorderStream),
       Pion.reachable Fixture.toy_Marshal Fixture.toy_decode
         ((Pion.Packet <$> [[x01; x02]; [x03; x04]])
          ++ Pion.ReadError "connection reset" :: [])
         Fixture.healthy_recorder Fixture.dc0 p
       ∧ Pion.main p = Pion.MReturned (Some "connection reset")
       ∧ Pion.written p = [[x01; x02]; [x03; x04]])
  ∧ (∃ p : @Pion.pump (running Recorder.RecorderStream),
       Pion.reachable Fixture.toy_Marshal Fixture.toy_decode
         ((Pion.Packet <$> [[x01; x02]; [x03; x04]])
          ++ Pion.ReadError "connection reset" :: [])
         Fixture.healthy_recorder Fixture.dc0 p
       ∧ Pion.main p = Pion.MReturned None
       ∧ Pion.written p = [[x01; x02]; [x03; x04]]
       ∧ Pion.ctx_done p = false ∧ ch_buf (Pion.errs p) = ["connection reset"]).
Proof.
  split; [reflexivity|].
  split; [exact pumped_recorder_fed|].
  exact (pump_read_error_can_be_lost Fixture.toy_Marshal Fixture.toy_decode
           [[x01; x02]; [x03; x04]] [[x01; x02]; [x03; x04]] "connection reset" []
           Fixture.healthy_recorder Fixture.pumped_recorder Fixture.dc0
           eq_refl pumped_recorder_fed).
Defined.

End TrackRuns.

(** * The choice of the service at start-up *)

Section WhisperSetup.

Lemma NewWhisperTranscriber_ok (h : Host.host) (e : OS.env) (w w' : OS.world)
    (modelPath whisperPath tempDir language : string) (keepWav keepTxt : bool)
    (t : Whisper.WhisperTranscriber) :
  NewWhisperTranscriber h e w modelPath whisperPath tempDir language keepWav keepTxt
  = (w', inl t) ->
  t = Whisper.MkTranscriber (chosen_model h modelPath)
        (chosen_executable h whisperPath) (chosen_directory tempDir)
        (chosen_language language) 0 keepWav keepTxt
  ∧ w' = OS.log (OS.SysMkdirAll (chosen_directory tempDir)) w
  ∧ chosen_executable h whisperPath ≠ ""
  ∧ OS.mkdir_err e (chosen_directory tempDir) = None
  ∧ Host.stat h (chosen_executable h whisperPath) ≠ Host.StatNotExist.
Proof.
  unfold NewWhisperTranscriber. cbv zeta.
  fold (chosen_executable h whisperPath). fold (chosen_model h modelPath).
  fold (chosen_directory tempDir). fold (chosen_language language).
  destruct (decide (chosen_executable h whisperPath = "")) as [|Hexe]; [discriminate|].
  unfold OS.MkdirAll.
  destruct (OS.mkdir_err e (chosen_directory tempDir)) as [err|] eqn:Hmk; [discriminate|].
  intros Heq.
  destruct (Host.stat h (chosen_executable h whisperPath)); simplify_eq; auto.
Qed.

Lemma NewWhisperTranscriber_err (h : Host.host) (e : OS.env) (w w' : OS.world)
    (modelPath whisperPath tempDir language : string) (keepWav keepTxt : bool)
    (err : string) :
  NewWhisperTranscriber h e w modelPath whisperPath tempDir language keepWav keepTxt
  = (w', inr err) ->
  (w' = w ∧ chosen_executable h whisperPath = "")
  ∨ (w' = OS.log (OS.SysMkdirAll (chosen_directory tempDir)) w
     ∧ (OS.mkdir_err e (chosen_directory tempDir) ≠ None
        ∨ Host.stat h (chosen_executable h whisperPath) = Host.StatNotExist)).
Proof.
  unfold NewWhisperTranscriber. cbv zeta.
  fold (chosen_executable h whisperPath). fold (chosen_model h modelPath).
  fold (chosen_directory tempDir). fold (chosen_language language).
  destruct (decide (chosen_executable h whisperPath = "")) as [Hexe|Hexe].
  - intros Heq. injection Heq as <- _. left. auto.
  - unfold OS.MkdirAll.
    destruct (OS.mkdir_err e (chosen_directory tempDir)) as [err'|] eqn:Hmk.
    + intros Heq. injection Heq as <- _. right. split; [reflexivity|]. left. discriminate.
    + intros Heq.
      destruct (Host.stat h (chosen_executable h whisperPath)); simplify_eq.
      right. split; [reflexivity|]. right. reflexivity.
Qed.

Lemma chosen_model_nonempty (h : Host.host) (modelPath : string) :
  chosen_model h modelPath ≠ "".
Proof. unfold chosen_model. repeat case_decide; auto; discriminate. Qed.

Lemma chosen_directory_nonempty (tempDir : string) : chosen_directory tempDir ≠ "".
Proof. unfold chosen_directory. case_decide; auto; discriminate. Qed.

Lemma chosen_language_nonempty (language : string) : chosen_language language ≠ "".
Proof. unfold chosen_language. case_decide; auto; discriminate. Qed.

(** X16.  A Whisper transcriber that [NewWhisperTranscriber] returns is
    complete: it has an executable, a model, a directory and a language,
    none of them empty; the executable was not reported missing by
    [os.Stat] (any other answer of [os.Stat], an error included, lets it
    pass); and the one change made to the machine on the way is the
    [os.MkdirAll] of its directory, which succeeded.  An executable path
    given by the caller is kept as it is, and so are a model, a directory
    and a language that are not empty. *)
Theorem NewWhisperTranscriber_complete (h : Host.host) (e : OS.env) (w w' : OS.world)
    (modelPath whisperPath tempDir language : string) (keepWav keepTxt : bool)
    (t : Whisper.WhisperTranscriber) :
  NewWhisperTranscriber h e w modelPath whisperPath tempDir language keepWav keepTxt
  = (w', inl t) ->
  (Whisper.whisperPath t ≠ "" ∧ Whisper.modelPath t ≠ ""
   ∧ Whisper.tempDir t ≠ "" ∧ Whisper.language t ≠ "")
  ∧ Host.stat h (Whisper.whisperPath t) ≠ Host.StatNotExist
  ∧ w' = OS.log (OS.SysMkdirAll (Whisper.tempDir t)) w
  ∧ OS.mkdir_err e (Whisper.tempDir t) = None
  ∧ (whisperPath ≠ "" -> Whisper.whisperPath t = whisperPath)
  ∧ (modelPath ≠ "" -> Whisper.modelPath t = modelPath)
  ∧ (tempDir ≠ "" -> Whisper.tempDir t = tempDir)
  ∧ (language ≠ "" -> Whisper.language t = language)
  ∧ Whisper.keepWav t = keepWav ∧ Whisper.keepTxt t = keepTxt.
Proof.
  intros Hnew.
  destruct (NewWhisperTranscriber_ok _ _ _ _ _ _ _ _ _ _ _ Hnew)
    as (-> & -> & Hexe & Hmk & Hstat). cbn.
  pose proof (chosen_model_nonempty h modelPath).
  pose proof (chosen_directory_nonempty tempDir).
  pose proof (chosen_language_nonempty language).
  repeat split; auto.
  - unfold chosen_executable. intros Hne. case_decide; congruence.
  - unfold chosen_model. intros Hne. case_decide; congruence.
  - unfold chosen_directory. intros Hne. case_decide; congruence.
  - unfold chosen_language. intros Hne. case_decide; congruence.
Qed.

End WhisperSetup.

Section Selection.

Context {GoogleSpeech : Type}.
Variable NewGoogleSpeech : string -> GoogleSpeech + string.

Lemma NewRecorderTranscriber_cases (e : OS.env) (w : OS.world) (dir : string) :
  dir ≠ "" ->
  Recorder.NewRecorderTranscriber e w dir
  = (OS.log (OS.SysMkdirAll dir) w,
     match OS.mkdir_err e dir with
     | Some err => inr ("failed to create output directory: " ++ err)
     | None => inl (Recorder.MkTranscriber dir 0)
     end).
Proof.
  intros Hdir. unfold Recorder.NewRecorderTranscriber, OS.MkdirAll.
  case_decide; [contradiction|].
  destruct (OS.mkdir_err e dir); reflexivity.
Qed.

(** X17.  With [--vendor=whisper], which is also the value of the flag when
    the command line does not give it, [selectVendor] looks at no
    credential.  Whatever the environment holds, it returns a Whisper
    service on the directory, model and language of the flags, or, when no
    Whisper executable is given or found or the one given is missing, a
    Recorder service on the same directory; it fails only when that
    directory cannot be created, and never returns one of the other four
    services. *)
Theorem whisper_vendor_needs_no_credentials (h : Host.host) (e : OS.env) (w : OS.world)
    (googleCred model output language : string) (keepWav keepTxt : bool) :
  let dir := if decide (output = "") then "./recordings" else output in
  match (selectVendor NewGoogleSpeech h e w googleCred "whisper" model output
           language keepWav keepTxt).2 with
  | inl (SvcWhisper t) =>
      t = Whisper.MkTranscriber (chosen_model h model)
            (chosen_executable h (Host.getenv h "WHISPER_PATH")) dir
            (chosen_language language) 0 keepWav keepTxt
      ∧ ¬ whisper_missing h (Host.getenv h "WHISPER_PATH")
  | inl (SvcRecorder r) =>
      r = Recorder.MkTranscriber dir 0
      ∧ whisper_missing h (Host.getenv h "WHISPER_PATH")
  | inl _ => False
  | inr _ => OS.mkdir_err e dir ≠ None
  end.
Proof.
  intros dir.
  assert (Hdir : dir ≠ "") by (unfold dir; case_decide; auto; discriminate).
  assert (Hchosen : chosen_directory dir = dir)
    by (unfold chosen_directory; case_decide; congruence).
  unfold selectVendor. case_decide; [|congruence].
  unfold selectVendor_flag.
  do 4 (case_decide; [discriminate|]). case_decide; [|congruence].
  cbv zeta. fold dir.
  destruct (NewWhisperTranscriber h e w model (Host.getenv h "WHISPER_PATH") dir
              language keepWav keepTxt) as [w1 [t|err]] eqn:Hnew.
  - apply NewWhisperTranscriber_ok in Hnew as (-> & _ & Hexe & _ & Hstat).
    cbn. rewrite Hchosen. split; [reflexivity|].
    unfold whisper_missing. tauto.
  - apply NewWhisperTranscriber_err in Hnew.
    rewrite (NewRecorderTranscriber_cases e w1 dir Hdir).
    rewrite Hchosen in Hnew.
    destruct (OS.mkdir_err e dir) as [err'|] eqn:Hmk; cbn.
    + discriminate.
    + split; [reflexivity|]. unfold whisper_missing.
      destruct Hnew as [[_ ?]|[_ [?|?]]]; auto. contradiction.
Qed.

(** The service [main] starts with on a command line without flags. *)
Lemma default_command_line (h : Host.host) (e : OS.env) (w : OS.world) :
  main_selectVendor NewGoogleSpeech h e w flag_defaults
  = selectVendor NewGoogleSpeech h e w (Host.getenv h "GOOGLE_CREDENTIALS")
      "whisper" "small" "recordings" "auto" true true.
Proof. reflexivity. Qed.

#[local] Ltac configured :=
  unfold azure_configured, baidu_configured, xunfei_configured in *;
  repeat split; auto; tauto.

(** X18.  Without a vendor, [selectVendor] takes the first service of the
    order Google, Azure, Baidu, Xunfei whose credentials are complete, and
    Whisper or the Recorder only when none is: a service is returned only
    if every service before it lacks a credential, and complete Azure,
    Baidu or Xunfei credentials never end in an error.  The model given on
    the command line plays no part: the Whisper model is the one of
    [WHISPER_MODEL_PATH], or the one found.  The directory of the Recorder
    is the one of the command line, else [RECORDER_OUTPUT_DIR], else
    "recordings". *)
Theorem automatic_selection_order (h : Host.host) (e : OS.env) (w : OS.world)
    (googleCred model output language : string) (keepWav keepTxt : bool) :
  match (selectVendor NewGoogleSpeech h e w googleCred "" model output
           language keepWav keepTxt).2 with
  | inl (SvcGoogle _) => googleCred ≠ ""
  | inl (SvcAzure tr) =>
      googleCred = "" ∧ azure_configured h
      ∧ tr = Azure.MkTranscriber (Host.getenv h "AZURE_SPEECH_KEY")
               (Host.getenv h "AZURE_SPEECH_REGION")
  | inl (SvcBaidu tr) =>
      googleCred = "" ∧ ¬ azure_configured h ∧ baidu_configured h
      ∧ tr = Baidu.MkTranscriber (Host.getenv h "BAIDU_APP_ID")
               (Host.getenv h "BAIDU_API_KEY") (Host.getenv h "BAIDU_SECRET_KEY")
  | inl (SvcXunfei tr) =>
      googleCred = "" ∧ ¬ azure_configured h ∧ ¬ baidu_configured h
      ∧ xunfei_configured h
      ∧ tr = IflyTek.MkTranscriber (Host.getenv h "XUNFEI_APP_ID")
               (Host.getenv h "XUNFEI_API_KEY") (Host.getenv h "XUNFEI_API_SECRET")
               (Host.getenv h "XUNFEI_API_URL")
  | inl (SvcWhisper tr) =>
      googleCred = "" ∧ ¬ azure_configured h ∧ ¬ baidu_configured h
      ∧ ¬ xunfei_configured h
      ∧ Whisper.modelPath tr = chosen_model h (Host.getenv h "WHISPER_MODEL_PATH")
  | inl (SvcRecorder tr) =>
      googleCred = "" ∧ ¬ azure_configured h ∧ ¬ baidu_configured h
      ∧ ¬ xunfei_configured h
      ∧ tr = Recorder.MkTranscriber
               (if decide (output = "")
                then if decide (Host.getenv h "RECORDER_OUTPUT_DIR" = "")
                     then "recordings" else Host.getenv h "RECORDER_OUTPUT_DIR"
                else output) 0
  | inr _ =>
      googleCred ≠ ""
      ∨ (¬ azure_configured h ∧ ¬ baidu_configured h ∧ ¬ xunfei_configured h)
  end.
Proof.
  unfold selectVendor. case_decide; [congruence|].
  unfold selectVendor_auto.
  destruct (decide (googleCred ≠ "")) as [Hg|Hg%dec_stable].
  { destruct (NewGoogleSpeech googleCred); cbn; auto. }
  cbv zeta.
  destruct (decide (Host.getenv h "AZURE_SPEECH_KEY" ≠ "" ∧ _)) as [Ha|Ha].
  { unfold Azure.NewAzureTranscriber. destruct Ha as [Ha1 Ha2].
    case_decide as Hor; [tauto|]. cbn. configured. }
  destruct (decide (Host.getenv h "BAIDU_APP_ID" ≠ "" ∧ _)) as [Hb|Hb].
  { unfold Baidu.NewBaiduTranscriber. destruct Hb as (Hb1 & Hb2 & Hb3).
    case_decide as Hor; [tauto|]. cbn. configured. }
  destruct (decide (Host.getenv h "XUNFEI_APP_ID" ≠ "" ∧ _)) as [Hx|Hx].
  { unfold IflyTek.NewIflyTekTranscriber. destruct Hx as (Hx1 & Hx2 & Hx3).
    case_decide as Hor; [tauto|]. cbn. configured. }
  destruct (if decide (output = "") then _ else inl output) as [outputDir|err];
    [|cbn; right; configured].
  destruct (NewWhisperTranscriber h e w (Host.getenv h "WHISPER_MODEL_PATH")
              (Host.getenv h "WHISPER_PATH") outputDir language keepWav keepTxt)
    as [w1 [t|err]] eqn:Hnew.
  - apply NewWhisperTranscriber_ok in Hnew as (-> & _). cbn. configured.
  - rewrite NewRecorderTranscriber_cases
      by (repeat case_decide; first [assumption|discriminate]).
    destruct (OS.mkdir_err e _); cbn; [right; configured|].
    unfold defaultRecordingsDir. configured.
Qed.

(** X19.  A vendor named on the command line is never replaced by another,
    Whisper apart.  With [--vendor] set to anything but "whisper",
    [selectVendor] returns the named service or an error: a cloud service
    only when all its credentials are there, so that a missing credential
    is an error and not a reason to try the next service; a name that is
    not one of the six, differing in case for instance, is an error; and
    unless the vendor is the Recorder, no directory is created on the
    way. *)
Theorem named_vendor_is_not_replaced (h : Host.host) (e : OS.env) (w : OS.world)
    (googleCred vendor model output language : string) (keepWav keepTxt : bool) :
  vendor ≠ "" -> vendor ≠ "whisper" ->
  match (selectVendor NewGoogleSpeech h e w googleCred vendor model output
           language keepWav keepTxt).2 with
  | inl (SvcGoogle _) => vendor = "google" ∧ googleCred ≠ ""
  | inl (SvcAzure _) => vendor = "azure" ∧ azure_configured h
  | inl (SvcBaidu _) => vendor = "baidu" ∧ baidu_configured h
  | inl (SvcXunfei _) => vendor = "xunfei" ∧ xunfei_configured h
  | inl (SvcWhisper _) => False
  | inl (SvcRecorder _) => vendor = "recorder"
  | inr _ => True
  end
  ∧ (vendor ≠ "recorder" ->
     (selectVendor NewGoogleSpeech h e w googleCred vendor model output
        language keepWav keepTxt).1 = w).
Proof.
  intros Hset Hnot. unfold selectVendor. case_decide; [|contradiction].
  unfold selectVendor_flag.
  destruct (decide (vendor = "google")) as [Hv|_].
  { destruct (decide (googleCred = "")); [cbn; auto|].
    destruct (NewGoogleSpeech googleCred); cbn; auto. }
  destruct (decide (vendor = "azure")) as [Hv|_].
  { cbv zeta. unfold Azure.NewAzureTranscriber.
    destruct (decide (Host.getenv h "AZURE_SPEECH_KEY" = "" ∨ _)); cbn; [auto|].
    split; [|reflexivity]. configured. }
  destruct (decide (vendor = "baidu")) as [Hv|_].
  { cbv zeta. unfold Baidu.NewBaiduTranscriber.
    destruct (decide (Host.getenv h "BAIDU_APP_ID" = "" ∨ _)); cbn; [auto|].
    split; [|reflexivity]. configured. }
  destruct (decide (vendor = "xunfei")) as [Hv|_].
  { cbv zeta. unfold IflyTek.NewIflyTekTranscriber.
    destruct (decide (Host.getenv h "XUNFEI_APP_ID" = "" ∨ _)); cbn; [auto|].
    split; [|reflexivity]. configured. }
  destruct (decide (vendor = "whisper")) as [Hv|_]; [contradiction|].
  destruct (decide (vendor = "recorder")) as [Hv|_]; [|cbn; auto].
  cbv zeta.
  destruct (Recorder.NewRecorderTranscriber e w _) as [w1 [r|err]]; cbn.
  - split; [exact Hv|]. intros Hne. contradiction.
  - split; [exact I|]. intros Hne. contradiction.
Qed.

End Selection.

Section SelectionRuns.

Lemma NewWhisperTranscriber_complete_witness :
  NewWhisperTranscriber Fixture.host_with_whisper Fixture.env0 Fixture.world0
    "" "" "" "" true false
  = (OS.log (OS.SysMkdirAll "./output") Fixture.world0,
     inl (Whisper.MkTranscriber "small" "/usr/bin/whisper" "./output" "auto" 0
            true false))
  ∧ Host.stat Fixture.host_with_whisper "/usr/bin/whisper" ≠ Host.StatNotExist
  ∧ OS.mkdir_err Fixture.env0 "./output" = None.
Proof.
  assert (Hnew : NewWhisperTranscriber Fixture.host_with_whisper Fixture.env0
                   Fixture.world0 "" "" "" "" true false
                 = (OS.log (OS.SysMkdirAll "./output") Fixture.world0,
                    inl (Whisper.MkTranscriber "small" "/usr/bin/whisper" "./output"
                           "auto" 0 true false)))
    by reflexivity.
  split; [exact Hnew|].
  pose proof (NewWhisperTranscriber_complete _ _ _ _ _ _ _ _ _ _ _ Hnew)
    as (_ & Hstat & _ & Hmk & _).
  split; [exact Hstat|exact Hmk].
Defined.

(** The default command line on a machine that holds Azure credentials
    and has no Whisper: the Recorder. *)
Example credentials_not_looked_at :
  (main_selectVendor Fixture.no_google Fixture.host_with_azure Fixture.env0
     Fixture.world0 flag_defaults).2
  = inl (SvcRecorder (Recorder.MkTranscriber "recordings" 0)).
Proof. reflexivity. Qed.

(** The same machine started with [--vendor=] : Azure. *)
Example credentials_looked_at :
  (main_selectVendor Fixture.no_google Fixture.host_with_azure Fixture.env0
     Fixture.world0 (MkFlags "" "small" "recordings" "auto" true true)).2
  = inl (SvcAzure (Azure.MkTranscriber "0123456789abcdef" "westeurope")).
Proof. reflexivity. Qed.

Lemma named_vendor_is_not_replaced_witness :
  "azure" ≠ "" ∧ "azure" ≠ "whisper"
  ∧ selectVendor Fixture.no_google Fixture.host_with_azure Fixture.env0
      Fixture.world0 "" "azure" "small" "recordings" "auto" true true
    = (Fixture.world0,
       inl (SvcAzure (Azure.MkTranscriber "0123456789abcdef" "westeurope")))
  ∧ azure_configured Fixture.host_with_azure.
Proof.
  assert (H1 : "azure" ≠ "") by discriminate.
  assert (H2 : "azure" ≠ "whisper") by discriminate.
  split; [exact H1|]. split; [exact H2|]. split; [reflexivity|].
  pose proof (named_vendor_is_not_replaced Fixture.no_google
                Fixture.host_with_azure Fixture.env0 Fixture.world0
                "" "azure" "small" "recordings" "auto" true true H1 H2) as [Hsvc _].
  exact (proj2 Hsvc).
Defined.

End SelectionRuns.

(** * Sessions and the guarded routes *)

Section Sessions.

#[local] Arguments Server.http_Error : simpl never.
#[local] Arguments Server.json : simpl never.

Lemma hex_EncodeToString_length (src : list byte) :
  String.length (Server.hex_EncodeToString src) = (2 * length src)%nat.
Proof. induction src as [|v rest IH]; cbn; [reflexivity|]. rewrite IH. lia. Qed.

Lemma generateSessionToken_length (random : list byte) :
  String.length (Server.generateSessionToken random) = 64%nat.
Proof.
  unfold Server.generateSessionToken. rewrite hex_EncodeToString_length.
  rewrite length_take, length_app, length_replicate. lia.
Qed.

Lemma generateSessionToken_nonempty (random : list byte) :
  Server.generateSessionToken random ≠ "".
Proof.
  intros Heq. pose proof (generateSessionToken_length random) as Hlen.
  rewrite Heq in Hlen. discriminate Hlen.
Qed.

(** What a successful login does. *)
Lemma loginHandler_ok (accounts : gmap string string) (s : Server.SessionStore)
    (random : list byte) (now : Z) (r : Server.Request) (f : string -> string) :
  Server.Method r = "POST" -> Server.form r = inl f ->
  accounts !! f "username" = Some (f "password") ->
  Server.loginHandler accounts s random now r
  = (<[Server.generateSessionToken random :=
         Server.MkSessionData (f "username") (now + Server.sessionDuration)]> s,
     Server.json Server.StatusOK (Server.logged_in (f "username"))
       [Server.MkCookie Server.sessionCookieName (Server.generateSessionToken random)
          "/" true 86400 Server.SameSiteStrictMode]).
Proof.
  intros Hm Hf Hacc. unfold Server.loginHandler.
  case_decide; [congruence|]. rewrite Hf, Hacc.
  case_decide; [congruence|]. reflexivity.
Qed.

(** What any other login does. *)
Lemma loginHandler_refused (accounts : gmap string string) (s : Server.SessionStore)
    (random : list byte) (now : Z) (r : Server.Request) :
  ¬ (Server.Method r = "POST"
     ∧ ∃ f, Server.form r = inl f ∧ accounts !! f "username" = Some (f "password")) ->
  ∃ resp, Server.loginHandler accounts s random now r = (s, resp)
          ∧ Server.set_cookies resp = []
          ∧ (Server.status resp = 405 ∨ Server.status resp = 400
             ∨ Server.status resp = 401).
Proof.
  intros Hno. unfold Server.loginHandler.
  destruct (decide (Server.Method r ≠ "POST")) as [Hm|Hm%dec_stable];
    [eexists; split; [reflexivity|]; cbn; auto|].
  destruct (Server.form r) as [f|err] eqn:Hf;
    [|eexists; split; [reflexivity|]; cbn; auto].
  destruct (accounts !! f "username") as [expected|] eqn:Hacc;
    [|eexists; split; [reflexivity|]; cbn; auto].
  destruct (decide (expected ≠ f "password")) as [Hpw|Hpw%dec_stable];
    [eexists; split; [reflexivity|]; cbn; auto|].
  exfalso. apply Hno. split; [exact Hm|].
  exists f. split; [reflexivity|]. congruence.
Qed.

(** X20.  A successful login opens a session of a day.  When a POST to
    [loginHandler] carries the name and the password of an account, the
    answer has status 200 and sets the cookie "session_token" to a fresh
    token of 64 characters, with a life of 86400 seconds; from then on
    [authMiddleware] lets every request with that cookie through, on any
    path, up to and including the instant 24 hours after the login, and
    answers 401 "Session expired" on the guarded paths after that
    instant. *)
Theorem login_opens_a_day_long_session (accounts : gmap string string)
    (s : Server.SessionStore) (random : list byte) (now : Z) (r : Server.Request)
    (f : string -> string) :
  Server.Method r = "POST" -> Server.form r = inl f ->
  accounts !! f "username" = Some (f "password") ->
  let token := Server.generateSessionToken random in
  let s' := (Server.loginHandler accounts s random now r).1 in
  let resp := (Server.loginHandler accounts s random now r).2 in
  Server.status resp = 200
  ∧ Server.set_cookies resp
    = [Server.MkCookie "session_token" token "/" true 86400 Server.SameSiteStrictMode]
  ∧ String.length token = 64%nat
  ∧ ∀ (A : Type) (next : Server.Request -> A) (r' : Server.Request) (t : Z),
      Server.cookie r' = Some token ->
      (t <= now + 24 * 3600 * 1000000000 ->
       Server.authMiddleware next s' t r' = inr (next r'))
      ∧ (t > now + 24 * 3600 * 1000000000 -> ¬ public_path r' ->
         Server.authMiddleware next s' t r'
         = inl (Server.http_Error "Session expired" 401)).
Proof.
  intros Hm Hf Hacc token s' resp. subst s' resp.
  rewrite (loginHandler_ok accounts s random now r f Hm Hf Hacc). cbn.
  fold token. split; [reflexivity|]. split; [reflexivity|].
  split; [apply generateSessionToken_length|].
  intros A next r' t Hc.
  pose proof (generateSessionToken_nonempty random) as Hne. fold token in Hne.
  unfold Server.authMiddleware, Server.validateSession. rewrite Hc.
  split.
  - intros Ht.
    destruct (decide (Server.Path r' = "/login" ∨ _)); [reflexivity|].
    destruct (decide (token = "")); [contradiction|].
    unfold Server.SessionStore. rewrite lookup_insert_eq. cbn.
    unfold Server.sessionDuration.
    destruct (decide (t > _)); [lia|]. reflexivity.
  - intros Ht Hpub. unfold public_path in Hpub.
    destruct (decide (Server.Path r' = "/login" ∨ _)); [contradiction|].
    destruct (decide (token = "")); [contradiction|].
    unfold Server.SessionStore. rewrite lookup_insert_eq. cbn.
    unfold Server.sessionDuration.
    destruct (decide (t > _)); [|lia]. reflexivity.
Qed.

Lemma login_accepted_or_not (accounts : gmap string string) (r : Server.Request) :
  (Server.Method r = "POST"
   ∧ ∃ f, Server.form r = inl f ∧ accounts !! f "username" = Some (f "password"))
  ∨ ¬ (Server.Method r = "POST"
       ∧ ∃ f, Server.form r = inl f ∧ accounts !! f "username" = Some (f "password")).
Proof.
  destruct (decide (Server.Method r = "POST")) as [Hm|Hm]; [|right; tauto].
  destruct (Server.form r) as [f|err] eqn:Hf.
  - destruct (decide (accounts !! f "username" = Some (f "password"))) as [Ha|Ha].
    + left. split; [exact Hm|]. exists f. auto.
    + right. intros (_ & f' & Hf' & Ha'). congruence.
  - right. intros (_ & f' & Hf' & _). discriminate Hf'.
Qed.

(** X21.  A login that is refused leaves no trace.  [loginHandler] answers
    200 exactly when the request is a POST whose form parses and carries
    the name of an account with exactly its password; in every other case
    the status is 405, 400 or 401, no cookie is set and the session store
    is what it was. *)
Theorem refused_login_changes_nothing (accounts : gmap string string)
    (s : Server.SessionStore) (random : list byte) (now : Z) (r : Server.Request) :
  let s' := (Server.loginHandler accounts s random now r).1 in
  let resp := (Server.loginHandler accounts s random now r).2 in
  (Server.status resp = 200
   <-> Server.Method r = "POST"
       ∧ ∃ f, Server.form r = inl f ∧ accounts !! f "username" = Some (f "password"))
  ∧ (Server.status resp ≠ 200 ->
     s' = s ∧ Server.set_cookies resp = []
     ∧ (Server.status resp = 405 ∨ Server.status resp = 400
        ∨ Server.status resp = 401)).
Proof.
  intros s' resp. subst s' resp.
  destruct (login_accepted_or_not accounts r) as [(Hm & f & Hf & Hacc)|Hno].
  - rewrite (loginHandler_ok accounts s random now r f Hm Hf Hacc). cbn.
    split; [|intros Hne; contradiction Hne; reflexivity].
    split; [intros _|reflexivity]. split; [exact Hm|]. exists f. auto.
  - destruct (loginHandler_refused accounts s random now r Hno)
      as (resp & -> & Hck & Hst). cbn.
    split; [|auto].
    split; [intros H200; destruct Hst as [Hst|[Hst|Hst]]; congruence|].
    intros Hyes. contradiction.
Qed.

(** X22.  A logout ends the session of its cookie and no other.  After
    [logoutHandler] has served a request whose cookie holds a token,
    [authMiddleware] answers 401 "Session expired" to every request with
    that token on a guarded path, at any time, while every other token is
    judged as before; a request without the cookie, or with an empty one,
    leaves the store as it is.  The answer is the same in all cases: status
    200 and a cookie that expires at once. *)
Theorem logout_ends_the_session (s : Server.SessionStore) (r : Server.Request) :
  let s' := (Server.logoutHandler s r).1 in
  let resp := (Server.logoutHandler s r).2 in
  Server.status resp = 200
  ∧ Server.set_cookies resp
    = [Server.MkCookie "session_token" "" "/" true (-1) Server.SameSiteUnset]
  ∧ match Server.cookie r with
    | Some token =>
        token ≠ "" ->
        (∀ (A : Type) (next : Server.Request -> A) (r' : Server.Request) (t : Z),
           Server.cookie r' = Some token -> ¬ public_path r' ->
           Server.authMiddleware next s' t r'
           = inl (Server.http_Error "Session expired" 401))
        ∧ (∀ (other : string) (t : Z), other ≠ token ->
             Server.validateSession s' t other = Server.validateSession s t other)
    | None => True
    end
  ∧ (Server.cookie r = None ∨ Server.cookie r = Some "" -> s' = s).
Proof.
  intros s' resp. subst s' resp. unfold Server.logoutHandler. cbn.
  split; [reflexivity|]. split; [reflexivity|]. split.
  - destruct (Server.cookie r) as [token|]; [|exact I].
    intros Hne. destruct (decide (token ≠ "")) as [_|?]; [|contradiction].
    unfold Server.deleteSession. split.
    + intros A next r' t Hc Hpub. unfold public_path in Hpub.
      unfold Server.authMiddleware, Server.validateSession. rewrite Hc.
      destruct (decide (Server.Path r' = "/login" ∨ _)); [contradiction|].
      destruct (decide (token = "")); [contradiction|].
      unfold Server.SessionStore. rewrite lookup_delete_eq. reflexivity.
    + intros other t Hother. unfold Server.validateSession.
      unfold Server.SessionStore. rewrite lookup_delete_ne by congruence.
      reflexivity.
  - intros [->| ->]; [reflexivity|].
    destruct (decide ("" ≠ "")); [congruence|reflexivity].
Qed.

(** The sessions of a running server. *)
Lemma sessions_of_accounts_step (accounts : gmap string string)
    (s s' : Server.SessionStore) :
  sessions_of_accounts accounts s -> request_step accounts s s' ->
  sessions_of_accounts accounts s'.
Proof.
  intros Hinv Hstep. destruct Hstep as [s random now r|s r].
  - destruct (login_accepted_or_not accounts r) as [(Hm & f & Hf & Hacc)|Hno].
    + rewrite (loginHandler_ok accounts s random now r f Hm Hf Hacc). cbn.
      intros token session. unfold Server.SessionStore.
      destruct (decide (token = Server.generateSessionToken random)) as [->|Hne].
      * rewrite lookup_insert_eq. intros [= <-]. cbn.
        split; [apply generateSessionToken_length|]. rewrite Hacc. eauto.
      * rewrite lookup_insert_ne by congruence. apply Hinv.
    + destruct (loginHandler_refused accounts s random now r Hno) as (resp & -> & _).
      exact Hinv.
  - unfold Server.logoutHandler. cbn.
    destruct (Server.cookie r) as [value|]; [|exact Hinv].
    destruct (decide (value ≠ "")); [|exact Hinv].
    intros token session. unfold Server.deleteSession, Server.SessionStore.
    intros Hl. apply lookup_delete_Some in Hl as [_ Hl]. exact (Hinv _ _ Hl).
Qed.

Lemma sessions_of_accounts_served (accounts : gmap string string)
    (s : Server.SessionStore) :
  served accounts s -> sessions_of_accounts accounts s.
Proof.
  unfold served. intros Hs. revert s Hs. apply rtc_ind_r.
  - intros token session Hl. unfold Server.SessionStore in Hl.
    rewrite lookup_empty in Hl. discriminate Hl.
  - intros s s' _ Hstep IH. exact (sessions_of_accounts_step accounts s s' IH Hstep).
Qed.

(** X23.  Only who has logged in gets past [authMiddleware].  In a server
    that started with an empty session store and has served any sequence of
    logins and logouts, a request that the middleware hands on to the
    guarded handler is for /login or /auth/status, or carries in its cookie
    a token of 64 characters that is in the store with the name of one of
    the accounts and an expiry that has not passed. *)
Theorem middleware_admits_only_sessions (accounts : gmap string string)
    (s : Server.SessionStore) (A : Type) (next : Server.Request -> A) (now : Z)
    (r : Server.Request) (served_by_next : A) :
  served accounts s ->
  Server.authMiddleware next s now r = inr served_by_next ->
  public_path r
  ∨ ∃ token session,
      Server.cookie r = Some token ∧ String.length token = 64%nat
      ∧ s !! token = Some session
      ∧ is_Some (accounts !! Server.Username session)
      ∧ now <= Server.ExpiresAt session.
Proof.
  intros Hserved Hpass. apply sessions_of_accounts_served in Hserved.
  unfold Server.authMiddleware in Hpass.
  destruct (decide (Server.Path r = "/login" ∨ _)) as [Hpub|_]; [left; exact Hpub|].
  right. destruct (Server.cookie r) as [token|]; [|discriminate Hpass].
  destruct (decide (token = "")); [discriminate Hpass|].
  unfold Server.validateSession in Hpass.
  destruct (s !! token) as [session|] eqn:Hl; [|discriminate Hpass].
  destruct (decide (now > Server.ExpiresAt session)); [discriminate Hpass|].
  destruct (Hserved token session Hl) as [Hlen Hacc].
  exists token, session. repeat split; auto; lia.
Qed.

Lemma authenticated_is_not_refusal (username : string) :
  Server.authenticated username ≠ Server.not_authenticated.
Proof.
  unfold Server.authenticated, Server.not_authenticated, Server.quoted.
  cbv [String.append]. intros Heq. discriminate Heq.
Qed.

(** X24.  The status route and the middleware agree.  For the same store,
    instant and cookie, [authStatusHandler] reports an authenticated user
    exactly when [authMiddleware] lets the request through on a guarded
    path, and the name it reports is the one of the session of the cookie;
    its status is 200 either way. *)
Theorem status_route_agrees_with_middleware (s : Server.SessionStore) (now : Z)
    (r : Server.Request) (A : Type) (next : Server.Request -> A) :
  ¬ public_path r ->
  Server.status (Server.authStatusHandler s now r) = 200
  ∧ ((∃ username,
        Server.body (Server.authStatusHandler s now r) = Server.authenticated username
        ∧ ∃ token session, Server.cookie r = Some token ∧ s !! token = Some session
                           ∧ Server.Username session = username)
     ↔ Server.authMiddleware next s now r = inr (next r))
  ∧ (Server.body (Server.authStatusHandler s now r) = Server.not_authenticated
     ↔ ∃ resp, Server.authMiddleware next s now r = inl resp).
Proof.
  intros Hpub. unfold public_path in Hpub.
  unfold Server.authStatusHandler, Server.authMiddleware, Server.validateSession.
  destruct (decide (Server.Path r = "/login" ∨ _)); [contradiction|].
  assert (Hno : ¬ (∃ username,
                     Server.not_authenticated = Server.authenticated username
                     ∧ ∃ token session, Server.cookie r = Some token
                                        ∧ s !! token = Some session
                                        ∧ Server.Username session = username)).
  { intros (u & Heq & _). symmetry in Heq.
    exact (authenticated_is_not_refusal u Heq). }
  destruct (Server.cookie r) as [token|] eqn:Hc.
  - destruct (decide (token = "")).
    + cbn. split; [reflexivity|]. split; [|split; eauto].
      split; [intros H; destruct (Hno H)|discriminate].
    + destruct (s !! token) as [session|] eqn:Hl.
      * destruct (decide (now > Server.ExpiresAt session)).
        -- cbn. split; [reflexivity|]. split; [|split; eauto].
           split; [intros H; destruct (Hno H)|discriminate].
        -- cbn. split; [reflexivity|]. split.
           ++ split; [reflexivity|]. intros _. exists (Server.Username session).
              split; [reflexivity|]. exists token, session. auto.
           ++ split; [intros Heq; destruct (authenticated_is_not_refusal _ Heq)|].
              intros [resp Hresp]. discriminate Hresp.
      * cbn. split; [reflexivity|]. split; [|split; eauto].
        split; [intros H; destruct (Hno H)|discriminate].
  - cbn. split; [reflexivity|]. split; [|split; eauto].
    split; [intros H; destruct (Hno H)|discriminate].
Qed.

End Sessions.

Section SessionRuns.

Example alice_token_value :
  Fixture.alice_token
  = "2a2a2a2a2a2a2a2a2a2a2a2a2a2a2a2a2a2a2a2a2a2a2a2a2a2a2a2a2a2a2a2a".
Proof. reflexivity. Qed.

Lemma login_opens_a_day_long_session_witness :
  Server.Method Fixture.alice_login = "POST"
  ∧ Server.form Fixture.alice_login = inl Fixture.alice_form
  ∧ Fixture.accounts0 !! Fixture.alice_form "username"
    = Some (Fixture.alice_form "password")
  ∧ Server.authMiddleware id Fixture.store_with_alice
      (Fixture.login_time + 24 * 3600 * 1000000000) Fixture.alice_request
    = inr Fixture.alice_request
  ∧ Server.authMiddleware id Fixture.store_with_alice
      (Fixture.login_time + 24 * 3600 * 1000000000 + 1) Fixture.alice_request
    = inl (Server.http_Error "Session expired" 401).
Proof.
  assert (Hm : Server.Method Fixture.alice_login = "POST") by reflexivity.
  assert (Hf : Server.form Fixture.alice_login = inl Fixture.alice_form)
    by reflexivity.
  assert (Hacc : Fixture.accounts0 !! Fixture.alice_form "username"
                 = Some (Fixture.alice_form "password")) by reflexivity.
  split; [exact Hm|]. split; [exact Hf|]. split; [exact Hacc|].
  pose proof (login_opens_a_day_long_session Fixture.accounts0 ∅ Fixture.random0
                Fixture.login_time Fixture.alice_login Fixture.alice_form
                Hm Hf Hacc) as (_ & _ & _ & Hmw).
  split.
  - apply (Hmw _ id Fixture.alice_request); [reflexivity|lia].
  - apply (Hmw _ id Fixture.alice_request); [reflexivity|lia|].
    unfold public_path. cbn. intros [?|?]; discriminate.
Defined.

Lemma store_with_alice_served : served Fixture.accounts0 Fixture.store_with_alice.
Proof.
  unfold served. apply rtc_once.
  exact (login_step Fixture.accounts0 ∅ Fixture.random0 Fixture.login_time
           Fixture.alice_login).
Qed.

Lemma middleware_admits_only_sessions_witness :
  served Fixture.accounts0 Fixture.store_with_alice
  ∧ Server.authMiddleware id Fixture.store_with_alice Fixture.login_time
      Fixture.alice_request
    = inr Fixture.alice_request
  ∧ (public_path Fixture.alice_request
     ∨ ∃ token session,
         Server.cookie Fixture.alice_request = Some token
         ∧ String.length token = 64%nat
         ∧ Fixture.store_with_alice !! token = Some session
         ∧ is_Some (Fixture.accounts0 !! Server.Username session)
         ∧ Fixture.login_time <= Server.ExpiresAt session).
Proof.
  assert (Hpass : Server.authMiddleware id Fixture.store_with_alice
                    Fixture.login_time Fixture.alice_request
                  = inr Fixture.alice_request) by reflexivity.
  split; [exact store_with_alice_served|]. split; [exact Hpass|].
  exact (middleware_admits_only_sessions Fixture.accounts0
           Fixture.store_with_alice _ id Fixture.login_time Fixture.alice_request
           Fixture.alice_request store_with_alice_served Hpass).
Defined.

(** After the logout of alice her cookie opens nothing. *)
Example alice_logged_out :
  Server.authMiddleware id
    (Server.logoutHandler Fixture.store_with_alice Fixture.alice_request).1
    Fixture.login_time Fixture.alice_request
  = inl (Server.http_Error "Session expired" 401).
Proof. reflexivity. Qed.

Lemma status_route_agrees_with_middleware_witness :
  ¬ public_path Fixture.alice_request
  ∧ Server.body (Server.authStatusHandler Fixture.store_with_alice
                   Fixture.login_time Fixture.alice_request)
    = Server.authenticated "alice"
  ∧ Server.authMiddleware id Fixture.store_with_alice Fixture.login_time
      Fixture.alice_request
    = inr Fixture.alice_request.
Proof.
  assert (Hpub : ¬ public_path Fixture.alice_request).
  { unfold public_path. cbn. intros [?|?]; discriminate. }
  split; [exact Hpub|]. split; [reflexivity|].
  pose proof (status_route_agrees_with_middleware Fixture.store_with_alice
                Fixture.login_time Fixture.alice_request _ id Hpub)
    as (_ & Hyes & _).
  apply Hyes. exists "alice". split; [reflexivity|].
  exists Fixture.alice_token,
    (Server.MkSessionData "alice" (Fixture.login_time + Server.sessionDuration)).
  repeat split.
Defined.

End SessionRuns.

(** * The route /delete/ *)

Section DeleteRoute.

#[local] Arguments Server.http_Error : simpl never.
#[local] Arguments Server.json : simpl never.
#[local] Arguments Routes.sanitize : simpl never.

Lemma has_char_app (c : Ascii.ascii) (s t : string) :
  has_char c (s ++ t) = has_char c s || has_char c t.
Proof.
  induction s as [|a s IH]; [reflexivity|].
  change (String a s ++ t) with (String a (s ++ t)). cbn.
  destruct (decide (a = c)); [reflexivity|exact IH].
Qed.

Lemma has_char_substring (c : Ascii.ascii) (s : string) (n m : nat) :
  has_char c s = false -> has_char c (String.substring n m s) = false.
Proof.
  revert n m. induction s as [|a s IH]; intros n m Hs.
  - destruct n, m; reflexivity.
  - cbn in Hs. destruct (decide (a = c)) as [|Hne]; [discriminate|].
    destruct n as [|n]; cbn.
    + destruct m as [|m]; [reflexivity|]. cbn.
      destruct (decide (a = c)); [contradiction|]. apply IH. exact Hs.
    + apply IH. exact Hs.
Qed.

(** Removing the occurrences of a string brings no new character. *)
Lemma ReplaceAll_from_keeps_out (c : Ascii.ascii) (fuel : nat) (s old : string) :
  has_char c s = false -> has_char c (Routes.ReplaceAll_from fuel s old "") = false.
Proof.
  revert s. induction fuel as [|fuel IH]; intros s Hs; [exact Hs|].
  cbn. destruct (String.prefix old s).
  - change ("" ++ ?x) with x. apply IH. apply has_char_substring. exact Hs.
  - destruct s as [|a s]; [reflexivity|].
    cbn in Hs |- *. destruct (decide (a = c)); [discriminate|].
    apply IH. exact Hs.
Qed.

Lemma substring_tail (a : Ascii.ascii) (s : string) :
  String.substring 1 (String.length (String a s) - 1) (String a s) = s.
Proof.
  cbn. rewrite Nat.sub_0_r. induction s as [|b s IH]; [reflexivity|].
  cbn. f_equal. exact IH.
Qed.

(** Removing the occurrences of a character leaves none. *)
Lemma ReplaceAll_from_removes (c : Ascii.ascii) (fuel : nat) (s : string) :
  (String.length s < fuel)%nat ->
  has_char c (Routes.ReplaceAll_from fuel s (String c "") "") = false.
Proof.
  revert s. induction fuel as [|fuel IH]; intros s Hlen; [lia|].
  destruct s as [|a s]; [reflexivity|].
  cbn [Routes.ReplaceAll_from String.prefix].
  destruct (Ascii.ascii_dec c a) as [->|Hne].
  - assert (Hp : String.prefix "" s = true) by (destruct s; reflexivity).
    rewrite Hp. change ("" ++ ?x) with x.
    change (String.length (String a "")) with 1%nat.
    rewrite substring_tail. apply IH. cbn in Hlen. lia.
  - cbn. destruct (decide (a = c)); [congruence|].
    apply IH. cbn in Hlen. lia.
Qed.

Lemma sanitize_no_separator (filename : string) :
  has_char slash_char (Routes.sanitize filename) = false
  ∧ has_char backslash_char (Routes.sanitize filename) = false.
Proof.
  unfold Routes.sanitize, Routes.strings_ReplaceAll. cbv zeta. split.
  - apply ReplaceAll_from_keeps_out.
    apply (ReplaceAll_from_removes slash_char). lia.
  - apply (ReplaceAll_from_removes backslash_char). lia.
Qed.

(** X25.  The route /delete/ touches one path, and removes only for a
    logged-in caller.  Whatever the file system answers, the calls of the
    handler are none, or [os.Stat] of one path, or [os.Stat] and then
    [os.Remove] of that path: the output directory, a slash, and what the
    three replacements leave of the rest of the URL path, a name without
    slash and backslash.  [os.Remove] is called only for a DELETE with the
    cookie of a session that is in the store and has not expired, with a
    rest of the path that is not empty, and when [os.Stat] did not answer
    that nothing is there.  The answer is 200 exactly when [os.Remove] was
    called and returned no error.  The name may come out empty or be "..":
    the path is then the output directory or its parent. *)
Theorem delete_route_touches_one_path (fs : Routes.filesystem)
    (s : Server.SessionStore) (now : Z) (output : string) (r : Server.Request) :
  let calls := (Routes.deleteHandler fs s now output r).1 in
  let resp := (Routes.deleteHandler fs s now output r).2 in
  let rest := Routes.strings_TrimPrefix (Server.Path r) "/delete/" in
  let name := Routes.sanitize rest in
  let path := output ++ "/" ++ name in
  has_char slash_char name = false
  ∧ has_char backslash_char name = false
  ∧ (calls = [] ∨ calls = [OS.SysStat path]
     ∨ calls = [OS.SysStat path; OS.SysRemove path])
  ∧ (OS.SysRemove path ∈ calls ->
     Server.Method r = "DELETE"
     ∧ (∃ token session,
          Server.cookie r = Some token ∧ token ≠ ""
          ∧ s !! token = Some session ∧ now <= Server.ExpiresAt session)
     ∧ rest ≠ ""
     ∧ Routes.fs_stat fs path ≠ Host.StatNotExist)
  ∧ (Server.status resp = 200
     <-> OS.SysRemove path ∈ calls ∧ Routes.fs_remove fs path = None).
Proof.
  intros calls resp rest name path.
  destruct (sanitize_no_separator rest) as [Hslash Hback].
  split; [exact Hslash|]. split; [exact Hback|].
  assert (Hquiet : ∀ (P : Prop), OS.SysRemove path ∈ ([] : list OS.call) -> P).
  { intros P Hin. apply elem_of_nil in Hin. contradiction. }
  assert (Hstat : ∀ (P : Prop), OS.SysRemove path ∈ [OS.SysStat path] -> P).
  { intros P Hin. apply elem_of_cons in Hin as [Hin|Hin]; [discriminate Hin|].
    apply elem_of_nil in Hin. contradiction. }
  assert (Hrem : OS.SysRemove path ∈ [OS.SysStat path; OS.SysRemove path]).
  { apply elem_of_cons. right. apply elem_of_cons. left. reflexivity. }
  subst calls resp. unfold Routes.deleteHandler.
  destruct (Server.cookie r) as [token|];
    [|cbn; split; [auto|]; split; [apply Hquiet|];
      split; [discriminate|intros [Hin _]; revert Hin; apply Hquiet]].
  destruct (decide (token = "")) as [|Htoken];
    [cbn; split; [auto|]; split; [apply Hquiet|];
     split; [discriminate|intros [Hin _]; revert Hin; apply Hquiet]|].
  unfold Server.validateSession.
  destruct (s !! token) as [session|] eqn:Hl;
    [|cbn; split; [auto|]; split; [apply Hquiet|];
      split; [discriminate|intros [Hin _]; revert Hin; apply Hquiet]].
  destruct (decide (now > Server.ExpiresAt session));
    [cbn; split; [auto|]; split; [apply Hquiet|];
     split; [discriminate|intros [Hin _]; revert Hin; apply Hquiet]|].
  cbn [negb].
  destruct (decide (Server.Method r ≠ "DELETE")) as [|Hm%dec_stable];
    [cbn; split; [auto|]; split; [apply Hquiet|];
     split; [discriminate|intros [Hin _]; revert Hin; apply Hquiet]|].
  cbv zeta. fold rest.
  destruct (decide (rest = "")) as [|Hrest];
    [cbn; split; [auto|]; split; [apply Hquiet|];
     split; [discriminate|intros [Hin _]; revert Hin; apply Hquiet]|].
  fold name. fold path.
  assert (Hwho : ∃ token0 session,
            Some token = Some token0 ∧ token0 ≠ ""
            ∧ s !! token0 = Some session ∧ now <= Server.ExpiresAt session).
  { exists token, session. split; [reflexivity|]. split; [exact Htoken|].
    split; [exact Hl|lia]. }
  destruct (Routes.fs_stat fs path) as [| |serr] eqn:Hst.
  - destruct (Routes.fs_remove fs path) as [rerr|] eqn:Hr; cbn.
    + split; [auto|]. split; [intros _; repeat split; auto; discriminate|].
      split; [discriminate|intros [_ Hno]; discriminate Hno].
    + split; [auto|]. split; [intros _; repeat split; auto; discriminate|].
      split; [intros _; split; [exact Hrem|reflexivity]|reflexivity].
  - cbn. split; [auto|]. split; [apply Hstat|].
    split; [discriminate|intros [Hin _]; revert Hin; apply Hstat].
  - destruct (Routes.fs_remove fs path) as [rerr|] eqn:Hr; cbn.
    + split; [auto|]. split; [intros _; repeat split; auto; discriminate|].
      split; [discriminate|intros [_ Hno]; discriminate Hno].
    + split; [auto|]. split; [intros _; repeat split; auto; discriminate|].
      split; [intros _; split; [exact Hrem|reflexivity]|reflexivity].
Qed.

(** The replacements do not remove every "..": the dots on both sides of
    a backslash come together when the backslash goes. *)
Example sanitize_leaves_dot_dot :
  Routes.sanitize ("." ++ Routes.backslash ++ ".") = "..".
Proof. reflexivity. Qed.

(** The name can come out empty, after the check for an empty name. *)
Example sanitize_leaves_nothing : Routes.sanitize "...." = "".
Proof. reflexivity. Qed.

(** Alice deletes a recording. *)
Example alice_deletes_a_recording :
  Routes.deleteHandler Fixture.recordings_fs Fixture.store_with_alice
    Fixture.login_time "./recordings" Fixture.alice_delete
  = ([OS.SysStat "./recordings/recording_20250827_161500_001.wav";
      OS.SysRemove "./recordings/recording_20250827_161500_001.wav"],
     Server.json 200 Server.success []).
Proof. vm_compute. reflexivity. Qed.

(** With the name "....", which the replacements empty, the path is the
    output directory: [os.Stat] finds it, and [os.Remove] is called on it.
    While it holds a recording the answer is 500; once it is empty the
    directory itself is removed and the answer is 200. *)
Example alice_deletes_the_directory :
  Routes.deleteHandler Fixture.recordings_fs Fixture.store_with_alice
    Fixture.login_time "./recordings" Fixture.alice_delete_dots
  = ([OS.SysStat "./recordings/"; OS.SysRemove "./recordings/"],
     Server.json 500 Routes.failed_to_delete [])
  ∧ Routes.deleteHandler Fixture.empty_recordings_fs Fixture.store_with_alice
      Fixture.login_time "./recordings" Fixture.alice_delete_dots
    = ([OS.SysStat "./recordings/"; OS.SysRemove "./recordings/"],
       Server.json 200 Server.success []).
Proof. split; vm_compute; reflexivity. Qed.

End DeleteRoute.

(** * The sessions of the socket streams on the wire *)

Section Wire.

Lemma WriteMessage_connected {M : Type} (c : WS.Conn M) (m : M) :
  connected c ->
  ∃ c', WS.WriteMessage c m = (c', None) ∧ connected c'
        ∧ WS.wire c' = (WS.wire c ++ [m])%list.
Proof.
  intros [Hcl Herr]. unfold WS.WriteMessage. rewrite Hcl, Herr.
  eexists. split; [reflexivity|]. split; [split; reflexivity|reflexivity].
Qed.

Lemma IflyTek_feed (chunks : list (list byte)) (st : IflyTek.IflyTekStream) :
  connected (IflyTek.conn st) ->
  ∃ st', feed st chunks = Some st'
         ∧ connected (IflyTek.conn st')
         ∧ IflyTek.transcriber st' = IflyTek.transcriber st
         ∧ IflyTek.results st' = IflyTek.results st
         ∧ WS.wire (IflyTek.conn st')
           = (WS.wire (IflyTek.conn st)
              ++ (xunfei_frame (IflyTek.transcriber st) 1 <$> chunks))%list.
Proof.
  revert st. induction chunks as [|chunk chunks IH]; intros st Hc.
  - exists st. cbn. rewrite app_nil_r. auto.
  - cbn. unfold IflyTek.Write.
    destruct (WriteMessage_connected (IflyTek.conn st)
                (xunfei_frame (IflyTek.transcriber st) 1 chunk) Hc)
      as (c' & Hw & Hc' & Hwire).
    unfold xunfei_frame in Hw. rewrite Hw. cbn.
    destruct (IH (IflyTek.MkStream c' (IflyTek.results st) (IflyTek.transcriber st)) Hc')
      as (st' & Hfeed & Hconn & Htr & Hres & Hwire').
    exists st'. cbn in *. rewrite Hfeed, Hwire', Hwire, <- app_assoc.
    auto.
Qed.

(** X26.  A Xunfei session on the wire.  On a connection that is open and
    works, [CreateStream] followed by any number of writes and by [Close]
    puts on the wire one frame of status 0 without audio, then one frame of
    status 1 for each write, with the bytes of that write and in the order
    of the writes, then one frame of status 2 without audio, and nothing
    else; every frame repeats the application id and the business
    parameters; every write is accepted, [Close] returns nil and leaves the
    connection closed. *)
Theorem xunfei_session_on_the_wire (t : IflyTek.IflyTekTranscriber)
    (c : WS.Conn IflyTek.XunfeiRequest) (chunks : list (list byte)) :
  connected c ->
  ∃ st st' st'',
    IflyTek.CreateStream t (inl c) = inl st
    ∧ feed st chunks = Some st'
    ∧ Close st' = Ret (st'', None)
    ∧ WS.wire (IflyTek.conn st'')
      = (WS.wire c ++ [xunfei_frame t 0 []]
         ++ (xunfei_frame t 1 <$> chunks) ++ [xunfei_frame t 2 []])%list
    ∧ WS.closed (IflyTek.conn st'') = true.
Proof.
  intros Hc.
  destruct (WriteMessage_connected c (xunfei_frame t 0 []) Hc) as (c1 & Hw & Hc1 & Hwire1).
  set (st := IflyTek.MkStream c1 (make_chan 0) t).
  destruct (IflyTek_feed chunks st Hc1) as (st' & Hfeed & Hc' & Htr & Hres & Hwire').
  destruct (WriteMessage_connected (IflyTek.conn st') (xunfei_frame t 2 []) Hc')
    as (c2 & Hw2 & Hc2 & Hwire2).
  exists st, st'. eexists. split; [|split; [exact Hfeed|]].
  - unfold IflyTek.CreateStream. unfold xunfei_frame in Hw. rewrite Hw. reflexivity.
  - cbn. unfold IflyTek.Close. rewrite Htr. cbn.
    unfold xunfei_frame in Hw2. rewrite Hw2. cbn.
    rewrite Hres. cbn. split; [reflexivity|]. cbn.
    rewrite Hwire2, Hwire'. cbn. rewrite Hwire1, <- !app_assoc. auto.
Qed.

Lemma Azure_feed (chunks : list (list byte)) (s : Azure.AzureStream) :
  connected (Azure.conn s) ->
  ∃ s', feed s chunks = Some s'
        ∧ connected (Azure.conn s')
        ∧ Azure.results s' = Azure.results s
        ∧ WS.wire (Azure.conn s')
          = (WS.wire (Azure.conn s) ++ (azure_audio <$> chunks))%list.
Proof.
  revert s. induction chunks as [|chunk chunks IH]; intros s Hc.
  - exists s. cbn. rewrite app_nil_r. auto.
  - cbn. unfold Azure.Write.
    destruct (WriteMessage_connected (Azure.conn s) (azure_audio chunk) Hc)
      as (c' & Hw & Hc' & Hwire).
    unfold azure_audio in Hw. rewrite Hw. cbn.
    destruct (IH (Azure.MkStream c' (Azure.results s)) Hc')
      as (s' & Hfeed & Hconn & Hres & Hwire').
    exists s'. cbn in *. rewrite Hfeed, Hwire', Hwire, <- app_assoc.
    auto.
Qed.

Lemma Baidu_feed (chunks : list (list byte)) (s : Baidu.BaiduStream) :
  connected (Baidu.conn s) ->
  ∃ s', feed s chunks = Some s'
        ∧ connected (Baidu.conn s')
        ∧ Baidu.results s' = Baidu.results s
        ∧ WS.wire (Baidu.conn s')
          = (WS.wire (Baidu.conn s) ++ (baidu_audio <$> chunks))%list.
Proof.
  revert s. induction chunks as [|chunk chunks IH]; intros s Hc.
  - exists s. cbn. rewrite app_nil_r. auto.
  - cbn. unfold Baidu.Write.
    destruct (WriteMessage_connected (Baidu.conn s) (baidu_audio chunk) Hc)
      as (c' & Hw & Hc' & Hwire).
    unfold baidu_audio in Hw. rewrite Hw. cbn.
    destruct (IH (Baidu.MkStream c' (Baidu.results s)) Hc')
      as (s' & Hfeed & Hconn & Hres & Hwire').
    exists s'. cbn in *. rewrite Hfeed, Hwire', Hwire, <- app_assoc.
    auto.
Qed.

(** X27.  An Azure and a Baidu session on the wire.  On a connection that
    is open and works, an Azure stream sends its "speech.config" message
    when it is created, a Baidu stream sends nothing; then each write sends
    one request made from the bytes of that write (their base64 text for
    Azure, their MD5 digest in hexadecimal for Baidu), in the order of the
    writes, and [Close] sends "audio.end", returns nil and leaves the
    connection closed.  Nothing else is sent, and every write is
    accepted. *)
Theorem azure_baidu_sessions_on_the_wire (a : Azure.AzureTranscriber)
    (b : Baidu.BaiduTranscriber) (token : string)
    (ca : WS.Conn Azure.message) (cb : WS.Conn Baidu.message)
    (chunks : list (list byte)) :
  connected ca -> connected cb ->
  (∃ s s' s'',
     Azure.CreateStream a (inl ca) = inl s
     ∧ feed s chunks = Some s'
     ∧ Close s' = Ret (s'', None)
     ∧ WS.wire (Azure.conn s'')
       = (WS.wire ca
          ++ [Azure.SpeechConfig (Azure.MkConfig "webrtc-transcriber" "1.0.0")]
          ++ (azure_audio <$> chunks) ++ [Azure.AudioEnd])%list
     ∧ WS.closed (Azure.conn s'') = true)
  ∧ (∃ s s' s'',
       Baidu.CreateStream b (inl token) (inl cb) = inl s
       ∧ feed s chunks = Some s'
       ∧ Close s' = Ret (s'', None)
       ∧ WS.wire (Baidu.conn s'')
         = (WS.wire cb ++ (baidu_audio <$> chunks) ++ [Baidu.AudioEnd])%list
       ∧ WS.closed (Baidu.conn s'') = true).
Proof.
  intros Hca Hcb. split.
  - destruct (WriteMessage_connected ca
                (Azure.SpeechConfig (Azure.MkConfig "webrtc-transcriber" "1.0.0")) Hca)
      as (c1 & Hw & Hc1 & Hwire1).
    set (s := Azure.MkStream c1 (make_chan 10)).
    destruct (Azure_feed chunks s Hc1) as (s' & Hfeed & Hc' & Hres & Hwire').
    destruct (WriteMessage_connected (Azure.conn s') Azure.AudioEnd Hc')
      as (c2 & Hw2 & Hc2 & Hwire2).
    exists s, s'. eexists. split; [|split; [exact Hfeed|]].
    + unfold Azure.CreateStream. rewrite Hw. reflexivity.
    + cbn. unfold Azure.Close. rewrite Hw2. cbn.
      rewrite Hres. cbn. split; [reflexivity|]. cbn.
      rewrite Hwire2, Hwire'. cbn. rewrite Hwire1, <- !app_assoc. auto.
  - set (s := Baidu.MkStream cb (make_chan 10)).
    destruct (Baidu_feed chunks s Hcb) as (s' & Hfeed & Hc' & Hres & Hwire').
    destruct (WriteMessage_connected (Baidu.conn s') Baidu.AudioEnd Hc')
      as (c2 & Hw2 & Hc2 & Hwire2).
    exists s, s'. eexists. split; [reflexivity|split; [exact Hfeed|]].
    cbn. unfold Baidu.Close. rewrite Hw2. cbn.
    rewrite Hres. cbn. split; [reflexivity|]. cbn.
    rewrite Hwire2, Hwire'. cbn. rewrite <- !app_assoc. auto.
Qed.

End Wire.

Section WireRuns.

Lemma xunfei_session_on_the_wire_witness :
  connected Fixture.healthy_conn
  ∧ ∃ st st' st'',
      IflyTek.CreateStream Fixture.xunfei0 (inl Fixture.healthy_conn) = inl st
      ∧ feed st Fixture.two_chunks = Some st'
      ∧ Close st' = Ret (st'', None)
      ∧ WS.wire (IflyTek.conn st'')
        = (WS.wire Fixture.healthy_conn ++ [xunfei_frame Fixture.xunfei0 0 []]
           ++ (xunfei_frame Fixture.xunfei0 1 <$> Fixture.two_chunks)
           ++ [xunfei_frame Fixture.xunfei0 2 []])%list
      ∧ WS.closed (IflyTek.conn st'') = true.
Proof.
  assert (Hc : connected Fixture.healthy_conn) by (split; reflexivity).
  split; [exact Hc|].
  exact (xunfei_session_on_the_wire Fixture.xunfei0 Fixture.healthy_conn
           Fixture.two_chunks Hc).
Defined.

Lemma azure_baidu_sessions_on_the_wire_witness :
  connected (WS.MkConn false None [] [] : WS.Conn Azure.message)
  ∧ connected (WS.MkConn false None [] [] : WS.Conn Baidu.message)
  ∧ (∃ s s' s'',
       Azure.CreateStream (Azure.MkTranscriber "key" "westeurope")
         (inl (WS.MkConn false None [] [])) = inl s
       ∧ feed s Fixture.two_chunks = Some s'
       ∧ Close s' = Ret (s'', None)
       ∧ WS.wire (Azure.conn s'')
         = ([] ++ [Azure.SpeechConfig (Azure.MkConfig "webrtc-transcriber" "1.0.0")]
            ++ (azure_audio <$> Fixture.two_chunks) ++ [Azure.AudioEnd])%list
       ∧ WS.closed (Azure.conn s'') = true)
  ∧ (∃ s s' s'',
       Baidu.CreateStream (Baidu.MkTranscriber "app" "key" "secret") (inl "token")
         (inl (WS.MkConn false None [] [])) = inl s
       ∧ feed s Fixture.two_chunks = Some s'
       ∧ Close s' = Ret (s'', None)
       ∧ WS.wire (Baidu.conn s'')
         = ([] ++ (baidu_audio <$> Fixture.two_chunks) ++ [Baidu.AudioEnd])%list
       ∧ WS.closed (Baidu.conn s'') = true).
Proof.
  assert (Ha : connected (WS.MkConn false None [] [] : WS.Conn Azure.message))
    by (split; reflexivity).
  assert (Hb : connected (WS.MkConn false None [] [] : WS.Conn Baidu.message))
    by (split; reflexivity).
  split; [exact Ha|]. split; [exact Hb|].
  exact (azure_baidu_sessions_on_the_wire (Azure.MkTranscriber "key" "westeurope")
           (Baidu.MkTranscriber "app" "key" "secret") "token"
           (WS.MkConn false None [] []) (WS.MkConn false None [] [])
           Fixture.two_chunks Ha Hb).
Defined.

End WireRuns.

(** ** A recognition that fails *)

Section RecognitionFailure.







End RecognitionFailure.
